(* ===== verification/_CoqProject ===== *)
-Q . S2P
Prelude.v
GoString.v
Proto.v
Json.v
JsonProof.v
JsonCut.v
ProtoJson.v
ProtoJsonProof.v
Store.v
Buffer.v
Pool.v
View.v
CacheState.v
WCache.v
WCacheProof.v
WCacheSteps.v
WCacheTheorems.v
RCache.v
RWCache.v
RWCacheProof.v
RCacheProof.v
CloseProof.v
RWCacheSteps.v
RWCacheTheorems.v
PrefetchRead.v
LruOrder.v
Locks.v
Lru.v
FileTable.v
Config.v
ConfFile.v
Expiry.v
Fields.v
Logging.v
Http.v
ProxyClient.v
Mount.v
MountProof.v
MountClose.v
Dir.v
Fuse.v
FuseDir.v
Setup.v
Main.v
Stack.v
