(* ===== verification/Prelude.v ===== *)
(** * The CubeFS client for Android: a verification library

    The program mounts a directory of a CubeFS proxy into a local file system.
    The kernel's FUSE requests arrive at client/cfafuse, which translates names
    to paths and calls the mount object of lib/libfs.  The mount checks the
    access, keeps the table of open files, a cache of directory entries and,
    when configured, a write cache and a read cache of fixed-size blocks, and
    talks to the proxy through a retrying HTTP client that posts JSON.  Several
    goroutines work on the caches at the same time: flushes, asynchronous
    writes ("sync routines"), prefetch routines, the expiry of old buffers, and
    one fetcher per directory listing.

    ** Files, from the wire upwards (sources under src/)

    - [Prelude]: machine integers with their wrap-around ([u8] .. [u64], [i64]),
      the outcome of a piece of Go ([Ret], [Panic], [Block] for waiting), the
      state monad over it with its weakest preconditions ([wp]) and the tactics
      and hint databases on them, slices and copies that panic out of range.
      [GoString]: what the code calls of strings, bytes and strconv.
    - [Proto] (lib/proto, [toErr] of mount.go): error codes, the [error]
      interface and its [Unwrap] chain, request and response types.
    - [Json] and [ProtoJson]: encoding/json as the code uses it, the printer and
      the scanner on bytes, and the structs of lib/proto encoded and decoded by
      their tags.  [JsonProof], [JsonCut] and [ProtoJsonProof] hold the round
      trip, what a cut text decodes to, and what two equal bodies say.
    - [Config] (lib/config, lib/libfs/conf, client/conf, [getUserInfo] and
      [PullThirdPartyUser] of mount.go, thirdparty-account-example).
      [ConfFile]: the JSON of the client's configuration file.
    - [Http] (lib/libfs/http): host selector, request loop, redirects.
      [ProxyClient] (lib/libfs/api): the retry loop, one definition per call.
    - [Store] (read.go, write.go): [Reader.Read] and [Writer.Write] over the
      class [ProxyIO]; the class [ProxyStore] is the contract the caches rely
      on, [afile] the abstract file they are specified against.
    - [Buffer] (cache.go), [Pool] (what rcache.go and wcache.go share), [View]
      (the logical file: the proxy's bytes under the attached buffers),
      [CacheState] (both pools, both channels with whether they are closed, the
      proxy and the clock).
    - [WCache], [RCache], [RWCache]: the operations of wcache.go, rcache.go and
      rwcache.go.  [WCacheProof], [RWCacheProof], [RCacheProof], [CloseProof]
      hold their invariants and specifications; [WCacheSteps] and
      [RWCacheSteps] the transition systems of the write cache and of both
      caches; [WCacheTheorems], [RWCacheTheorems] and [PrefetchRead] what they
      guarantee.  [LruOrder] shows that their LRU lists stay ordered by time,
      [Expiry] is the timed loop [CheckExpire] of both caches.
    - [Locks] (the block locks of cache.go), [Lru] (lib/cache/lru.go and
      dentrycache.go), [FileTable] (filecache.go).
    - [Mount] (mount.go, file.go, stat.go, attr.go, acl.go, link.go, rm.go,
      rename.go, dir.go): one definition per operation of the mount object.
      [MountProof] and [MountClose] hold what they guarantee.  [Dir] is the
      listing protocol of dir.go.
    - [Fuse] and [FuseDir] (client/cfafuse, client/lib/code.go, one turn of the
      signal handler of client/main.go).  [Fields] (the field constructors of
      lib/log, and what zap adds to an entry for a field) and [Logging] (lib/log,
      client/log, lib/libfs/util): loggers that share a level, request ids, the
      address.
    - [Setup] ([NewMount], [setProxyCli], [NewRWCache]); [Main] (client/main.go,
      client/lib/fuselib.go, [StatTo] of mount.go, lib/libfs/stat): the process
      from its configuration to its last signal; [Stack]: FUSE requests on a
      mount over the HTTP client.

    ** How the code is modelled

    A Go function that mutates an object is a function in the state monad [M]
    of that object; [zoom] runs it inside a larger object.  A [*Buffer] that is
    shared between the free list, the LRU list, a file's table and a channel is
    a number, its contents are in the pool ([bufs]), so that the aliasing is the
    code's.  [Assert], an index out of range and a nil dereference are [Panic];
    waiting for a lock or on a channel is [Block]; sending on a closed channel,
    and closing one twice, is [Panic].  The invariants of the two caches ([winv],
    [rinv]) say by a flag whether the channels have been closed; what a write
    guarantees needs them open.  An operation on one block
    (it runs under the block's lock) is one atomic step of the transition
    systems; [SyncWrite] is split in two where it gives its buffer back before
    it unlocks.  In the listing protocol every section under the mutex is a
    step.  A routine that sleeps in a loop is run on a list of turns, each with
    what the other routines do before the next.  Log entries, statistics and
    elapsed-time measurements have no effect in the model.

    Interfaces between the components are classes: [ProxyIO]/[ProxyStore] is
    what the caches ask of the proxy (a read returns the bytes of its range, a
    write that succeeds is there, one that fails may be torn inside its range,
    other files are untouched); [ProxyApi] is what the mount asks of the proxy
    client; [HttpEnv] stands for net/http and net/url; [WireStore] is what one
    HTTP exchange may do to the server's files, given the JSON it was sent.
    [http_store] proves [ProxyStore] from [WireStore] for the real client, and
    [Stack] runs the mount on it.

    ** What the theorems show

    - The write cache refines a map of files: [wcache_linear], and for whole
      requests [wcache_write], [wcache_flush_durable]; its loops end
      ([wcache_expire_terminates], [wcache_sync_drains]) and nothing panics
      ([wcache_no_panic]).  The expiry routines of both caches clean what has
      expired and end when told to ([check_expire_cleans],
      [rcache_expire_terminates]): no buffer left has expired although they look
      at one end of their list only, because the lists stay ordered by time
      ([lru_ordered]).
    - Reading through both caches returns the logical file, with prefetching
      off ([rwcache_read]) and on ([rwcache_read_prefetching]);
      requests are cut correctly ([slice_tiles]); prefetching and cleaning keep
      the read cache equal to the proxy ([rcache_prefetch], [rcache_clean]); for
      every interleaving of readers, writers and routines the invariant holds
      and every wait ends ([rwcache_invariant], [rwcache_progress]).
    - Block locks exclude ([lock_exclusion], [lock_no_panic]); the LRU map
      refines a bounded recency list ([lru_refinement]).
    - The mount: access check, invalidation of cached entries, handles, sizes,
      contents ([mount_guard] .. [mount_write_read]); closing and truncating
      lose nothing silently ([mount_close], [mount_truncate]); shutting down
      returns, and every file whose table is gone then is on the proxy
      ([mount_shutdown]).
    - Listings are complete and in order, through FUSE as well ([dir_order],
      [dir_wakeup], [dir_close_stops], [opendir_complete]).
    - What the proxy answers is what the client decodes, an answer that is cut
      short is an error that is retried, and equal request bodies are equal
      requests ([response_roundtrip], [cut_answer_retried], [marshal_faithful]).
    - The HTTP client ends after a bounded number of exchanges and reports
      success only for a good answer ([http_post], [proxy_call],
      [proxy_write]); on the whole stack, from FUSE requests to the wire, with
      synchronous or asynchronous write-back, what was written and released is
      on the server unless the handle is still there ([stack_durable]).
    - A configuration file loads to the configuration it spells, comments and
      all ([config_file_loads], [trim_comments], [load_fuse_cfg]); the shipped
      one does ([client_conf_loads]).
    - The process: a terminating signal shuts the mount down
      ([main_exits]); request ids are unique ([reqid_unique]); a
      level set on a logger holds for all loggers derived from it
      ([log_level_shared]); a field made by [Any] adds to an entry the value it
      was given ([any_logged]).
    - Lemmas with concrete runs show where the code departs from what it means
      to do: [syncwrite_unlock_race], [read_after_flush_is_stale],
      [prefetched_read_passes_eof], [read_hole_is_short], [empty_write_panics],
      [flush_error_lost], [allocate_truncates], [open_leaks_handle],
      [statfs_underflow], [zero_page_size_panics], [root_listing_key],
      [redirect_same_url], [update_hosts_unsplit], [negative_retry_succeeds],
      [invalid_paths_collide], [empty_answer_succeeds], [bad_code_keeps_data],
      [locks_do_not_exclude], [write_after_close_panics],
      [write_after_shutdown_panics], [release_leaks_handle].

    ** Bounds and fuel

    [Slice] runs with one unit of fuel per block of the request and
    [Slice_tiling] proves that it is enough; [Clean] and the prefetch loop run
    with the width of their window; an expiry round with one unit more than the
    LRU list is long ([wcache_expire_terminates], [rcache_expire_terminates]);
    the JSON scanner with twice the length of its text and two
    ([parse_total] shows that it never runs out); one POST with
    [post_fuel] = 10, the redirect limit of the code ([http_post]); the retry
    loop with [RetryTimes] + 1 attempts.  Integers keep their width: the
    theorems on whole requests assume sizes for which the code's [uint32] and
    [uint64] arithmetic does not wrap ([req_ok]), which [mount_req_ok] proves for
    every request of at most 512 MB the mount accepts; [rwcache_read_prefetching]
    also assumes windows below block 2^31, where the code's [uint32] sizes of a
    prefetch window do not wrap.

    ** Not modelled

    - Interleavings inside one block operation, other than the one [SyncWrite]
      allows: the block locks exclude them ([lock_exclusion]).  A close of a
      file is one step, taken when no block of the file is locked.
    - In [CloseAll] the routines empty the closed channel before the files are
      closed; in the code the two overlap, and closing a file waits for the
      blocks a routine still holds.  Requests that run after it are those of
      the same definitions on a state whose channels are closed.
    - Writing and rotating the log files (lumberjack), and the encoders of zap
      beyond the list of items an entry gets.
    - net/http, net/url and go-fuse are parameters.  Of encoding/json, the
      difference between a nil and an empty slice, the text of type errors and
      the nesting limit of newer versions; a body whose transfer breaks is its
      prefix. *)

From stdpp Require Import base gmap strings list fin_maps.
From Stdlib Require Import ZArith Lia.

Declare Scope cfa_scope.
Delimit Scope cfa_scope with cfa.
Open Scope Z_scope.

(** * Machine integers

    Go's fixed-width unsigned integers are kept in [Z] with the wrap-around
    written out at every place where the source computes at that width. *)

Definition u8 (z : Z) : Z := z mod 2 ^ 8.
Definition u16 (z : Z) : Z := z mod 2 ^ 16.
Definition u32 (z : Z) : Z := z mod 2 ^ 32.
Definition u64 (z : Z) : Z := z mod 2 ^ 64.

(** [int64]/[int] (64-bit targets): two's complement. *)
Definition i64 (z : Z) : Z := (z + 2 ^ 63) mod 2 ^ 64 - 2 ^ 63.

Lemma u32_small z : 0 ≤ z < 2 ^ 32 → u32 z = z.
Proof. apply Z.mod_small. Qed.

Lemma u64_small z : 0 ≤ z < 2 ^ 64 → u64 z = z.
Proof. apply Z.mod_small. Qed.

Lemma u16_small z : 0 ≤ z < 2 ^ 16 → u16 z = z.
Proof. apply Z.mod_small. Qed.

Lemma u32_bound z : 0 ≤ u32 z < 2 ^ 32.
Proof. apply Z.mod_pos_bound. lia. Qed.

Lemma u64_bound z : 0 ≤ u64 z < 2 ^ 64.
Proof. apply Z.mod_pos_bound. lia. Qed.

Lemma u16_bound z : 0 ≤ u16 z < 2 ^ 16.
Proof. apply Z.mod_pos_bound. lia. Qed.

Lemma i64_small z : - 2 ^ 63 ≤ z < 2 ^ 63 → i64 z = z.
Proof. intros. unfold i64. rewrite Z.mod_small; lia. Qed.

(** * Outcomes and the state monad

    A Go call returns, panics (a failed [Assert], an index out of range), or
    cannot proceed now because a lock it needs is held ([Block]). *)

Inductive outcome (A : Type) : Type :=
| Ret (a : A)
| Panic
| Block.
Arguments Ret {A} _.
Arguments Panic {A}.
Arguments Block {A}.

Definition M (S A : Type) : Type := S → outcome (A * S).

Definition ret {S A} (a : A) : M S A := λ s, Ret (a, s).

Definition bind {S A B} (m : M S A) (k : A → M S B) : M S B := λ s,
  match m s with
  | Ret (a, s') => k a s'
  | Panic => Panic
  | Block => Block
  end.

Definition get {S} : M S S := λ s, Ret (s, s).
Definition put {S} (s : S) : M S unit := λ _, Ret (tt, s).
Definition gets {S A} (f : S → A) : M S A := λ s, Ret (f s, s).
Definition modify {S} (f : S → S) : M S unit := λ s, Ret (tt, f s).
Definition panic {S A} : M S A := λ _, Panic.
Definition block {S A} : M S A := λ _, Block.
Definition lift {S A} (o : outcome A) : M S A := λ s,
  match o with Ret a => Ret (a, s) | Panic => Panic | Block => Block end.

(** Run a computation on a part of the state. *)
Definition zoom {S T A} (g : S → T) (f : T → S → S) (m : M T A) : M S A := λ s,
  match m (g s) with
  | Ret (a, t) => Ret (a, f t s)
  | Panic => Panic
  | Block => Block
  end.

Notation "'let!' x := m 'in' k" := (bind m (λ x, k))
  (at level 10, x pattern, k at level 200,
   format "'[v' 'let!'  x  :=  m  'in' '/' k ']'") : cfa_scope.
Notation "m ;;; k" := (bind m (λ _, k))
  (at level 100, right associativity) : cfa_scope.
Open Scope cfa_scope.

(** [wp m Q s]: run from [s], [m] returns (no panic, no blocking) and the
    result satisfies [Q]. *)
Definition wp {S A} (m : M S A) (Q : A → S → Prop) (s : S) : Prop :=
  match m s with Ret (a, s') => Q a s' | _ => False end.

Section WP.
Context {S : Type}.

Lemma wp_ret {A} (a : A) (Q : A → S → Prop) s : Q a s → wp (ret a) Q s.
Proof. done. Qed.

Lemma wp_bind {A B} (m : M S A) (k : A → M S B) Q s :
  wp m (λ a, wp (k a) Q) s → wp (bind m k) Q s.
Proof. unfold wp, bind. by destruct (m s) as [[a s']| |]. Qed.

Lemma wp_bind_ext {A B} (m : M S A) (k k' : A → M S B) Q s :
  (∀ a t, k a t = k' a t) → wp (bind m k') Q s → wp (bind m k) Q s.
Proof.
  intros E. unfold wp, bind. destruct (m s) as [[a s']| |]; [|done..]. by rewrite E.
Qed.

Lemma wp_mono {A} (m : M S A) (P Q : A → S → Prop) s :
  (∀ a s', P a s' → Q a s') → wp m P s → wp m Q s.
Proof. intros H. unfold wp. destruct (m s) as [[a s']| |]; auto. Qed.

Lemma wp_gets {A} (f : S → A) Q s : Q (f s) s → wp (gets f) Q s.
Proof. done. Qed.

Lemma wp_get Q s : Q s s → wp (@get S) Q s.
Proof. done. Qed.

Lemma wp_modify f (Q : unit → S → Prop) s : Q tt (f s) → wp (modify f) Q s.
Proof. done. Qed.

Lemma wp_lift {A} (o : outcome A) (a : A) Q (s : S) :
  o = Ret a → Q a s → wp (lift o) Q s.
Proof. by intros ->. Qed.

Lemma wp_zoom {T A} (g : S → T) f (m : M T A) Q s :
  wp m (λ a t, Q a (f t s)) (g s) → wp (zoom g f m) Q s.
Proof. unfold wp, zoom. by destruct (m (g s)) as [[a t]| |]. Qed.

Lemma wp_run {A} (m : M S A) Q s :
  wp m Q s ↔ ∃ a s', m s = Ret (a, s') ∧ Q a s'.
Proof.
  unfold wp. split.
  - destruct (m s) as [[a s']| |]; naive_solver.
  - intros (a & s' & -> & HQ). done.
Qed.

Lemma wp_and {A} (m : M S A) (P Q : A → S → Prop) s :
  wp m P s → wp m Q s → wp m (λ a s', P a s' ∧ Q a s') s.
Proof. unfold wp. destruct (m s) as [[a s']| |]; auto. Qed.
End WP.

(** [stays R m]: whenever [m] returns, its states before and after are related
    by [R], a preorder. *)
Definition stays {S A} (R : S → S → Prop) (m : M S A) : Prop :=
  ∀ s a s', m s = Ret (a, s') → R s s'.

Section Stays.
Context {S : Type} (R : S → S → Prop) `{!PreOrder R}.

Lemma stays_ret {A} (a : A) : stays R (ret a).
Proof. intros s ? ? [= _ <-]. reflexivity. Qed.

Lemma stays_gets {A} (f : S → A) : stays R (gets f).
Proof. intros s ? ? [= _ <-]. reflexivity. Qed.

Lemma stays_get : stays R get.
Proof. intros s ? ? [= _ <-]. reflexivity. Qed.

Lemma stays_panic {A} : stays R (@panic S A).
Proof. by intros s ? ?. Qed.

Lemma stays_block {A} : stays R (@block S A).
Proof. by intros s ? ?. Qed.

Lemma stays_lift {A} (o : outcome A) : stays R (lift o).
Proof. intros s ? ? E. unfold lift in E. destruct o; simplify_eq. reflexivity. Qed.

Lemma stays_modify f : (∀ s, R s (f s)) → stays R (modify f).
Proof. intros Hf s ? ? [= _ <-]. apply Hf. Qed.

Lemma stays_bind {A B} (m : M S A) (k : A → M S B) :
  stays R m → (∀ a, stays R (k a)) → stays R (bind m k).
Proof.
  intros Hm Hk s b s' E. unfold bind in E. destruct (m s) as [[a s1]| |] eqn:E1; [|done..].
  etransitivity; [by eapply Hm|by eapply Hk].
Qed.

Lemma stays_zoom {T A} (g : S → T) f (RT : T → T → Prop) (m : M T A) :
  (∀ s t, RT (g s) t → R s (f t s)) → stays RT m → stays R (zoom g f m).
Proof.
  intros Hf Hm s a s' E. unfold zoom in E. destruct (m (g s)) as [[a' t]| |] eqn:E1; [|done..].
  simplify_eq. by eapply Hf, Hm.
Qed.
End Stays.

Create HintDb stays.
#[export] Hint Resolve stays_ret stays_gets stays_get stays_panic stays_block stays_lift : stays.

Create HintDb cfa.
#[export] Hint Resolve wp_ret wp_gets wp_get wp_modify : cfa.
#[export] Hint Resolve u32_bound u64_bound u16_bound : cfa.

(** [Assert] of lib/libfs/cache.go: a failed assertion panics. *)
Definition Assert {S} (bOk : bool) : M S unit :=
  if bOk then ret tt else panic.

Lemma wp_assert {S} (b : bool) (Q : unit → S → Prop) s :
  b = true → Q tt s → wp (Assert b) Q s.
Proof. by intros ->. Qed.

(** One step of symbolic execution of a goal [wp _ _ _]. *)
Ltac wp_step :=
  lazymatch goal with
  | |- wp (bind _ _) _ _ => apply wp_bind
  | |- wp (ret _) _ _ => apply wp_ret
  | |- wp (gets _) _ _ => apply wp_gets
  | |- wp get _ _ => apply wp_get
  | |- wp (modify _) _ _ => apply wp_modify
  | |- wp (zoom _ _ _) _ _ => apply wp_zoom
  | |- wp (Assert _) _ _ => apply wp_assert
  end; cbn beta.
Ltac wp_steps := repeat wp_step.

(** Case analysis on the booleans that integer comparisons decide. *)
Ltac zcase :=
  repeat match goal with
  | |- context [Z.eqb ?a ?b] => destruct (Z.eqb_spec a b)
  | |- context [Z.leb ?a ?b] => destruct (Z.leb_spec a b)
  | |- context [Z.ltb ?a ?b] => destruct (Z.ltb_spec a b)
  | H : context [Z.eqb ?a ?b] |- _ => destruct (Z.eqb_spec a b)
  | H : context [Z.leb ?a ?b] |- _ => destruct (Z.leb_spec a b)
  | H : context [Z.ltb ?a ?b] |- _ => destruct (Z.ltb_spec a b)
  end.
Ltac zbool := zcase; simpl in *; try congruence; try lia.

(** * Byte slices *)

Abbreviation bytes := (list Z) (only parsing).

Definition Zlen {A} (l : list A) : Z := Z.of_nat (length l).

(** The byte at position [i]; 0 outside (what a zero-filled buffer or a hole
    of a file reads as). *)
Definition byte_at (l : bytes) (i : Z) : Z :=
  if i <? 0 then 0 else nth (Z.to_nat i) l 0.

(** [l[lo:hi]] of Go: panics when the bounds are not [0 <= lo <= hi <= len]. *)
Definition go_slice (l : bytes) (lo hi : Z) : outcome bytes :=
  if (0 <=? lo) && (lo <=? hi) && (hi <=? Zlen l)
  then Ret (take (Z.to_nat (hi - lo)) (drop (Z.to_nat lo) l))
  else Panic.

(** [copy(dst[off:], src)]: panics when [off] is past the end of [dst]. *)
Definition go_copy (dst : bytes) (off : Z) (src : bytes) : outcome bytes :=
  if (0 <=? off) && (off <=? Zlen dst)
  then Ret (take (Z.to_nat off) dst
            ++ take (length dst - Z.to_nat off) src
            ++ drop (Z.to_nat off + length src) dst)
  else Panic.

Definition zeros (n : Z) : bytes := replicate (Z.to_nat n) 0.

Lemma Zlen_nonneg {A} (l : list A) : 0 ≤ Zlen l.
Proof. unfold Zlen. lia. Qed.

Lemma Zlen_app {A} (l k : list A) : Zlen (l ++ k) = Zlen l + Zlen k.
Proof. unfold Zlen. rewrite length_app. lia. Qed.

Lemma Zlen_zeros n : 0 ≤ n → Zlen (zeros n) = n.
Proof. intros. unfold Zlen, zeros. rewrite length_replicate. lia. Qed.

Lemma Zlen_nil {A} : Zlen (@nil A) = 0.
Proof. done. Qed.

Lemma Zlen_pos {A} (l : list A) : l ≠ [] → 0 < Zlen l.
Proof. destruct l; [done|]. unfold Zlen. simpl. lia. Qed.

Lemma Zlen_take {A} (l : list A) n :
  0 ≤ n ≤ Zlen l → Zlen (take (Z.to_nat n) l) = n.
Proof. unfold Zlen. rewrite length_take. lia. Qed.

Lemma Zlen_drop {A} (l : list A) n :
  0 ≤ n ≤ Zlen l → Zlen (drop (Z.to_nat n) l) = Zlen l - n.
Proof. unfold Zlen. rewrite length_drop. lia. Qed.

Lemma byte_at_neg l i : i < 0 → byte_at l i = 0.
Proof. intros. unfold byte_at. zbool. Qed.

Lemma byte_at_ge l i : Zlen l ≤ i → byte_at l i = 0.
Proof. intros. unfold byte_at, Zlen in *. zbool. apply nth_overflow. lia. Qed.

Lemma byte_at_app l k i :
  byte_at (l ++ k) i = if i <? Zlen l then byte_at l i else byte_at k (i - Zlen l).
Proof.
  unfold byte_at, Zlen. zbool.
  - rewrite app_nth1; [done|lia].
  - rewrite app_nth2; [|lia]. f_equal. lia.
Qed.

Lemma byte_at_take l n i :
  byte_at (take (Z.to_nat n) l) i = if i <? n then byte_at l i else 0.
Proof.
  unfold byte_at. zbool.
  - generalize dependent i. generalize dependent n. induction l as [|x l IH]; intros n i ??.
    + rewrite firstn_nil. done.
    + destruct (Z.to_nat n) eqn:E; [lia|]. destruct (Z.to_nat i) eqn:E'; [done|].
      simpl. specialize (IH (n - 1) (i - 1)).
      replace (Z.to_nat (n - 1)) with n0 in IH by lia.
      replace (Z.to_nat (i - 1)) with n1 in IH by lia. apply IH; lia.
  - apply nth_overflow. rewrite length_take. lia.
Qed.

Lemma byte_at_drop l n i :
  0 ≤ n → byte_at (drop (Z.to_nat n) l) i = if i <? 0 then 0 else byte_at l (n + i).
Proof.
  intros. unfold byte_at. zbool.
  replace (Z.to_nat (n + i)) with (Z.to_nat n + Z.to_nat i)%nat by lia.
  generalize (Z.to_nat n) as k. clear. induction l as [|x l IH]; intros k.
  - rewrite skipn_nil. destruct (k + Z.to_nat i)%nat, (Z.to_nat i); done.
  - destruct k; [done|]. simpl. apply IH.
Qed.

Lemma byte_at_zeros n i : byte_at (zeros n) i = 0.
Proof.
  unfold byte_at, zeros. zbool. generalize (Z.to_nat i) as k.
  induction (Z.to_nat n) as [|m IH]; intros [|k]; simpl; auto.
Qed.

Lemma byte_ext (l k : bytes) :
  Zlen l = Zlen k → (∀ i, 0 ≤ i < Zlen l → byte_at l i = byte_at k i) → l = k.
Proof.
  unfold Zlen. intros Hlen H. apply (nth_ext _ _ 0 0); [lia|]. intros n Hn.
  specialize (H (Z.of_nat n)). unfold byte_at in H.
  rewrite (proj2 (Z.ltb_ge _ _)), Nat2Z.id in H by lia. apply H. lia.
Qed.

Lemma go_slice_ok l lo hi :
  0 ≤ lo ≤ hi → hi ≤ Zlen l →
  ∃ r, go_slice l lo hi = Ret r ∧ Zlen r = hi - lo ∧
       ∀ i, 0 ≤ i < hi - lo → byte_at r i = byte_at l (lo + i).
Proof.
  intros. unfold go_slice. eexists.
  destruct ((0 <=? lo) && (lo <=? hi) && (hi <=? Zlen l)) eqn:E; [|zbool].
  split; [done|]. split.
  - rewrite Zlen_take; [done|]. rewrite Zlen_drop; lia.
  - intros i Hi. rewrite byte_at_take, byte_at_drop by lia. zbool.
Qed.

Lemma go_copy_ok dst off src :
  0 ≤ off → off + Zlen src ≤ Zlen dst →
  ∃ r, go_copy dst off src = Ret r ∧ Zlen r = Zlen dst ∧
       ∀ i, byte_at r i =
            if (off <=? i) && (i <? off + Zlen src) then byte_at src (i - off)
            else byte_at dst i.
Proof.
  intros Ho Hl. pose proof (Zlen_nonneg src). unfold go_copy. eexists.
  destruct ((0 <=? off) && (off <=? Zlen dst)) eqn:E; [|zbool].
  assert (take (length dst - Z.to_nat off) src = src) as ->
    by (apply take_ge; unfold Zlen in *; lia).
  replace (Z.to_nat off + length src)%nat with (Z.to_nat (off + Zlen src))
    by (unfold Zlen in *; lia).
  split; [done|]. split.
  - rewrite !Zlen_app, Zlen_take, Zlen_drop by lia. lia.
  - intros i. rewrite !byte_at_app, byte_at_take, byte_at_drop, Zlen_take by lia.
    zbool; try (f_equal; lia).
Qed.
