(* ===== verification/GoString.v ===== *)
(** The functions of Go's [strings], [bytes] and [strconv] packages the
    client calls, on [String.string] (a Go string is a byte sequence). *)

From stdpp Require Import base strings list pretty.
From Stdlib Require Import Ascii ZArith Lia.
From S2P Require Import Prelude.

#[global] Arguments String.append : simpl nomatch.

Definition slash : ascii := "/"%char.

(** [strings.HasPrefix(s, prefix)] *)
Definition HasPrefix (s pre : string) : bool := String.prefix pre s.

(** [s[n:]] *)
Fixpoint str_drop (n : nat) (s : string) : string :=
  match n, s with
  | S n', String _ s' => str_drop n' s'
  | _, _ => s
  end.

(** [s[:n]] *)
Fixpoint str_take (n : nat) (s : string) : string :=
  match n, s with
  | S n', String c s' => String c (str_take n' s')
  | _, _ => EmptyString
  end.

(** [strings.HasSuffix(s, suf)] *)
Definition HasSuffix (s suf : string) : bool :=
  (String.length suf <=? String.length s)%nat &&
  String.eqb (str_drop (String.length s - String.length suf) s) suf.

(** [strings.TrimPrefix(s, prefix)] *)
Definition TrimPrefix (s pre : string) : string :=
  if HasPrefix s pre then str_drop (String.length pre) s else s.

(** [strings.Contains(s, sub)] *)
Fixpoint Contains (s sub : string) : bool :=
  HasPrefix s sub ||
  match s with EmptyString => false | String _ s' => Contains s' sub end.

(** [strings.Split(s, sep)] for a one-character separator: always at least
    one piece. *)
Fixpoint Split (s : string) (sep : ascii) : list string :=
  match s with
  | EmptyString => [EmptyString]
  | String c s' =>
      if Ascii.eqb c sep then EmptyString :: Split s' sep
      else match Split s' sep with
           | [] => [String c EmptyString]
           | p :: ps => String c p :: ps
           end
  end.

(** [strings.Join(l, sep)] *)
Fixpoint Join (l : list string) (sep : ascii) : string :=
  match l with
  | [] => EmptyString
  | [p] => p
  | p :: ps => String.append p (String sep (Join ps sep))
  end.

(** [strings.LastIndex(s, sep)] for a one-character [sep]; -1 if absent. *)
Fixpoint LastIndex (s : string) (sep : ascii) : Z :=
  match s with
  | EmptyString => -1
  | String c s' =>
      let r := LastIndex s' sep in
      if 0 <=? r then r + 1 else if Ascii.eqb c sep then 0 else -1
  end.

(** [s[:i]] of Go: panics when [i] is negative or past the end. *)
Definition str_slice_to (s : string) (i : Z) : outcome string :=
  if (0 <=? i) && (i <=? Z.of_nat (String.length s))
  then Ret (str_take (Z.to_nat i) s) else Panic.

(** The last byte of a string. *)
Fixpoint last_char (s : string) : option ascii :=
  match s with
  | EmptyString => None
  | String c EmptyString => Some c
  | String _ s' => last_char s'
  end.

Definition first_char (s : string) : option ascii :=
  match s with EmptyString => None | String c _ => Some c end.

Definition char_is (o : option ascii) (c : ascii) : bool :=
  match o with Some d => Ascii.eqb d c | None => false end.

(** [strings.ToLower] on ASCII letters. *)
Definition lower_char (c : ascii) : ascii :=
  let n := Z.of_nat (nat_of_ascii c) in
  if (65 <=? n) && (n <=? 90) then ascii_of_nat (Z.to_nat (n + 32)) else c.

Fixpoint ToLower (s : string) : string :=
  match s with
  | EmptyString => EmptyString
  | String c s' => String (lower_char c) (ToLower s')
  end.

(** * [strconv] *)

Definition digit_of (c : ascii) : option Z :=
  let n := Z.of_nat (nat_of_ascii c) in
  if (48 <=? n) && (n <=? 57) then Some (n - 48) else None.

(** Digits of an unsigned decimal, most significant first. *)
Fixpoint parse_digits (acc : Z) (s : string) : option Z :=
  match s with
  | EmptyString => Some acc
  | String c s' =>
      match digit_of c with
      | Some d => parse_digits (10 * acc + d) s'
      | None => None
      end
  end.

(** [strconv.ParseUint(s, 10, bits)]: the value, or [None] for a syntax or a
    range error. *)
Definition ParseUint (s : string) (bits : Z) : option Z :=
  match s with
  | EmptyString => None
  | _ => match parse_digits 0 s with
         | Some v => if v <? 2 ^ bits then Some v else None
         | None => None
         end
  end.

(** [strconv.ParseInt(s, 10, bits)]. *)
Definition ParseInt (s : string) (bits : Z) : option Z :=
  let '(neg, body) :=
    match s with
    | String c s' =>
        if Ascii.eqb c "+"%char then (false, s')
        else if Ascii.eqb c "-"%char then (true, s') else (false, s)
    | EmptyString => (false, s)
    end in
  match body with
  | EmptyString => None
  | _ => match parse_digits 0 body with
         | Some v =>
             if neg then if v <=? 2 ^ (bits - 1) then Some (- v) else None
             else if v <? 2 ^ (bits - 1) then Some v else None
         | None => None
         end
  end.

(** [strconv.ParseBool]. *)
Definition ParseBool (s : string) : option bool :=
  if bool_decide (s ∈ ["1"; "t"; "T"; "TRUE"; "true"; "True"]%string) then Some true
  else if bool_decide (s ∈ ["0"; "f"; "F"; "FALSE"; "false"; "False"]%string) then Some false
  else None.

(** [strconv.Itoa]. *)
Definition Itoa (z : Z) : string := pretty z.

(** * Lemmas *)

Lemma str_app_nil_r s : String.append s EmptyString = s.
Proof. induction s; simpl; congruence. Qed.

Lemma str_app_assoc a b c :
  String.append a (String.append b c) = String.append (String.append a b) c.
Proof. induction a; simpl; congruence. Qed.

Lemma str_length_app a b :
  String.length (String.append a b) = (String.length a + String.length b)%nat.
Proof. induction a; simpl; congruence. Qed.

Lemma str_drop_app a b : str_drop (String.length a) (String.append a b) = b.
Proof. induction a; simpl; [by destruct b|done]. Qed.

Lemma str_take_app a b : str_take (String.length a) (String.append a b) = a.
Proof. induction a; simpl; [by destruct b|congruence]. Qed.

Lemma str_take_drop n s : String.append (str_take n s) (str_drop n s) = s.
Proof. revert n; induction s; intros [|n]; simpl; try done. by rewrite IHs. Qed.

Lemma HasPrefix_app a b : HasPrefix (String.append a b) a = true.
Proof.
  unfold HasPrefix. induction a as [|c a IH]; simpl; [by destruct b|].
  destruct (ascii_dec c c); [done|congruence].
Qed.

Lemma HasPrefix_true s p : HasPrefix s p = true ↔ ∃ r, s = String.append p r.
Proof.
  split; [|intros (r & ->); apply HasPrefix_app].
  unfold HasPrefix. revert s. induction p as [|c p IH]; intros s H; simpl in *.
  - by exists s.
  - destruct s as [|d s]; [done|]. simpl in H. destruct (ascii_dec c d); [|done]. subst.
    destruct (IH s H) as [r ->]. exists r. reflexivity.
Qed.

Lemma HasSuffix_app a b : HasSuffix (String.append a b) b = true.
Proof.
  unfold HasSuffix. rewrite str_length_app, Nat.add_sub, str_drop_app.
  rewrite String.eqb_refl. rewrite (proj2 (Nat.leb_le _ _)) by lia. done.
Qed.

Lemma HasSuffix_true s p : HasSuffix s p = true ↔ ∃ r, s = String.append r p.
Proof.
  split; [|intros [r ->]; apply HasSuffix_app].
  unfold HasSuffix. intros [_ H2]%andb_prop. apply String.eqb_eq in H2.
  exists (str_take (String.length s - String.length p) s).
  rewrite <- H2 at 2. by rewrite str_take_drop.
Qed.

Lemma TrimPrefix_app a b : TrimPrefix (String.append a b) a = b.
Proof. unfold TrimPrefix. by rewrite HasPrefix_app, str_drop_app. Qed.

Lemma Split_nonempty s c : Split s c ≠ [].
Proof.
  destruct s as [|d s]; simpl; [done|].
  destruct (Ascii.eqb d c); [done|]. by destruct (Split s c).
Qed.

(** Splitting and joining on the same separator is the identity. *)
Lemma Join_Split s c : Join (Split s c) c = s.
Proof.
  induction s as [|d s IH]; simpl; [done|].
  pose proof (Split_nonempty s c) as Hne.
  destruct (Ascii.eqb_spec d c) as [->|Hd].
  - destruct (Split s c) as [|p ps]; [done|]. simpl in *. by rewrite IH.
  - destruct (Split s c) as [|p [|q ps]]; [done|..]; simpl in *; by rewrite IH.
Qed.

Lemma LastIndex_bounds s c : -1 ≤ LastIndex s c < Z.of_nat (String.length s) ∨
  (s = EmptyString ∧ LastIndex s c = -1).
Proof.
  induction s as [|d s IH]; cbn [LastIndex String.length]; [by right|left].
  destruct (0 <=? LastIndex s c) eqn:E; [zbool|].
  destruct (Ascii.eqb d c); lia.
Qed.

Lemma LastIndex_app_tail s t c :
  (∀ d r1 r2, t = String.append r1 (String d r2) → d ≠ c) →
  LastIndex (String.append s (String c t)) c = Z.of_nat (String.length s).
Proof.
  intros Ht.
  assert (LastIndex t c = -1) as H0.
  { clear s. induction t as [|d t IH]; [done|]. cbn [LastIndex].
    rewrite IH; [|intros d' r1 r2 ->; apply (Ht d' (String d r1) r2); done].
    simpl. destruct (Ascii.eqb_spec d c); [|done].
    exfalso. by apply (Ht d EmptyString t). }
  induction s as [|d s IH]; cbn [LastIndex String.append String.length].
  - rewrite H0. simpl. by rewrite Ascii.eqb_refl.
  - rewrite IH. zbool.
Qed.

(** A text in which the separator does not occur is its own only piece. *)
Lemma Split_cons_ne d s c :
  d ≠ c → Split (String d s) c = [String d s] ↔ Split s c = [s].
Proof.
  intros Hd. cbn [Split]. destruct (Ascii.eqb_spec d c); [done|].
  pose proof (Split_nonempty s c). destruct (Split s c) as [|p ps] eqn:E; [done|].
  split; intros H'; simplify_eq; done.
Qed.

Lemma Split_single_cons d s c :
  Split (String d s) c = [String d s] → d ≠ c ∧ Split s c = [s].
Proof.
  intros H. destruct (Ascii.eqb_spec d c) as [->|Hd].
  - cbn [Split] in H. rewrite Ascii.eqb_refl in H. simplify_eq.
  - split; [done|]. by apply Split_cons_ne in H.
Qed.

Lemma Split_prefix p r c :
  Split (String.append p r) c = [String.append p r] → Split p c = [p].
Proof.
  induction p as [|d p IH]; [done|]. intros [Hd H]%Split_single_cons.
  apply Split_cons_ne; auto.
Qed.

Lemma Split_app_sep p s c :
  Split p c = [p] → Split (String.append p (String c s)) c = p :: Split s c.
Proof.
  induction p as [|d p IH]; intros H.
  - simpl. by rewrite Ascii.eqb_refl.
  - apply Split_single_cons in H as [Hd H]. simpl.
    rewrite (proj2 (Ascii.eqb_neq d c)) by done. by rewrite IH.
Qed.

Lemma Split_pieces s c : Forall (λ p, Split p c = [p]) (Split s c).
Proof.
  induction s as [|d s IH]; simpl; [by repeat constructor|].
  destruct (Ascii.eqb_spec d c) as [->|Hd]; [by constructor|].
  destruct (Split s c) as [|p ps]; inversion_clear IH; constructor; auto.
  - simpl. by rewrite (proj2 (Ascii.eqb_neq d c)).
  - by apply Split_cons_ne.
Qed.

Lemma Split_Join ps c :
  ps ≠ [] → Forall (λ p, Split p c = [p]) ps → Split (Join ps c) c = ps.
Proof.
  intros Hne Hp. induction Hp as [|p ps Hp Hps IH]; [done|].
  destruct ps as [|q ps]; [done|].
  change (Join (p :: q :: ps) c) with (String.append p (String c (Join (q :: ps) c))).
  rewrite Split_app_sep by done. f_equal. by apply IH.
Qed.
