(* ===== verification/Proto.v ===== *)
(** The wire protocol with the CubeFS proxy (lib/proto) and the error values
    that travel through the client: [Errno], Go's [error] interface with its
    [Unwrap] chain, the request and response structs, and [toErr] of
    lib/libfs/mount.go, which turns an error or a proxy code into an [Errno]. *)

From stdpp Require Import base strings list pretty.
From Stdlib Require Import Ascii ZArith Lia.
From S2P Require Import Prelude GoString.

(** * posix_code.go *)

Definition E_POSXI_ERRNO_FLAG : Z := 0.
Definition E_POSIX_EAGAIN : Z := 11.
Definition E_POSIX_EACCES : Z := 13.
Definition E_POSIX_EBADF : Z := 9.
Definition E_POSIX_EBUSY : Z := 16.
Definition E_POSIX_EEXIST : Z := 17.
Definition E_POSIX_EFAULT : Z := 14.
Definition E_POSIX_EFBIG : Z := 27.
Definition E_POSIX_EINVAL : Z := 22.
Definition E_POSIX_EIO : Z := 5.
Definition E_POSIX_EISDIR : Z := 21.
Definition E_POSIX_ELOOP : Z := 40.
Definition E_POSIX_EMLINK : Z := 31.
Definition E_POSIX_ENAMETOOLONG : Z := 36.
Definition E_POSIX_ENODATA : Z := 61.
Definition E_POSIX_ENOENT : Z := 2.
Definition E_POSIX_ENOTCONN : Z := 107.
Definition E_POSIX_ENOTDIR : Z := 20.
Definition E_POSIX_ENOTEMPTY : Z := 39.
Definition E_POSIX_ENOTSUP : Z := 95.
Definition E_POSIX_EPERM : Z := 1.
Definition E_POSIX_ERANEG : Z := 34.

Definition posix_codes : list Z :=
  [E_POSIX_EAGAIN;
   E_POSIX_EACCES;
   E_POSIX_EBADF;
   E_POSIX_EBUSY;
   E_POSIX_EEXIST;
   E_POSIX_EFAULT;
   E_POSIX_EFBIG;
   E_POSIX_EINVAL;
   E_POSIX_EIO;
   E_POSIX_EISDIR;
   E_POSIX_ELOOP;
   E_POSIX_EMLINK;
   E_POSIX_ENAMETOOLONG;
   E_POSIX_ENODATA;
   E_POSIX_ENOENT;
   E_POSIX_ENOTCONN;
   E_POSIX_ENOTDIR;
   E_POSIX_ENOTEMPTY;
   E_POSIX_ENOTSUP;
   E_POSIX_EPERM;
   E_POSIX_ERANEG].

(** [PosixErrnoMsgs]: indices the Go literal leaves out hold the empty
    string. *)
Definition PosixErrnoMsgs : list string :=
  [EmptyString;
   "operation not permitted"%string;
   "no such file or directory"%string;
   "no such process"%string;
   "interrupted system call"%string;
   "input/output error"%string;
   "no such device or address"%string;
   "argument list too long"%string;
   "exec format error"%string;
   "bad file descriptor"%string;
   "no child processes"%string;
   "resource temporarily unavailable"%string;
   "cannot allocate memory"%string;
   "permission denied"%string;
   "bad address"%string;
   "block device required"%string;
   "device or resource busy"%string;
   "file exists"%string;
   "invalid cross-device link"%string;
   "no such device"%string;
   "not a directory"%string;
   "is a directory"%string;
   "invalid argument"%string;
   "too many open files in system"%string;
   "too many open files"%string;
   "inappropriate ioctl for device"%string;
   "text file busy"%string;
   "file too large"%string;
   "no space left on device"%string;
   "illegal seek"%string;
   "read-only file system"%string;
   "too many links"%string;
   "broken pipe"%string;
   "numerical argument out of domain"%string;
   "numerical result out of range"%string;
   "resource deadlock avoided"%string;
   "file name too long"%string;
   "no locks available"%string;
   "function not implemented"%string;
   "directory not empty"%string;
   "too many levels of symbolic links"%string;
   EmptyString;
   "no message of desired type"%string;
   "identifier removed"%string;
   "channel number out of range"%string;
   "level 2 not synchronized"%string;
   "level 3 halted"%string;
   "level 3 reset"%string;
   "link number out of range"%string;
   "protocol driver not attached"%string;
   "no CSI structure available"%string;
   "level 2 halted"%string;
   "invalid exchange"%string;
   "invalid request descriptor"%string;
   "exchange full"%string;
   "no anode"%string;
   "invalid request code"%string;
   "invalid slot"%string;
   EmptyString;
   "bad font file format"%string;
   "device not a stream"%string;
   "no data available"%string;
   "timer expired"%string;
   "out of streams resources"%string;
   "machine is not on the network"%string;
   "package not installed"%string;
   "object is remote"%string;
   "link has been severed"%string;
   "advertise error"%string;
   "srmount error"%string;
   "communication error on send"%string;
   "protocol error"%string;
   "multihop attempted"%string;
   "RFS specific error"%string;
   "bad message"%string;
   "value too large for defined data type"%string;
   "name not unique on network"%string;
   "file descriptor in bad state"%string;
   "remote address changed"%string;
   "can not access a needed shared library"%string;
   "accessing a corrupted shared library"%string;
   ".lib section in a.out corrupted"%string;
   "attempting to link in too many shared libraries"%string;
   "cannot exec a shared library directly"%string;
   "invalid or incomplete multibyte or wide character"%string;
   "interrupted system call should be restarted"%string;
   "streams pipe error"%string;
   "too many users"%string;
   "socket operation on non-socket"%string;
   "destination address required"%string;
   "message too long"%string;
   "protocol wrong type for socket"%string;
   "protocol not available"%string;
   "protocol not supported"%string;
   "socket type not supported"%string;
   "operation not supported"%string;
   "protocol family not supported"%string;
   "address family not supported by protocol"%string;
   "address already in use"%string;
   "cannot assign requested address"%string;
   "network is down"%string;
   "network is unreachable"%string;
   "network dropped connection on reset"%string;
   "software caused connection abort"%string;
   "connection reset by peer"%string;
   "no buffer space available"%string;
   "transport endpoint is already connected"%string;
   "transport endpoint is not connected"%string;
   "cannot send after transport endpoint shutdown"%string;
   "too many references: cannot splice"%string;
   "connection timed out"%string;
   "connection refused"%string;
   "host is down"%string;
   "no route to host"%string;
   "operation already in progress"%string;
   "operation now in progress"%string;
   "stale file handle"%string;
   "structure needs cleaning"%string;
   "not a XENIX named type file"%string;
   "no XENIX semaphores available"%string;
   "is a named type file"%string;
   "remote I/O error"%string;
   "disk quota exceeded"%string;
   "no medium found"%string;
   "wrong medium type"%string;
   "operation canceled"%string;
   "required key not available"%string;
   "key has expired"%string;
   "key has been revoked"%string;
   "key was rejected by service"%string;
   "owner died"%string;
   "state not recoverable"%string;
   "operation not possible due to RF-kill"%string;
   "memory page has hardware error"%string].

(** * err_code.go *)

Definition SUCCESS : Z := 0.
Definition E_UTIL_ERRNO_FLAG : Z := -500.
Definition E_UTIL_FAULT : Z := E_UTIL_ERRNO_FLAG - 0.

(** [type Errno int] *)
Definition Errno_IsSuccess (e : Z) : bool := e =? SUCCESS.
Definition Errno_IsPosixErrno (e : Z) : bool := E_POSXI_ERRNO_FLAG <? e.
Definition Errno_Equal (e e1 : Z) : bool := e =? e1.

Definition Errno_Error (e : Z) : string :=
  if Errno_IsSuccess e then "success"%string
  else if Errno_IsPosixErrno e then
    if e <? Zlen PosixErrnoMsgs
    then nth (Z.to_nat e) PosixErrnoMsgs EmptyString
    else String.append "unknown errno " (Itoa e)
  else String.append "unknown errno " (Itoa e).

(** Go's [error] values that occur in the client; [nil] is [None].
    [ErrWrap] is a pkg/errors wrapper, [ErrUrl] a [*url.Error] with its
    formatted operation and URL and its [Timeout()]/[Temporary()] answers. *)
Inductive error : Type :=
| ErrErrno (e : Z)
| ErrNew (msg : string)
| ErrWrap (msg : string) (cause : error)
| ErrUrl (op_url : string) (cause : error) (timeout temporary : bool).

(** [errors.Unwrap]. *)
Definition Unwrap (e : error) : option error :=
  match e with
  | ErrErrno _ | ErrNew _ => None
  | ErrWrap _ c | ErrUrl _ c _ _ => Some c
  end.

(** [err.Error()]. *)
Fixpoint error_Error (e : error) : string :=
  match e with
  | ErrErrno c => Errno_Error c
  | ErrNew m => m
  | ErrWrap m c => String.append m (String.append ": " (error_Error c))
  | ErrUrl m c _ _ => String.append m (String.append ": " (error_Error c))
  end.

(** The loop [for tmp := err; tmp != nil; tmp = errors.Unwrap(tmp)] that
    [ToErrno] and [TryToErrno] share: the first [Errno] of the chain. *)
Fixpoint find_errno (e : error) : option Z :=
  match e with
  | ErrErrno c => Some c
  | ErrNew _ => None
  | ErrWrap _ c | ErrUrl _ c _ _ => find_errno c
  end.

Definition ToErrno (err : option error) : Z :=
  match err with
  | None => SUCCESS
  | Some e => match find_errno e with Some c => c | None => E_UTIL_FAULT end
  end.

Definition TryToErrno (err : option error) : option error :=
  match err with
  | None => None
  | Some e => match find_errno e with Some c => Some (ErrErrno c) | None => Some e end
  end.

(** [toErr] of lib/libfs/mount.go. *)
Definition toErr (err : option error) (code : Z) : option error :=
  match TryToErrno err with
  | Some (ErrErrno c) => Some (ErrErrno c)
  | err' =>
      if (match err' with None => true | _ => false end) && (code =? 0) then None
      else Some (ErrErrno
        (match code with
         | 1001 => E_POSIX_EAGAIN
         | 1002 => E_POSIX_EEXIST
         | 1003 => E_POSIX_ENOENT
         | 1004 => E_POSIX_ENOTSUP
         | 1005 => E_POSIX_EIO
         | 1006 => E_POSIX_ENOTEMPTY
         | 1007 => E_POSIX_EPERM
         | _ => E_POSIX_EIO
         end))
  end.

(** * consts.go *)

Definition SysPerm : Z := 511.
Definition S_IFBLK : Z := 0x6000.
Definition S_IFCHR : Z := 0x2000.
Definition S_IFDIR : Z := 0x4000.
Definition S_IFIFO : Z := 0x1000.
Definition S_IFLNK : Z := 0xa000.
Definition S_IFMT : Z := 0xf000.
Definition S_IFREG : Z := 0x8000.
Definition S_IFSOCK : Z := 0xc000.
(** The permission bits of a mode, one by one. *)
Definition S_IRUSR : Z := 0x100.
Definition S_IWUSR : Z := 0x80.
Definition S_IXUSR : Z := 0x40.
Definition S_IRGRP : Z := 0x20.
Definition S_IWGRP : Z := 0x10.
Definition S_IXGRP : Z := 0x8.
Definition S_IROTH : Z := 0x4.
Definition S_IWOTH : Z := 0x2.
Definition S_IXOTH : Z := 0x1.
Definition S_IRWXU : Z := 0x1c0.
Definition S_IRWXG : Z := 0x38.
Definition S_IRWXO : Z := 0x7.
Definition S_ISUID : Z := 0x800.
Definition S_ISGID : Z := 0x400.
Definition S_ISVTX : Z := 0x200.

(** [SysPerm], which the mount keeps of a mode, is the three groups of
    permissions; it drops the set-id and sticky bits, and no type bit is
    among them. *)
Lemma SysPerm_bits :
  SysPerm = Z.lor S_IRWXU (Z.lor S_IRWXG S_IRWXO) ∧
  S_IRWXU = Z.lor S_IRUSR (Z.lor S_IWUSR S_IXUSR) ∧
  S_IRWXG = Z.lor S_IRGRP (Z.lor S_IWGRP S_IXGRP) ∧
  S_IRWXO = Z.lor S_IROTH (Z.lor S_IWOTH S_IXOTH) ∧
  Z.land SysPerm (Z.lor S_ISUID (Z.lor S_ISGID S_ISVTX)) = 0 ∧ Z.land SysPerm S_IFMT = 0.
Proof. by repeat split. Qed.

(** [syscall.O_*] on linux. *)
Definition O_RDONLY : Z := 0.
Definition O_WRONLY : Z := 1.
Definition O_RDWR : Z := 2.

(** * proxy_proto.go *)

Definition UrlMkdir := "/api/v1/mkdir"%string.
Definition UrlReaddir := "/api/v1/readdir"%string.
Definition UrlReaddirEx := "/api/v1/readdirex"%string.
Definition UrlRmdir := "/api/v1/rmdir"%string.
Definition UrlRmdirtree := "/api/v1/rmdirtree"%string.
Definition UrlOpen := "/api/v1/open"%string.
Definition UrlRead := "/api/v1/read"%string.
Definition UrlWrite := "/api/v1/write"%string.
Definition UrlFsync := "/api/v1/fsync"%string.
Definition UrlTruncate := "/api/v1/truncate"%string.
Definition UrlUnlink := "/api/v1/unlink"%string.
Definition UrlLink := "/api/v1/link"%string.
Definition UrlSymLink := "/api/v1/symbol_link"%string.
Definition UrlSetxattr := "/api/v1/setXattr"%string.
Definition UrlGetxattr := "/api/v1/getXattr"%string.
Definition UrlRemovexattr := "/api/v1/removeXattr"%string.
Definition UrlListxattr := "/api/v1/listXattr"%string.
Definition UrlSetattr := "/api/v1/setattr"%string.
Definition UrlRename := "/api/v1/rename"%string.
Definition UrlStat := "/api/v1/stat"%string.
Definition UrlStatfs := "/api/v1/statDir"%string.

Definition DentryTypeFile : Z := 1.
Definition DentryTypeDir : Z := 2.
Definition DentryTypeLink : Z := 3.
Definition DentryTypeFifo : Z := 4.
Definition DentryTypeSock : Z := 5.

Definition DentryType_String (d : Z) : string :=
  if d =? DentryTypeFile then "regular"%string
  else if d =? DentryTypeDir then "directory"%string
  else if d =? DentryTypeLink then "link"%string
  else if d =? DentryTypeFifo then "fifo"%string
  else if d =? DentryTypeSock then "socket"%string
  else "unknown"%string.

Definition SetAclFlagChangeMode : Z := Z.shiftl 1 0.
Definition SetAclFlagChangeUid : Z := Z.shiftl 1 1.
Definition SetAclFlagChangeGid : Z := Z.shiftl 1 2.
Definition SetAclFlagChangeMTime : Z := Z.shiftl 1 3.
Definition SetAclFlagChangeATime : Z := Z.shiftl 1 4.
Definition SetAclFlagChangeOwner : Z := Z.shiftl 1 5.
Definition SetAclFlagChangeGroup : Z := Z.shiftl 1 6.

Definition MountModeRead : Z := 0x01.
Definition MountModeWrite : Z := 0x02.
Definition MountModeDel : Z := 0x04.

Definition DefaultBlockSize : Z := 1 * 1024 * 1024.

Definition OpenFlagCreate : Z := 1.
Definition OpenFlagOpen : Z := 2.

Record InoInfo : Type := MkInoInfo {
  Info_Inode : Z;
  Info_Mode : Z;
  Info_Nlink : Z;
  Info_Size : Z;
  Info_Uid : Z;
  Info_Gid : Z;
  Info_MTime : Z;
  Info_CTime : Z;
  Info_ATime : Z;
  Info_Target : string;
  Info_Owner : string;
  Info_Group : string;
}.

(** [Info] is a pointer: [None] when the proxy's answer has no [info]. *)
Record Dentry : Type := MkDentry {
  Dentry_Name : string;
  Dentry_Inode : Z;
  Dentry_Type : Z;
  Dentry_Info : option InoInfo;
}.

Record StatfsInfo : Type := MkStatfsInfo {
  SI_Files : Z;
  SI_Folders : Z;
  SI_Fbytes : Z;
  SI_Fubytes : Z;
  SI_Rfiles : Z;
  SI_Rfolders : Z;
  SI_Rbytes : Z;
  SI_Rubytes : Z;
}.

(** The fields of [SetAttrRequest] after its path. *)
Record SetAttr : Type := MkSetAttr {
  SA_Flag : Z;
  SA_Uid : Z;
  SA_Gid : Z;
  SA_Mtime : Z;
  SA_Atime : Z;
  SA_Mode : Z;
  SA_Owner : string;
  SA_Group : string;
}.

(** The request structs, one constructor each. *)
Inductive Request : Type :=
| MkdirRequest (Path : string) (Mode : Z)
| ReaddirRequest (Path : string)
| ReaddirExRequest (Path StartKey : string) (Count : Z)
| RmdirRequest (Path : string)
| RmdirTreeRequest (Path : string)
| OpenRequest (Path : string) (Openflag Mode : Z)
| ReadRequest (Id Offset Length : Z)
| WriteRequest (Id Offset Length : Z) (Data : bytes)
| TruncateRequest (Path : string) (Length : Z)
| UnlinkRequest (Path : string)
| LinkRequest (Path Dstpath : string)
| SymlinkRequest (Path Dstpath : string)
| SetxattrRequest (Path : string) (Flag : Z) (Name : string) (Data : bytes)
| GetxattrRequest (Path Name : string)
| RemovexattrRequest (Path Name : string)
| SetAttrRequest (Path : string) (attr : SetAttr)
| RenameRequest (Path Dstpath : string)
| StatRequest (Path : string)
| StatfsRequest (Path : string)
| FsyncRequest (Id : Z).

(** The [data] field of a response, by the response struct it belongs to;
    [NoData] for the structs without one and for an answer that lacks it. *)
Inductive RespData : Type :=
| NoData
| DentrysData (l : list Dentry)
| IdData (id : Z)
| BytesData (b : bytes)
| NamesData (l : list string)
| InoData (i : InoInfo)
| StatfsData (i : StatfsInfo).

Record Response : Type := MkResponse {
  Code : Z;
  Message : string;
  Data : RespData;
}.

(** Zero values of the response's typed [data] field. *)
Definition zero_InoInfo : InoInfo :=
  MkInoInfo 0 0 0 0 0 0 0 0 0 EmptyString EmptyString EmptyString.
Definition zero_StatfsInfo : StatfsInfo := MkStatfsInfo 0 0 0 0 0 0 0 0.
Definition zero_of (d : RespData) : Response := MkResponse 0 EmptyString d.
Definition zero_Response : Response := zero_of NoData.

(** The response structs, as the zero values the client decodes into. *)
Definition MkdirResponse : Response := zero_of NoData.
Definition ReaddirResponse : Response := zero_of (DentrysData []).
Definition ReaddirExResponse : Response := zero_of (DentrysData []).
Definition RmdirResponse : Response := zero_of NoData.
Definition RmdirTreeResponse : Response := zero_of NoData.
Definition OpenResponse : Response := zero_of (IdData 0).
Definition ReadResponse : Response := zero_of (BytesData []).
Definition WriteResponse : Response := zero_of NoData.
Definition TruncateResponse : Response := zero_of NoData.
Definition UnlinkResponse : Response := zero_of NoData.
Definition LinkResponse : Response := zero_of NoData.
Definition SymlinkResponse : Response := zero_of NoData.
Definition SetxattrResponse : Response := zero_of NoData.
Definition GetxattrResponse : Response := zero_of (BytesData []).
Definition RemovexattrResponse : Response := zero_of NoData.
Definition ListxattrResponse : Response := zero_of (NamesData []).
Definition SetAttrResponse : Response := zero_of NoData.
Definition RenameResponse : Response := zero_of NoData.
Definition StatResponse : Response := zero_of (InoData zero_InoInfo).
Definition StatfsResponse : Response := zero_of (StatfsData zero_StatfsInfo).
Definition FsyncResponse : Response := zero_of NoData.

Definition resp_Dentrys (r : Response) : list Dentry :=
  match Data r with DentrysData l => l | _ => [] end.
Definition resp_Id (r : Response) : Z :=
  match Data r with IdData i => i | _ => 0 end.
Definition resp_Bytes (r : Response) : bytes :=
  match Data r with BytesData b => b | _ => [] end.
Definition resp_Names (r : Response) : list string :=
  match Data r with NamesData l => l | _ => [] end.
Definition resp_Ino (r : Response) : InoInfo :=
  match Data r with InoData i => i | _ => zero_InoInfo end.
Definition resp_Statfs (r : Response) : StatfsInfo :=
  match Data r with StatfsData i => i | _ => zero_StatfsInfo end.

(** [ProxyResponse.GetError]. *)
Definition Response_GetError (r : Response) : option error :=
  if Code r =? SUCCESS then None
  else Some (ErrWrap (Message r) (ErrErrno (Code r))).

(** * Properties *)

#[export] Instance error_eq_dec : EqDecision error.
Proof. solve_decision. Defined.

(** The test every caller makes after a proxy call. *)
Definition resp_failed (err : option error) (r : Response) : bool :=
  match err with Some _ => true | None => negb (Code r =? 0) end.

Definition is_errno (e : option error) : Prop := ∃ c, e = Some (ErrErrno c).

(** [toErr] after a failed call is always a bare [Errno]. *)
Lemma toErr_errno err r : resp_failed err r = true → is_errno (toErr err (Code r)).
Proof.
  unfold resp_failed, toErr, TryToErrno, is_errno. intros H.
  destruct err as [e|].
  - destruct (find_errno e) as [c|] eqn:E; [by exists c|].
    destruct e; simpl in *; try done; eauto.
  - destruct (Code r =? 0); [done|]. simpl. eauto.
Qed.

Lemma toErr_none err code : toErr err code = None ↔ err = None ∧ code = 0.
Proof.
  unfold toErr, TryToErrno. split.
  - destruct err as [e|]; [destruct (find_errno e); [done|]; by destruct e|].
    destruct (Z.eqb_spec code 0); [done|]. done.
  - by intros [-> ->].
Qed.
