(* ===== verification/Json.v ===== *)
(** Go's [encoding/json], as far as lib/libfs/http uses it: [json.Marshal] of a
    tree (compact, with the escapes of the encoder) and the scanner behind
    [json.NewDecoder(...).Decode], with UTF-8 and the base64 form of byte
    slices.  Texts are bytes; what follows the first value is not looked at.
    The nesting limit of newer versions of the package is left out. *)

From stdpp Require Import base strings list pretty.
From Stdlib Require Import ZArith Lia Ascii.
From S2P Require Import Prelude GoString.

(** * Bytes and strings *)

Definition is_byte (b : Z) : bool := (0 <=? b) && (b <? 256).

Fixpoint str_bytes (s : string) : bytes :=
  match s with
  | EmptyString => []
  | String c s' => Z.of_nat (nat_of_ascii c) :: str_bytes s'
  end.

Fixpoint bytes_str (l : bytes) : string :=
  match l with
  | [] => EmptyString
  | b :: l' => String (ascii_of_nat (Z.to_nat b)) (bytes_str l')
  end.

(** * UTF-8: [utf8.DecodeRune] and [utf8.EncodeRune] *)

Definition in_range (lo hi b : Z) : bool := (lo <=? b) && (b <=? hi).
Definition is_cont (b : Z) : bool := in_range 128 191 b.

(** The second byte allowed after a lead byte. *)
Definition second_ok (b0 b1 : Z) : bool :=
  if b0 =? 224 then in_range 160 191 b1
  else if b0 =? 237 then in_range 128 159 b1
  else if b0 =? 240 then in_range 144 191 b1
  else if b0 =? 244 then in_range 128 143 b1
  else is_cont b1.

(** The width of the first rune; [None] is [RuneError] of width 1. *)
Definition rune_len (s : bytes) : option nat :=
  match s with
  | [] => None
  | b0 :: s1 =>
      if b0 <? 128 then Some 1%nat
      else if in_range 194 223 b0 then
        match s1 with b1 :: _ => if is_cont b1 then Some 2%nat else None | _ => None end
      else if in_range 224 239 b0 then
        match s1 with
        | b1 :: b2 :: _ => if second_ok b0 b1 && is_cont b2 then Some 3%nat else None
        | _ => None
        end
      else if in_range 240 244 b0 then
        match s1 with
        | b1 :: b2 :: b3 :: _ =>
            if second_ok b0 b1 && is_cont b2 && is_cont b3 then Some 4%nat else None
        | _ => None
        end
      else None
  end.

Definition RuneError : bytes := [239; 191; 189].

Definition encode_rune (u : Z) : bytes :=
  if u <? 128 then [u]
  else if u <? 2048 then [192 + u / 64; 128 + u mod 64]
  else if u <? 65536 then [224 + u / 4096; 128 + (u / 64) mod 64; 128 + u mod 64]
  else [240 + u / 262144; 128 + (u / 4096) mod 64; 128 + (u / 64) mod 64; 128 + u mod 64].

(** [copy]: bytes of the current rune that are still to come. *)
Fixpoint utf8_from (copy : nat) (s : bytes) : bool :=
  match s with
  | [] => (copy =? 0)%nat
  | b :: s1 =>
      match copy with
      | S k => utf8_from k s1
      | O => match rune_len s with Some n => utf8_from (n - 1) s1 | None => false end
      end
  end.

Definition utf8_valid (s : bytes) : bool := utf8_from 0 s.

(** * Base64, the standard encoding with padding *)

Definition enc6 (n : Z) : Z :=
  if n <? 26 then 65 + n
  else if n <? 52 then 97 + (n - 26)
  else if n <? 62 then 48 + (n - 52)
  else if n =? 62 then 43 else 47.

Definition dec6 (c : Z) : option Z :=
  if in_range 65 90 c then Some (c - 65)
  else if in_range 97 122 c then Some (c - 97 + 26)
  else if in_range 48 57 c then Some (c - 48 + 52)
  else if c =? 43 then Some 62
  else if c =? 47 then Some 63 else None.

Fixpoint b64_encode (s : bytes) : bytes :=
  match s with
  | [] => []
  | [a] => [enc6 (a / 4); enc6 (a mod 4 * 16); 61; 61]
  | [a; b] => [enc6 (a / 4); enc6 (a mod 4 * 16 + b / 16); enc6 (b mod 16 * 4); 61]
  | a :: b :: c :: r =>
      enc6 (a / 4) :: enc6 (a mod 4 * 16 + b / 16) :: enc6 (b mod 16 * 4 + c / 64) :: enc6 (c mod 64)
      :: b64_encode r
  end.

Fixpoint b64_quanta (s : bytes) : option bytes :=
  match s with
  | [] => Some []
  | c1 :: c2 :: c3 :: c4 :: r =>
      match dec6 c1, dec6 c2 with
      | Some d1, Some d2 =>
          let b1 := d1 * 4 + d2 / 16 in
          if c3 =? 61 then
            match r with [] => if c4 =? 61 then Some [b1] else None | _ => None end
          else
            match dec6 c3 with
            | None => None
            | Some d3 =>
                let b2 := d2 mod 16 * 16 + d3 / 4 in
                if c4 =? 61 then match r with [] => Some [b1; b2] | _ => None end
                else
                  match dec6 c4, b64_quanta r with
                  | Some d4, Some t => Some (b1 :: b2 :: d3 mod 4 * 64 + d4 :: t)
                  | _, _ => None
                  end
            end
      | _, _ => None
      end
  | _ => None
  end.

(** The decoder skips line breaks. *)
Definition b64_decode (s : bytes) : option bytes :=
  b64_quanta (List.filter (λ c, negb ((c =? 10) || (c =? 13))) s).

(** * Trees *)

(** A number keeps its text, as the decoder does until it knows the type. *)
Unset Elimination Schemes.
Inductive json : Type :=
| JNull
| JBool (b : bool)
| JNum (lit : bytes)
| JStr (s : bytes)
| JArr (l : list json)
| JObj (l : list (bytes * json)).
Set Elimination Schemes.

(** * The encoder *)

Definition hex_digit (n : Z) : Z := if n <? 10 then 48 + n else 97 + (n - 10).

(** [\u00XX] of a byte. *)
Definition esc_u00 (b : Z) : bytes := [92; 117; 48; 48; hex_digit (b / 16); hex_digit (b mod 16)].

(** A byte below 128 inside a string; "<", ">" and "&" are escaped as well. *)
Definition esc_ascii (b : Z) : bytes :=
  if (b =? 34) || (b =? 92) then [92; b]
  else if b =? 10 then [92; 110]
  else if b =? 13 then [92; 114]
  else if b =? 9 then [92; 116]
  else if (b <? 32) || (b =? 60) || (b =? 62) || (b =? 38) then esc_u00 b
  else [b].

(** U+2028 and U+2029, the line separators of JavaScript. *)
Definition is_line_sep (s : bytes) : option Z :=
  match s with
  | a :: b :: c :: _ =>
      if (a =? 226) && (b =? 128) && ((c =? 168) || (c =? 169)) then Some c else None
  | _ => None
  end.

(** [skip] bytes to drop, [copy] bytes to copy, then the next rune. *)
Fixpoint escape (skip copy : nat) (s : bytes) : bytes :=
  match s with
  | [] => []
  | b :: s1 =>
      match skip, copy with
      | S k, _ => escape k 0 s1
      | O, S k => b :: escape 0 k s1
      | O, O =>
          if b <? 128 then esc_ascii b ++ escape 0 0 s1
          else
            match rune_len s with
            | None => [92; 117; 102; 102; 102; 100] ++ escape 0 0 s1
            | Some n =>
                match is_line_sep s with
                | Some e => [92; 117; 50; 48; 50; hex_digit (e - 160)] ++ escape 2 0 s1
                | None => b :: escape 0 (n - 1) s1
                end
            end
      end
  end.

Definition quote (s : bytes) : bytes := 34 :: escape 0 0 s ++ [34].

Fixpoint commas (l : list bytes) : bytes :=
  match l with
  | [] => []
  | [x] => x
  | x :: l' => x ++ 44 :: commas l'
  end.

Fixpoint print (j : json) : bytes :=
  match j with
  | JNull => [110; 117; 108; 108]
  | JBool true => [116; 114; 117; 101]
  | JBool false => [102; 97; 108; 115; 101]
  | JNum lit => lit
  | JStr s => quote s
  | JArr l => 91 :: commas (map print l) ++ [93]
  | JObj l => 123 :: commas (map (λ kv, match kv with (k, v) => quote k ++ 58 :: print v end) l) ++ [125]
  end.

(** * The scanner *)

(** A value and what follows it; the input ended too early; a byte that cannot
    stand where it is.  [PFuel] does not occur ([parse_total]). *)
Inductive pres (A : Type) : Type :=
| POk (a : A) (rest : bytes)
| PEof
| PSyntax
| PFuel.
Arguments POk {A} _ _.
Arguments PEof {A}.
Arguments PSyntax {A}.
Arguments PFuel {A}.

Definition pbind {A B} (m : pres A) (k : A → bytes → pres B) : pres B :=
  match m with POk a r => k a r | PEof => PEof | PSyntax => PSyntax | PFuel => PFuel end.

Definition is_ws (b : Z) : bool := (b =? 32) || (b =? 9) || (b =? 10) || (b =? 13).
Fixpoint skip_ws (s : bytes) : bytes :=
  match s with b :: s' => if is_ws b then skip_ws s' else s | [] => [] end.

Definition hex_val (c : Z) : option Z :=
  if in_range 48 57 c then Some (c - 48)
  else if in_range 97 102 c then Some (c - 97 + 10)
  else if in_range 65 70 c then Some (c - 65 + 10) else None.

Definition hex4 (a b c d : Z) : option Z :=
  match hex_val a, hex_val b, hex_val c, hex_val d with
  | Some a, Some b, Some c, Some d => Some (a * 4096 + b * 256 + c * 16 + d)
  | _, _, _, _ => None
  end.

(** The byte a one-letter escape stands for. *)
Definition unescape (e : Z) : option Z :=
  if (e =? 34) || (e =? 92) || (e =? 47) then Some e
  else if e =? 98 then Some 8
  else if e =? 102 then Some 12
  else if e =? 110 then Some 10
  else if e =? 114 then Some 13
  else if e =? 116 then Some 9 else None.

Definition pcons (l : bytes) (m : pres bytes) : pres bytes := pbind m (λ t r, POk (l ++ t) r).

(** A string from after its opening quote: the text it denotes.  An invalid
    byte and half a surrogate pair become U+FFFD. *)
Fixpoint pstr (copy : nat) (s : bytes) : pres bytes :=
  match s with
  | [] => PEof
  | b :: s1 =>
      match copy with
      | S k => pcons [b] (pstr k s1)
      | O =>
          if b =? 34 then POk [] s1
          else if b <? 32 then PSyntax
          else if b =? 92 then
            match s1 with
            | [] => PEof
            | e :: s2 =>
                if e =? 117 then
                  match s2 with
                  | h1 :: h2 :: h3 :: h4 :: s3 =>
                      match hex4 h1 h2 h3 h4 with
                      | None => PSyntax
                      | Some u =>
                          if in_range 55296 57343 u then
                            match s3 with
                            | c1 :: c2 :: l1 :: l2 :: l3 :: l4 :: s4 =>
                                match (if (c1 =? 92) && (c2 =? 117) then hex4 l1 l2 l3 l4 else None) with
                                | Some v =>
                                    if (u <? 56320) && in_range 56320 57343 v
                                    then pcons (encode_rune ((u - 55296) * 1024 + (v - 56320) + 65536))
                                           (pstr 0 s4)
                                    else pcons RuneError (pstr 0 s3)
                                | None => pcons RuneError (pstr 0 s3)
                                end
                            | _ => pcons RuneError (pstr 0 s3)
                            end
                          else pcons (encode_rune u) (pstr 0 s3)
                      end
                  | _ => if forallb (λ c, match hex_val c with Some _ => true | None => false end) s2
                         then PEof else PSyntax
                  end
                else
                  match unescape e with
                  | Some c => pcons [c] (pstr 0 s2)
                  | None => PSyntax
                  end
            end
          else if b <? 128 then pcons [b] (pstr 0 s1)
          else
            match rune_len s with
            | Some n => pcons [b] (pstr (n - 1) s1)
            | None => pcons RuneError (pstr 0 s1)
            end
      end
  end.

Definition is_digit (b : Z) : bool := in_range 48 57 b.

(** The digits at the head of the input. *)
Fixpoint digits (s : bytes) : bytes * bytes :=
  match s with
  | b :: s' => if is_digit b then let '(d, r) := digits s' in (b :: d, r) else ([], s)
  | [] => ([], [])
  end.

(** At least one digit. *)
Definition digits1 (s : bytes) : pres bytes :=
  match s with
  | [] => PEof
  | b :: _ => if is_digit b then let '(d, r) := digits s in POk d r else PSyntax
  end.

Definition pint (s : bytes) : pres bytes :=
  match s with
  | b :: r => if b =? 48 then POk [48] r else digits1 s
  | [] => PEof
  end.

Definition pfrac (s : bytes) : pres bytes :=
  match s with
  | b :: r => if b =? 46 then pcons [46] (digits1 r) else POk [] s
  | [] => POk [] s
  end.

Definition pexp (s : bytes) : pres bytes :=
  match s with
  | e :: r =>
      if (e =? 101) || (e =? 69) then
        match r with
        | g :: r' => if (g =? 43) || (g =? 45) then pcons [e; g] (digits1 r') else pcons [e] (digits1 r)
        | [] => PEof
        end
      else POk [] s
  | [] => POk [] s
  end.

Definition pnum (s : bytes) : pres bytes :=
  let '(sign, s0) :=
    match s with b :: r => if b =? 45 then ([45], r) else ([], s) | [] => ([], s) end in
  pbind (pint s0) (λ i r1, pbind (pfrac r1) (λ f r2, pbind (pexp r2) (λ e r3,
    POk (sign ++ i ++ f ++ e) r3))).

(** The rest of a literal such as "true", from after its first letter. *)
Fixpoint pword (w : bytes) (j : json) (s : bytes) : pres json :=
  match w, s with
  | [], _ => POk j s
  | _ :: _, [] => PEof
  | c :: w', b :: s' => if b =? c then pword w' j s' else PSyntax
  end.

(** A value; the elements of an array from after "[" or ","; the members of an
    object from after "{" or ",". *)
Fixpoint pval (fuel : nat) (s : bytes) : pres json :=
  match fuel with
  | O => PFuel
  | S f =>
      match skip_ws s with
      | [] => PEof
      | b :: s1 =>
          if b =? 34 then pbind (pstr 0 s1) (λ t r, POk (JStr t) r)
          else if b =? 123 then
            match skip_ws s1 with
            | [] => PEof
            | c :: r => if c =? 125 then POk (JObj []) r
                        else pbind (pmembers f s1) (λ l r, POk (JObj l) r)
            end
          else if b =? 91 then
            match skip_ws s1 with
            | [] => PEof
            | c :: r => if c =? 93 then POk (JArr []) r
                        else pbind (pelems f s1) (λ l r, POk (JArr l) r)
            end
          else if b =? 116 then pword [114; 117; 101] (JBool true) s1
          else if b =? 102 then pword [97; 108; 115; 101] (JBool false) s1
          else if b =? 110 then pword [117; 108; 108] JNull s1
          else if (b =? 45) || is_digit b then pbind (pnum (b :: s1)) (λ t r, POk (JNum t) r)
          else PSyntax
      end
  end
with pelems (fuel : nat) (s : bytes) : pres (list json) :=
  match fuel with
  | O => PFuel
  | S f =>
      pbind (pval f s) (λ v r,
        match skip_ws r with
        | [] => PEof
        | c :: r1 =>
            if c =? 44 then pbind (pelems f r1) (λ l r2, POk (v :: l) r2)
            else if c =? 93 then POk [v] r1 else PSyntax
        end)
  end
with pmembers (fuel : nat) (s : bytes) : pres (list (bytes * json)) :=
  match fuel with
  | O => PFuel
  | S f =>
      match skip_ws s with
      | [] => PEof
      | q :: s1 =>
          if q =? 34 then
            pbind (pstr 0 s1) (λ k r,
              match skip_ws r with
              | [] => PEof
              | c :: r0 =>
                  if c =? 58 then
                    pbind (pval f r0) (λ v r1,
                      match skip_ws r1 with
                      | [] => PEof
                      | c :: r2 =>
                          if c =? 44 then pbind (pmembers f r2) (λ l r3, POk ((k, v) :: l) r3)
                          else if c =? 125 then POk [(k, v)] r2 else PSyntax
                      end)
                  else PSyntax
              end)
          else PSyntax
      end
  end.

Definition parse (s : bytes) : pres json := pval (2 * length s + 2) s.
