(* ===== verification/JsonProof.v ===== *)
(** The encoder and the scanner of [Json] are inverse; the scanner always comes
    to a result; a text that is cut short is recognised as such. *)

From stdpp Require Import base strings list pretty.
From Stdlib Require Import ZArith Lia Ascii.
From S2P Require Import Prelude GoString Json.

(** Induction on trees, through the lists of elements and members. *)
Definition json_ind (P : json → Prop) (Hnull : P JNull) (Hbool : ∀ b, P (JBool b))
    (Hnum : ∀ l, P (JNum l)) (Hstr : ∀ s, P (JStr s))
    (Harr : ∀ l, Forall P l → P (JArr l)) (Hobj : ∀ l, Forall (λ kv, P kv.2) l → P (JObj l)) :=
  fix go (j : json) : P j :=
    match j with
    | JNull => Hnull
    | JBool b => Hbool b
    | JNum l => Hnum l
    | JStr s => Hstr s
    | JArr l => Harr l ((fix elems (l : list json) : Forall P l :=
        match l with [] => Forall_nil_2 _ | x :: l' => Forall_cons_2 _ x l' (go x) (elems l') end) l)
    | JObj l => Hobj l ((fix members (l : list (bytes * json)) : Forall (λ kv, P kv.2) l :=
        match l with
        | [] => Forall_nil_2 _
        | x :: l' => Forall_cons_2 _ x l' (go x.2) (members l')
        end) l)
    end.

(** ** Facts checked on every byte *)

Lemma all_below (n : Z) (P : Z → bool) :
  forallb P (seqZ 0 n) = true → ∀ b, 0 ≤ b < n → P b = true.
Proof. intros H b Hb. rewrite forallb_forall in H. apply H, list_elem_of_In, elem_of_seqZ. lia. Qed.

Lemma is_byte_spec b : is_byte b = true ↔ 0 ≤ b < 256.
Proof. unfold is_byte. zbool. Qed.

Lemma in_range_spec lo hi b : in_range lo hi b = true ↔ lo ≤ b ≤ hi.
Proof. unfold in_range. zbool. Qed.

(** ** Strings and their bytes *)

Lemma bytes_str_bytes s : bytes_str (str_bytes s) = s.
Proof.
  induction s as [|c s IH]; simpl; [done|]. by rewrite Nat2Z.id, ascii_nat_embedding, IH.
Qed.

Lemma str_bytes_ok s : forallb is_byte (str_bytes s) = true.
Proof.
  induction s as [|c s IH]; simpl; [done|]. rewrite IH, andb_true_r.
  apply is_byte_spec. pose proof (nat_ascii_bounded c). lia.
Qed.

Lemma str_bytes_inj s t : str_bytes s = str_bytes t → s = t.
Proof. intros H. by rewrite <- (bytes_str_bytes s), H, bytes_str_bytes. Qed.

Lemma str_bytes_app s t : str_bytes (String.append s t) = str_bytes s ++ str_bytes t.
Proof. induction s; simpl; congruence. Qed.

(** ** Base64 *)

Lemma dec_enc6 n : 0 ≤ n < 64 → dec6 (enc6 n) = Some n ∧ enc6 n ≠ 61 ∧ enc6 n ≠ 10 ∧ enc6 n ≠ 13.
Proof.
  intros Hn. pose proof (all_below 64 (λ n, bool_decide (dec6 (enc6 n) = Some n ∧ enc6 n ≠ 61 ∧
    enc6 n ≠ 10 ∧ enc6 n ≠ 13)) eq_refl n Hn) as H. by apply bool_decide_eq_true in H.
Qed.

Lemma three_ind (P : bytes → Prop) :
  P [] → (∀ a, P [a]) → (∀ a b, P [a; b]) → (∀ a b c r, P r → P (a :: b :: c :: r)) → ∀ l, P l.
Proof.
  intros H0 H1 H2 H3. fix go 1. intros [|a [|b [|c r]]]; [apply H0|apply H1|apply H2|apply H3, go].
Qed.

Lemma b64_no_breaks s :
  forallb is_byte s = true →
  List.filter (λ c, negb ((c =? 10) || (c =? 13))) (b64_encode s) = b64_encode s.
Proof.
  assert (∀ n l, 0 ≤ n < 64 → List.filter (λ c, negb ((c =? 10) || (c =? 13))) (enc6 n :: l) =
    enc6 n :: List.filter (λ c, negb ((c =? 10) || (c =? 13))) l) as Hf.
  { intros n l Hn. destruct (dec_enc6 n Hn) as (_ & _ & ? & ?). simpl.
    rewrite (proj2 (Z.eqb_neq _ 10)), (proj2 (Z.eqb_neq _ 13)) by done. done. }
  induction s as [|a|a b|a b c r IH] using three_ind; [done|..]; cbn [forallb b64_encode];
    rewrite ?andb_true_iff, ?is_byte_spec; intros Hb;
    rewrite !Hf by (Z.div_mod_to_equations; lia); try done.
  rewrite IH; [done|]. tauto.
Qed.

Lemma b64_roundtrip s : forallb is_byte s = true → b64_decode (b64_encode s) = Some s.
Proof.
  intros Hb. unfold b64_decode. rewrite b64_no_breaks by done. revert Hb.
  assert (∀ n, 0 ≤ n < 64 → dec6 (enc6 n) = Some n) as Hd by (intros n Hn; by apply dec_enc6).
  assert (∀ n, 0 ≤ n < 64 → (enc6 n =? 61) = false) as He
    by (intros n Hn; apply Z.eqb_neq; by apply dec_enc6).
  induction s as [|a|a b|a b c r IH] using three_ind; [done|..]; cbn [forallb b64_encode b64_quanta];
    rewrite ?andb_true_iff, ?is_byte_spec; intros Hb;
    rewrite !Hd, ?He by (Z.div_mod_to_equations; lia); simpl.
  - do 2 f_equal. Z.div_mod_to_equations; lia.
  - do 2 f_equal; [|f_equal]; Z.div_mod_to_equations; lia.
  - rewrite IH by tauto. do 2 f_equal; [|f_equal; [|f_equal]]; Z.div_mod_to_equations; lia.
Qed.

(** ** Strings *)

Lemma rune_len_bounds s n : rune_len s = Some n → (1 ≤ n ≤ length s)%nat.
Proof.
  destruct s as [|b0 s]; simpl; [done|].
  destruct (b0 <? 128); [intros [= <-]; lia|].
  destruct (in_range 194 223 b0), (in_range 224 239 b0), (in_range 240 244 b0);
    destruct s as [|b1 [|b2 [|b3 s]]]; simpl; repeat case_match; intros; simplify_eq; lia.
Qed.

(** Only the bytes of the rune matter. *)
Lemma rune_len_take s n t : rune_len s = Some n → rune_len (take n s ++ t) = Some n.
Proof.
  destruct s as [|b0 s]; simpl; [done|]. intros H. revert H.
  destruct (b0 <? 128) eqn:E0; [intros [= <-]; simpl; by rewrite E0|].
  destruct (in_range 194 223 b0) eqn:E1;
    [|destruct (in_range 224 239 b0) eqn:E2; [|destruct (in_range 240 244 b0) eqn:E3; [|done]]].
  - destruct s as [|b1 s]; [done|]. destruct (is_cont b1) eqn:C1; [|done]. intros [= <-].
    simpl. by rewrite E0, E1, C1.
  - destruct s as [|b1 [|b2 s]]; [done..|]. destruct (_ && _) eqn:C1; [|done]. intros [= <-].
    simpl. by rewrite E0, E1, E2, C1.
  - destruct s as [|b1 [|b2 [|b3 s]]]; [done..|]. destruct (_ && _) eqn:C1; [|done]. intros [= <-].
    simpl. by rewrite E0, E1, E2, E3, C1.
Qed.

Lemma utf8_from_drop k : ∀ s, (k ≤ length s)%nat → utf8_from k s = utf8_valid (drop k s).
Proof.
  induction k as [|k IH]; intros s Hk; [done|]. destruct s as [|b s]; simpl in *; [lia|]. apply IH. lia.
Qed.

Lemma escape_copy k : ∀ s, (k ≤ length s)%nat → escape 0 k s = take k s ++ escape 0 0 (drop k s).
Proof.
  induction k as [|k IH]; intros s Hk; [done|]. destruct s as [|b s]; simpl in *; [lia|].
  by rewrite IH by lia.
Qed.

Lemma pcons_app l1 l2 m : pcons l1 (pcons l2 m) = pcons (l1 ++ l2) m.
Proof. unfold pcons. destruct m; simpl; [by rewrite app_assoc|done..]. Qed.

Lemma pstr_copy l : ∀ r, pstr (length l) (l ++ r) = pcons l (pstr 0 r).
Proof.
  induction l as [|b l IH]; intros r; simpl.
  - unfold pcons. by destruct (pstr 0 r).
  - by rewrite IH, pcons_app.
Qed.

(** What the encoder writes for a byte below 128 denotes that byte. *)
Definition esc_ok (b : Z) : bool :=
  match esc_ascii b with
  | [c] => (c =? b) && negb (c =? 34) && negb (c =? 92) && (32 <=? c)
  | [q; c] => (q =? 92) && negb (c =? 117) && bool_decide (unescape c = Some b)
  | [q; u; h1; h2; h3; h4] =>
      (q =? 92) && (u =? 117) && bool_decide (hex4 h1 h2 h3 h4 = Some b) &&
      forallb (λ c, match hex_val c with Some _ => true | None => false end) [h1; h2; h3; h4]
  | _ => false
  end.

Lemma pstr_ascii b r : 0 ≤ b < 128 → pstr 0 (esc_ascii b ++ r) = pcons [b] (pstr 0 r).
Proof.
  intros Hb. pose proof (all_below 128 esc_ok eq_refl b Hb) as H. unfold esc_ok in H.
  destruct (esc_ascii b) as [|q [|c [|h1 [|h2 [|h3 [|h4 [|]]]]]]]; try done.
  - apply andb_true_iff in H as [[[->%Z.eqb_eq H1]%andb_true_iff H2]%andb_true_iff H3].
    apply negb_true_iff in H1, H2. simpl. rewrite H1, H2.
    rewrite (proj2 (Z.ltb_ge b 32)), (proj2 (Z.ltb_lt b 128)) by (apply Z.leb_le in H3; lia). done.
  - apply andb_true_iff in H as [[->%Z.eqb_eq H1%negb_true_iff]%andb_true_iff H2%bool_decide_eq_true].
    simpl. by rewrite H1, H2.
  - apply andb_true_iff in H as [[[->%Z.eqb_eq ->%Z.eqb_eq]%andb_true_iff H2%bool_decide_eq_true]%andb_true_iff _].
    simpl. rewrite H2. unfold in_range. rewrite (proj2 (Z.leb_gt 55296 b)) by lia. simpl.
    unfold encode_rune. by rewrite (proj2 (Z.ltb_lt b 128)) by lia.
Qed.

Lemma is_line_sep_spec s e :
  is_line_sep s = Some e → ∃ t, s = 226 :: 128 :: e :: t ∧ (e = 168 ∨ e = 169).
Proof.
  destruct s as [|a [|b [|c t]]]; simpl; try done.
  destruct (Z.eqb_spec a 226), (Z.eqb_spec b 128); simpl; try done. subst.
  destruct (Z.eqb_spec c 168), (Z.eqb_spec c 169); simpl; try done; intros [= <-]; eauto.
Qed.

(** The shape of the encoding, one rune at a time. *)
Lemma escape_step b s :
  utf8_valid (b :: s) = true → forallb is_byte (b :: s) = true →
  (0 ≤ b < 128 ∧ utf8_valid s = true ∧ escape 0 0 (b :: s) = esc_ascii b ++ escape 0 0 s) ∨
  (∃ e t, b :: s = 226 :: 128 :: e :: t ∧ (e = 168 ∨ e = 169) ∧ utf8_valid t = true ∧
     escape 0 0 (b :: s) = [92; 117; 50; 48; 50; hex_digit (e - 160)] ++ escape 0 0 t) ∨
  (∃ n, 128 ≤ b ∧ rune_len (b :: s) = Some (S n) ∧ (n ≤ length s)%nat ∧ utf8_valid (drop n s) = true ∧
     escape 0 0 (b :: s) = b :: take n s ++ escape 0 0 (drop n s)).
Proof.
  intros Hv Hb. unfold utf8_valid in Hv. cbn [utf8_from] in Hv.
  destruct (rune_len (b :: s)) as [n|] eqn:Er; [|done].
  pose proof (rune_len_bounds _ _ Er) as Hn. simpl in Hn.
  destruct n as [|n]; [lia|]. replace (S n - 1)%nat with n in Hv by lia.
  rewrite utf8_from_drop in Hv by lia.
  apply andb_true_iff in Hb as [Hb%is_byte_spec _].
  destruct (Z.ltb_spec b 128) as [Hlt|Hge].
  { left. simpl in Er. rewrite (proj2 (Z.ltb_lt b 128)) in Er by done. injection Er as <-.
    split; [lia|]. split; [done|]. cbn [escape]. by rewrite (proj2 (Z.ltb_lt b 128)). }
  right. cbn [escape]. rewrite (proj2 (Z.ltb_ge b 128)), Er by done.
  destruct (is_line_sep (b :: s)) as [e|] eqn:El; [left|right].
  - apply is_line_sep_spec in El as (t & E & He). exists e, t. split_and!; try done.
    + injection E as -> ->. simpl in Er. destruct (is_cont e); [|done]. injection Er as <-. done.
    + injection E as -> ->. done.
  - exists n. split_and!; try done; [lia|]. replace (S n - 1)%nat with n by lia.
    by rewrite escape_copy by lia.
Qed.

Lemma forallb_drop {A} (P : A → bool) n l : forallb P l = true → forallb P (drop n l) = true.
Proof.
  revert l; induction n as [|n IH]; intros [|x l]; simpl; try done.
  intros [_ H]%andb_true_iff. by apply IH.
Qed.

(** Induction along the runes of a valid text. *)
Lemma pstr_escape s : ∀ rest,
  utf8_valid s = true → forallb is_byte s = true →
  pstr 0 (escape 0 0 s ++ 34 :: rest) = POk s rest.
Proof.
  induction s as [s IH] using (induction_ltof1 _ length); unfold ltof in IH.
  intros rest Hv Hb. destruct s as [|b s]; [done|].
  destruct (escape_step b s Hv Hb) as [(Hlt & Hv' & ->)|[(e & t & E & He & Hv' & ->)|
    (n & Hge & Er & Hn & Hv' & ->)]].
  - rewrite <- app_assoc, pstr_ascii, IH by (simpl; try lia; try done; by apply andb_true_iff in Hb as [_ ?]).
    done.
  - rewrite E in *. rewrite <- app_assoc.
    assert (forallb is_byte t = true) as Ht by (apply (forallb_drop _ 3) in Hb; done).
    destruct He as [-> | ->]; cbn [app pstr]; simpl;
      (rewrite IH by (simpl; try lia; done)); done.
  - cbn [app]. rewrite <- app_assoc.
    assert (rune_len (b :: take n s ++ escape 0 0 (drop n s) ++ 34 :: rest) = Some (S n)) as Er2.
    { apply (rune_len_take _ _ (escape 0 0 (drop n s) ++ 34 :: rest)) in Er. done. }
    cbn [pstr]. rewrite (proj2 (Z.eqb_neq b 34)), (proj2 (Z.ltb_ge b 32)), (proj2 (Z.eqb_neq b 92)),
      (proj2 (Z.ltb_ge b 128)), Er2 by lia.
    replace (S n - 1)%nat with (length (take n s)) by (rewrite length_take; lia).
    rewrite pstr_copy, IH; [| |done|].
    + simpl. by rewrite take_drop.
    + simpl. rewrite length_drop. lia.
    + apply forallb_drop. by apply andb_true_iff in Hb as [_ ?].
Qed.

(** ** Numbers *)

Lemma digit_char (x : N) : (x < 10)%N →
  digit_of (pretty_N_char x) = Some (Z.of_N x) ∧
  Z.of_nat (nat_of_ascii (pretty_N_char x)) = 48 + Z.of_N x.
Proof.
  intros Hx. pose proof (all_below 10 (λ z, bool_decide (
    digit_of (pretty_N_char (Z.to_N z)) = Some z ∧
    Z.of_nat (nat_of_ascii (pretty_N_char (Z.to_N z))) = 48 + z)) eq_refl (Z.of_N x) ltac:(lia)) as H.
  apply bool_decide_eq_true in H. by rewrite N2Z.id in H.
Qed.

(** The digits of [x], as [Itoa] writes them before [s]. *)
Lemma pretty_digits (x : N) : ∀ s, ∃ d,
  pretty_N_go x s = String.append d s ∧
  (∀ t, parse_digits 0 (String.append d t) = parse_digits (Z.of_N x) t) ∧
  forallb is_digit (str_bytes d) = true ∧ (x = 0%N → d = EmptyString) ∧
  ((0 < x)%N → ∃ b l, str_bytes d = b :: l ∧ b ≠ 48).
Proof.
  induction (N.lt_wf_0 x) as [x _ IH]; intros s.
  assert (x = 0 ∨ 0 < x)%N as [->|Hx] by lia.
  { exists EmptyString. rewrite pretty_N_go_0. split_and!; try done. }
  rewrite pretty_N_go_step by done.
  destruct (digit_char (x mod 10) ltac:(by apply N.mod_lt)) as [Hd Hn].
  set (c := pretty_N_char (x mod 10)) in *.
  destruct (IH (x / 10)%N ltac:(by apply N.div_lt) (String c s)) as (d & -> & Hp & Hall & H0 & Hhd).
  exists (String.append d (String c EmptyString)). split_and!; [..|lia|].
  - by rewrite <- str_app_assoc.
  - intros t. rewrite <- str_app_assoc. simpl. rewrite Hp. cbn [parse_digits]. rewrite Hd.
    f_equal. rewrite N2Z.inj_div, N2Z.inj_mod. pose proof (Z.div_mod (Z.of_N x) 10 ltac:(lia)). lia.
  - rewrite str_bytes_app, forallb_app, Hall. cbn [str_bytes forallb]. rewrite Hn.
    pose proof (N.mod_lt x 10 ltac:(lia)).
    assert (is_digit (48 + Z.of_N (x mod 10)) = true) as ->; [|done].
    assert (0 ≤ Z.of_N (x mod 10)) by apply N2Z.is_nonneg. apply in_range_spec. lia.
  - intros _. rewrite str_bytes_app. destruct (decide (x / 10 = 0)%N) as [E|E].
    + rewrite H0 by done. simpl. exists (Z.of_nat (nat_of_ascii c)), []. split; [done|]. rewrite Hn.
      apply N.div_small_iff in E; [|done]. rewrite N.mod_small by done. lia.
    + destruct Hhd as (b & l & -> & Hb); [by apply N.neq_0_lt_0|]. by exists b, (l ++ str_bytes (String c EmptyString)).
Qed.

(** A natural number in decimal: no sign, no leading zero. *)
Lemma Itoa_digits (z : Z) : 0 ≤ z →
  parse_digits 0 (Itoa z) = Some z ∧
  ∃ b l, str_bytes (Itoa z) = b :: l ∧ forallb is_digit (b :: l) = true ∧ (b = 48 → l = []).
Proof.
  intros Hz. unfold Itoa. destruct z as [|p|p]; [|clear Hz|lia].
  - split; [done|]. by exists 48, [].
  - change (pretty (Z.pos p)) with (pretty_N_go (Npos p) EmptyString).
    destruct (pretty_digits (Npos p) EmptyString) as (d & -> & Hp & Hall & _ & Hhd).
    rewrite str_app_nil_r. split; [by rewrite <- (str_app_nil_r d), Hp|].
    destruct Hhd as (b & l & E & Hb); [lia|]. exists b, l. rewrite E in Hall. done.
Qed.

Lemma ParseUint_Itoa z bits : 0 ≤ z < 2 ^ bits → ParseUint (Itoa z) bits = Some z.
Proof.
  intros Hz. destruct (Itoa_digits z ltac:(lia)) as (Hp & b & l & E & _).
  unfold ParseUint. destruct (Itoa z) eqn:Es; [done|]. rewrite Hp.
  by rewrite (proj2 (Z.ltb_lt _ _)) by lia.
Qed.

Lemma ParseUint_Itoa_inv z bits z' : ParseUint (Itoa z) bits = Some z' → z' = z ∧ 0 ≤ z.
Proof.
  destruct (Z.ltb_spec z 0) as [Hneg|Hpos].
  - destruct z; [lia|lia|]. discriminate.
  - destruct (Itoa_digits z Hpos) as (Hp & b & l & E & _). unfold ParseUint.
    destruct (Itoa z) eqn:Es; [done|]. rewrite Hp. destruct (_ <? _); [|done]. by intros [= <-].
Qed.

Lemma Itoa_neg z : z < 0 → Itoa z = String.append "-" (Itoa (- z)).
Proof. destruct z; [done|done|reflexivity]. Qed.

Lemma digit_not_sign c d : digit_of c = Some d → c ≠ "+"%char ∧ c ≠ "-"%char.
Proof. by intros H; split; intros ->. Qed.

Lemma ParseInt_Itoa z bits : 0 < bits → - 2 ^ (bits - 1) ≤ z < 2 ^ (bits - 1) → ParseInt (Itoa z) bits = Some z.
Proof.
  intros Hbits Hz. destruct (Z.ltb_spec z 0) as [Hneg|Hpos].
  - rewrite Itoa_neg by done. destruct (Itoa_digits (- z) ltac:(lia)) as (Hp & b & l & E & _).
    unfold ParseInt. simpl. destruct (Itoa (- z)) eqn:Es; [done|]. rewrite Hp.
    rewrite (proj2 (Z.leb_le _ _)) by lia. by rewrite Z.opp_involutive.
  - destruct (Itoa_digits z Hpos) as (Hp & b & l & E & _). unfold ParseInt.
    destruct (Itoa z) as [|c s] eqn:Es; [done|].
    assert (∃ d, digit_of c = Some d) as [d Hd].
    { cbn [parse_digits] in Hp. destruct (digit_of c); [eauto|done]. }
    destruct (digit_not_sign c d Hd) as [H1 H2].
    rewrite (proj2 (Ascii.eqb_neq c _) H1), (proj2 (Ascii.eqb_neq c _) H2), Hp.
    by rewrite (proj2 (Z.ltb_lt _ _)) by lia.
Qed.

(** What may follow a number. *)
Definition num_end (rest : bytes) : Prop :=
  match rest with
  | [] => True
  | c :: _ => is_digit c = false ∧ c ≠ 46 ∧ c ≠ 101 ∧ c ≠ 69
  end.

Lemma digits_all l rest : forallb is_digit l = true → num_end rest → digits (l ++ rest) = (l, rest).
Proof.
  intros Hl Hr. induction l as [|b l IH]; simpl in *.
  - destruct rest as [|c r]; [done|]. simpl. destruct Hr as [-> _]. done.
  - apply andb_true_iff in Hl as [-> Hl]. by rewrite IH.
Qed.

Lemma pint_ok b l rest :
  forallb is_digit (b :: l) = true → (b = 48 → l = []) → num_end rest → pint (b :: l ++ rest) = POk (b :: l) rest.
Proof.
  intros Hd H0 Hr. unfold pint. destruct (Z.eqb_spec b 48) as [->|Hb]; [by rewrite H0|].
  cbn [forallb] in Hd. apply andb_true_iff in Hd as [Hb' Hl]. unfold digits1. rewrite Hb'.
  change (b :: l ++ rest) with ((b :: l) ++ rest). rewrite digits_all; [done| |done].
  cbn [forallb]. by rewrite Hb', Hl.
Qed.

Lemma pnum_tail sign i rest :
  num_end rest →
  pbind (POk i rest) (λ i r1, pbind (pfrac r1) (λ f r2, pbind (pexp r2) (λ e r3,
    POk (sign ++ i ++ f ++ e) r3))) = POk (sign ++ i) rest.
Proof.
  intros Hr. simpl. destruct rest as [|c r]; simpl; [by rewrite app_nil_r|]. destruct Hr as (_ & H1 & H2 & H3).
  rewrite (proj2 (Z.eqb_neq c 46)) by done. simpl.
  rewrite (proj2 (Z.eqb_neq c 101)), (proj2 (Z.eqb_neq c 69)) by done. simpl. by rewrite app_nil_r.
Qed.

(** A decimal integer is scanned as one number. *)
Lemma pnum_Itoa z rest :
  num_end rest → pnum (str_bytes (Itoa z) ++ rest) = POk (str_bytes (Itoa z)) rest.
Proof.
  intros Hr. unfold pnum. destruct (Z.ltb_spec z 0) as [Hneg|Hpos].
  - rewrite Itoa_neg by done. destruct (Itoa_digits (- z) ltac:(lia)) as (_ & b & l & E & Hd & H0).
    simpl. rewrite E. cbn [app]. rewrite pint_ok by done. by apply (pnum_tail [45]).
  - destruct (Itoa_digits z Hpos) as (_ & b & l & E & Hd & H0). rewrite E. cbn [app].
    assert ((b =? 45) = false) as ->.
    { simpl in Hd. apply andb_true_iff in Hd as [Hd%in_range_spec _]. apply Z.eqb_neq. lia. }
    rewrite pint_ok by done. by apply (pnum_tail []).
Qed.

Lemma Itoa_head z : ∃ b l, str_bytes (Itoa z) = b :: l ∧ (b = 45 ∨ is_digit b = true).
Proof.
  destruct (Z.ltb_spec z 0) as [Hneg|Hpos].
  - rewrite Itoa_neg by done. exists 45, (str_bytes (Itoa (- z))). split; [done|by left].
  - destruct (Itoa_digits z Hpos) as (_ & b & l & E & Hd & _). exists b, l. split; [done|right].
    simpl in Hd. by apply andb_true_iff in Hd as [? _].
Qed.

(** ** Trees *)

(** Texts that are valid UTF-8: those the encoder writes without loss. *)
Definition text_ok (s : bytes) : bool := forallb is_byte s && utf8_valid s.

Unset Elimination Schemes.
Inductive json_ok : json → Prop :=
| ok_null : json_ok JNull
| ok_bool b : json_ok (JBool b)
| ok_num z : json_ok (JNum (str_bytes (Itoa z)))
| ok_str s : text_ok s = true → json_ok (JStr s)
| ok_arr l : Forall json_ok l → json_ok (JArr l)
| ok_obj l : Forall (λ kv, text_ok kv.1 = true ∧ json_ok kv.2) l → json_ok (JObj l).
Set Elimination Schemes.

(** Enough fuel for a tree. *)
Fixpoint jsize (j : json) : nat :=
  match j with
  | JArr l => S (list_sum (map (λ x, S (jsize x)) l))
  | JObj l => S (list_sum (map (λ kv, match kv with (_, v) => S (jsize v) end) l))
  | _ => 1
  end.

Definition print_member (kv : bytes * json) : bytes := match kv with (k, v) => quote k ++ 58 :: print v end.

Lemma print_obj l : print (JObj l) = 123 :: commas (map print_member l) ++ [125].
Proof. done. Qed.

(** How the text of a tree begins. *)
Lemma print_head j : json_ok j → ∃ b t, print j = b :: t ∧ is_ws b = false ∧ b ≠ 93 ∧ b ≠ 125.
Proof.
  destruct 1 as [|[]|z|s|l|l]; try (eexists _, _; split; [reflexivity|done]).
  destruct (Itoa_head z) as (b & l & E & Hb). exists b, l. split; [exact E|].
  destruct Hb as [->|Hb%in_range_spec]; [done|]. unfold is_ws. zbool.
Qed.

Lemma skip_ws_head b t : is_ws b = false → skip_ws (b :: t) = b :: t.
Proof. simpl. by intros ->. Qed.

Lemma text_okE s : text_ok s = true → forallb is_byte s = true ∧ utf8_valid s = true.
Proof. apply andb_true_iff. Qed.

Lemma pstr_quote s rest : text_ok s = true → pstr 0 (escape 0 0 s ++ [34] ++ rest) = POk s rest.
Proof. intros [Hb Hv]%text_okE. by apply pstr_escape. Qed.

(** A value is one of: a string, an object, an array, a word, a number. *)
Lemma pval_num f z rest :
  num_end rest → pval (S f) (str_bytes (Itoa z) ++ rest) = POk (JNum (str_bytes (Itoa z))) rest.
Proof.
  intros Hr. pose proof (pnum_Itoa z rest Hr) as Hp. destruct (Itoa_head z) as (b & l & E & Hb).
  rewrite E in *. cbn [app] in *. cbn [pval].
  assert (is_ws b = false ∧ b ≠ 34 ∧ b ≠ 123 ∧ b ≠ 91 ∧ b ≠ 116 ∧ b ≠ 102 ∧ b ≠ 110 ∧
    (b =? 45) || is_digit b = true) as (Hw & H1 & H2 & H3 & H4 & H5 & H6 & H7).
  { destruct Hb as [->|Hb]; [done|]. rewrite Hb, orb_true_r. apply in_range_spec in Hb.
    unfold is_ws. split_and!; try done; try lia. }
  rewrite skip_ws_head by done. rewrite !(proj2 (Z.eqb_neq _ _)) by done. by rewrite H7, Hp.
Qed.

Lemma pval_str f s rest : text_ok s = true → pval (S f) (quote s ++ rest) = POk (JStr s) rest.
Proof.
  intros Hs. unfold quote. cbn [app pval skip_ws is_ws]. simpl. rewrite <- app_assoc.
  by rewrite pstr_quote.
Qed.

Lemma commas_cons x y l : commas (x :: y :: l) = x ++ 44 :: commas (y :: l).
Proof. done. Qed.

Lemma pelems_print l : ∀ f rest,
  l ≠ [] →
  Forall (λ j, ∀ f rest, num_end rest → (jsize j ≤ f)%nat → pval f (print j ++ rest) = POk j rest) l →
  (list_sum (map (λ x, S (jsize x)) l) ≤ f)%nat →
  pelems f (commas (map print l) ++ 93 :: rest) = POk l rest.
Proof.
  induction l as [|j l IH]; intros f rest Hne Hok Hf; [done|].
  apply Forall_cons in Hok as [Hj Hok]. cbn [map list_sum fold_right] in Hf. destruct f as [|f]; [lia|].
  destruct l as [|j2 l].
  - cbn [map commas pelems]. rewrite Hj by (done || lia). done.
  - cbn [map]. rewrite commas_cons, <- app_assoc. cbn [app pelems].
    rewrite Hj by (done || lia). cbn [pbind]. rewrite skip_ws_head by done. simpl (44 =? 44).
    cbn iota. change (print j2 :: map print l) with (map print (j2 :: l)).
    rewrite (IH f rest) by (done || (unfold list_sum in *; cbn [map fold_right] in *; lia)). done.
Qed.

Lemma pmembers_print l : ∀ f rest,
  l ≠ [] → Forall (λ kv : bytes * json, text_ok kv.1 = true) l →
  Forall (λ kv, ∀ f rest, num_end rest → (jsize kv.2 ≤ f)%nat → pval f (print kv.2 ++ rest) = POk kv.2 rest) l →
  (list_sum (map (λ kv : bytes * json, match kv with (_, v) => S (jsize v) end) l) ≤ f)%nat →
  pmembers f (commas (map print_member l) ++ 125 :: rest) = POk l rest.
Proof.
  induction l as [|[k v] l IH]; intros f rest Hne Hk Hok Hf; [done|].
  apply Forall_cons in Hok as [Hj Hok]. apply Forall_cons in Hk as [Hk1 Hk]. simpl in Hj, Hk1.
  cbn [map list_sum fold_right] in Hf. destruct f as [|f]; [lia|].
  assert (∀ tl, num_end tl → pmembers (S f) (print_member (k, v) ++ tl) =
    match skip_ws tl with
    | [] => PEof
    | c :: r2 => if c =? 44 then pbind (pmembers f r2) (λ l r3, POk ((k, v) :: l) r3)
                 else if c =? 125 then POk [(k, v)] r2 else PSyntax
    end) as Hone.
  { intros tl Htl. cbn [print_member pmembers]. unfold quote. cbn [app]. rewrite skip_ws_head by done.
    simpl (34 =? 34). cbn iota. rewrite <- !app_assoc. rewrite pstr_quote by done. cbn [pbind app].
    rewrite skip_ws_head by done. simpl (58 =? 58). cbn iota. rewrite Hj by (done || lia). done. }
  destruct l as [|kv2 l].
  - cbn [map commas]. by rewrite Hone.
  - cbn [map]. rewrite commas_cons, <- app_assoc. rewrite Hone by done. cbn [app].
    rewrite skip_ws_head by done. simpl (44 =? 44). cbn iota.
    change (print_member kv2 :: map print_member l) with (map print_member (kv2 :: l)).
    rewrite (IH f rest) by (done || (unfold list_sum in *; cbn [map fold_right] in *; lia)). done.
Qed.

Lemma commas_head x l : ∀ b t, x = b :: t → ∃ t', commas (x :: l) = b :: t'.
Proof. intros b t ->. destruct l; [by exists t|]. eexists. reflexivity. Qed.

Lemma pval_print j : json_ok j → ∀ f rest,
  num_end rest → (jsize j ≤ f)%nat → pval f (print j ++ rest) = POk j rest.
Proof.
  induction j as [|b|lit|s|l IH|l IH] using json_ind; intros Hok f rest Hr Hf;
    (destruct f as [|f]; [simpl in Hf; lia|]); inversion Hok as [|b'|z|s' Hs|l' Hl|l' Hl]; subst.
  - done.
  - by destruct b.
  - by apply pval_num.
  - by apply pval_str.
  - cbn [print app]. rewrite <- app_assoc. cbn [app pval]. rewrite skip_ws_head by done. simpl (91 =? 34).
    simpl (91 =? 123). simpl (91 =? 91). cbn iota. destruct l as [|j l]; [done|].
    pose proof (Forall_inv Hl) as Hj. destruct (print_head j Hj) as (b & t & Eb & Hw & Hb & _).
    destruct (commas_head (print j) (map print l) b t Eb) as (t' & Et). cbn [map]. rewrite Et. cbn [app].
    rewrite skip_ws_head, (proj2 (Z.eqb_neq b 93)) by done.
    change (b :: t' ++ 93 :: rest) with ((b :: t') ++ 93 :: rest). rewrite <- Et.
    change (print j :: map print l) with (map print (j :: l)).
    rewrite pelems_print; [done|done| |by apply le_S_n].
    clear -IH Hl. induction Hl; inversion_clear IH; constructor; auto.
  - rewrite print_obj. cbn [app]. rewrite <- app_assoc. cbn [app pval]. rewrite skip_ws_head by done.
    simpl (123 =? 34). simpl (123 =? 123). cbn iota. destruct l as [|[k v] l]; [done|].
    destruct (commas_head (print_member (k, v)) (map print_member l) 34 (escape 0 0 k ++ [34] ++ 58 :: print v))
      as (t' & Et); [unfold print_member, quote; simpl; by rewrite <- app_assoc|].
    cbn [map]. rewrite Et. cbn [app]. rewrite skip_ws_head by done. simpl (34 =? 125). cbn iota.
    change (34 :: t' ++ 125 :: rest) with ((34 :: t') ++ 125 :: rest). rewrite <- Et.
    change (print_member (k, v) :: map print_member l) with (map print_member ((k, v) :: l)).
    rewrite pmembers_print; [done|done| | |by apply le_S_n].
    + eapply Forall_impl; [exact Hl|]. by intros ? [? _].
    + clear -IH Hl. induction Hl as [|? ? [? ?]]; inversion_clear IH; constructor; auto.
Qed.

Lemma commas_length l : (list_sum (map (λ x, S (length x)) l) ≤ S (length (commas l)))%nat.
Proof.
  induction l as [|x [|y l] IH]; [simpl; lia|simpl; lia|].
  rewrite commas_cons, length_app. cbn [map list_sum fold_right length] in *. unfold list_sum in *.
  cbn [map fold_right] in *. lia.
Qed.

Lemma list_sum_map_le {A} (g h : A → nat) l :
  Forall (λ x, (g x ≤ h x)%nat) l → (list_sum (map g l) ≤ list_sum (map h l))%nat.
Proof. unfold list_sum. induction 1; simpl; lia. Qed.

Lemma jsize_print j : json_ok j → (jsize j ≤ 2 * length (print j))%nat.
Proof.
  assert (∀ l, (list_sum (map (λ x : bytes, S (2 * length x)) l) ≤ 2 * S (length (commas l)))%nat) as Hc.
  { intros l. pose proof (commas_length l). unfold list_sum in *.
    assert (∀ l : list bytes, foldr Nat.add 0 (map (λ x, S (2 * length x)) l) ≤
      2 * foldr Nat.add 0 (map (λ x, S (length x)) l))%nat as Hm
      by (clear; intros l; induction l; cbn [map foldr]; lia).
    specialize (Hm l). lia. }
  induction j as [|b|lit|s|l IH|l IH] using json_ind; inversion 1 as [|b'|z|s' Hs|l' Hl|l' Hl]; subst.
  - simpl. lia.
  - destruct b; simpl; lia.
  - cbn [jsize print]. destruct (Itoa_head z) as (b & t & -> & _). simpl. lia.
  - simpl. lia.
  - cbn [jsize print length]. rewrite length_app. cbn [length]. specialize (Hc (map print l)).
    rewrite map_map in Hc.
    assert (list_sum (map (λ x, S (jsize x)) l) ≤ list_sum (map (λ x, S (2 * length (print x))) l))%nat;
      [|lia]. apply list_sum_map_le.
    clear -IH Hl. induction Hl as [|? ? Hx]; inversion_clear IH as [|? ? Hj]; constructor; auto.
    specialize (Hj Hx). lia.
  - rewrite print_obj. cbn [jsize length]. rewrite length_app. cbn [length].
    specialize (Hc (map print_member l)). rewrite map_map in Hc.
    assert (list_sum (map (λ kv : bytes * json, match kv with (_, v) => S (jsize v) end) l) ≤
      list_sum (map (λ x, S (2 * length (print_member x))) l))%nat; [|lia]. apply list_sum_map_le.
    clear -IH Hl. induction Hl as [|[k v] ? [_ Hv]]; inversion_clear IH as [|? ? Hj]; constructor; auto.
    simpl in *. specialize (Hj Hv). rewrite length_app. simpl. lia.
Qed.

(** What [json.Marshal] writes is read back as the same tree. *)
Lemma parse_print j rest : json_ok j → num_end rest → parse (print j ++ rest) = POk j rest.
Proof.
  intros Hj Hr. apply pval_print; [done..|]. pose proof (jsize_print j Hj). rewrite length_app. lia.
Qed.

(** ** The scanner always comes to a result *)

Lemma skip_ws_length s : (length (skip_ws s) ≤ length s)%nat.
Proof. induction s as [|b s IH]; simpl; [lia|]. destruct (is_ws b); simpl; lia. Qed.

(** A parser that answers, and whose rest is at most [n] long. *)
Definition within {A} (n : nat) (m : pres A) : Prop :=
  match m with POk _ r => (length r ≤ n)%nat | PFuel => False | _ => True end.

Lemma within_bind {A B} n n' (m : pres A) (k : A → bytes → pres B) :
  within n m → (∀ a r, (length r ≤ n)%nat → within n' (k a r)) → within n' (pbind m k).
Proof. destruct m; simpl; auto. Qed.

Lemma within_mono {A} n n' (m : pres A) : (n ≤ n')%nat → within n m → within n' m.
Proof. destruct m; simpl; auto. lia. Qed.

Lemma pcons_within n l m : within n m → within n (pcons l m).
Proof. by destruct m. Qed.

Lemma pstr_within s : ∀ k, within (length s) (pstr k s).
Proof.
  induction s as [s IH] using (induction_ltof1 _ length); unfold ltof in IH. intros k.
  assert (∀ t l j, (length t < length s)%nat → within (length s) (pcons l (pstr j t))) as Hrec.
  { intros t l j Ht. apply pcons_within. eapply within_mono; [|by apply IH]. lia. }
  destruct s as [|b s1]; [done|]. cbn [pstr]. destruct k as [|k]; [|apply Hrec; simpl; lia].
  destruct (b =? 34); [simpl; lia|]. destruct (b <? 32); [done|].
  destruct (b =? 92).
  - destruct s1 as [|e s2]; [done|]. destruct (e =? 117).
    + destruct s2 as [|h1 [|h2 [|h3 [|h4 s3]]]]; try (by case_match).
      destruct (hex4 h1 h2 h3 h4) as [u|]; [|done]. destruct (in_range 55296 57343 u).
      * destruct s3 as [|c1 [|c2 [|l1 [|l2 [|l3 [|l4 s4]]]]]]; try (apply Hrec; simpl; lia).
        case_match; [|apply Hrec; simpl; lia].
        destruct (_ && in_range _ _ _); apply Hrec; simpl; lia.
      * apply Hrec; simpl; lia.
    + destruct (unescape e); [apply Hrec; simpl; lia|done].
  - destruct (b <? 128); [apply Hrec; simpl; lia|].
    destruct (rune_len (b :: s1)); apply Hrec; simpl; lia.
Qed.

Lemma digits_length s : (length (digits s).2 ≤ length s)%nat.
Proof.
  induction s as [|b s IH]; simpl; [lia|]. destruct (is_digit b); [|simpl; lia].
  destruct (digits s); simpl in *; lia.
Qed.

Lemma digits1_within s n : (length s ≤ S n)%nat → within n (digits1 s).
Proof.
  intros Hn. unfold digits1. destruct s as [|b s]; [done|]. destruct (is_digit b) eqn:E; [|done].
  cbn [digits]. rewrite E. pose proof (digits_length s). destruct (digits s). simpl in *. lia.
Qed.

Lemma pnum_within s : within (length s - 1) (pnum s).
Proof.
  unfold pnum. set (sg := match s with [] => _ | _ :: _ => _ end).
  assert (length sg.2 ≤ length s)%nat as Hsg.
  { subst sg. destruct s as [|b r]; simpl; [lia|]. destruct (b =? 45); simpl; lia. }
  destruct sg as [sign s0]. simpl in Hsg.
  eapply (within_bind (length s - 1)).
  { unfold pint. destruct s0 as [|b r]; [done|]. simpl in Hsg.
    destruct (b =? 48); [simpl; lia|]. eapply digits1_within. simpl. lia. }
  intros i r1 H1. apply (within_bind (length s - 1)).
  { unfold pfrac. destruct r1 as [|b r]; [done|]. destruct (b =? 46); [|done].
    apply pcons_within. simpl in H1. eapply within_mono; [|apply (digits1_within _ (length r))]; lia. }
  intros fr r2 H2. apply (within_bind (length s - 1)); [|done].
  unfold pexp. destruct r2 as [|e r]; [done|]. destruct (_ || _); [|done]. simpl in H2.
  destruct r as [|g r']; [done|]. simpl in H2.
  destruct (_ || _); apply pcons_within;
    [eapply within_mono; [|apply (digits1_within _ (length r'))]
    |eapply within_mono; [|apply (digits1_within _ (length r'))]]; simpl; lia.
Qed.

Lemma pword_within w j s : within (length s) (pword w j s).
Proof.
  revert s. induction w as [|c w IH]; intros [|b s]; simpl; try lia; try done.
  destruct (b =? c); [|done]. eapply within_mono; [|apply IH]. lia.
Qed.

Lemma pval_within f : ∀ s,
  ((2 * length s + 1 ≤ f)%nat → within (length s - 1) (pval f s)) ∧
  ((2 * length s + 2 ≤ f)%nat → within (length s - 1) (pelems f s)) ∧
  ((2 * length s + 2 ≤ f)%nat → within (length s - 1) (pmembers f s)).
Proof.
  induction f as [|f IH]; intros s; [lia|]. pose proof (skip_ws_length s) as Hs. split_and!; intros Hf.
  - cbn [pval]. destruct (skip_ws s) as [|b s1]; [done|]. simpl in Hs.
    pose proof (skip_ws_length s1) as Hs1.
    assert (∀ A (l : list A) (k : list A → json) m, within (length s1 - 1) m →
      within (length s - 1) (pbind m (λ l r, POk (k l) r))) as Hk.
    { intros A _ k m Hm. eapply within_bind; [exact Hm|]. simpl. lia. }
    destruct (b =? 34).
    { eapply within_bind; [apply pstr_within|]. simpl. lia. }
    destruct (b =? 123).
    { destruct (skip_ws s1) as [|c r]; [done|]. simpl in Hs1. destruct (c =? 125); [simpl; lia|].
      apply Hk; [exact []|]. apply IH. lia. }
    destruct (b =? 91).
    { destruct (skip_ws s1) as [|c r]; [done|]. simpl in Hs1. destruct (c =? 93); [simpl; lia|].
      apply Hk; [exact []|]. apply IH. lia. }
    do 3 (destruct (b =? _); [eapply within_mono; [|apply pword_within]; lia|]).
    destruct (_ || _); [|done]. eapply within_bind; [apply pnum_within|]. simpl. lia.
  - cbn [pelems]. eapply within_bind; [apply IH; lia|]. intros v r Hr.
    pose proof (skip_ws_length r) as Hr'. destruct (skip_ws r) as [|c r1]; [done|]. simpl in Hr'.
    destruct (c =? 44); [|destruct (c =? 93); [simpl; lia|done]].
    eapply within_bind; [apply IH; lia|]. simpl. lia.
  - cbn [pmembers]. destruct (skip_ws s) as [|q s1]; [done|]. simpl in Hs.
    destruct (q =? 34); [|done]. eapply within_bind; [apply pstr_within|]. intros k r Hr.
    pose proof (skip_ws_length r) as Hr'. destruct (skip_ws r) as [|c r0]; [done|]. simpl in Hr'.
    destruct (c =? 58); [|done]. eapply within_bind; [apply IH; lia|]. intros v r1 Hr1.
    pose proof (skip_ws_length r1) as Hr2. destruct (skip_ws r1) as [|c2 r2]; [done|]. simpl in Hr2.
    destruct (c2 =? 44); [|destruct (c2 =? 125); [simpl; lia|done]].
    eapply within_bind; [apply IH; lia|]. simpl. lia.
Qed.

Lemma parse_total s : parse s ≠ PFuel.
Proof.
  unfold parse. destruct (pval_within (2 * length s + 2) s) as [H _]. specialize (H ltac:(lia)).
  by destruct (pval _ s).
Qed.
