(* ===== verification/JsonCut.v ===== *)
(** A JSON text that is cut short: whatever strict prefix of an encoded object or
    array arrives, the scanner reports the end of the input (never a syntax
    error, never a value).  With it, that the fuel of the scanner only matters
    when there is too little of it. *)

From stdpp Require Import base strings list.
From Stdlib Require Import ZArith Lia.
From S2P Require Import Prelude GoString Json JsonProof.

(** ** More fuel changes nothing *)

Lemma pbind_ext {A B} (m m' : pres A) (k k' : A → bytes → pres B) :
  (m ≠ PFuel → m' = m) → (∀ a r, k a r ≠ PFuel → k' a r = k a r) →
  pbind m k ≠ PFuel → pbind m' k' = pbind m k.
Proof.
  intros Hm Hk Hne. destruct m as [a r| | |]; simpl in *; try (by rewrite Hm); try done.
  rewrite Hm by done. by apply Hk.
Qed.

(** With fuel [g] the scanner answers whatever it answers with [f]. *)
Definition covers (f g : nat) : Prop :=
  (∀ s, pval f s ≠ PFuel → pval g s = pval f s) ∧
  (∀ s, pelems f s ≠ PFuel → pelems g s = pelems f s) ∧
  (∀ s, pmembers f s ≠ PFuel → pmembers g s = pmembers f s).

Ltac scan_same :=
  repeat match goal with
  | H : pbind _ _ ≠ PFuel |- pbind _ _ = pbind _ _ => apply pbind_ext; [..|exact H]; clear H; intros
  | |- context [match skip_ws ?s with _ => _ end] => destruct (skip_ws s)
  | |- context [if ?b then _ else _] => destruct b
  | |- ?x = ?x => reflexivity
  | |- _ => auto; done
  end.

Lemma covers_step f g : covers f g → covers (S f) (S g).
Proof.
  intros (IHv & IHe & IHm). split_and!; intros s; cbn [pval pelems pmembers]; intros Hne; revert Hne.
  - repeat (case_match; try done); intros; scan_same.
  - intros. apply pbind_ext; [auto| |done]. intros v r. repeat (case_match; try done); intros; scan_same.
  - repeat (case_match; try done). intros. apply pbind_ext; [auto| |done]. intros k r.
    repeat (case_match; try done). intros. apply pbind_ext; [auto| |done]. intros v r'.
    repeat (case_match; try done); intros; scan_same.
Qed.

Lemma covers_le f g : (f ≤ g)%nat → covers f g.
Proof.
  revert g. induction f as [|f IH]; intros g Hg; [by split_and!|].
  destruct g as [|g]; [lia|]. apply covers_step, IH. lia.
Qed.

(** ** Prefixes *)

(** [p] is [s] with something missing at the end. *)
Definition cutof (p s : bytes) : Prop := ∃ q, q ≠ [] ∧ s = p ++ q.

Lemma cutof_app p a b : cutof p (a ++ b) → cutof p a ∨ ∃ p', p = a ++ p' ∧ cutof p' b.
Proof.
  intros (q & Hq & E). destruct (app_eq_inv _ _ _ _ E) as [(k & -> & ->)|(k & -> & ->)].
  - destruct k as [|x k]; [|left; by exists (x :: k)].
    right. exists []. split; [by rewrite !app_nil_r|]. by exists b.
  - right. exists k. split; [done|]. by exists q.
Qed.

Lemma cutof_cons p x s : cutof p (x :: s) → p = [] ∨ ∃ p', p = x :: p' ∧ cutof p' s.
Proof.
  intros (q & Hq & E). destruct p as [|y p]; [by left|]. injection E as <- ->. right. exists p.
  split; [done|]. by exists q.
Qed.

Lemma cutof_nil p : ¬ cutof p [].
Proof. intros (q & Hq & E). symmetry in E. by apply app_eq_nil in E as [_ ->]. Qed.

Lemma cutof_one p x : cutof p [x] → p = [].
Proof. intros [->|(p' & -> & []%cutof_nil)]%cutof_cons. done. Qed.

Lemma cutof_take p s : cutof p s → ∃ n, p = take n s ∧ (n < length s)%nat.
Proof.
  intros (q & Hq & ->). exists (length p). rewrite take_app_length, length_app. split; [done|].
  destruct q; [done|]. simpl. lia.
Qed.

(** ** Cut strings *)

Definition is_eof {A} (m : pres A) : bool := match m with PEof => true | _ => false end.

Lemma is_eof_spec {A} (m : pres A) : is_eof m = true → m = PEof.
Proof. by destruct m. Qed.

(** Every strict prefix of [c] runs into the end of the input. *)
Definition all_cuts (c : bytes) : bool :=
  forallb (λ n, is_eof (pstr 0 (take n c))) (List.seq 0 (length c)).

Lemma all_cuts_spec c p : all_cuts c = true → cutof p c → pstr 0 p = PEof.
Proof.
  intros Hc (n & -> & Hn)%cutof_take. unfold all_cuts in Hc. rewrite forallb_forall in Hc.
  apply is_eof_spec, Hc, in_seq. lia.
Qed.

Lemma pstr_high p : Forall (λ b, 128 ≤ b) p → ∀ k, pstr k p = PEof.
Proof.
  induction 1 as [|b p Hb Hp IH]; intros k; [by destruct k|]. cbn [pstr]. destruct k; [|by rewrite IH].
  rewrite (proj2 (Z.eqb_neq b 34)), (proj2 (Z.ltb_ge b 32)), (proj2 (Z.eqb_neq b 92)),
    (proj2 (Z.ltb_ge b 128)) by lia. destruct (rune_len (b :: p)); by rewrite IH.
Qed.

Lemma rune_high b s n : 128 ≤ b → rune_len (b :: s) = Some (S n) → Forall (λ c, 128 ≤ c) (b :: take n s).
Proof.
  intros Hb. simpl. rewrite (proj2 (Z.ltb_ge b 128)) by done.
  assert (∀ lo hi c, 128 ≤ lo → in_range lo hi c = true → 128 ≤ c) as Hr.
  { intros lo hi c Hlo H%in_range_spec. lia. }
  assert (∀ c, is_cont c = true → 128 ≤ c) as Hc by (intros c; by apply Hr).
  assert (∀ c, second_ok b c = true → 128 ≤ c) as H2.
  { intros c. unfold second_ok. repeat case_match; apply Hr; lia. }
  destruct (in_range 194 223 b); [|destruct (in_range 224 239 b); [|destruct (in_range 240 244 b); [|done]]].
  - destruct s as [|b1 s]; [done|]. case_match; [|done]. intros [= <-]. repeat constructor; auto.
  - destruct s as [|b1 [|b2 s]]; [done..|]. case_match eqn:E; [|done].
    apply andb_true_iff in E as [? ?]. intros [= <-]. repeat constructor; auto.
  - destruct s as [|b1 [|b2 [|b3 s]]]; [done..|]. case_match eqn:E; [|done].
    apply andb_true_iff in E as [[? ?]%andb_true_iff ?]. intros [= <-]. repeat constructor; auto.
Qed.

Lemma pstr_rune b s n rest :
  128 ≤ b → rune_len (b :: s) = Some (S n) → (n ≤ length s)%nat →
  pstr 0 ((b :: take n s) ++ rest) = pcons (b :: take n s) (pstr 0 rest).
Proof.
  intros Hb Er Hn. pose proof (rune_len_take _ _ rest Er) as Er2. cbn [take app] in Er2.
  cbn [app pstr]. rewrite (proj2 (Z.eqb_neq b 34)), (proj2 (Z.ltb_ge b 32)), (proj2 (Z.eqb_neq b 92)),
    (proj2 (Z.ltb_ge b 128)), Er2 by lia.
  replace (S n - 1)%nat with (length (take n s)) by (rewrite length_take; lia).
  by rewrite pstr_copy, pcons_app.
Qed.

Lemma pstr_cut s : ∀ p,
  utf8_valid s = true → forallb is_byte s = true → cutof p (escape 0 0 s ++ [34]) → pstr 0 p = PEof.
Proof.
  induction s as [s IH] using (induction_ltof1 _ length); unfold ltof in IH.
  intros p Hv Hb Hp. destruct s as [|b s]; [by apply cutof_one in Hp as ->|].
  destruct (escape_step b s Hv Hb) as [(Hlt & Hv' & E)|[(e & t & E & He & Hv' & E2)|
    (n & Hge & Er & Hn & Hv' & E)]].
  - rewrite E, <- app_assoc in Hp. apply cutof_app in Hp as [Hp|(p' & -> & Hp)].
    + revert Hp. apply all_cuts_spec. by apply (all_below 128 (λ b, all_cuts (esc_ascii b)) eq_refl).
    + rewrite pstr_ascii, (IH s) by (simpl; try lia; try done; by apply andb_true_iff in Hb as [_ ?]). done.
  - rewrite E2, <- app_assoc in Hp. rewrite E in Hb, IH.
    assert (forallb is_byte t = true) as Ht by (apply (forallb_drop _ 3) in Hb; done).
    apply cutof_app in Hp as [Hp|(p' & -> & Hp)].
    + revert Hp. apply all_cuts_spec. by destruct He as [-> | ->].
    + destruct He as [-> | ->]; cbn [app pstr]; simpl; (rewrite (IH t) by (simpl; try lia; done)); done.
  - rewrite E in Hp. change (b :: take n s ++ escape 0 0 (drop n s)) with ((b :: take n s) ++ escape 0 0 (drop n s)) in Hp.
    rewrite <- app_assoc in Hp. apply cutof_app in Hp as [(q & _ & Ep)|(p' & -> & Hp)].
    + apply pstr_high. pose proof (rune_high b s n Hge Er) as Hh. rewrite Ep in Hh.
      by apply Forall_app in Hh as [? _].
    + rewrite pstr_rune by done. rewrite (IH (drop n s)); [done|simpl; rewrite length_drop; lia|done| |done].
      apply forallb_drop. by apply andb_true_iff in Hb as [_ ?].
Qed.

(** ** Cut values *)

(** The scanner wants more input (or more fuel). *)
Definition starved {A} (m : pres A) : Prop := m = PEof ∨ m = PFuel.

(** As [starved], or all the input was one value: a number that could go on. *)
Definition at_end {A} (m : pres A) : Prop := starved m ∨ ∃ v, m = POk v [].

Lemma starved_bind {A B} (m : pres A) (k : A → bytes → pres B) : starved m → starved (pbind m k).
Proof. intros [-> | ->]; [by left|by right]. Qed.

Lemma starved_at_end {A} (m : pres A) : starved m → at_end m.
Proof. by left. Qed.

Lemma at_end_bind {A B} (m : pres A) (k : A → bytes → pres B) :
  at_end m → (∀ v, starved (k v [])) → starved (pbind m k).
Proof. intros [H|(v & ->)] Hk; [by apply starved_bind|apply Hk]. Qed.

#[local] Hint Resolve starved_bind starved_at_end : core.

(** An encoded value is read back, if the fuel reaches. *)
Lemma pval_print_bind {B} j f rest (k : json → bytes → pres B) : json_ok j → num_end rest →
  starved (k j rest) → starved (pbind (pval f (print j ++ rest)) k).
Proof.
  intros Hj Hr Hk. destruct (covers_le f (f + jsize j) ltac:(lia)) as [Hc _].
  specialize (Hc (print j ++ rest)). rewrite (pval_print j Hj (f + jsize j)) in Hc by (done || lia).
  destruct (pval f _) as [v r| | |]; [|by specialize (Hc ltac:(done))..|by right].
  specialize (Hc ltac:(done)). by injection Hc as -> ->.
Qed.

Lemma pnum_cut z p b t : p = b :: t → cutof p (str_bytes (Itoa z)) → at_end (pnum p).
Proof.
  assert (∀ sign b t, forallb is_digit (b :: t) = true → (b = 48 → t = []) →
    pbind (pint (b :: t)) (λ i r1, pbind (pfrac r1) (λ f r2, pbind (pexp r2) (λ e r3,
      POk (sign ++ i ++ f ++ e) r3))) = POk (sign ++ b :: t) []) as Hd.
  { intros sign c u Hc H0. pose proof (pint_ok c u [] Hc H0 I) as E. rewrite app_nil_r in E. rewrite E.
    by apply (pnum_tail sign). }
  assert (∀ c u p, forallb is_digit (c :: u) = true → (c = 48 → u = []) → cutof p (c :: u) →
    p = [] ∨ ∃ u', p = c :: u' ∧ forallb is_digit (c :: u') = true ∧ (c = 48 → u' = [])) as Hcut.
  { intros c u p' Hc H0 [->|(p2 & -> & q & Hq & ->)]%cutof_cons; [by left|right]. exists p2.
    cbn [forallb] in *. rewrite forallb_app in Hc.
    apply andb_true_iff in Hc as [-> [-> _]%andb_true_iff]. split_and!; [done..|].
    intros ->. specialize (H0 eq_refl). by apply app_eq_nil in H0 as [-> _]. }
  intros -> Hp. unfold pnum. destruct (Z.ltb_spec z 0) as [Hneg|Hpos].
  - rewrite Itoa_neg in Hp by done. destruct (Itoa_digits (- z) ltac:(lia)) as (_ & c & l & E & Hl & H0).
    simpl in Hp. apply cutof_cons in Hp as [?|(p' & [= -> ->] & Hp)]; [done|]. simpl. rewrite E in Hp.
    destruct (Hcut _ _ _ Hl H0 Hp) as [->|(u & -> & Hu & H0')]; [by left; left|].
    right. exists ([45] ++ c :: u). by apply (Hd [45]).
  - destruct (Itoa_digits z Hpos) as (_ & c & l & E & Hl & H0). rewrite E in Hp.
    destruct (Hcut _ _ _ Hl H0 Hp) as [?|(u & [= -> ->] & Hu & H0')]; [done|].
    assert ((c =? 45) = false) as ->.
    { simpl in Hl. apply andb_true_iff in Hl as [Hl%in_range_spec _]. apply Z.eqb_neq. lia. }
    right. exists ([] ++ c :: u). by apply (Hd []).
Qed.

Lemma pval_num_cut z f p : cutof p (str_bytes (Itoa z)) → at_end (pval f p).
Proof.
  intros Hp. destruct f as [|f]; [by left; right|]. destruct p as [|b t]; [by left; left|].
  pose proof (pnum_cut z (b :: t) b t eq_refl Hp) as Hn. destruct Hp as (q & _ & E).
  destruct (Itoa_head z) as (b' & l & E' & Hb). rewrite E' in E. injection E as -> _.
  cbn [pval].
  assert (is_ws b = false ∧ b ≠ 34 ∧ b ≠ 123 ∧ b ≠ 91 ∧ b ≠ 116 ∧ b ≠ 102 ∧ b ≠ 110 ∧
    (b =? 45) || is_digit b = true) as (Hw & H1 & H2 & H3 & H4 & H5 & H6 & H7).
  { destruct Hb as [->|Hb]; [done|]. rewrite Hb, orb_true_r. apply in_range_spec in Hb.
    unfold is_ws. split_and!; try done; try lia. }
  rewrite skip_ws_head by done. rewrite !(proj2 (Z.eqb_neq _ _)) by done. rewrite H7.
  destruct Hn as [Hn|(v & ->)]; [auto|]. right. by exists (JNum v).
Qed.

Lemma pelems_cut l : ∀ f p,
  l ≠ [] → Forall json_ok l → Forall (λ j, ∀ f p, cutof p (print j) → at_end (pval f p)) l →
  cutof p (commas (map print l) ++ [93]) → starved (pelems f p).
Proof.
  induction l as [|j l IH]; intros f p Hne Hok Hc Hp; [done|].
  apply Forall_cons in Hok as [Hj Hok]. apply Forall_cons in Hc as [Hcj Hc].
  destruct f as [|f]; [by right|]. cbn [pelems].
  assert (∀ p', cutof p (print j ++ p') → p' ≠ [] →
    (∀ p2, cutof p2 p' → num_end p2 ∧ starved (match skip_ws p2 with
        | [] => PEof
        | c :: r1 => if c =? 44 then pbind (pelems f r1) (λ l r2, POk (j :: l) r2)
                     else if c =? 93 then POk [j] r1 else PSyntax
        end)) → starved (pelems (S f) p)) as Hone.
  { intros p' [Hpj|(p2 & -> & Hp2)]%cutof_app _ Hk; cbn [pelems].
    - apply at_end_bind; [by apply Hcj|by left].
    - destruct (Hk p2 Hp2). by apply pval_print_bind. }
  destruct l as [|j2 l].
  - apply (Hone [93]); [done..|]. intros p2 ->%cutof_one. split; [done|by left].
  - cbn [map] in Hp. rewrite commas_cons, <- app_assoc in Hp. eapply Hone; [exact Hp|done|].
    intros p2 [->|(p3 & -> & Hp3)]%cutof_cons; [by split; [|left]|]. split; [done|]. simpl.
    apply starved_bind, IH; done.
Qed.

Lemma pmembers_cut l : ∀ f p,
  l ≠ [] → Forall (λ kv : bytes * json, text_ok kv.1 = true ∧ json_ok kv.2) l →
  Forall (λ kv : bytes * json, ∀ f p, cutof p (print kv.2) → at_end (pval f p)) l →
  cutof p (commas (map print_member l) ++ [125]) → starved (pmembers f p).
Proof.
  induction l as [|[k v] l IH]; intros f p Hne Hok Hc Hp; [done|].
  apply Forall_cons in Hok as [[Hk Hv] Hok]. apply Forall_cons in Hc as [Hcv Hc]. simpl in Hk, Hv, Hcv.
  destruct f as [|f]; [by right|].
  assert (∀ p', cutof p (print_member (k, v) ++ p') → p' ≠ [] →
    (∀ p2, cutof p2 p' → num_end p2 ∧ starved (match skip_ws p2 with
        | [] => PEof
        | c :: r1 => if c =? 44 then pbind (pmembers f r1) (λ l r2, POk ((k, v) :: l) r2)
                     else if c =? 125 then POk [(k, v)] r1 else PSyntax
        end)) → starved (pmembers (S f) p)) as Hone.
  { intros p' Hm _ Hk'. unfold print_member, quote in Hm. cbn [app] in Hm. rewrite <- !app_assoc in Hm.
    apply cutof_cons in Hm as [->|(p1 & -> & Hm)]; [by left|]. cbn [pmembers].
    rewrite skip_ws_head by done. simpl (34 =? 34). cbn iota. pose proof Hk as [Hb Hu]%text_okE.
    rewrite app_assoc in Hm. apply cutof_app in Hm as [Hm|(p2 & -> & Hm)].
    { rewrite (pstr_cut k p1) by done. by left. }
    rewrite <- app_assoc, pstr_quote by done. cbn [pbind]. cbn [app] in Hm.
    apply cutof_cons in Hm as [->|(p3 & -> & Hm)]; [by left|]. rewrite skip_ws_head by done. simpl (58 =? 58).
    cbn iota. apply cutof_app in Hm as [Hm|(p4 & -> & Hm)].
    - apply at_end_bind; [by apply Hcv|by left].
    - destruct (Hk' p4 Hm). by apply pval_print_bind. }
  destruct l as [|kv2 l].
  - apply (Hone [125]); [done..|]. intros p2 ->%cutof_one. split; [done|by left].
  - cbn [map] in Hp. rewrite commas_cons, <- app_assoc in Hp. eapply Hone; [exact Hp|done|].
    intros p2 [->|(p3 & -> & Hp3)]%cutof_cons; [by split; [|left]|]. split; [done|]. simpl.
    apply starved_bind, IH; done.
Qed.

Lemma pword_cut w j p : cutof p w → pword w j p = PEof.
Proof.
  revert p. induction w as [|c w IH]; intros p; [by intros ?%cutof_nil|].
  intros [->|(p' & -> & Hp)]%cutof_cons; [done|]. simpl. rewrite Z.eqb_refl. by apply IH.
Qed.

(** The text of a nonempty list of values begins as its first value does. *)
Lemma cut_head x l tl c p' : cutof (c :: p') (commas (x :: l) ++ tl) → ∀ b t, x = b :: t → c = b.
Proof.
  intros (q & _ & E) b t Hx. destruct (commas_head x l b t Hx) as (t' & Et). rewrite Et in E.
  by injection E.
Qed.

(** What the scanner makes of a cut value: only a number can look complete. *)
Definition cut_result (j : json) (m : pres json) : Prop :=
  match j with JNum _ => at_end m | _ => starved m end.

Lemma cut_result_at_end j m : cut_result j m → at_end m.
Proof. destruct j; simpl; auto. Qed.
#[local] Hint Resolve cut_result_at_end : core.

Lemma pval_cut j : json_ok j → ∀ f p, cutof p (print j) → cut_result j (pval f p).
Proof.
  induction j as [|b|lit|s|l IH|l IH] using json_ind; intros Hok f p Hp;
    inversion Hok as [|b'|z|s' Hs|l' Hl|l' Hl]; subst; [..|by apply (pval_num_cut z)| | |]; cbn [cut_result];
    (destruct f as [|f]; [by right|]);
    try (destruct b); (apply cutof_cons in Hp as [->|(p' & -> & Hp)]; [by left|]);
    cbn [pval]; (rewrite skip_ws_head by done).
  - left. by apply (pword_cut [117; 108; 108]).
  - left. by apply (pword_cut [114; 117; 101]).
  - left. by apply (pword_cut [97; 108; 115; 101]).
  - simpl (34 =? 34). cbn iota. apply text_okE in Hs as [Hb Hu]. rewrite (pstr_cut s p') by done. by left.
  - simpl (91 =? 34). simpl (91 =? 123). simpl (91 =? 91). cbn iota. destruct p' as [|c p']; [by left|].
    destruct l as [|j l]; [by apply cutof_one in Hp|].
    destruct (print_head j (Forall_inv Hl)) as (b & t & Eb & Hw & Hb & _).
    pose proof (cut_head _ _ _ _ _ Hp b t Eb) as ->. rewrite skip_ws_head, (proj2 (Z.eqb_neq b 93)) by done.
    apply starved_bind, (pelems_cut (j :: l)); [done|done| |done].
    clear -IH Hl. induction Hl; inversion_clear IH; constructor; eauto.
  - simpl (123 =? 34). simpl (123 =? 123). cbn iota. destruct p' as [|c p']; [by left|].
    destruct l as [|[k v] l]; [by apply cutof_one in Hp|].
    assert (c = 34) as ->.
    { refine (cut_head (print_member (k, v)) (map print_member l) [125] c p' Hp 34 _ eq_refl). }
    rewrite skip_ws_head by done. simpl (34 =? 125). cbn iota.
    apply starved_bind, (pmembers_cut ((k, v) :: l)); [done|done| |done].
    clear -IH Hl. induction Hl as [|? ? [? ?]]; inversion_clear IH; constructor; eauto.
Qed.

(** An object that was cut short: the scanner reports the end of the input. *)
Lemma parse_cut l p : json_ok (JObj l) → cutof p (print (JObj l)) → parse p = PEof.
Proof.
  intros Hl Hp. destruct (pval_cut _ Hl (2 * length p + 2) p Hp) as [|H]; [done|by apply parse_total in H].
Qed.
