(* ===== verification/ProtoJson.v ===== *)
(** The wire form of lib/proto/proxy_proto.go: [json.Marshal] of the request
    structs and [json.Decode] into the response structs, by their json tags, as
    lib/libfs/http/http.go calls them.

    The struct, field and position a decoding error names are left out of its
    text, and a nil slice is not told from an empty one. *)

From stdpp Require Import base strings list pretty.
From Stdlib Require Import ZArith Lia Ascii.
From S2P Require Import Prelude GoString Proto Json.

(** * Values *)

Definition jtext (s : string) : json := JStr (str_bytes s).
Definition jnum (z : Z) : json := JNum (str_bytes (Itoa z)).
Definition jbytes (b : bytes) : json := JStr (b64_encode b).
Definition jobj (l : list (string * json)) : json := JObj (map (λ kv, (str_bytes kv.1, kv.2)) l).

(** * Requests *)

Definition Request_json (r : Request) : json :=
  jobj match r with
  | MkdirRequest p mode => [("path", jtext p); ("mode", jnum mode)]
  | ReaddirRequest p => [("path", jtext p)]
  | ReaddirExRequest p from limit => [("path", jtext p); ("from", jtext from); ("limit", jnum limit)]
  | RmdirRequest p => [("path", jtext p)]
  | RmdirTreeRequest p => [("path", jtext p)]
  | OpenRequest p flag mode => [("path", jtext p); ("openflag", jnum flag); ("mode", jnum mode)]
  | ReadRequest id off len => [("id", jnum id); ("off", jnum off); ("len", jnum len)]
  | WriteRequest id off len data =>
      [("id", jnum id); ("off", jnum off); ("len", jnum len); ("data", jbytes data)]
  | TruncateRequest p len => [("path", jtext p); ("offset", jnum len)]
  | UnlinkRequest p => [("path", jtext p)]
  | LinkRequest p d => [("path", jtext p); ("newpath", jtext d)]
  | SymlinkRequest p d => [("path", jtext p); ("newpath", jtext d)]
  | SetxattrRequest p flag name data =>
      [("path", jtext p); ("flag", jnum flag); ("name", jtext name); ("data", jbytes data)]
  | GetxattrRequest p name => [("path", jtext p); ("name", jtext name)]
  | RemovexattrRequest p name => [("path", jtext p); ("name", jtext name)]
  | SetAttrRequest p a =>
      [("path", jtext p); ("flag", jnum (SA_Flag a)); ("uid", jnum (SA_Uid a)); ("gid", jnum (SA_Gid a));
       ("mtime", jnum (SA_Mtime a)); ("atime", jnum (SA_Atime a)); ("mode", jnum (SA_Mode a));
       ("owner", jtext (SA_Owner a)); ("group", jtext (SA_Group a))]
  | RenameRequest p d => [("path", jtext p); ("destpath", jtext d)]
  | StatRequest p => [("path", jtext p)]
  | StatfsRequest p => [("path", jtext p)]
  | FsyncRequest id => [("id", jnum id)]
  end%string.

(** [json.Marshal] cannot fail on these structs. *)
Definition Marshal (params : Request) : bytes + error := inl (print (Request_json params)).

(** * Decoding into typed values *)

(** The value and the first error of its parts: [d.saveError] keeps the first
    one and decoding goes on. *)
Abbreviation dres A := (A * option error)%type.

Definition first_err (e e' : option error) : option error := match e with Some _ => e | None => e' end.

(** The kind of value an [UnmarshalTypeError] names. *)
Definition json_kind (j : json) : string :=
  match j with
  | JNull => "null"
  | JBool _ => "bool"
  | JNum _ => "number"
  | JStr _ => "string"
  | JArr _ => "array"
  | JObj _ => "object"
  end.

Definition type_error (j : json) (typ : string) : option error :=
  Some (ErrNew (String.append "json: cannot unmarshal "
          (String.append (json_kind j) (String.append " into Go value of type " typ)))).

Definition base64_error : option error := Some (ErrNew "illegal base64 data").

(** Go's integer types: signed or not, width, name. *)
Definition dec_uint (bits : Z) (typ : string) (j : json) (old : Z) : dres Z :=
  match j with
  | JNull => (old, None)
  | JNum lit => match ParseUint (bytes_str lit) bits with
                | Some z => (z, None)
                | None => (old, type_error j typ)
                end
  | _ => (old, type_error j typ)
  end.
Definition dec_int (j : json) (old : Z) : dres Z :=
  match j with
  | JNull => (old, None)
  | JNum lit => match ParseInt (bytes_str lit) 64 with
                | Some z => (z, None)
                | None => (old, type_error j "int")
                end
  | _ => (old, type_error j "int")
  end.
Definition dec_u8 : json → Z → dres Z := dec_uint 8 "uint8".
Definition dec_u32 : json → Z → dres Z := dec_uint 32 "uint32".
Definition dec_u64 : json → Z → dres Z := dec_uint 64 "uint64".

Definition dec_str (j : json) (old : string) : dres string :=
  match j with
  | JNull => (old, None)
  | JStr s => (bytes_str s, None)
  | _ => (old, type_error j "string")
  end.

(** The elements of a slice: the first ones over those it has. *)
Fixpoint dec_elems {A} (dec : json → A → dres A) (zero : A) (l : list json) (old : list A) : dres (list A) :=
  match l with
  | [] => ([], None)
  | j :: l' =>
      let '(a, e) := dec j (hd zero old) in
      let '(t, e') := dec_elems dec zero l' (tail old) in
      (a :: t, first_err e e')
  end.

Definition dec_slice {A} (typ : string) (dec : json → A → dres A) (zero : A) (j : json) (old : list A) : dres (list A) :=
  match j with
  | JNull => ([], None)
  | JArr l => dec_elems dec zero l old
  | _ => (old, type_error j typ)
  end.

(** [[]byte]: base64 text, or an array of numbers. *)
Definition dec_bytes (j : json) (old : bytes) : dres bytes :=
  match j with
  | JStr s => match b64_decode s with Some b => (b, None) | None => (old, base64_error) end
  | _ => dec_slice "[]uint8" dec_u8 0 j old
  end.

(** ** Structs *)

(** The key of a member as the decoder compares it: letters in lower case, with
    the two runes that fold to an ASCII letter (long s, Kelvin sign). *)
Fixpoint fold_key (k : bytes) : bytes :=
  match k with
  | [] => []
  | 197 :: 191 :: t => 115 :: fold_key t
  | 226 :: 132 :: 170 :: t => 107 :: fold_key t
  | b :: t => (if in_range 65 90 b then b + 32 else b) :: fold_key t
  end.

(** A field: its tag and how a value is stored in it. *)
Record field (A : Type) : Type := Fld {
  f_tag : string;
  f_set : json → A → dres A;
}.
Arguments Fld {A} _ _.
Arguments f_tag {A} _.
Arguments f_set {A} _ _ _.

(** The field as a pair of [get] and [put]. *)
Definition fld {A T} (tag : string) (dec : json → T → dres T) (get : A → T) (put : T → A → A) : field A :=
  Fld tag (λ j a, let '(t, e) := dec j (get a) in (put t a, e)).

Definition find_field {A} (fs : list (field A)) (k : bytes) : option (field A) :=
  List.find (λ f, bool_decide (fold_key k = str_bytes (f_tag f))) fs.

Definition set_member {A} (fs : list (field A)) (k : bytes) (v : json) (a : A) : dres A :=
  match find_field fs k with Some f => f_set f v a | None => (a, None) end.

Fixpoint dec_members {A} (fs : list (field A)) (l : list (bytes * json)) (a : A) : dres A :=
  match l with
  | [] => (a, None)
  | (k, v) :: l' =>
      let '(a1, e) := set_member fs k v a in
      let '(a2, e') := dec_members fs l' a1 in
      (a2, first_err e e')
  end.

Definition dec_struct {A} (typ : string) (fs : list (field A)) (j : json) (a : A) : dres A :=
  match j with
  | JNull => (a, None)
  | JObj l => dec_members fs l a
  | _ => (a, type_error j typ)
  end.

(** A pointer to a struct: null is nil, anything else allocates. *)
Definition dec_ptr {A} (dec : json → A → dres A) (zero : A) (j : json) (old : option A) : dres (option A) :=
  match j with
  | JNull => (None, None)
  | _ => let '(a, e) := dec j (default zero old) in (Some a, e)
  end.

Definition InoInfo_fields : list (field InoInfo) :=
  [fld "ino" dec_u64 Info_Inode (λ z i, MkInoInfo z (Info_Mode i) (Info_Nlink i) (Info_Size i) (Info_Uid i)
     (Info_Gid i) (Info_MTime i) (Info_CTime i) (Info_ATime i) (Info_Target i) (Info_Owner i) (Info_Group i));
   fld "mode" dec_u32 Info_Mode (λ z i, MkInoInfo (Info_Inode i) z (Info_Nlink i) (Info_Size i) (Info_Uid i)
     (Info_Gid i) (Info_MTime i) (Info_CTime i) (Info_ATime i) (Info_Target i) (Info_Owner i) (Info_Group i));
   fld "nlink" dec_u32 Info_Nlink (λ z i, MkInoInfo (Info_Inode i) (Info_Mode i) z (Info_Size i) (Info_Uid i)
     (Info_Gid i) (Info_MTime i) (Info_CTime i) (Info_ATime i) (Info_Target i) (Info_Owner i) (Info_Group i));
   fld "sz" dec_u64 Info_Size (λ z i, MkInoInfo (Info_Inode i) (Info_Mode i) (Info_Nlink i) z (Info_Uid i)
     (Info_Gid i) (Info_MTime i) (Info_CTime i) (Info_ATime i) (Info_Target i) (Info_Owner i) (Info_Group i));
   fld "uid" dec_u32 Info_Uid (λ z i, MkInoInfo (Info_Inode i) (Info_Mode i) (Info_Nlink i) (Info_Size i) z
     (Info_Gid i) (Info_MTime i) (Info_CTime i) (Info_ATime i) (Info_Target i) (Info_Owner i) (Info_Group i));
   fld "gid" dec_u32 Info_Gid (λ z i, MkInoInfo (Info_Inode i) (Info_Mode i) (Info_Nlink i) (Info_Size i) (Info_Uid i)
     z (Info_MTime i) (Info_CTime i) (Info_ATime i) (Info_Target i) (Info_Owner i) (Info_Group i));
   fld "mt" dec_u64 Info_MTime (λ z i, MkInoInfo (Info_Inode i) (Info_Mode i) (Info_Nlink i) (Info_Size i) (Info_Uid i)
     (Info_Gid i) z (Info_CTime i) (Info_ATime i) (Info_Target i) (Info_Owner i) (Info_Group i));
   fld "ct" dec_u64 Info_CTime (λ z i, MkInoInfo (Info_Inode i) (Info_Mode i) (Info_Nlink i) (Info_Size i) (Info_Uid i)
     (Info_Gid i) (Info_MTime i) z (Info_ATime i) (Info_Target i) (Info_Owner i) (Info_Group i));
   fld "at" dec_u64 Info_ATime (λ z i, MkInoInfo (Info_Inode i) (Info_Mode i) (Info_Nlink i) (Info_Size i) (Info_Uid i)
     (Info_Gid i) (Info_MTime i) (Info_CTime i) z (Info_Target i) (Info_Owner i) (Info_Group i));
   fld "target" dec_str Info_Target (λ z i, MkInoInfo (Info_Inode i) (Info_Mode i) (Info_Nlink i) (Info_Size i) (Info_Uid i)
     (Info_Gid i) (Info_MTime i) (Info_CTime i) (Info_ATime i) z (Info_Owner i) (Info_Group i));
   fld "owner" dec_str Info_Owner (λ z i, MkInoInfo (Info_Inode i) (Info_Mode i) (Info_Nlink i) (Info_Size i) (Info_Uid i)
     (Info_Gid i) (Info_MTime i) (Info_CTime i) (Info_ATime i) (Info_Target i) z (Info_Group i));
   fld "group" dec_str Info_Group (λ z i, MkInoInfo (Info_Inode i) (Info_Mode i) (Info_Nlink i) (Info_Size i) (Info_Uid i)
     (Info_Gid i) (Info_MTime i) (Info_CTime i) (Info_ATime i) (Info_Target i) (Info_Owner i) z)]%string.
Definition dec_InoInfo : json → InoInfo → dres InoInfo := dec_struct "proto.InoInfo" InoInfo_fields.

Definition zero_Dentry : Dentry := MkDentry EmptyString 0 0 None.
Definition Dentry_fields : list (field Dentry) :=
  [fld "name" dec_str Dentry_Name (λ z d, MkDentry z (Dentry_Inode d) (Dentry_Type d) (Dentry_Info d));
   fld "ino" dec_u64 Dentry_Inode (λ z d, MkDentry (Dentry_Name d) z (Dentry_Type d) (Dentry_Info d));
   fld "type" dec_u32 Dentry_Type (λ z d, MkDentry (Dentry_Name d) (Dentry_Inode d) z (Dentry_Info d));
   fld "info" (dec_ptr dec_InoInfo zero_InoInfo) Dentry_Info
     (λ z d, MkDentry (Dentry_Name d) (Dentry_Inode d) (Dentry_Type d) z)]%string.
Definition dec_Dentry : json → Dentry → dres Dentry := dec_struct "proto.Dentry" Dentry_fields.

Definition StatfsInfo_fields : list (field StatfsInfo) :=
  [fld "files" dec_u32 SI_Files (λ z i, MkStatfsInfo z (SI_Folders i) (SI_Fbytes i) (SI_Fubytes i)
     (SI_Rfiles i) (SI_Rfolders i) (SI_Rbytes i) (SI_Rubytes i));
   fld "folders" dec_u32 SI_Folders (λ z i, MkStatfsInfo (SI_Files i) z (SI_Fbytes i) (SI_Fubytes i)
     (SI_Rfiles i) (SI_Rfolders i) (SI_Rbytes i) (SI_Rubytes i));
   fld "fbytes" dec_u64 SI_Fbytes (λ z i, MkStatfsInfo (SI_Files i) (SI_Folders i) z (SI_Fubytes i)
     (SI_Rfiles i) (SI_Rfolders i) (SI_Rbytes i) (SI_Rubytes i));
   fld "fubytes" dec_u64 SI_Fubytes (λ z i, MkStatfsInfo (SI_Files i) (SI_Folders i) (SI_Fbytes i) z
     (SI_Rfiles i) (SI_Rfolders i) (SI_Rbytes i) (SI_Rubytes i));
   fld "rfiles" dec_u64 SI_Rfiles (λ z i, MkStatfsInfo (SI_Files i) (SI_Folders i) (SI_Fbytes i) (SI_Fubytes i)
     z (SI_Rfolders i) (SI_Rbytes i) (SI_Rubytes i));
   fld "rfolders" dec_u64 SI_Rfolders (λ z i, MkStatfsInfo (SI_Files i) (SI_Folders i) (SI_Fbytes i) (SI_Fubytes i)
     (SI_Rfiles i) z (SI_Rbytes i) (SI_Rubytes i));
   fld "rbytes" dec_u64 SI_Rbytes (λ z i, MkStatfsInfo (SI_Files i) (SI_Folders i) (SI_Fbytes i) (SI_Fubytes i)
     (SI_Rfiles i) (SI_Rfolders i) z (SI_Rubytes i));
   fld "rubytes" dec_u64 SI_Rubytes (λ z i, MkStatfsInfo (SI_Files i) (SI_Folders i) (SI_Fbytes i) (SI_Fubytes i)
     (SI_Rfiles i) (SI_Rfolders i) (SI_Rbytes i) z)]%string.
Definition dec_StatfsInfo : json → StatfsInfo → dres StatfsInfo := dec_struct "proto.StatfsInfo" StatfsInfo_fields.

(** The [data] field, by the struct that is decoded into; the structs without
    one ignore the member. *)
Definition dec_Data (j : json) (d : RespData) : dres RespData :=
  match d with
  | NoData => (NoData, None)
  | DentrysData l =>
      let '(l, e) := dec_slice "[]proto.Dentry" dec_Dentry zero_Dentry j l in (DentrysData l, e)
  | IdData id => let '(id, e) := dec_u64 j id in (IdData id, e)
  | BytesData b => let '(b, e) := dec_bytes j b in (BytesData b, e)
  | NamesData l => let '(l, e) := dec_slice "[]string" dec_str EmptyString j l in (NamesData l, e)
  | InoData i => let '(i, e) := dec_InoInfo j i in (InoData i, e)
  | StatfsData i => let '(i, e) := dec_StatfsInfo j i in (StatfsData i, e)
  end.

Definition Response_fields : list (field Response) :=
  [fld "code" dec_int Code (λ z r, MkResponse z (Message r) (Data r));
   fld "msg" dec_str Message (λ z r, MkResponse (Code r) z (Data r));
   fld "data" dec_Data Data (λ z r, MkResponse (Code r) (Message r) z)]%string.
Definition dec_Response : json → Response → dres Response := dec_struct "proto.ProxyResponse" Response_fields.

(** [json.NewDecoder(resp.Body).Decode(result)]: nothing is stored unless the
    body begins with a whole value. *)
Definition EOF : error := ErrNew "EOF".
Definition ErrUnexpectedEOF : error := ErrNew "unexpected EOF".
Definition SyntaxError : error := ErrNew "invalid character".

Definition decode_body {A} (dec : json → A → dres A) (body : bytes) (result : A) : dres A :=
  match parse body with
  | POk j _ => dec j result
  | PEof => (result, Some (match skip_ws body with [] => EOF | _ => ErrUnexpectedEOF end))
  | PSyntax | PFuel => (result, Some SyntaxError)
  end.

Definition Decode (body : bytes) (result : Response) : Response * option error :=
  decode_body dec_Response body result.

(** [json.Marshal] of the same structs, the other end of the wire. *)
Definition InoInfo_json (i : InoInfo) : json :=
  jobj [("ino", jnum (Info_Inode i)); ("mode", jnum (Info_Mode i)); ("nlink", jnum (Info_Nlink i));
        ("sz", jnum (Info_Size i)); ("uid", jnum (Info_Uid i)); ("gid", jnum (Info_Gid i));
        ("mt", jnum (Info_MTime i)); ("ct", jnum (Info_CTime i)); ("at", jnum (Info_ATime i));
        ("target", jtext (Info_Target i)); ("owner", jtext (Info_Owner i)); ("group", jtext (Info_Group i))]%string.
Definition Dentry_json (d : Dentry) : json :=
  jobj [("name", jtext (Dentry_Name d)); ("ino", jnum (Dentry_Inode d)); ("type", jnum (Dentry_Type d));
        ("info", match Dentry_Info d with None => JNull | Some i => InoInfo_json i end)]%string.
Definition StatfsInfo_json (i : StatfsInfo) : json :=
  jobj [("files", jnum (SI_Files i)); ("folders", jnum (SI_Folders i)); ("fbytes", jnum (SI_Fbytes i));
        ("fubytes", jnum (SI_Fubytes i)); ("rfiles", jnum (SI_Rfiles i)); ("rfolders", jnum (SI_Rfolders i));
        ("rbytes", jnum (SI_Rbytes i)); ("rubytes", jnum (SI_Rubytes i))]%string.

Definition Data_json (d : RespData) : list (string * json) :=
  match d with
  | NoData => []
  | DentrysData l => [("data", JArr (map Dentry_json l))]
  | IdData id => [("data", jnum id)]
  | BytesData b => [("data", jbytes b)]
  | NamesData l => [("data", JArr (map jtext l))]
  | InoData i => [("data", InoInfo_json i)]
  | StatfsData i => [("data", StatfsInfo_json i)]
  end%string.
Definition Response_json (r : Response) : json :=
  jobj (("code", jnum (Code r)) :: ("msg", jtext (Message r)) :: Data_json (Data r))%string.
