(* ===== verification/ProtoJsonProof.v ===== *)
(** The wire form of requests and responses: a response survives the round trip
    through its JSON text, the requests of one kind have different texts, an
    answer that is cut short is noticed and retried with nothing stored. *)

From stdpp Require Import base strings list pretty.
From Stdlib Require Import ZArith Lia Ascii.
From S2P Require Import Prelude GoString Proto Json JsonProof JsonCut ProtoJson.

(** ** Values in range *)

Definition str_ok (s : string) : bool := utf8_valid (str_bytes s).
Definition uint_ok (bits z : Z) : bool := (0 <=? z) && (z <? 2 ^ bits).

Definition InoInfo_ok (i : InoInfo) : bool :=
  uint_ok 64 (Info_Inode i) && uint_ok 32 (Info_Mode i) && uint_ok 32 (Info_Nlink i) &&
  uint_ok 64 (Info_Size i) && uint_ok 32 (Info_Uid i) && uint_ok 32 (Info_Gid i) &&
  uint_ok 64 (Info_MTime i) && uint_ok 64 (Info_CTime i) && uint_ok 64 (Info_ATime i) &&
  str_ok (Info_Target i) && str_ok (Info_Owner i) && str_ok (Info_Group i).
Definition Dentry_ok (d : Dentry) : bool :=
  str_ok (Dentry_Name d) && uint_ok 64 (Dentry_Inode d) && uint_ok 32 (Dentry_Type d) &&
  match Dentry_Info d with None => true | Some i => InoInfo_ok i end.
Definition StatfsInfo_ok (i : StatfsInfo) : bool :=
  uint_ok 32 (SI_Files i) && uint_ok 32 (SI_Folders i) && uint_ok 64 (SI_Fbytes i) && uint_ok 64 (SI_Fubytes i) &&
  uint_ok 64 (SI_Rfiles i) && uint_ok 64 (SI_Rfolders i) && uint_ok 64 (SI_Rbytes i) && uint_ok 64 (SI_Rubytes i).
Definition RespData_ok (d : RespData) : bool :=
  match d with
  | NoData => true
  | DentrysData l => forallb Dentry_ok l
  | IdData id => uint_ok 64 id
  | BytesData b => forallb is_byte b
  | NamesData l => forallb str_ok l
  | InoData i => InoInfo_ok i
  | StatfsData i => StatfsInfo_ok i
  end.
Definition Response_ok (r : Response) : bool :=
  (- 2 ^ 63 <=? Code r) && (Code r <? 2 ^ 63) && str_ok (Message r) && RespData_ok (Data r).

(** Which of the response structs. *)
Definition Data_kind (d : RespData) : nat :=
  match d with
  | NoData => 0 | DentrysData _ => 1 | IdData _ => 2 | BytesData _ => 3
  | NamesData _ => 4 | InoData _ => 5 | StatfsData _ => 6
  end.

(** ** The texts are well formed *)

Lemma text_ok_str s : text_ok (str_bytes s) = str_ok s.
Proof. unfold text_ok, str_ok. by rewrite str_bytes_ok. Qed.

Lemma ok_jtext s : str_ok s = true → json_ok (jtext s).
Proof. intros Hs. constructor. by rewrite text_ok_str. Qed.

Lemma ok_jnum z : json_ok (jnum z).
Proof. constructor. Qed.

(** Base64 text is ASCII. *)
Lemma ascii_text s : forallb (λ b, in_range 0 127 b) s = true → text_ok s = true.
Proof.
  intros H. apply andb_true_iff. split.
  - rewrite forallb_forall in *. intros b Hb%H%in_range_spec. apply is_byte_spec. lia.
  - unfold utf8_valid. induction s as [|b s IH]; [done|]. simpl in *.
    apply andb_true_iff in H as [Hb%in_range_spec H]. rewrite (proj2 (Z.ltb_lt b 128)) by lia. by apply IH.
Qed.

Lemma enc6_ascii n : in_range 0 127 (enc6 n) = true ∨ n < 0.
Proof.
  destruct (Z.ltb_spec n 0); [by right|left]. apply in_range_spec. unfold enc6. zbool.
Qed.

Lemma b64_ascii s : forallb is_byte s = true → forallb (λ b, in_range 0 127 b) (b64_encode s) = true.
Proof.
  assert (∀ n, 0 ≤ n → in_range 0 127 (enc6 n) = true) as He.
  { intros n Hn. destruct (enc6_ascii n) as [|]; [done|lia]. }
  induction s as [|a|a b|a b c r IH] using three_ind; [done|..]; cbn [forallb b64_encode];
    rewrite ?andb_true_iff, ?is_byte_spec; intros Hb; split_and!; try apply He; try done;
    try (Z.div_mod_to_equations; lia).
  apply IH. tauto.
Qed.

Lemma ok_jbytes b : forallb is_byte b = true → json_ok (jbytes b).
Proof. intros Hb. constructor. by apply ascii_text, b64_ascii. Qed.

Lemma ok_jobj l : Forall (λ kv, str_ok kv.1 = true ∧ json_ok kv.2) l → json_ok (jobj l).
Proof.
  intros H. constructor. apply Forall_map. eapply Forall_impl; [exact H|]. intros [k v] [Hk Hv].
  simpl in *. by rewrite text_ok_str.
Qed.

(** A struct: every tag is a plain word, so only the values matter. *)
Ltac ok_struct :=
  repeat match goal with H : _ && _ = true |- _ => apply andb_true_iff in H as [? ?] end;
  apply ok_jobj; repeat first [apply Forall_nil_2 | apply Forall_cons_2; [split; [reflexivity|simpl]|]];
  auto using ok_jtext, ok_jnum, ok_jbytes.

Lemma ok_InoInfo i : InoInfo_ok i = true → json_ok (InoInfo_json i).
Proof. unfold InoInfo_ok, InoInfo_json. intros H. ok_struct. Qed.

Lemma ok_Dentry d : Dentry_ok d = true → json_ok (Dentry_json d).
Proof.
  unfold Dentry_ok, Dentry_json. intros H. ok_struct.
  destruct (Dentry_Info d); [by apply ok_InoInfo|constructor].
Qed.

Lemma ok_StatfsInfo i : json_ok (StatfsInfo_json i).
Proof. unfold StatfsInfo_json. ok_struct. Qed.

Lemma ok_array {A} (ok : A → bool) (tree : A → json) l :
  (∀ x, ok x = true → json_ok (tree x)) → forallb ok l = true → json_ok (JArr (map tree l)).
Proof.
  intros Hx Hl. constructor. apply Forall_map, List.Forall_forall. rewrite forallb_forall in Hl. auto.
Qed.

Lemma ok_Response r : Response_ok r = true → json_ok (Response_json r).
Proof.
  destruct r as [c m d]. unfold Response_ok, Response_json. cbn [Code Message Data].
  intros [[_ Hm]%andb_true_iff Hd]%andb_true_iff. apply ok_jobj.
  constructor; [split; [done|apply ok_jnum]|]. constructor; [split; [done|by apply ok_jtext]|].
  destruct d; simpl in Hd |- *; try apply Forall_nil_2;
    (apply Forall_cons_2; [split; [reflexivity|simpl]|apply Forall_nil_2]);
    eauto using ok_jnum, ok_jbytes, ok_InoInfo, ok_StatfsInfo, ok_array, ok_Dentry, ok_jtext.
Qed.

(** ** Decoding what was encoded *)

Lemma dec_uint_ok bits typ z old : uint_ok bits z = true → dec_uint bits typ (jnum z) old = (z, None).
Proof.
  intros [H1%Z.leb_le H2%Z.ltb_lt]%andb_true_iff. unfold dec_uint, jnum.
  by rewrite bytes_str_bytes, ParseUint_Itoa.
Qed.

Lemma dec_int_ok z old : - 2 ^ 63 ≤ z < 2 ^ 63 → dec_int (jnum z) old = (z, None).
Proof. intros Hz. unfold dec_int, jnum. by rewrite bytes_str_bytes, ParseInt_Itoa. Qed.

Lemma dec_str_ok s old : dec_str (jtext s) old = (s, None).
Proof. unfold dec_str, jtext. by rewrite bytes_str_bytes. Qed.

Lemma dec_bytes_ok b old : forallb is_byte b = true → dec_bytes (jbytes b) old = (b, None).
Proof. intros Hb. unfold dec_bytes, jbytes. by rewrite b64_roundtrip. Qed.

Lemma dec_elems_ok {A} (dec : json → A → dres A) (tree : A → json) zero l : ∀ old,
  Forall (λ x, ∀ old, dec (tree x) old = (x, None)) l → dec_elems dec zero (map tree l) old = (l, None).
Proof.
  induction l as [|x l IH]; intros old Hl; [done|]. apply Forall_cons in Hl as [Hx Hl]. simpl.
  by rewrite Hx, IH.
Qed.

(** One member: the field is found by computation. *)
Lemma dec_step {A} (fs : list (field A)) f k v l a a1 :
  find_field fs k = Some f → f_set f v a = (a1, None) →
  dec_members fs ((k, v) :: l) a = dec_members fs l a1.
Proof. intros Hf Hs. simpl. unfold set_member. rewrite Hf, Hs. by destruct (dec_members fs l a1). Qed.

Ltac dec_members :=
  repeat match goal with H : _ && _ = true |- _ => apply andb_true_iff in H as [? ?] end;
  unfold dec_struct, jobj; cbn [map fst snd];
  repeat (erewrite dec_step; [|reflexivity|cbn [f_set fld]; unfold dec_u32, dec_u64;
    first [rewrite dec_uint_ok by assumption | rewrite dec_str_ok]; simpl; reflexivity]).

Lemma dec_InoInfo_ok i old : InoInfo_ok i = true → dec_InoInfo (InoInfo_json i) old = (i, None).
Proof.
  unfold InoInfo_ok, dec_InoInfo, InoInfo_json. intros H.
  destruct i as [i1 i2 i3 i4 i5 i6 i7 i8 i9 i10 i11 i12], old as [o1 o2 o3 o4 o5 o6 o7 o8 o9 o10 o11 o12].
  cbn [Info_Inode Info_Mode Info_Nlink Info_Size Info_Uid Info_Gid Info_MTime Info_CTime Info_ATime Info_Target
    Info_Owner Info_Group] in *. dec_members. done.
Qed.

Lemma dec_StatfsInfo_ok i old : StatfsInfo_ok i = true → dec_StatfsInfo (StatfsInfo_json i) old = (i, None).
Proof.
  unfold StatfsInfo_ok, dec_StatfsInfo, StatfsInfo_json. intros H.
  destruct i as [i1 i2 i3 i4 i5 i6 i7 i8], old as [o1 o2 o3 o4 o5 o6 o7 o8].
  cbn [SI_Files SI_Folders SI_Fbytes SI_Fubytes SI_Rfiles SI_Rfolders SI_Rbytes SI_Rubytes] in *. dec_members. done.
Qed.

Lemma dec_Info_ok (o : option InoInfo) old :
  match o with None => true | Some i => InoInfo_ok i end = true →
  dec_ptr dec_InoInfo zero_InoInfo (match o with None => JNull | Some i => InoInfo_json i end) old = (o, None).
Proof.
  destruct o as [i|]; [|done]. intros Hi. pose proof (dec_InoInfo_ok i (default zero_InoInfo old) Hi) as E.
  unfold dec_ptr. destruct (InoInfo_json i) eqn:Ej; [discriminate Ej|..]; by rewrite E.
Qed.

Lemma dec_Dentry_ok d old : Dentry_ok d = true → dec_Dentry (Dentry_json d) old = (d, None).
Proof.
  unfold Dentry_ok, dec_Dentry, Dentry_json. intros H. destruct d as [d1 d2 d3 d4], old as [o1 o2 o3 o4].
  cbn [Dentry_Name Dentry_Inode Dentry_Type Dentry_Info] in *. dec_members.
  erewrite dec_step; [|reflexivity|cbn [f_set fld]; rewrite dec_Info_ok by assumption; simpl; reflexivity].
  done.
Qed.

Lemma forallb_Forall {A} (P : A → bool) l : forallb P l = true → Forall (λ x, P x = true) l.
Proof. intros H. apply List.Forall_forall. by apply forallb_forall. Qed.

(** The [data] member of a response of its kind. *)
Lemma dec_Data_ok d old k v : RespData_ok d = true → Data_kind old = Data_kind d →
  Data_json d = [(k, v)] → k = "data"%string ∧ dec_Data v old = (d, None).
Proof.
  intros Hok Hk E. destruct d, old; try discriminate Hk; try discriminate E; injection E as <- <-;
    simpl in Hok; (split; [done|]); cbn [dec_Data dec_slice].
  - rewrite dec_elems_ok; [done|]. eapply Forall_impl; [by apply forallb_Forall|]. auto using dec_Dentry_ok.
  - unfold dec_u64. by rewrite dec_uint_ok.
  - by rewrite dec_bytes_ok.
  - rewrite dec_elems_ok; [done|]. eapply Forall_impl; [by apply forallb_Forall|]. auto using dec_str_ok.
  - by rewrite dec_InoInfo_ok.
  - by rewrite dec_StatfsInfo_ok.
Qed.

Lemma dec_Response_ok r old : Response_ok r = true → Data_kind (Data old) = Data_kind (Data r) →
  dec_Response (Response_json r) old = (r, None).
Proof.
  unfold Response_ok. intros [[[H1%Z.leb_le H2%Z.ltb_lt]%andb_true_iff Hm]%andb_true_iff Hd]%andb_true_iff Hk.
  destruct r as [c m d], old as [oc om od]. cbn [Code Message Data] in *.
  unfold dec_Response, dec_struct, Response_json, jobj. cbn [Code Message Data map fst snd].
  erewrite dec_step; [|reflexivity|cbn [f_set fld]; rewrite dec_int_ok by done; simpl; reflexivity].
  erewrite dec_step; [|reflexivity|cbn [f_set fld]; rewrite dec_str_ok; simpl; reflexivity].
  pose proof (dec_Data_ok d od) as HD.
  assert (Data_json d = [] ∨ ∃ k v, Data_json d = [(k, v)]) as [E|(k & v & E)] by (destruct d; simpl; eauto).
  - rewrite E. simpl. destruct d, od; try discriminate E; try discriminate Hk. done.
  - destruct (HD k v Hd Hk E) as [-> Hv]. rewrite E. cbn [map fst snd].
    erewrite dec_step; [|reflexivity|cbn [f_set fld Data]; rewrite Hv; simpl; reflexivity]. done.
Qed.

Lemma Decode_ok r old rest :
  Response_ok r = true → Data_kind (Data old) = Data_kind (Data r) → num_end rest →
  Decode (print (Response_json r) ++ rest) old = (r, None).
Proof.
  intros Hr Hk Hn. unfold Decode, decode_body. rewrite parse_print by auto using ok_Response. by apply dec_Response_ok.
Qed.

(** ** Errors *)

(** An error that [retry] of lib/libfs/api/proxyclient.go does not act on. *)
Definition unretried (e : option error) : bool :=
  match e with
  | None => true
  | Some (ErrNew m) =>
      negb (Contains m "connection refused" || Contains m "use of closed network connection" ||
            Contains m "EOF" || Contains m "connection reset by peer")
  | Some _ => false
  end.

Lemma unretried_first e e' : unretried e = true → unretried e' = true → unretried (first_err e e') = true.
Proof. by destruct e. Qed.

(** A decoder whose errors are all of that sort. *)
Definition unretried_dec {A} (dec : json → A → dres A) : Prop := ∀ j a, unretried (dec j a).2 = true.

Definition unretried_type (typ : string) : Prop := ∀ j, unretried (type_error j typ) = true.
Ltac unretried_type := let j := fresh in intros j; destruct j; vm_compute; reflexivity.

Lemma unretried_uint bits typ : unretried_type typ → unretried_dec (dec_uint bits typ).
Proof. intros Ht [] a; cbn [dec_uint snd]; try done; try apply Ht. destruct (ParseUint _ _); [done|apply Ht]. Qed.

Lemma unretried_int : unretried_dec dec_int.
Proof.
  assert (unretried_type "int") as Ht by unretried_type. intros [] a; cbn [dec_int snd]; try done; try apply Ht.
  destruct (ParseInt _ _); [done|apply Ht].
Qed.

Lemma unretried_str : unretried_dec dec_str.
Proof. assert (unretried_type "string") as Ht by unretried_type. intros [] a; cbn [dec_str snd]; try done; apply Ht. Qed.

Lemma unretried_elems {A} (dec : json → A → dres A) zero l : ∀ old,
  unretried_dec dec → unretried (dec_elems dec zero l old).2 = true.
Proof.
  induction l as [|j l IH]; intros old Hd; [done|]. cbn [dec_elems]. specialize (Hd j (hd zero old)) as Hj.
  specialize (IH (tail old) Hd). destruct (dec j _) as [a e], (dec_elems _ _ l _) as [t e'].
  by apply unretried_first.
Qed.

Lemma unretried_slice {A} typ (dec : json → A → dres A) zero :
  unretried_type typ → unretried_dec dec → unretried_dec (dec_slice typ dec zero).
Proof. intros Ht Hd [] a; cbn [dec_slice snd]; try done; try apply Ht. by apply unretried_elems. Qed.

Lemma unretried_bytes : unretried_dec dec_bytes.
Proof.
  intros j a. pose proof (unretried_slice "[]uint8" dec_u8 0 ltac:(unretried_type) (unretried_uint 8 "uint8" ltac:(unretried_type)) j a).
  destruct j; try done. simpl. by destruct (b64_decode s).
Qed.

Lemma unretried_struct {A} typ (fs : list (field A)) :
  unretried_type typ → Forall (λ f, unretried_dec (f_set f)) fs → unretried_dec (dec_struct typ fs).
Proof.
  intros Ht Hf [] a; cbn [dec_struct snd]; try done; try apply Ht. revert a.
  induction l as [|[k v] l IH]; intros a; [done|]. cbn [dec_members]. unfold set_member.
  assert (unretried (match find_field fs k with Some f => f_set f v a | None => (a, None) end).2 = true) as H1.
  { destruct (find_field fs k) as [f|] eqn:E; [|done]. apply find_some in E as [Hin _].
    rewrite List.Forall_forall in Hf. by apply Hf. }
  destruct (match find_field fs k with Some f => _ | None => _ end) as [a1 e]. specialize (IH a1).
  destruct (dec_members fs l a1) as [a2 e']. by apply unretried_first.
Qed.

Lemma unretried_fld {A T} tag (dec : json → T → dres T) (get : A → T) put :
  unretried_dec dec → unretried_dec (f_set (fld tag dec get put)).
Proof. intros Hd j a. simpl. specialize (Hd j (get a)). by destruct (dec j (get a)). Qed.

Lemma unretried_ptr {A} (dec : json → A → dres A) zero : unretried_dec dec → unretried_dec (dec_ptr dec zero).
Proof.
  intros Hd j old. specialize (Hd j (default zero old)). unfold dec_ptr.
  destruct j; try done; by destruct (dec _ _).
Qed.

Create HintDb unretried.
#[export] Hint Resolve unretried_int unretried_str unretried_bytes unretried_ptr unretried_fld unretried_slice : unretried.
#[export] Hint Extern 2 (unretried_type _) => unretried_type : unretried.
#[export] Hint Extern 1 (unretried_dec dec_u32) => apply unretried_uint : unretried.
#[export] Hint Extern 1 (unretried_dec dec_u64) => apply unretried_uint : unretried.

Lemma unretried_InoInfo : unretried_dec dec_InoInfo.
Proof. apply unretried_struct; [unretried_type|]. unfold InoInfo_fields. repeat constructor; auto with unretried. Qed.
Lemma unretried_StatfsInfo : unretried_dec dec_StatfsInfo.
Proof. apply unretried_struct; [unretried_type|]. unfold StatfsInfo_fields. repeat constructor; auto with unretried. Qed.
#[export] Hint Resolve unretried_InoInfo unretried_StatfsInfo : unretried.
Lemma unretried_Dentry : unretried_dec dec_Dentry.
Proof. apply unretried_struct; [unretried_type|]. unfold Dentry_fields. repeat constructor; auto with unretried. Qed.
#[export] Hint Resolve unretried_Dentry : unretried.

Lemma unretried_Data : unretried_dec dec_Data.
Proof.
  assert (∀ T (c : T → RespData) (m : dres T), unretried m.2 = true →
    unretried (let '(x, e) := m in (c x, e)).2 = true) as Hm by by intros T c [].
  intros j []; cbn [dec_Data]; [done|..];
    (match goal with |- unretried (match ?m with _ => _ end).2 = true => cut (unretried m.2 = true); [by destruct m|] end).
  - apply unretried_slice; auto with unretried.
  - apply unretried_uint; unretried_type.
  - apply unretried_bytes.
  - apply unretried_slice; auto with unretried.
  - apply unretried_InoInfo.
  - apply unretried_StatfsInfo.
Qed.
#[export] Hint Resolve unretried_Data : unretried.

Lemma unretried_Response : unretried_dec dec_Response.
Proof. apply unretried_struct; [unretried_type|]. unfold Response_fields. repeat constructor; auto with unretried. Qed.

(** An error of the decoder that would be retried has left the result alone. *)
Lemma Decode_unchanged body old r e :
  Decode body old = (r, Some e) → unretried (Some e) = false → r = old.
Proof.
  unfold Decode, decode_body. destruct (parse body) as [j rest| | |]; try (by intros [= <- <-]).
  intros E Hq. pose proof (unretried_Response j old) as H. rewrite E in H. simpl in *. congruence.
Qed.

(** An answer that is cut short is such an error. *)
Lemma Decode_cut r old p :
  Response_ok r = true → cutof p (print (Response_json r)) →
  ∃ e, Decode p old = (old, Some e) ∧ Contains (error_Error e) "EOF" = true.
Proof.
  intros Hr Hp. unfold Decode, decode_body. unfold Response_json, jobj in *.
  rewrite (parse_cut _ p (ok_Response r Hr) Hp). eexists. split; [done|]. by destruct (skip_ws p).
Qed.

(** ** Requests *)

Definition Request_ok (r : Request) : bool :=
  match r with
  | MkdirRequest p _ | ReaddirRequest p | RmdirRequest p | RmdirTreeRequest p | OpenRequest p _ _
  | TruncateRequest p _ | UnlinkRequest p | StatRequest p | StatfsRequest p => str_ok p
  | ReaddirExRequest p q _ | LinkRequest p q | SymlinkRequest p q | GetxattrRequest p q
  | RemovexattrRequest p q | RenameRequest p q => str_ok p && str_ok q
  | SetxattrRequest p _ name data => str_ok p && str_ok name && forallb is_byte data
  | SetAttrRequest p a => str_ok p && str_ok (SA_Owner a) && str_ok (SA_Group a)
  | ReadRequest _ _ _ | FsyncRequest _ => true
  | WriteRequest _ _ _ data => forallb is_byte data
  end.

(** The Go struct. *)
Definition Request_struct (r : Request) : string :=
  match r with
  | MkdirRequest _ _ => "MkdirRequest"
  | ReaddirRequest _ => "ReaddirRequest"
  | ReaddirExRequest _ _ _ => "ReaddirExRequest"
  | RmdirRequest _ => "RmdirRequest"
  | RmdirTreeRequest _ => "RmdirTreeRequest"
  | OpenRequest _ _ _ => "OpenRequest"
  | ReadRequest _ _ _ => "ReadRequest"
  | WriteRequest _ _ _ _ => "WriteRequest"
  | TruncateRequest _ _ => "TruncateRequest"
  | UnlinkRequest _ => "UnlinkRequest"
  | LinkRequest _ _ => "LinkRequest"
  | SymlinkRequest _ _ => "SymlinkRequest"
  | SetxattrRequest _ _ _ _ => "SetxattrRequest"
  | GetxattrRequest _ _ => "GetxattrRequest"
  | RemovexattrRequest _ _ => "RemovexattrRequest"
  | SetAttrRequest _ _ => "SetAttrRequest"
  | RenameRequest _ _ => "RenameRequest"
  | StatRequest _ => "StatRequest"
  | StatfsRequest _ => "StatfsRequest"
  | FsyncRequest _ => "FsyncRequest"
  end.

Lemma ok_Request r : Request_ok r = true → json_ok (Request_json r).
Proof. unfold Request_json. destruct r; cbn [Request_ok]; intros H; ok_struct. Qed.

Lemma print_inj j1 j2 : json_ok j1 → json_ok j2 → print j1 = print j2 → j1 = j2.
Proof.
  intros H1 H2 E. pose proof (parse_print j1 [] H1 I) as E1. pose proof (parse_print j2 [] H2 I) as E2.
  rewrite E, E2 in E1. by injection E1.
Qed.

Lemma b64_encode_inj b1 b2 :
  forallb is_byte b1 = true → forallb is_byte b2 = true → b64_encode b1 = b64_encode b2 → b1 = b2.
Proof.
  intros H1 H2 E. apply (f_equal b64_decode) in E. rewrite !b64_roundtrip in E by done. by injection E.
Qed.

Lemma Request_json_inj r1 r2 :
  Request_ok r1 = true → Request_ok r2 = true → Request_struct r1 = Request_struct r2 →
  Request_json r1 = Request_json r2 → r1 = r2.
Proof.
  assert (∀ z z', str_bytes (Itoa z) = str_bytes (Itoa z') → z = z') as Hn.
  { intros z z' H%str_bytes_inj. by apply (inj pretty) in H. }
  intros H1 H2 Hs E. destruct r1 as [| | | | | | | | | | | | | | |? []| | | |], r2 as [| | | | | | | | | | | | | | |? []| | | |];
    try discriminate Hs; cbn [Request_ok] in H1, H2; clear Hs;
    repeat match goal with H : _ && _ = true |- _ => apply andb_true_iff in H as [? ?] end;
    unfold Request_json, jobj in E; cbn [map fst snd] in E; injection E; clear E; intros;
    repeat match goal with
    | H : str_bytes (Itoa _) = str_bytes (Itoa _) |- _ => apply Hn in H
    | H : str_bytes _ = str_bytes _ |- _ => apply str_bytes_inj in H
    | H : b64_encode _ = b64_encode _ |- _ => apply b64_encode_inj in H; [|done..]
    end; simpl in *; congruence.
Qed.

Lemma Marshal_inj r1 r2 :
  Request_ok r1 = true → Request_ok r2 = true → Request_struct r1 = Request_struct r2 →
  Marshal r1 = Marshal r2 → r1 = r2.
Proof.
  intros H1 H2 Hs E. apply Request_json_inj; [done..|]. apply print_inj; auto using ok_Request.
  unfold Marshal in E. congruence.
Qed.

(** ** The codec *)


(** C18: two requests of the same kind with the same body on the wire are the same
    request, for valid UTF-8 paths and names and real bytes: no field is lost,
    truncated or confused with another. *)
Theorem marshal_faithful (r1 r2 : Request) (body : bytes) :
  Request_ok r1 = true → Request_ok r2 = true → Request_struct r1 = Request_struct r2 →
  Marshal r1 = inl body → Marshal r2 = inl body → r1 = r2.
Proof. intros H1 H2 Hs E1 E2. apply Marshal_inj; [done..|]. by rewrite E1, E2. Qed.

Module JsonExample.

(** A directory entry called a-umlaut, quote, line feed, less-than. *)
Definition name1 : string := String (ascii_of_nat 195) (String (ascii_of_nat 164)
  (String (ascii_of_nat 34) (String (ascii_of_nat 10) "<"))).
Definition ino1 : InoInfo := MkInoInfo 18446744073709551615 33188 1 5 0 0 1 2 3 EmptyString "root" "root".
Definition listing : Response :=
  MkResponse 0 "ok" (DentrysData [MkDentry name1 7 1 (Some ino1); MkDentry "b" 8 2 None]).


Lemma marshal_faithful_witness :
  Marshal (RenameRequest "/a" name1) = inl (print (Request_json (RenameRequest "/a" name1))) ∧
  RenameRequest "/a" name1 = RenameRequest "/a" name1.
Proof.
  split; [reflexivity|].
  apply (marshal_faithful (RenameRequest "/a" name1) (RenameRequest "/a" name1)
    (print (Request_json (RenameRequest "/a" name1))));
    [vm_compute; reflexivity|vm_compute; reflexivity|reflexivity|reflexivity|reflexivity].
Defined.

(** Texts below are written with single quotes for the double ones. *)
Definition requote (s : string) : bytes := map (λ b, if b =? 39 then 34 else b) (str_bytes s).

Lemma write_text :
  Marshal (WriteRequest 7 3 2 [120; 255]) = inl (requote "{'id':7,'off':3,'len':2,'data':'eP8='}").
Proof. vm_compute. reflexivity. Qed.

(** Paths that are not UTF-8 can collide: the encoder replaces each invalid byte
    by U+FFFD, so deleting one file sends the request that deletes the other. *)
Lemma invalid_paths_collide :
  ∃ p q, p ≠ q ∧ Marshal (UnlinkRequest p) = Marshal (UnlinkRequest q).
Proof.
  exists (String (ascii_of_nat 255) EmptyString), (String (ascii_of_nat 254) EmptyString).
  split; [discriminate|]. vm_compute. reflexivity.
Qed.

(** An answer without a code counts as success: "{}" and "null" leave the zero
    code in place. *)
Lemma empty_answer_succeeds r :
  Decode (str_bytes "{}") r = (r, None) ∧ Decode (str_bytes "null") r = (r, None).
Proof. split; reflexivity. Qed.

(** A code that does not fit is an error, and the rest is still decoded. *)
Lemma bad_code_keeps_data :
  ∃ e, Decode (requote "{'code':'x','data':'eP8='}") ReadResponse =
       (zero_of (BytesData [120; 255]), Some e).
Proof. eexists. vm_compute. reflexivity. Qed.
End JsonExample.
