(* ===== verification/Store.v ===== *)
(** The boundary between the caches and the proxy: [Reader.Read] and
    [Writer.Write] (lib/libfs/read.go, write.go) over the two proxy calls they
    make, the contract the caches rely on ([ProxyStore]) and the abstract file
    ([afile]) against which the caches are specified. *)

From stdpp Require Import base gmap list strings.
From Stdlib Require Import ZArith Lia.
From S2P Require Import Prelude GoString Proto.

(** * The two proxy calls

    [proxy_Read id offset length] and [proxy_Write id buffer offset] are the
    methods [ProxyClient.Read] and [ProxyClient.Write]; [W] is everything
    behind them (the connection and the server's files). *)
Class ProxyIO (W : Type) : Type := {
  proxy_Read : Z → Z → Z → W → (Response * option error) * W;
  proxy_Write : Z → bytes → Z → W → (Response * option error) * W;
}.

(** The result of a read is the returned count, the error, and the caller's
    buffer after [copy(buffer, resp.Data)]. *)
Record ReadResult : Type := MkRead {
  rd_size : Z;
  rd_err : option error;
  rd_buf : bytes;
}.

(** [copy(buffer, data)]: the common prefix is overwritten. *)
Definition copy0 (buffer data : bytes) : bytes :=
  take (length buffer) data ++ drop (length data) buffer.

Section IO.
Context {W : Type} `{ProxyIO W}.

Definition Reader_Read (id : Z) (buffer : bytes) (offset : Z) (w : W) : ReadResult * W :=
  let size := u32 (Zlen buffer) in
  let '((resp, err), w') := proxy_Read id offset (u64 size) w in
  match err with
  | Some e => (MkRead 0 (Some (ErrErrno (ToErrno (Some e)))) buffer, w')
  | None =>
      if negb (Code resp =? 0)
      then (MkRead 0 (toErr err (Code resp)) buffer, w')
      else (MkRead (Zlen (resp_Bytes resp)) None (copy0 buffer (resp_Bytes resp)), w')
  end.

Definition Writer_Write (id : Z) (buffer : bytes) (offset : Z) (w : W)
    : (Z * option error) * W :=
  let size := u32 (Zlen buffer) in
  let '((resp, err), w') := proxy_Write id buffer offset w in
  match err with
  | Some e => ((0, Some (ErrErrno (ToErrno (Some e)))), w')
  | None =>
      if negb (Code resp =? 0)
      then ((0, toErr err (Code resp)), w')
      else ((size, None), w')
  end.
End IO.

(** * The contract of the proxy's files

    [written c off data c']: a write of [data] at [off] turned [c] into [c'].
    [torn c off data c']: such a write was reported as failed; any part of
    the range may have been changed, nothing outside it was. *)
Definition written (c : bytes) (off : Z) (data : bytes) (c' : bytes) : Prop :=
  Zlen c' = Z.max (Zlen c) (if Zlen data =? 0 then 0 else off + Zlen data) ∧
  ∀ i, byte_at c' i =
       if (off <=? i) && (i <? off + Zlen data) then byte_at data (i - off)
       else byte_at c i.

Definition torn (c : bytes) (off : Z) (data : bytes) (c' : bytes) : Prop :=
  Zlen c ≤ Zlen c' ≤ Z.max (Zlen c) (off + Zlen data) ∧
  ∀ i, ¬ (off ≤ i < off + Zlen data) → byte_at c' i = byte_at c i.

(** [ProxyStore]: behind the two calls there is a byte array per file id; a
    successful read returns the bytes of the requested range that lie before
    the end of file, a successful write is [written], a failed one [torn]. *)
Class ProxyStore (W : Type) `{ProxyIO W} : Type := {
  content : W → Z → bytes;
  store_read_ok : ∀ id off len w r w',
    0 ≤ off → 0 ≤ len →
    proxy_Read id off len w = ((r, None), w') → Code r = 0 →
    resp_Bytes r = take (Z.to_nat len) (drop (Z.to_nat off) (content w id));
  store_read_frame : ∀ id off len w x w',
    proxy_Read id off len w = (x, w') → ∀ id', content w' id' = content w id';
  store_write_ok : ∀ id data off w r w',
    0 ≤ off →
    proxy_Write id data off w = ((r, None), w') → Code r = 0 →
    written (content w id) off data (content w' id);
  store_write_fail : ∀ id data off w r e w',
    0 ≤ off →
    proxy_Write id data off w = ((r, e), w') → (e ≠ None ∨ Code r ≠ 0) →
    torn (content w id) off data (content w' id);
  store_write_frame : ∀ id data off w x w',
    proxy_Write id data off w = (x, w') → ∀ id', id' ≠ id → content w' id' = content w id';
}.

(** * The abstract file

    [live f i]: position [i] lies before the end of the file.  [abyte f i]:
    the byte there (0 past the end: a hole reads as zeros). *)
Record afile : Type := MkAfile {
  live : Z → Prop;
  abyte : Z → Z;
}.

#[export] Instance afile_equiv : Equiv afile := λ f g,
  (∀ i, 0 ≤ i → (live f i ↔ live g i)) ∧ (∀ i, 0 ≤ i → abyte f i = abyte g i).

#[export] Instance afile_equivalence : Equivalence (≡@{afile}).
Proof.
  split.
  - intros f. by split.
  - intros f g [Hl Hb]. split; intros; [symmetry; auto|symmetry; auto].
  - intros f g h [Hl Hb] [Hl' Hb']. split; intros; [rewrite Hl; auto|rewrite Hb; auto].
Qed.

Definition of_bytes (c : bytes) : afile := MkAfile (λ i, i < Zlen c) (byte_at c).

(** Writing [data] (not empty) at [off]. *)
Definition spec_write (f : afile) (off : Z) (data : bytes) : afile :=
  MkAfile (λ i, live f i ∨ i < off + Zlen data)
          (λ i, if (off <=? i) && (i <? off + Zlen data)
                then byte_at data (i - off) else abyte f i).

#[export] Instance spec_write_proper : Proper ((≡) ==> (=) ==> (=) ==> (≡)) spec_write.
Proof.
  intros f g [Hl Hb] ? off -> ? d ->. split; simpl; intros i Hi.
  - by rewrite Hl.
  - case_match; auto.
Qed.

(** Two adjacent writes are one write of the concatenation. *)
Lemma spec_write_app f off d1 d2 :
  0 ≤ off → spec_write (spec_write f off d1) (off + Zlen d1) d2 ≡ spec_write f off (d1 ++ d2).
Proof.
  intros Ho. pose proof (Zlen_nonneg d1). pose proof (Zlen_nonneg d2).
  split; simpl; intros i Hi; rewrite Zlen_app.
  - split; [intros [[?|?]|?]|intros [?|?]]; auto; right; lia.
  - rewrite byte_at_app. zbool; f_equal; lia.
Qed.

(** [agree_outside lo hi f g]: [g] differs from [f] only inside [lo,hi), and
    may be extended up to [hi]. *)
Definition agree_outside (lo hi : Z) (f g : afile) : Prop :=
  (∀ i, 0 ≤ i → ¬ (lo ≤ i < hi) → abyte g i = abyte f i) ∧
  (∀ i, 0 ≤ i → live f i → live g i) ∧
  (∀ i, 0 ≤ i → live g i → live f i ∨ i < hi).

Lemma agree_outside_refl lo hi f : agree_outside lo hi f f.
Proof. split_and!; auto. Qed.

Lemma agree_outside_trans lo hi f g h :
  agree_outside lo hi f g → agree_outside lo hi g h → agree_outside lo hi f h.
Proof.
  intros (A1&A2&A3) (B1&B2&B3). split_and!; intros i Hi.
  - intros Hn. rewrite B1, A1; auto.
  - auto.
  - intros [?|?]%B3; auto.
Qed.

Lemma agree_outside_mono lo hi lo' hi' f g :
  lo' ≤ lo → hi ≤ hi' → agree_outside lo hi f g → agree_outside lo' hi' f g.
Proof.
  intros ?? (A1&A2&A3). split_and!; intros i Hi.
  - intros Hn. apply A1; [done|lia].
  - auto.
  - intros [?|?]%A3; auto. right. lia.
Qed.

Lemma spec_write_agree lo hi f off data :
  lo ≤ off → off + Zlen data ≤ hi → agree_outside lo hi f (spec_write f off data).
Proof.
  intros. split_and!; simpl; intros i Hi; [|by left|].
  - intros. zbool.
  - intros [?|?]; [by left|right; lia].
Qed.

Lemma equiv_agree lo hi f g : f ≡ g → agree_outside lo hi f g.
Proof.
  intros [Hl Hb]. split_and!; intros i Hi.
  - intros _. symmetry. auto.
  - intros. by apply Hl.
  - intros ?. left. by apply Hl.
Qed.

Lemma agree_outside_equiv lo hi f f' g g' :
  f ≡ f' → g ≡ g' → agree_outside lo hi f' g' → agree_outside lo hi f g.
Proof.
  intros Hf Hg H. eapply agree_outside_trans; [by apply equiv_agree|].
  eapply agree_outside_trans; [done|]. by apply equiv_agree.
Qed.

(** * An in-memory proxy: files, and the outcome each coming write is to have
    ([None]: success; [Some code]: the proxy answers with that code). *)
Record MemStore : Type := MkMem {
  mem_files : gmap Z bytes;
  mem_script : list (option Z);
}.

Definition mem_content (m : MemStore) (id : Z) : bytes := default [] (mem_files m !! id).

(** Overwrite [data] at [off], zero-filling a hole. *)
Definition splice (c : bytes) (off : Z) (data : bytes) : bytes :=
  if Zlen data =? 0 then c
  else take (Z.to_nat off) (c ++ zeros (off - Zlen c)) ++ data
       ++ drop (Z.to_nat (off + Zlen data)) c.

Lemma splice_written c off data : 0 ≤ off → written c off data (splice c off data).
Proof.
  intros Ho. unfold written, splice. pose proof (Zlen_nonneg data). pose proof (Zlen_nonneg c).
  destruct (Z.eqb_spec (Zlen data) 0) as [E|E].
  { split; [lia|]. intros i. zbool. }
  assert (Zlen (take (Z.to_nat off) (c ++ zeros (off - Zlen c))) = off) as Ht.
  { apply Zlen_take. rewrite Zlen_app. split; [lia|].
    destruct (Z.le_gt_cases off (Zlen c)).
    - pose proof (Zlen_nonneg (zeros (off - Zlen c))). lia.
    - rewrite Zlen_zeros; lia. }
  split.
  - rewrite !Zlen_app, Ht. unfold Zlen. rewrite length_drop. unfold Zlen in *. lia.
  - intros i. rewrite !byte_at_app, Ht, byte_at_take, byte_at_drop by lia. zbool.
    + f_equal. lia.
    + rewrite byte_at_app, byte_at_zeros. zbool. by rewrite byte_at_ge by lia.
Qed.

#[export] Instance mem_io : ProxyIO MemStore := {
  proxy_Read id off len m :=
    (MkResponse 0 EmptyString
       (BytesData (take (Z.to_nat len) (drop (Z.to_nat off) (mem_content m id)))), None, m);
  proxy_Write id data off m :=
    match mem_script m with
    | Some code :: sc =>
        if code =? 0
        then (MkResponse 0 EmptyString NoData, Some (ErrNew "EOF"),
              MkMem (mem_files m) sc)
        else (MkResponse code EmptyString NoData, None, MkMem (mem_files m) sc)
    | sc =>
        (MkResponse 0 EmptyString NoData, None,
         MkMem (<[id := splice (mem_content m id) off data]> (mem_files m)) (tl sc))
    end;
}.

Lemma torn_refl c off data : 0 ≤ Zlen data → torn c off data c.
Proof. split; [lia|done]. Qed.

#[export] Instance mem_store : ProxyStore MemStore.
Proof.
  refine {| content := mem_content |}.
  - intros id off len w r w' _ _ H _. simpl in H. by simplify_eq/=.
  - intros id off len w x w' H. simpl in H. by simplify_eq/=.
  - intros id data off w r w' Ho H Hc. unfold mem_content. simpl in H.
    destruct (mem_script w) as [|[code|] sc].
    + simplify_eq/=. rewrite lookup_insert_eq. by apply splice_written.
    + destruct (Z.eqb_spec code 0); simplify_eq/=.
    + simplify_eq/=. rewrite lookup_insert_eq. by apply splice_written.
  - intros id data off w r e w' Ho H Hf. unfold mem_content. simpl in H.
    destruct (mem_script w) as [|[code|] sc]; simplify_eq/=; try by destruct Hf.
    destruct (Z.eqb_spec code 0); simplify_eq/=; apply torn_refl, Zlen_nonneg.
  - intros id data off w x w' H id' Hne. unfold mem_content. simpl in H.
    destruct (mem_script w) as [|[code|] sc]; [simplify_eq/=; by rewrite lookup_insert_ne| |
      simplify_eq/=; by rewrite lookup_insert_ne].
    destruct (Z.eqb_spec code 0); by simplify_eq/=.
Defined.

(** * Lemmas on [Reader.Read] and [Writer.Write] *)

Section IO_facts.
Context {W : Type} `{ProxyStore W}.

Lemma copy0_ok buffer data :
  Zlen data ≤ Zlen buffer →
  Zlen (copy0 buffer data) = Zlen buffer ∧
  ∀ i, byte_at (copy0 buffer data) i =
       if (0 <=? i) && (i <? Zlen data) then byte_at data i else byte_at buffer i.
Proof.
  intros Hl. unfold copy0. rewrite take_ge by (unfold Zlen in *; lia).
  replace (length data) with (Z.to_nat (Zlen data)) by (unfold Zlen; lia).
  pose proof (Zlen_nonneg data). split.
  - rewrite Zlen_app, Zlen_drop; lia.
  - intros i. rewrite byte_at_app, byte_at_drop by lia.
    zbool; try (f_equal; lia). by rewrite !byte_at_neg by lia.
Qed.

(** A write that returns no error is [written]; one that returns an error is
    [torn]; other files are never touched. *)
Lemma Writer_Write_spec id buffer off w n e w' :
  0 ≤ off →
  Writer_Write id buffer off w = ((n, e), w') →
  (∀ id', id' ≠ id → content w' id' = content w id') ∧
  match e with
  | None => n = u32 (Zlen buffer) ∧ written (content w id) off buffer (content w' id)
  | Some _ => n = 0 ∧ is_errno e ∧ torn (content w id) off buffer (content w' id)
  end.
Proof.
  intros Ho. unfold Writer_Write.
  destruct (proxy_Write id buffer off w) as [[resp err] w1] eqn:E. intros Hr.
  assert (w1 = w') as -> by (destruct err; [|destruct (negb _)]; by simplify_eq).
  split; [intros; eapply store_write_frame; eauto|].
  destruct err as [e0|]; simplify_eq.
  - split_and!; [done|by eexists|]. eapply store_write_fail; eauto.
  - destruct (Z.eqb_spec (Code resp) 0) as [Hc|Hc]; simpl in *; simplify_eq.
    + split; [done|]. eapply store_write_ok; eauto.
    + destruct (toErr_errno None resp) as [c Hc'].
      { simpl. zbool. }
      rewrite Hc'. split_and!; [done|by eexists|].
      eapply store_write_fail; eauto.
Qed.

(** A read that returns no error fills the buffer with the file's bytes; no
    read changes a file. *)
Lemma Reader_Read_spec id buffer off w r w' :
  0 ≤ off → Zlen buffer < 2 ^ 32 →
  Reader_Read id buffer off w = (r, w') →
  (∀ id', content w' id' = content w id') ∧
  match rd_err r with
  | None =>
      rd_size r = Z.max 0 (Z.min (Zlen buffer) (Zlen (content w id) - off)) ∧
      Zlen (rd_buf r) = Zlen buffer ∧
      ∀ i, byte_at (rd_buf r) i =
           if (0 <=? i) && (i <? rd_size r) then byte_at (content w id) (off + i)
           else byte_at buffer i
  | Some _ => is_errno (rd_err r) ∧ rd_size r = 0 ∧ rd_buf r = buffer
  end.
Proof.
  intros Ho Hlt. pose proof (Zlen_nonneg buffer). unfold Reader_Read.
  rewrite u32_small, u64_small by lia.
  destruct (proxy_Read id off (Zlen buffer) w) as [[resp err] w1] eqn:E. intros Hr.
  assert (w1 = w') as -> by (destruct err; [|destruct (negb _)]; by simplify_eq).
  split; [by eapply store_read_frame|].
  destruct err as [e0|]; simplify_eq/=; [split; [by eexists|done]|].
  destruct (Z.eqb_spec (Code resp) 0) as [Hc|Hc]; simplify_eq/=.
  - pose proof (store_read_ok id off (Zlen buffer) w resp w' Ho ltac:(lia) E Hc) as ->.
    set (d := take _ _).
    assert (Zlen d = Z.max 0 (Z.min (Zlen buffer) (Zlen (content w id) - off))) as Hd.
    { unfold d, Zlen. rewrite length_take, length_drop. unfold Zlen in *. lia. }
    destruct (copy0_ok buffer d) as [Hl Hb]; [lia|].
    split_and!; [done|done|]. intros i. rewrite Hb. zbool.
    unfold d. rewrite byte_at_take, byte_at_drop by lia. zbool.
  - destruct (toErr_errno None resp) as [c Hc']; [simpl; zbool|].
    rewrite Hc'. simpl. split; [by eexists|done].
Qed.
End IO_facts.
