(* ===== verification/Buffer.v ===== *)
(** The data of the read and write caches (lib/libfs/cache.go): block
    buffers, block operations, the prefetch window and the per-file buffer
    table with its per-block locks; and [Slice], the cutting of a request
    into block operations that RCache and WCache share. *)

From stdpp Require Import base gmap list strings.
From Stdlib Require Import ZArith Lia.
From S2P Require Import Prelude GoString Proto.

(** [FileEntry] of lib/libfs/filecache.go. [fe_closed] tells whether the
    channel [close] has been closed. *)
Record FileEntry : Type := MkFileEntry {
  fe_Id : Z;
  BlockSize : Z;
  Handle : Z;
  FilePath : string;
  OpenFlag : Z;
  Mode : Z;
  DirectIO : bool;
  Owner : string;
  Pid : Z;
  LastAccessTime : Z;
  fe_closed : bool;
}.

(** * Buffer

    [dataBuf = []] stands for Go's nil slice; [elm] for [elm != nil] (a
    buffer has at most one element of the LRU list, the one it holds). *)
Record Buffer : Type := MkBuffer {
  buf_Id : Z;
  buf_fe : option FileEntry;
  BlkIdx : Z;
  Offset : Z;
  Len : Z;
  dataBuf : bytes;
  LastUpdateTime : Z;
  elm : bool;
}.

Definition NewBuffer (Id : Z) : Buffer :=
  {| buf_Id := Id; buf_fe := None; BlkIdx := 0; Offset := 0; Len := 0;
     dataBuf := []; LastUpdateTime := 0; elm := false |}.

Definition Buffer_ReSet (buf : Buffer) (fe : FileEntry) (blk : Z) : outcome Buffer :=
  let data :=
    if (Zlen (dataBuf buf) =? 0) || (u32 (Zlen (dataBuf buf)) <? BlockSize fe)
    then zeros (BlockSize fe) else dataBuf buf in
  if elm buf then Panic
  else Ret {| buf_Id := buf_Id buf; buf_fe := Some fe; BlkIdx := blk; Offset := 0;
              Len := 0; dataBuf := data; LastUpdateTime := 0; elm := false |}.

Definition Buffer_CanMerge (buf : Buffer) (off : Z) : bool :=
  u32 (Offset buf + Len buf) =? off.

(** [now] is [time.Now()]. *)
Definition Buffer_MergeData (now : Z) (buf : Buffer) (data : bytes) : outcome Buffer :=
  match go_copy (dataBuf buf) (u32 (Offset buf + Len buf)) data with
  | Ret d => Ret {| buf_Id := buf_Id buf; buf_fe := buf_fe buf; BlkIdx := BlkIdx buf;
                    Offset := Offset buf; Len := u32 (Len buf + u32 (Zlen data));
                    dataBuf := d; LastUpdateTime := now; elm := elm buf |}
  | Panic => Panic
  | Block => Block
  end.

Definition Buffer_IsFull (buf : Buffer) (BlockSize : Z) : outcome bool :=
  if u32 (Offset buf + Len buf) <=? BlockSize
  then Ret (u32 (Offset buf + Len buf) =? BlockSize) else Panic.

Definition Buffer_Skip (buf : Buffer) (off : Z) : outcome Buffer :=
  if Offset buf =? 0
  then Ret {| buf_Id := buf_Id buf; buf_fe := buf_fe buf; BlkIdx := BlkIdx buf;
              Offset := u32 (Offset buf + off); Len := Len buf;
              dataBuf := dataBuf buf; LastUpdateTime := LastUpdateTime buf;
              elm := elm buf |}
  else Panic.

Definition Buffer_GetData (buf : Buffer) : outcome bytes :=
  go_slice (dataBuf buf) (Offset buf) (u32 (Offset buf + Len buf)).

Definition Buffer_GetRangeData (buf : Buffer) (Start End : Z) : outcome bytes :=
  if (Offset buf <=? Start) && (End <=? u32 (Offset buf + Len buf))
  then go_slice (dataBuf buf) Start End else Panic.

(** A nil [fe] is a nil dereference. *)
Definition Buffer_GetAlignOffset (buf : Buffer) : outcome Z :=
  match buf_fe buf with
  | Some fe => Ret (u64 (BlkIdx buf * BlockSize fe))
  | None => Panic
  end.

Definition Buffer_GetFileOffset (buf : Buffer) : outcome Z :=
  match Buffer_GetAlignOffset buf with
  | Ret a => Ret (u64 (a + Offset buf))
  | Panic => Panic
  | Block => Block
  end.

Definition Buffer_GetTailOffset (buf : Buffer) : outcome Z :=
  match Buffer_GetAlignOffset buf with
  | Ret a => Ret (u64 (u64 (a + Offset buf) + Len buf))
  | Panic => Panic
  | Block => Block
  end.

Definition set_elm (b : bool) (t : Z) (buf : Buffer) : Buffer :=
  {| buf_Id := buf_Id buf; buf_fe := buf_fe buf; BlkIdx := BlkIdx buf;
     Offset := Offset buf; Len := Len buf; dataBuf := dataBuf buf;
     LastUpdateTime := t; elm := b |}.

(** * RWBlockOp

    [rwBuf] is a sub-slice of the request's buffer; [rwPos] is where it
    starts there, so that what is copied into it can be written back. *)
Record RWBlockOp : Type := MkOp {
  op_fe : FileEntry;
  Index : Z;
  RwOffset : Z;
  RwSize : Z;
  rwBuf : bytes;
  rwPos : Z;
}.

Definition Op_GetAlignOffset (op : RWBlockOp) : Z := u64 (Index op * BlockSize (op_fe op)).

Definition Op_GetFileOffset (op : RWBlockOp) : Z := u64 (Op_GetAlignOffset op + RwOffset op).

Definition Op_IsFull (op : RWBlockOp) : outcome bool :=
  if (RwSize op =? u32 (Zlen (rwBuf op)))
     && (u32 (RwOffset op + RwSize op) <=? BlockSize (op_fe op))
  then Ret (u32 (RwOffset op + RwSize op) =? BlockSize (op_fe op)) else Panic.

(** * Slice

    The loop [for blockIndexStart < blockIndexEnd]; its variables are the
    arguments. The number of iterations is bounded by [fuel], which the
    caller takes as the distance of the two indices. *)
Fixpoint Slice_loop (fuel : nat) (fe : FileEntry) (buffer : bytes)
    (blkStart blkEnd rwOffset leftRwSize rwBufOffset : Z) : outcome (list RWBlockOp) :=
  match fuel with
  | O => Ret []
  | S fuel' =>
      if blkStart <? blkEnd then
        let off := rwOffset mod BlockSize fe in
        let sz0 := u32 (BlockSize fe - off) in
        let RWSize := if leftRwSize <? sz0 then leftRwSize else sz0 in
        match go_slice buffer rwBufOffset (u32 (rwBufOffset + RWSize)) with
        | Ret piece =>
            match Slice_loop fuel' fe buffer (u64 (blkStart + 1)) blkEnd
                    (u32 (rwOffset + RWSize)) (u32 (leftRwSize - RWSize))
                    (u32 (rwBufOffset + RWSize)) with
            | Ret ops => Ret (MkOp fe blkStart off RWSize piece rwBufOffset :: ops)
            | Panic => Panic
            | Block => Block
            end
        | Panic => Panic
        | Block => Block
        end
      else Ret []
  end.

Definition Slice (fe : FileEntry) (buffer : bytes) (offset : Z) : outcome (list RWBlockOp) :=
  if BlockSize fe =? 0 then Panic
  else
    let size := u32 (Zlen buffer) in
    let blkStart := offset / BlockSize fe in
    let blkEnd := u64 (u64 (u64 (offset + size) + BlockSize fe) - 1) / BlockSize fe in
    Slice_loop (Z.to_nat (blkEnd - blkStart)) fe buffer blkStart blkEnd
      (u32 (offset mod BlockSize fe)) size 0.

(** * PrefetchWindow *)

Record PrefetchWindow : Type := MkWin {
  BlkStart : Z;
  BlkEnd : Z;
}.

Definition NewPrefetchWindow : PrefetchWindow := MkWin 0 0.

Definition PW_GetStart (pw : PrefetchWindow) : Z := BlkStart pw.
Definition PW_GetEnd (pw : PrefetchWindow) : Z := BlkEnd pw.
#[global] Arguments PW_GetStart _ / : assert.
#[global] Arguments PW_GetEnd _ / : assert.

Definition PW_Reset (pw : PrefetchWindow) : PrefetchWindow := MkWin 0 0.

Definition PW_Size (pw : PrefetchWindow) : outcome Z :=
  if BlkStart pw <=? BlkEnd pw then Ret (u32 (BlkEnd pw - BlkStart pw)) else Panic.

Definition PW_Shift (pw : PrefetchWindow) (Step : Z) : PrefetchWindow :=
  MkWin (u64 (BlkStart pw + Step)) (u64 (BlkEnd pw + Step)).

Definition PW_Move (pw : PrefetchWindow) : PrefetchWindow :=
  PW_Shift pw (u64 (BlkEnd pw - BlkStart pw)).

Definition PW_Extend (pw : PrefetchWindow) (Times : Z) : PrefetchWindow :=
  let Step := u64 (BlkEnd pw - BlkStart pw) in
  MkWin (BlkStart pw) (u64 (BlkStart pw + u64 (Step * Times))).

Definition PW_Cross (pw rw : PrefetchWindow) : bool :=
  negb ((BlkEnd pw <=? BlkStart rw) || (BlkEnd rw <=? BlkStart pw)).

(** * FileBuffer *)

Definition WriteLock : Z := 0.
Definition ReadLock : Z := 1.

Record CacheLock : Type := MkLock {
  tp : Z;
  refer : Z;
}.

(** [BufferMap] holds the identities of the buffers ([buf_Id]); the buffers
    themselves live in the cache's pool, as the Go map holds pointers. *)
Record FileBuffer : Type := MkFileBuffer {
  fb_fe : FileEntry;
  BufferMap : gmap Z Z;
  LockMap : gmap Z CacheLock;
  pw : PrefetchWindow;
}.

Definition NewFileBuffer (fe : FileEntry) : FileBuffer :=
  MkFileBuffer fe ∅ ∅ NewPrefetchWindow.

(** Go iterates over the map in an unspecified order; this is one of them. *)
Definition GetAllBufferIndex (fb : FileBuffer) : list Z := (map_to_list (BufferMap fb)).*1.

Definition UpperIdx (fb : FileBuffer) : Z :=
  map_fold (λ idx _ tail, if tail <? idx then idx else tail) 0 (BufferMap fb).

Definition IsZeroCache (fb : FileBuffer) : bool := bool_decide (BufferMap fb = ∅).

Definition FB_GetBuffer (blk : Z) (fb : FileBuffer) : option Z := BufferMap fb !! blk.

Definition FB_AttachBuffer (blk bid : Z) (fb : FileBuffer) : outcome FileBuffer :=
  match BufferMap fb !! blk with
  | Some _ => Panic
  | None => Ret (MkFileBuffer (fb_fe fb) (<[blk := bid]> (BufferMap fb)) (LockMap fb) (pw fb))
  end.

Definition FB_DetachBuffer (blk : Z) (fb : FileBuffer) : FileBuffer :=
  MkFileBuffer (fb_fe fb) (delete blk (BufferMap fb)) (LockMap fb) (pw fb).

Definition set_LockMap (lm : gmap Z CacheLock) (fb : FileBuffer) : FileBuffer :=
  MkFileBuffer (fb_fe fb) (BufferMap fb) lm (pw fb).

Definition set_pw (w : PrefetchWindow) (fb : FileBuffer) : FileBuffer :=
  MkFileBuffer (fb_fe fb) (BufferMap fb) (LockMap fb) w.

(** One round of the spinning loops: [Block] is the branch that sleeps and
    tries again. *)
Definition LockBuffer (blk : Z) (lm : gmap Z CacheLock) : outcome (gmap Z CacheLock) :=
  match lm !! blk with
  | Some _ => Block
  | None => Ret (<[blk := MkLock WriteLock 0]> lm)
  end.

Definition UnLockBuffer (blk : Z) (lm : gmap Z CacheLock) : outcome (gmap Z CacheLock) :=
  match lm !! blk with
  | Some v => if (tp v =? WriteLock) && (refer v =? 0) then Ret (delete blk lm) else Panic
  | None => Panic
  end.

Definition RLockBuffer (blk : Z) (lm : gmap Z CacheLock) : outcome (gmap Z CacheLock) :=
  match lm !! blk with
  | Some v => if tp v =? WriteLock then Block
              else Ret (<[blk := MkLock (tp v) (refer v + 1)]> lm)
  | None => Ret (<[blk := MkLock ReadLock 1]> lm)
  end.

Definition RUnLockBuffer (blk : Z) (lm : gmap Z CacheLock) : outcome (gmap Z CacheLock) :=
  match lm !! blk with
  | Some v => if (tp v =? ReadLock) && (1 <=? refer v) then
                if refer v - 1 =? 0 then Ret (delete blk lm)
                else Ret (<[blk := MkLock (tp v) (refer v - 1)]> lm)
              else Panic
  | None => Panic
  end.

(** [Wait] returns once no block is locked. *)
Definition FB_Wait (fb : FileBuffer) : outcome unit :=
  if bool_decide (LockMap fb = ∅) then Ret tt else Block.

(** * Slice cuts a request into consecutive blocks *)

(** A block operation within one block of [fe]. *)
Definition op_ok (fe : FileEntry) (op : RWBlockOp) : Prop :=
  op_fe op = fe ∧ 0 ≤ Index op ∧ (Index op + 1) * BlockSize fe < 2 ^ 64 ∧
  0 ≤ RwOffset op ∧ 0 < RwSize op ∧ RwOffset op + RwSize op ≤ BlockSize fe ∧
  Zlen (rwBuf op) = RwSize op.

(** [tiling fe off data pos ops]: the operations cover [data], which starts at
    file offset [off] and at position [pos] of the request's buffer, in order,
    without gap or overlap, each inside the block its offset falls in, and all
    but the last up to the end of their block. *)
Inductive tiling (fe : FileEntry) : Z → bytes → Z → list RWBlockOp → Prop :=
| tiling_nil off pos : tiling fe off [] pos []
| tiling_cons off pos op data ops :
    op_ok fe op →
    Index op = off / BlockSize fe →
    RwOffset op = off mod BlockSize fe →
    rwPos op = pos →
    (data = [] ∨ RwOffset op + RwSize op = BlockSize fe) →
    tiling fe (off + RwSize op) data (pos + RwSize op) ops →
    tiling fe off (rwBuf op ++ data) pos (op :: ops).

Lemma div_round_up BS c left :
  0 < BS → 0 < left → c mod BS + left ≤ BS → (c + left + BS - 1) / BS = c / BS + 1.
Proof.
  intros H1 H2 H3. pose proof (Z.div_mod c BS ltac:(lia)). pose proof (Z.mod_pos_bound c BS H1).
  symmetry. apply (Z.div_unique _ _ _ (c mod BS + left - 1)); [lia|]. lia.
Qed.

Lemma div_round_up_aligned BS c :
  0 < BS → c mod BS = 0 → (c + 0 + BS - 1) / BS = c / BS.
Proof.
  intros H1 H2. pose proof (Z.div_mod c BS ltac:(lia)).
  symmetry. apply (Z.div_unique _ _ _ (BS - 1)); lia.
Qed.

Lemma next_block BS c :
  0 < BS → (c + (BS - c mod BS)) / BS = c / BS + 1 ∧ (c + (BS - c mod BS)) mod BS = 0.
Proof.
  intros H. pose proof (Z.div_mod c BS ltac:(lia)).
  replace (c + (BS - c mod BS)) with ((c / BS + 1) * BS) by lia.
  split; [apply Z.div_mul; lia|apply Z_mod_mult].
Qed.

Lemma mod_block_shift BS c r :
  0 < BS → r mod BS = c mod BS → (r + (BS - c mod BS)) mod BS = 0.
Proof.
  intros H E. rewrite <- E. apply next_block. done.
Qed.

Lemma blk_bound BS c left E :
  0 < BS → 0 < left → E = (c + left + BS - 1) / BS → c + left + BS ≤ 2 ^ 64 →
  c / BS < E ∧ (c / BS + 1) * BS < 2 ^ 64.
Proof.
  intros H1 H2 -> H3. pose proof (Z.div_mod c BS ltac:(lia)).
  pose proof (Z.mod_pos_bound c BS H1).
  pose proof (Z.div_mod (c + left + BS - 1) BS ltac:(lia)).
  pose proof (Z.mod_pos_bound (c + left + BS - 1) BS H1). nia.
Qed.

Section SliceProof.
Variables (fe : FileEntry) (buffer : bytes) (E : Z).
Hypothesis HBS : 0 < BlockSize fe < 2 ^ 32.

Lemma Slice_loop_ok n c pos left rwOff :
  n = Z.to_nat (E - c / BlockSize fe) →
  E = (c + left + BlockSize fe - 1) / BlockSize fe →
  rwOff mod BlockSize fe = c mod BlockSize fe →
  0 ≤ c → 0 ≤ rwOff → rwOff + left < 2 ^ 32 → 0 ≤ pos → pos + left = Zlen buffer →
  Zlen buffer < 2 ^ 32 → c + left + BlockSize fe ≤ 2 ^ 64 →
  (0 < left ∨ left = 0 ∧ c mod BlockSize fe = 0) →
  ∃ ops, Slice_loop n fe buffer (c / BlockSize fe) E rwOff left pos = Ret ops ∧
         tiling fe c (drop (Z.to_nat pos) buffer) pos ops.
Proof.
  destruct HBS as [HBS0 HBS1].
  revert c pos left rwOff. induction n as [|n IH];
    intros c pos left rwOff Hn HE Hrw Hc Hr0 Hr Hp Hlen Hb Hmax Hl.
  - simpl. exists []. split; [done|].
    destruct Hl as [Hl|[-> Ha]].
    + destruct (blk_bound _ _ _ _ HBS0 Hl HE Hmax). lia.
    + rewrite drop_ge; [constructor|]. unfold Zlen in *. lia.
  - destruct Hl as [Hl|[-> Ha]].
    2:{ rewrite div_round_up_aligned in HE by lia. lia. }
    destruct (blk_bound _ _ _ _ HBS0 Hl HE Hmax) as [Hlt Hbnd].
    pose proof (Z.mod_pos_bound c _ HBS0) as Hm.
    assert (0 ≤ c / BlockSize fe) by (apply Z.div_pos; lia).
    cbn [Slice_loop]. rewrite (proj2 (Z.ltb_lt _ _)) by lia. rewrite Hrw.
    set (off := c mod BlockSize fe) in *. rewrite (u32_small (_ - off)) by lia.
    set (RW := if left <? _ then _ else _).
    assert (0 < RW ≤ left ∧ RW ≤ BlockSize fe - off ∧
            (RW = left ∨ RW = BlockSize fe - off)) as (HRW & HRW2 & HRW3)
      by (unfold RW; zbool).
    clearbody RW. rewrite (u32_small (pos + RW)) by lia.
    destruct (go_slice_ok buffer pos (pos + RW)) as (piece & -> & Hpl & Hpb); [lia..|].
    rewrite (u64_small (_ + 1)) by nia. rewrite !u32_small by lia.
    assert (drop (Z.to_nat pos) buffer = piece ++ drop (Z.to_nat (pos + RW)) buffer) as Hsp.
    { apply byte_ext.
      - rewrite Zlen_app, !Zlen_drop by lia. lia.
      - intros i Hi. rewrite Zlen_drop in Hi by lia.
        rewrite byte_at_app, !byte_at_drop, Hpl by lia. zbool.
        + rewrite Hpb by lia. done.
        + f_equal. lia. }
    destruct (Z.eq_dec RW left) as [->|Hne].
    + rewrite div_round_up in HE by (subst off; lia).
      assert (n = 0)%nat as -> by lia. simpl.
      eexists. split; [done|]. rewrite Hsp. rewrite (drop_ge buffer) by (unfold Zlen in *; lia).
      pose (op := MkOp fe (c / BlockSize fe) off left piece pos).
      apply (tiling_cons fe c pos op [] []); try done.
      * unfold op_ok; simpl; split_and!; lia || done.
      * by left.
      * constructor.
    + destruct HRW3 as [?|HRW3]; [done|]. destruct (next_block _ c HBS0) as [Hq Hm2].
      fold off in Hq, Hm2. rewrite <- HRW3 in Hq, Hm2. rewrite <- Hq.
      destruct (IH (c + RW) (pos + RW) (left - RW) (rwOff + RW)) as (ops & -> & Hops); try lia.
      * rewrite HE. f_equal. lia.
      * rewrite Hm2. rewrite HRW3. by apply mod_block_shift.
      * eexists. split; [done|]. rewrite Hsp.
        pose (op := MkOp fe (c / BlockSize fe) off RW piece pos).
        apply (tiling_cons fe c pos op _ ops); try done.
        -- unfold op_ok; simpl; split_and!; lia || done.
        -- right. simpl. lia.
Qed.
End SliceProof.

(** The sizes for which the caches' arithmetic does not wrap. *)
Definition req_ok (fe : FileEntry) (buffer : bytes) (offset : Z) : Prop :=
  0 < BlockSize fe < 2 ^ 32 ∧ 0 ≤ offset ∧ buffer ≠ [] ∧
  offset + Zlen buffer + BlockSize fe < 2 ^ 64 ∧
  offset mod BlockSize fe + Zlen buffer < 2 ^ 32.

Lemma Slice_tiling fe buffer offset :
  req_ok fe buffer offset →
  ∃ ops, Slice fe buffer offset = Ret ops ∧ tiling fe offset buffer 0 ops.
Proof.
  intros (HBS & Ho & Hne & Hmax & Hsz). apply Zlen_pos in Hne.
  pose proof (Z.mod_pos_bound offset (BlockSize fe) ltac:(lia)).
  unfold Slice. rewrite (proj2 (Z.eqb_neq _ _)) by lia.
  rewrite (u32_small (Zlen buffer)) by lia. 
  rewrite (u64_small (offset + _)) by lia. rewrite (u64_small (_ + BlockSize fe)) by lia.
  rewrite (u64_small (_ - 1)) by lia.
  rewrite (u32_small (offset mod _)) by lia.
  apply (Slice_loop_ok fe buffer _ HBS); auto; try lia.
  by rewrite Z.mod_mod by lia.
Qed.

(** The same request on a buffer of the same length is cut at the same
    places. *)
Lemma tiling_offset fe off data pos op ops :
  tiling fe off data pos (op :: ops) → 0 ≤ off → 0 < BlockSize fe →
  Op_GetFileOffset op = off ∧ Op_GetAlignOffset op = Index op * BlockSize fe.
Proof.
  inversion_clear 1 as [|????? (Hfe & Hi & Hb & Hr & Hs & Hrs & _) Hidx Hoff]. intros.
  unfold Op_GetFileOffset, Op_GetAlignOffset. rewrite Hfe.
  pose proof (Z.div_mod off (BlockSize fe) ltac:(lia)).
  rewrite (u64_small (Index op * _)) by nia. split; [|done].
  rewrite u64_small by nia. nia.
Qed.

Lemma tiling_nonempty fe off data pos ops i op :
  tiling fe off data pos ops → ops !! i = Some op → data ≠ [].
Proof.
  intros Ht Hop. destruct Ht as [|? ? op' data ops Hok]; [done|].
  intros [E _]%app_nil. destruct Hok as (_&_&_&_&?&_&Hl). rewrite E in Hl.
  unfold Zlen in Hl. simpl in Hl. lia.
Qed.

(** What a tiling says of the single operations. *)
Lemma tiling_lookup fe off data pos ops :
  tiling fe off data pos ops → 0 ≤ off → 0 < BlockSize fe → ∀ i op, ops !! i = Some op →
  op_ok fe op ∧ Index op = off / BlockSize fe + Z.of_nat i ∧
  Op_GetFileOffset op - off = rwPos op - pos ∧
  take (Z.to_nat (RwSize op)) (drop (Z.to_nat (rwPos op - pos)) data) = rwBuf op.
Proof.
  intros Ht Hoff HB. revert Hoff.
  induction Ht as [|off pos op data ops Hok Hidx Hro Hpos Hend Ht IH]; intros Hoff i x Hx; [done|].
  destruct (tiling_offset fe off (rwBuf op ++ data) pos op ops) as [Hfo _]; [by constructor|done..|].
  pose proof Hok as (_&_&_&Hr0&Hrs&Hrb&Hlen). destruct i as [|i]; simpl in Hx.
  { injection Hx as <-. split_and!; try done; try lia. rewrite Hpos, Z.sub_diag. simpl.
    rewrite <- Hlen. unfold Zlen. rewrite Nat2Z.id. apply take_app_length. }
  destruct (IH ltac:(lia) i x Hx) as (Hxo & Hxi & Hxp & Hxd).
  assert (data ≠ []) as Hne by (by eapply tiling_nonempty).
  destruct Hend as [?|Hend]; [done|].
  pose proof (Z.div_mod off (BlockSize fe) ltac:(lia)).
  assert ((off + RwSize op) / BlockSize fe = off / BlockSize fe + 1) as Hq.
  { symmetry. apply (Z.div_unique _ _ _ 0); [lia|]. lia. }
  split_and!; try done; [lia|lia|].
  assert (0 ≤ rwPos x - (pos + RwSize op)) as Hge.
  { destruct Hxo as (Hfe & Hi0 & Hib & Hx0 & Hxs & Hxb & _). revert Hxp. unfold Op_GetFileOffset, Op_GetAlignOffset.
    rewrite Hfe. rewrite (u64_small (Index x * _)), u64_small by nia. rewrite Hxi, Hq. nia. }
  rewrite drop_app, drop_ge by (unfold Zlen in Hlen; lia). simpl.
  replace (Z.to_nat (rwPos x - pos) - length (rwBuf op))%nat
    with (Z.to_nat (rwPos x - (pos + RwSize op))) by (unfold Zlen in Hlen; lia).
  exact Hxd.
Qed.

Lemma tiling_concat fe off data pos ops :
  tiling fe off data pos ops → concat (map rwBuf ops) = data.
Proof. induction 1; simpl; congruence. Qed.

(** * Upper bounds of the buffer map *)

Lemma UpperIdx_spec fb :
  (∀ idx, is_Some (BufferMap fb !! idx) → idx ≤ UpperIdx fb) ∧
  (UpperIdx fb = 0 ∨ is_Some (BufferMap fb !! UpperIdx fb)).
Proof.
  unfold UpperIdx.
  apply (map_fold_weak_ind (λ tail m, (∀ idx, is_Some (m !! idx) → idx ≤ tail) ∧
    (tail = 0 ∨ is_Some (m !! tail)))).
  - split; [|by left]. intros idx [? H]. by rewrite lookup_empty in H.
  - intros i x m r Hi [IH1 IH2]. split.
    + intros idx. rewrite lookup_insert. case_decide; intros Hs.
      * subst. zbool.
      * specialize (IH1 idx Hs). zbool.
    + zbool.
      * right. rewrite lookup_insert_eq. eauto.
      * destruct IH2 as [->|Hs]; [by left|right].
        rewrite lookup_insert. case_decide; eauto.
Qed.

Lemma GetAllBufferIndex_spec fb idx :
  idx ∈ GetAllBufferIndex fb ↔ is_Some (BufferMap fb !! idx).
Proof.
  unfold GetAllBufferIndex. rewrite list_elem_of_fmap. split.
  - intros ([k v] & -> & Hin%elem_of_map_to_list). eauto.
  - intros [v Hv]. exists (idx, v). split; [done|]. by apply elem_of_map_to_list.
Qed.

Lemma GetAllBufferIndex_NoDup fb : NoDup (GetAllBufferIndex fb).
Proof. apply NoDup_fst_map_to_list. Qed.
