(* ===== verification/Pool.v ===== *)
(** The buffer pool: the part of [RCache] and [WCache] (lib/libfs/rcache.go,
    wcache.go) that the two caches write out twice with the same text: the free
    list, the LRU list, the table of per-file buffers, and the buffers
    themselves. The Go code shares [*Buffer] pointers between the lists and the
    maps; here a buffer is named by its [Id] and lives in the map [bufs]. *)

From stdpp Require Import base gmap list strings.
From Stdlib Require Import ZArith Lia.
From S2P Require Import Prelude GoString Proto Store Buffer.

Record Pool : Type := MkPool {
  bufs : gmap Z Buffer;
  FreeList : list Z;
  Cache : gmap Z FileBuffer;
  LruList : list Z;
  ExpireTime : Z;
}.

Definition set_bufs b p := MkPool b (FreeList p) (Cache p) (LruList p) (ExpireTime p).
Definition set_free l p := MkPool (bufs p) l (Cache p) (LruList p) (ExpireTime p).
Definition set_cache c p := MkPool (bufs p) (FreeList p) c (LruList p) (ExpireTime p).
Definition set_lru l p := MkPool (bufs p) (FreeList p) (Cache p) l (ExpireTime p).

(** The pool that [NewRCache]/[NewWCache] build: [BufferMax] fresh buffers, all
    free. *)
Definition NewPool (BufferMax expire : Z) : Pool :=
  let ids := Z.of_nat <$> seq 0 (Z.to_nat BufferMax) in
  MkPool (list_to_map ((λ i, (i, NewBuffer (u32 i))) <$> ids)) ids ∅ [] expire.

(** Dereferencing a buffer pointer. *)
Definition buf_get (bid : Z) : M Pool Buffer := λ p,
  match bufs p !! bid with Some b => Ret (b, p) | None => Panic end.

Definition buf_upd (bid : Z) (f : Buffer → outcome Buffer) : M Pool unit :=
  let! b := buf_get bid in
  let! b' := lift (f b) in
  modify (λ p, set_bufs (<[bid := b']> (bufs p)) p).

Definition buf_call {A} (bid : Z) (f : Buffer → outcome A) : M Pool A :=
  let! b := buf_get bid in lift (f b).

(** Dereferencing the [*FileBuffer] of file [fid]. *)
Definition fb_get (fid : Z) : M Pool FileBuffer := λ p,
  match Cache p !! fid with Some fb => Ret (fb, p) | None => Panic end.

Definition fb_upd (fid : Z) (f : FileBuffer → outcome FileBuffer) : M Pool unit :=
  let! fb := fb_get fid in
  let! fb' := lift (f fb) in
  modify (λ p, set_cache (<[fid := fb']> (Cache p)) p).

Definition fb_lock (fid : Z) (f : gmap Z CacheLock → outcome (gmap Z CacheLock)) : M Pool unit :=
  fb_upd fid (λ fb, match f (LockMap fb) with
                    | Ret lm => Ret (set_LockMap lm fb)
                    | Panic => Panic
                    | Block => Block
                    end).

(** * The operations *)

Definition AllocBuffer (fe : FileEntry) (blk : Z) : M Pool (option Z) :=
  let! free := gets FreeList in
  match free with
  | [] => ret None
  | bid :: rest =>
      modify (set_free rest);;;
      buf_upd bid (λ b, Buffer_ReSet b fe blk);;;
      ret (Some bid)
  end.

Definition FreeBuffer (bid : Z) : M Pool unit :=
  modify (λ p, set_free (FreeList p ++ [bid]) p).

(** [container/list]: removing the element that holds [bid]. *)
Definition list_remove_id (bid : Z) (l : list Z) : list Z := filter (λ x, x ≠ bid) l.

Definition DoLru (now bid : Z) : M Pool unit :=
  let! b := buf_get bid in
  modify (λ p, set_lru (if elm b then bid :: list_remove_id bid (LruList p)
                        else bid :: LruList p) p);;;
  buf_upd bid (λ b, Ret (set_elm true now b)).

Definition RemoveLru (bid : Z) : M Pool unit :=
  let! b := buf_get bid in
  if elm b then
    modify (λ p, set_lru (list_remove_id bid (LruList p)) p);;;
    buf_upd bid (λ b, Ret (set_elm false (LastUpdateTime b) b))
  else ret tt.

(** [None] is the source's [return nil, 0]. *)
Definition LruExpire (now : Z) : M Pool (option (FileEntry * Z)) :=
  let! lru := gets LruList in
  match last lru with
  | None => ret None
  | Some bid =>
      let! b := buf_get bid in
      Assert (elm b);;;
      let! expire := gets ExpireTime in
      if now - LastUpdateTime b <? expire * 1000000 then ret None
      else
        modify (set_lru (list_remove_id bid lru));;;
        buf_upd bid (λ b, Ret (set_elm false (LastUpdateTime b) b));;;
        ret (match buf_fe b with Some fe => Some (fe, BlkIdx b) | None => None end)
  end.

(** The returned handle is the key of the file's [FileBuffer]. *)
Definition GetFileBuffer (fe : FileEntry) (bAlloc : bool) : M Pool (option Z) :=
  let! cache := gets Cache in
  match cache !! fe_Id fe with
  | Some _ => ret (Some (fe_Id fe))
  | None =>
      if bAlloc then
        modify (λ p, set_cache (<[fe_Id fe := NewFileBuffer fe]> (Cache p)) p);;;
        ret (Some (fe_Id fe))
      else ret None
  end.

Definition DetachFileBuffer (fe : FileEntry) : M Pool unit :=
  modify (λ p, set_cache (delete (fe_Id fe) (Cache p)) p).

Definition GetBuffer (fid blk : Z) : M Pool (option Z) :=
  let! fb := fb_get fid in ret (FB_GetBuffer blk fb).

Definition AttachBuffer (fid blk bid : Z) : M Pool unit := fb_upd fid (FB_AttachBuffer blk bid).
Definition DetachBuffer (fid blk : Z) : M Pool unit :=
  fb_upd fid (λ fb, Ret (FB_DetachBuffer blk fb)).

(** * What is attached where *)

Definition slot (p : Pool) (f i : Z) : option Z := Cache p !! f ≫= λ fb, BufferMap fb !! i.
Definition lockof (p : Pool) (f i : Z) : option CacheLock := Cache p !! f ≫= λ fb, LockMap fb !! i.
Definition slot_buf (p : Pool) (f i : Z) : option Buffer := slot p f i ≫= λ bid, bufs p !! bid.

(** A buffer attached at block [i] of file [f]. *)
Definition buf_ok (BS f i : Z) (b : Buffer) : Prop :=
  (∃ fe, buf_fe b = Some fe ∧ fe_Id fe = f ∧ BlockSize fe = BS) ∧
  BlkIdx b = i ∧ 0 ≤ i ∧ (i + 1) * BS < 2 ^ 64 ∧
  0 ≤ Offset b ∧ 0 < Len b ∧ Offset b + Len b ≤ BS ∧ Zlen (dataBuf b) = BS.

(** The pool's invariant, for one block size [BS]: every buffer is either free
    or attached to exactly one block, the LRU list holds exactly the buffers
    with [elm] set, free buffers are not in it, and attached buffers hold a
    non-empty range of their block. *)
Record pool_wf (BS : Z) (p : Pool) : Prop := {
  wf_total : ∀ bid, is_Some (bufs p !! bid) ↔ bid ∈ FreeList p ∨ ∃ f i, slot p f i = Some bid;
  wf_free_nodup : NoDup (FreeList p);
  wf_disj : ∀ f i bid, slot p f i = Some bid → bid ∉ FreeList p;
  wf_inj : ∀ f i f' i' bid, slot p f i = Some bid → slot p f' i' = Some bid → f = f' ∧ i = i';
  wf_lru_nodup : NoDup (LruList p);
  wf_lru : ∀ bid b, bufs p !! bid = Some b → (bid ∈ LruList p ↔ elm b = true);
  wf_lru_dom : ∀ bid, bid ∈ LruList p → ∃ f i, slot p f i = Some bid;
  wf_size : ∀ bid b, bufs p !! bid = Some b → Zlen (dataBuf b) = 0 ∨ Zlen (dataBuf b) = BS;
  wf_slot : ∀ f i bid b, slot p f i = Some bid → bufs p !! bid = Some b → buf_ok BS f i b;
  wf_fb : ∀ f fb, Cache p !! f = Some fb → fe_Id (fb_fe fb) = f ∧ BlockSize (fb_fe fb) = BS;
}.

Section Facts.
Context (BS : Z).
Implicit Types (p : Pool).

Lemma wf_slot_buf p f i bid :
  pool_wf BS p → slot p f i = Some bid → ∃ b, bufs p !! bid = Some b ∧ buf_ok BS f i b.
Proof.
  intros Hwf Hs. destruct (proj2 (wf_total _ _ Hwf bid)) as [b Hb]; [by eauto|].
  exists b. split; [done|]. by eapply wf_slot.
Qed.

Lemma wf_free_elm p bid b :
  pool_wf BS p → bid ∈ FreeList p → bufs p !! bid = Some b → elm b = false.
Proof.
  intros Hwf Hf Hb. destruct (elm b) eqn:E; [|done].
  apply (wf_lru _ _ Hwf _ _ Hb) in E. apply (wf_lru_dom _ _ Hwf) in E as (f & i & Hs).
  by apply (wf_disj _ _ Hwf) in Hs.
Qed.

Lemma list_remove_id_spec bid l x : x ∈ list_remove_id bid l ↔ x ∈ l ∧ x ≠ bid.
Proof. unfold list_remove_id. rewrite list_elem_of_filter. tauto. Qed.

Lemma list_remove_id_NoDup bid l : NoDup l → NoDup (list_remove_id bid l).
Proof. apply NoDup_filter. Qed.

Lemma list_remove_id_notin bid l : bid ∉ l → list_remove_id bid l = l.
Proof.
  unfold list_remove_id. induction l as [|x l IH]; [done|]. rewrite not_elem_of_cons.
  intros [Hx Hl]. rewrite filter_cons, decide_True by congruence. by rewrite IH.
Qed.

(** How [slot] changes. *)
Lemma slot_fb p f fb i : Cache p !! f = Some fb → slot p f i = BufferMap fb !! i.
Proof. unfold slot. by intros ->. Qed.

Lemma lockof_fb p f fb i : Cache p !! f = Some fb → lockof p f i = LockMap fb !! i.
Proof. unfold lockof. by intros ->. Qed.

(** ** The three transitions of the pool *)

(** A free buffer is filled and attached at an empty block. *)
Lemma wf_attach p p' bid b f i rest :
  pool_wf BS p → FreeList p = bid :: rest → slot p f i = None → buf_ok BS f i b →
  FreeList p' = rest →
  bufs p' = <[bid := b]> (bufs p) →
  (∀ f' i', slot p' f' i' = if decide (f' = f ∧ i' = i) then Some bid else slot p f' i') →
  LruList p' = (if elm b then bid :: LruList p else LruList p) →
  (∀ f' fb', Cache p' !! f' = Some fb' →
     fe_Id (fb_fe fb') = f' ∧ BlockSize (fb_fe fb') = BS) →
  pool_wf BS p'.
Proof.
  intros Hwf HF Hnone Hok HF' Hb' Hs' HL' Hfb'.
  pose proof (wf_free_nodup _ _ Hwf) as Hnd. rewrite HF in Hnd.
  apply NoDup_cons in Hnd as [Hnin Hnd].
  assert (bid ∈ FreeList p) as Hbf by (rewrite HF; set_solver).
  assert (∀ g j, slot p g j ≠ Some bid) as Hnoslot.
  { intros g j Hs. by apply (wf_disj _ _ Hwf) in Hs. }
  assert (bid ∉ LruList p) as Hnl.
  { intros Hin. apply (wf_lru_dom _ _ Hwf) in Hin as (g & j & Hs). by apply Hnoslot in Hs. }
  constructor; rewrite ?HF', ?Hb', ?HL'.
  - intros x. rewrite lookup_insert_is_Some'.
    rewrite (wf_total _ _ Hwf x), HF, elem_of_cons. setoid_rewrite Hs'. split.
    + intros [->|[[->|?]|(g & j & Hg)]]; [right|right|by left|].
      1,2: exists f, i; by rewrite decide_True.
      right. exists g, j. rewrite decide_False; [done|]. intros [-> ->]. congruence.
    + intros [?|(g & j & Hg)]; [tauto|]. case_decide as Hd; [left; congruence|eauto 6].
  - done.
  - intros g j x. rewrite Hs'. case_decide; [congruence|].
    intros Hs. apply (wf_disj _ _ Hwf) in Hs. rewrite HF in Hs. set_solver.
  - intros g j g' j' x. rewrite !Hs'. do 2 case_decide.
    + intros; destruct_and!; by subst.
    + intros ? Hs; simplify_eq. by apply Hnoslot in Hs.
    + intros Hs ?; simplify_eq. by apply Hnoslot in Hs.
    + apply (wf_inj _ _ Hwf).
  - destruct (elm b); [|apply (wf_lru_nodup _ _ Hwf)].
    apply NoDup_cons. split; [done|apply (wf_lru_nodup _ _ Hwf)].
  - intros x c. rewrite lookup_insert. case_decide; intros Hc.
    + simplify_eq. destruct (elm c) eqn:Ee; [set_solver|]. intuition congruence.
    + rewrite <- (wf_lru _ _ Hwf _ _ Hc). destruct (elm b); set_solver.
  - intros x Hx. assert (x = bid ∨ x ∈ LruList p) as [->|Hin] by (destruct (elm b); set_solver).
    + exists f, i. rewrite Hs'. by rewrite decide_True.
    + apply (wf_lru_dom _ _ Hwf) in Hin as (g & j & Hs). exists g, j. rewrite Hs'.
      rewrite decide_False; [done|]. intros [-> ->]. congruence.
  - intros x c. rewrite lookup_insert. case_decide; intros Hc; [|by eapply (wf_size _ _ Hwf)].
    simplify_eq. right. apply Hok.
  - intros g j x c. rewrite Hs', lookup_insert. case_decide.
    + intros ? Hc; simplify_eq. rewrite decide_True in Hc by done. destruct_and!. by simplify_eq.
    + intros Hs Hc. rewrite decide_False in Hc by (intros ->; by apply Hnoslot in Hs).
      by eapply (wf_slot _ _ Hwf).
  - done.
Qed.

(** An attached buffer is changed in place; the LRU list is re-arranged to
    match its [elm]. *)
Lemma wf_update p p' bid b f i :
  pool_wf BS p → slot p f i = Some bid → buf_ok BS f i b →
  FreeList p' = FreeList p →
  bufs p' = <[bid := b]> (bufs p) →
  (∀ f' i', slot p' f' i' = slot p f' i') →
  NoDup (LruList p') →
  (∀ x, x ∈ LruList p' ↔ x = bid ∧ elm b = true ∨ x ≠ bid ∧ x ∈ LruList p) →
  (∀ f' fb', Cache p' !! f' = Some fb' →
     fe_Id (fb_fe fb') = f' ∧ BlockSize (fb_fe fb') = BS) →
  pool_wf BS p'.
Proof.
  intros Hwf Hs Hok HF' Hb' Hs' Hnd HL' Hfb'.
  constructor; rewrite ?HF', ?Hb'.
  - intros x. rewrite lookup_insert_is_Some', (wf_total _ _ Hwf x). setoid_rewrite Hs'.
    split; [intros [<-|?]; eauto|eauto].
  - apply (wf_free_nodup _ _ Hwf).
  - intros g j x. rewrite Hs'. apply (wf_disj _ _ Hwf).
  - intros g j g' j' x. rewrite !Hs'. apply (wf_inj _ _ Hwf).
  - done.
  - intros x c. rewrite HL', lookup_insert. case_decide; intros Hc.
    + simplify_eq. intuition congruence.
    + rewrite (wf_lru _ _ Hwf _ _ Hc). intuition congruence.
  - intros x. rewrite HL'. setoid_rewrite Hs'. intros [[-> _]|[_ Hx]]; [eauto|].
    by apply (wf_lru_dom _ _ Hwf).
  - intros x c. rewrite lookup_insert. case_decide; intros Hc; [|by eapply (wf_size _ _ Hwf)].
    simplify_eq. right. apply Hok.
  - intros g j x c. rewrite Hs', lookup_insert. case_decide; intros Hg Hc.
    + simplify_eq. destruct (wf_inj _ _ Hwf _ _ _ _ _ Hs Hg) as [-> ->]. done.
    + by eapply (wf_slot _ _ Hwf).
  - done.
Qed.

(** An attached buffer is detached and put at the end of the free list. *)
Lemma wf_release p p' bid b b0 f i :
  pool_wf BS p → slot p f i = Some bid → bufs p !! bid = Some b0 →
  FreeList p' = FreeList p ++ [bid] →
  bufs p' = <[bid := b]> (bufs p) → elm b = false → dataBuf b = dataBuf b0 ∨ Zlen (dataBuf b) = BS →
  (∀ f' i', slot p' f' i' = if decide (f' = f ∧ i' = i) then None else slot p f' i') →
  NoDup (LruList p') →
  (∀ x, x ∈ LruList p' ↔ x ≠ bid ∧ x ∈ LruList p) →
  (∀ f' fb', Cache p' !! f' = Some fb' →
     fe_Id (fb_fe fb') = f' ∧ BlockSize (fb_fe fb') = BS) →
  pool_wf BS p'.
Proof.
  intros Hwf Hs Hb0 HF' Hb' Hel Hdat Hs' Hnd HL' Hfb'.
  assert (∀ g j, slot p g j = Some bid → g = f ∧ j = i) as Huniq.
  { intros g j Hg. apply (wf_inj _ _ Hwf _ _ _ _ _ Hg Hs). }
  pose proof (wf_disj _ _ Hwf _ _ _ Hs) as Hnf.
  constructor; rewrite ?HF', ?Hb'.
  - intros x. rewrite lookup_insert_is_Some', (wf_total _ _ Hwf x), elem_of_app, list_elem_of_singleton.
    setoid_rewrite Hs'. split.
    + intros [<-|[?|(g & j & Hg)]]; [by left; right|by left; left|].
      destruct (decide (g = f ∧ j = i)) as [[-> ->]|Hd].
      * left. right. congruence.
      * right. exists g, j. by rewrite decide_False.
    + intros [[?| ->]|(g & j & Hg)]; [tauto|tauto|]. case_decide; [done|eauto].
  - apply NoDup_app. split_and!; [apply (wf_free_nodup _ _ Hwf)| |apply NoDup_singleton].
    intros x Hx ->%list_elem_of_singleton. done.
  - intros g j x. rewrite Hs'. case_decide as Hd; [done|]. intros Hg.
    rewrite elem_of_app, list_elem_of_singleton. intros [Hx| ->].
    + by apply (wf_disj _ _ Hwf) in Hg.
    + by apply Huniq in Hg.
  - intros g j g' j' x. rewrite !Hs'. do 2 case_decide; try done. apply (wf_inj _ _ Hwf).
  - done.
  - intros x c. rewrite HL', lookup_insert. case_decide; intros Hc.
    + simplify_eq. intuition congruence.
    + rewrite (wf_lru _ _ Hwf _ _ Hc). intuition congruence.
  - intros x. rewrite HL'. intros [Hne Hx].
    apply (wf_lru_dom _ _ Hwf) in Hx as (g & j & Hg). exists g, j. rewrite Hs'.
    rewrite decide_False; [done|]. intros [-> ->]. congruence.
  - intros x c. rewrite lookup_insert. case_decide; intros Hc; [|by eapply (wf_size _ _ Hwf)].
    simplify_eq. destruct Hdat as [->|?]; [|by right]. by eapply (wf_size _ _ Hwf).
  - intros g j x c. rewrite Hs', lookup_insert. case_decide as Hd; [done|].
    intros Hg Hc. rewrite decide_False in Hc by (intros ->; by apply Huniq in Hg).
    by eapply (wf_slot _ _ Hwf).
  - done.
Qed.
End Facts.

(** * Symbolic execution of the pool's operations *)

Section Exec.
Implicit Types (p : Pool).

Lemma wp_buf_get bid b Q p : bufs p !! bid = Some b → Q b p → wp (buf_get bid) Q p.
Proof. unfold wp, buf_get. by intros ->. Qed.

Lemma wp_buf_call {A} bid b (f : Buffer → outcome A) a Q p :
  bufs p !! bid = Some b → f b = Ret a → Q a p → wp (buf_call bid f) Q p.
Proof.
  intros Hb Hf HQ. unfold buf_call. apply wp_bind, (wp_buf_get _ b); [done|].
  by apply (wp_lift _ a).
Qed.

Lemma wp_buf_upd bid b f b' (Q : unit → Pool → Prop) p :
  bufs p !! bid = Some b → f b = Ret b' →
  Q tt (set_bufs (<[bid := b']> (bufs p)) p) → wp (buf_upd bid f) Q p.
Proof.
  intros Hb Hf HQ. unfold buf_upd. apply wp_bind, (wp_buf_get _ b); [done|].
  apply wp_bind, (wp_lift _ b'); [done|]. by apply wp_modify.
Qed.

Lemma wp_fb_get fid fb Q p : Cache p !! fid = Some fb → Q fb p → wp (fb_get fid) Q p.
Proof. unfold wp, fb_get. by intros ->. Qed.

Lemma wp_fb_upd fid fb f fb' (Q : unit → Pool → Prop) p :
  Cache p !! fid = Some fb → f fb = Ret fb' →
  Q tt (set_cache (<[fid := fb']> (Cache p)) p) → wp (fb_upd fid f) Q p.
Proof.
  intros Hb Hf HQ. unfold fb_upd. apply wp_bind, (wp_fb_get _ fb); [done|].
  apply wp_bind, (wp_lift _ fb'); [done|]. by apply wp_modify.
Qed.

Lemma wp_GetBuffer fid blk fb Q p :
  Cache p !! fid = Some fb → Q (slot p fid blk) p → wp (GetBuffer fid blk) Q p.
Proof.
  intros Hc HQ. unfold GetBuffer. apply wp_bind, (wp_fb_get _ fb); [done|].
  apply wp_ret. unfold slot in HQ. by rewrite Hc in HQ.
Qed.

(** Replacing the buffer table of one file. *)
Lemma slot_set_cache p f fb f' i' :
  slot (set_cache (<[f := fb]> (Cache p)) p) f' i' =
  if decide (f' = f) then BufferMap fb !! i' else slot p f' i'.
Proof.
  unfold slot. simpl. rewrite lookup_insert. case_decide; case_decide; subst; done.
Qed.

Lemma lockof_set_cache p f fb f' i' :
  lockof (set_cache (<[f := fb]> (Cache p)) p) f' i' =
  if decide (f' = f) then LockMap fb !! i' else lockof p f' i'.
Proof.
  unfold lockof. simpl. rewrite lookup_insert. case_decide; case_decide; subst; done.
Qed.

(** [only f i p p']: [p'] differs from [p] at block [i] of file [f] alone. *)
Definition only (f i : Z) (p p' : Pool) : Prop :=
  ∀ f' i', ¬ (f' = f ∧ i' = i) →
    slot p' f' i' = slot p f' i' ∧ slot_buf p' f' i' = slot_buf p f' i' ∧
    lockof p' f' i' = lockof p f' i'.

Lemma only_refl f i p : only f i p p.
Proof. by intros f' i' _. Qed.

Lemma only_trans f i p1 p2 p3 : only f i p1 p2 → only f i p2 p3 → only f i p1 p3.
Proof.
  intros H1 H2 f' i' Hn. destruct (H1 f' i' Hn) as (?&?&?), (H2 f' i' Hn) as (?&?&?).
  split_and!; congruence.
Qed.

(** A pool update that keeps the tables' other entries and rewrites one buffer
    that no other block holds. *)
Lemma only_intro f i p p' bid b fb fb' :
  Cache p !! f = Some fb →
  Cache p' = <[f := fb']> (Cache p) →
  (∀ j, j ≠ i → BufferMap fb' !! j = BufferMap fb !! j) →
  (∀ j, j ≠ i → LockMap fb' !! j = LockMap fb !! j) →
  bufs p' = <[bid := b]> (bufs p) →
  (∀ f' i', slot p f' i' = Some bid → f' = f ∧ i' = i) →
  only f i p p'.
Proof.
  intros Hc Hc' Hbm Hlm Hb Hu f' i' Hn.
  assert (slot p' f' i' = slot p f' i') as Hs.
  { unfold slot. rewrite Hc', lookup_insert. case_decide; [subst f'|done].
    rewrite Hc. simpl. apply Hbm. intros ->. by apply Hn. }
  split_and!; [done| |].
  - unfold slot_buf. rewrite Hs, Hb. destruct (slot p f' i') as [x|] eqn:E; simpl; [|done].
    rewrite lookup_insert_ne; [done|]. intros ->. by apply Hn, Hu.
  - unfold lockof. rewrite Hc', lookup_insert. case_decide; [subst f'|done].
    rewrite Hc. simpl. apply Hlm. intros ->. by apply Hn.
Qed.

Lemma wf_lock BS p f fb lm :
  pool_wf BS p → Cache p !! f = Some fb →
  pool_wf BS (set_cache (<[f := set_LockMap lm fb]> (Cache p)) p).
Proof.
  intros Hwf Hc.
  assert (∀ f' i', slot (set_cache (<[f := set_LockMap lm fb]> (Cache p)) p) f' i' =
                   slot p f' i') as Hs.
  { intros. rewrite slot_set_cache. case_decide; [subst|done]. unfold slot. by rewrite Hc. }
  destruct Hwf. constructor; simpl; intros *; rewrite ?Hs; try setoid_rewrite Hs; eauto.
  rewrite lookup_insert. case_decide; intros; simplify_eq; simpl; eauto.
Qed.

(** The buffer table of a file that has none yet. *)
Lemma wf_new_fb BS p fe :
  pool_wf BS p → Cache p !! fe_Id fe = None → BlockSize fe = BS →
  pool_wf BS (set_cache (<[fe_Id fe := NewFileBuffer fe]> (Cache p)) p).
Proof.
  intros Hwf Hc HBS.
  assert (∀ f' i', slot (set_cache (<[fe_Id fe := NewFileBuffer fe]> (Cache p)) p) f' i' =
                   slot p f' i') as Hs.
  { intros. rewrite slot_set_cache. case_decide; [subst|done]. unfold slot. by rewrite Hc. }
  destruct Hwf. constructor; simpl; intros *; rewrite ?Hs; try setoid_rewrite Hs; eauto.
  rewrite lookup_insert. case_decide; intros; simplify_eq; simpl; eauto.
Qed.

(** A file's table without buffers may be dropped. *)
Lemma wf_detach_fb BS p f :
  pool_wf BS p → (∀ i, slot p f i = None) →
  pool_wf BS (set_cache (delete f (Cache p)) p).
Proof.
  intros Hwf Hn.
  assert (∀ f' i', slot (set_cache (delete f (Cache p)) p) f' i' = slot p f' i') as Hs.
  { intros f' i'. destruct (decide (f' = f)) as [->|Hne].
    - rewrite Hn. unfold slot. simpl. by rewrite lookup_delete_eq.
    - unfold slot. simpl. by rewrite lookup_delete_ne. }
  destruct Hwf. constructor; simpl; intros *; rewrite ?Hs; try setoid_rewrite Hs; eauto.
  rewrite lookup_delete. case_decide; intros; simplify_eq; eauto.
Qed.

Lemma wf_NewPool BS n t : pool_wf BS (NewPool n t).
Proof.
  unfold NewPool. set (ids := _ <$> seq _ _).
  assert (NoDup ids) as Hnd by (apply NoDup_fmap_2; [apply _|apply NoDup_seq]).
  assert (∀ f i, slot (MkPool (list_to_map ((λ i, (i, NewBuffer (u32 i))) <$> ids)) ids ∅ [] t) f i
    = None) as Hs by (intros; unfold slot; simpl; by rewrite lookup_empty).
  assert (∀ bid b, (list_to_map ((λ i, (i, NewBuffer (u32 i))) <$> ids) : gmap Z Buffer) !! bid
    = Some b → bid ∈ ids ∧ b = NewBuffer (u32 bid)) as Hl.
  { intros bid b Hb%elem_of_list_to_map_2. apply list_elem_of_fmap in Hb as (i & Hi & Hin).
    by simplify_eq. }
  constructor; simpl; intros *; rewrite ?Hs; try setoid_rewrite Hs; try done.
  - split.
    + intros [b Hb]. left. by apply Hl in Hb as [? _].
    + intros [Hin|(?&?&?)]; [|done]. exists (NewBuffer (u32 bid)).
      apply elem_of_list_to_map_1.
      * rewrite <- list_fmap_compose. by rewrite (list_fmap_ext _ id), list_fmap_id.
      * apply list_elem_of_fmap. eauto.
  - apply NoDup_nil_2.
  - intros [_ ->]%Hl. simpl. split; [by intros ?%not_elem_of_nil|done].
  - by intros ?%not_elem_of_nil.
  - intros [_ ->]%Hl. by left.
Qed.
End Exec.
