(* ===== verification/View.v ===== *)
(** The logical content of a file under the write cache: the proxy's bytes
    overlaid with the attached buffers. The write cache is specified by how
    its steps change this view. *)

From stdpp Require Import base gmap list.
From Stdlib Require Import ZArith Lia.
From S2P Require Import Prelude GoString Proto Store Buffer.

Section View.
Context (BS : Z).
Hypothesis HBS : 0 < BS.

(** The shape of an attached buffer that the view depends on. *)
Definition buf_range (b : Buffer) : Prop :=
  0 ≤ Offset b ∧ 0 < Len b ∧ Offset b + Len b ≤ BS ∧ Zlen (dataBuf b) = BS.

(** [sb i] is the buffer attached at block [i]. *)
Definition slots_ok (sb : Z → option Buffer) : Prop :=
  ∀ i b, sb i = Some b → 0 ≤ i ∧ buf_range b.

Definition covers (b : Buffer) (r : Z) : bool :=
  (Offset b <=? r) && (r <? Offset b + Len b).

Definition view (sb : Z → option Buffer) (c : bytes) : afile :=
  MkAfile
    (λ i, i < Zlen c ∨ ∃ idx b, sb idx = Some b ∧ i < idx * BS + Offset b + Len b)
    (λ i, match sb (i / BS) with
          | Some b => if covers b (i mod BS) then byte_at (dataBuf b) (i mod BS)
                      else byte_at c i
          | None => byte_at c i
          end).

Definition upd (sb : Z → option Buffer) (i : Z) (ob : option Buffer) : Z → option Buffer :=
  λ j, if decide (j = i) then ob else sb j.

(** The bytes a buffer holds. *)
Definition held (b : Buffer) (d : bytes) : Prop :=
  Zlen d = Len b ∧ ∀ k, 0 ≤ k < Len b → byte_at d k = byte_at (dataBuf b) (Offset b + k).

Lemma upd_eq sb i ob : upd sb i ob i = ob.
Proof. unfold upd. by rewrite decide_True. Qed.

Lemma upd_ne sb i ob j : j ≠ i → upd sb i ob j = sb j.
Proof. intros. unfold upd. by rewrite decide_False. Qed.

Lemma slots_ok_upd sb i ob :
  slots_ok sb → (∀ b, ob = Some b → 0 ≤ i ∧ buf_range b) → slots_ok (upd sb i ob).
Proof. intros H Hb j b. unfold upd. case_decide; subst; auto. Qed.

(** A range inside block [i], seen from a position of the file. *)
Lemma in_block i o l pos :
  0 ≤ o → o + l ≤ BS →
  (i * BS + o ≤ pos < i * BS + o + l) ↔ (pos / BS = i ∧ o ≤ pos mod BS < o + l).
Proof.
  intros Ho Hl. pose proof (Z.div_mod pos BS ltac:(lia)).
  pose proof (Z.mod_pos_bound pos BS HBS). split.
  - intros Hr. assert (pos / BS = i) as E.
    { symmetry. apply (Z.div_unique _ _ _ (pos - i * BS)); lia. }
    split; [done|]. nia.
  - intros [E Hr]. nia.
Qed.

(** Case analysis on whether a position lies in a given block range. *)
Lemma in_block_bool i o l pos :
  0 ≤ o → o + l ≤ BS →
  (i * BS + o <=? pos) && (pos <? i * BS + o + l) =
  bool_decide (pos / BS = i) && ((o <=? pos mod BS) && (pos mod BS <? o + l)).
Proof.
  intros Ho Hl. pose proof (in_block i o l pos Ho Hl) as H.
  destruct (bool_decide_reflect (pos / BS = i)); zbool.
Qed.

Lemma pos_in_block pos i :
  pos / BS = i → pos = i * BS + pos mod BS.
Proof. pose proof (Z.div_mod pos BS ltac:(lia)). lia. Qed.

(** ** Buffered writes *)

(** Data put into an empty block becomes visible as a write. *)
Lemma view_attach sb c i b d :
  sb i = None → 0 ≤ i → buf_range b → held b d →
  view (upd sb i (Some b)) c ≡ spec_write (view sb c) (i * BS + Offset b) d.
Proof.
  intros Hn Hi (Ho & Hl & Hol & _) [Hd1 Hd2]. split; intros pos Hpos; simpl.
  - rewrite Hd1. split.
    + intros [?|(idx & b' & Hs & Hlt)]; [by left; left|]. unfold upd in Hs. case_decide.
      * simplify_eq. right. lia.
      * left. right. eauto.
    + intros [[?|(idx & b' & Hs & Hlt)]|Hlt]; [by left|right..].
      * exists idx, b'. rewrite upd_ne; [done|]. congruence.
      * exists i, b. rewrite upd_eq. split; [done|lia].
  - rewrite Hd1, in_block_bool by lia. unfold upd.
    destruct (decide (pos / BS = i)) as [E|E].
    + rewrite bool_decide_true by done. simpl. rewrite E, Hn. unfold covers.
      pose proof (pos_in_block pos i E).
      destruct (_ && _) eqn:C; [|done]. rewrite Hd2; [f_equal; lia|zbool].
    + by rewrite bool_decide_false.
Qed.

(** Data appended to an attached buffer becomes visible as a write at its
    tail. *)
Lemma view_append sb c i b b' d :
  sb i = Some b → 0 ≤ i → buf_range b → buf_range b' →
  Offset b' = Offset b → Len b' = Len b + Zlen d →
  (∀ r, covers b r = true → byte_at (dataBuf b') r = byte_at (dataBuf b) r) →
  (∀ k, 0 ≤ k < Zlen d → byte_at (dataBuf b') (Offset b + Len b + k) = byte_at d k) →
  view (upd sb i (Some b')) c ≡ spec_write (view sb c) (i * BS + (Offset b + Len b)) d.
Proof.
  intros Hs Hi (Ho & Hl & Hol & _) (Ho' & Hl' & Hol' & _) EO EL Hold Hnew.
  pose proof (Zlen_nonneg d).
  split; intros pos Hpos; simpl.
  - split.
    + intros [?|(idx & b1 & Hs1 & Hlt)]; [by left; left|]. unfold upd in Hs1. case_decide.
      * simplify_eq. right. lia.
      * left. right. eauto.
    + intros [[?|(idx & b1 & Hs1 & Hlt)]|Hlt]; [by left|right..].
      * destruct (decide (idx = i)) as [->|].
        -- exists i, b'. rewrite upd_eq. simplify_eq. split; [done|lia].
        -- exists idx, b1. by rewrite upd_ne.
      * exists i, b'. rewrite upd_eq. split; [done|lia].
  - rewrite in_block_bool by lia. unfold upd.
    destruct (decide (pos / BS = i)) as [E|E].
    + rewrite bool_decide_true by done. simpl. rewrite E, Hs.
      pose proof (pos_in_block pos i E).
      destruct (covers b' (pos mod BS)) eqn:C'; destruct (covers b (pos mod BS)) eqn:C;
        unfold covers in *; destruct (_ && _) eqn:C2 in |- *; try zbool.
      * apply Hold. zbool.
      * rewrite <- (Hnew (pos - _)); [f_equal; lia|zbool].
    + by rewrite bool_decide_false.
Qed.

(** ** Writes that reach the proxy *)

(** A buffer whose bytes have been written may be dropped. *)
Lemma view_flush sb c c' i b d :
  slots_ok sb → sb i = Some b → held b d →
  written c (i * BS + Offset b) d c' →
  view (upd sb i None) c' ≡ view sb c.
Proof.
  intros Hok Hs [Hd1 Hd2] [Hw1 Hw2].
  destruct (Hok _ _ Hs) as (Hi & Ho & Hl & Hol & _).
  rewrite (proj2 (Z.eqb_neq _ _)) in Hw1 by lia.
  split; intros pos Hpos; simpl.
  - rewrite Hw1, Hd1. split.
    + intros [?|(idx & b1 & Hs1 & Hlt)].
      * destruct (decide (pos < Zlen c)); [by left|]. right. exists i, b. split; [done|lia].
      * unfold upd in Hs1. case_decide; [done|]. right. eauto.
    + intros [?|(idx & b1 & Hs1 & Hlt)]; [left; lia|].
      destruct (decide (idx = i)) as [->|].
      * simplify_eq. left. lia.
      * right. exists idx, b1. by rewrite upd_ne.
  - rewrite Hw2, Hd1, in_block_bool by lia. unfold upd.
    destruct (decide (pos / BS = i)) as [E|E].
    + rewrite bool_decide_true by done. simpl. rewrite E, Hs. unfold covers.
      pose proof (pos_in_block pos i E).
      destruct (_ && _) eqn:C; [|done]. rewrite Hd2; [f_equal; lia|zbool].
    + rewrite bool_decide_false by done. simpl. done.
Qed.

(** Even a failed, partly executed write of a buffer is invisible while the
    buffer stays attached. *)
Lemma view_torn sb c c' i b d :
  slots_ok sb → sb i = Some b → Zlen d = Len b →
  torn c (i * BS + Offset b) d c' →
  view sb c' ≡ view sb c.
Proof.
  intros Hok Hs Hd1 [Hw1 Hw2].
  destruct (Hok _ _ Hs) as (Hi & Ho & Hl & Hol & _).
  split; intros pos Hpos; simpl.
  - split; (intros [?|(idx & b1 & Hs1 & Hlt)]; [|right; eauto]).
    + destruct (decide (pos < Zlen c)); [by left|]. right. exists i, b. split; [done|lia].
    + left. lia.
  - destruct (decide (pos / BS = i)) as [E|E].
    + rewrite E, Hs. destruct (covers b (pos mod BS)) eqn:C; [done|].
      apply Hw2. rewrite in_block by lia. unfold covers in C. zbool.
    + assert (byte_at c' pos = byte_at c pos) as ->; [|done].
      apply Hw2. rewrite in_block by lia. tauto.
Qed.

(** A direct write into a block without buffer is a write of the view. *)
Lemma view_direct sb c c' i o d :
  sb i = None → 0 ≤ o → o + Zlen d ≤ BS → 0 < Zlen d →
  written c (i * BS + o) d c' →
  view sb c' ≡ spec_write (view sb c) (i * BS + o) d.
Proof.
  intros Hs Ho Hol Hl [Hw1 Hw2]. rewrite (proj2 (Z.eqb_neq _ _)) in Hw1 by lia.
  split; intros pos Hpos; simpl.
  - rewrite Hw1. split.
    + intros [?|?]; [|by left; right]. destruct (decide (pos < Zlen c)); [by left; left|].
      right. lia.
    + intros [[?|?]|?]; [left; lia|by right|left; lia].
  - rewrite Hw2, in_block_bool by lia.
    destruct (bool_decide_reflect (pos / BS = i)) as [E|E]; simpl; [|done].
    rewrite E, Hs. done.
Qed.

Lemma view_direct_torn sb c c' i o d :
  0 ≤ o → o + Zlen d ≤ BS →
  torn c (i * BS + o) d c' →
  agree_outside (i * BS + o) (i * BS + o + Zlen d) (view sb c) (view sb c').
Proof.
  intros Ho Hol [Hw1 Hw2]. split_and!; simpl; intros pos Hpos.
  - intros Hn. specialize (Hw2 pos Hn). by rewrite Hw2.
  - intros [?|?]; [left; lia|by right].
  - intros [?|?]; [|by left; right].
    destruct (decide (pos < Zlen c)); [by left; left|]. right. lia.
Qed.

(** Only the bytes of the attached buffers matter. *)
Lemma view_ext sb sb' c :
  (∀ i, match sb i, sb' i with
        | Some b, Some b' => Offset b' = Offset b ∧ Len b' = Len b ∧
            (∀ r, covers b r = true → byte_at (dataBuf b') r = byte_at (dataBuf b) r)
        | None, None => True
        | _, _ => False
        end) →
  view sb' c ≡ view sb c.
Proof.
  intros H. split; intros pos Hpos; simpl.
  - split; (intros [?|(idx & b & Hb & Hlt)]; [by left|right]); specialize (H idx);
      rewrite Hb in H.
    + destruct (sb idx) as [b'|] eqn:E; [|done]. destruct H as (EO & EL & _).
      exists idx, b'. split; [done|lia].
    + destruct (sb' idx) as [b'|] eqn:E; [|done]. destruct H as (EO & EL & _).
      exists idx, b'. split; [done|lia].
  - specialize (H (pos / BS)).
    destruct (sb (pos / BS)) as [b|], (sb' (pos / BS)) as [b'|]; try done.
    destruct H as (EO & EL & Hd). unfold covers in *. rewrite EO, EL.
    destruct (_ && _) eqn:C; [|done]. by apply Hd.
Qed.

(** With no buffer attached the view is the proxy's file. *)
Lemma view_empty sb c : (∀ i, sb i = None) → view sb c ≡ of_bytes c.
Proof.
  intros H. split; intros pos Hpos; simpl.
  - split; [intros [?|(idx & b & Hb & _)]; [done|by rewrite H in Hb]|by left].
  - by rewrite H.
Qed.
End View.

(** * Buffer methods on a buffer that fits its block *)

Section BufferFacts.
Context (BS : Z).
Hypothesis HBS : 0 < BS < 2 ^ 32.

Definition fits (b : Buffer) : Prop :=
  0 ≤ Offset b ∧ 0 ≤ Len b ∧ Offset b + Len b ≤ BS ∧ Zlen (dataBuf b) = BS.

Lemma buf_range_fits b : buf_range BS b → fits b.
Proof. intros (?&?&?&?). split_and!; lia || done. Qed.

Lemma CanMerge_spec b off : fits b → Buffer_CanMerge b off = (Offset b + Len b =? off).
Proof. intros (?&?&?&?). unfold Buffer_CanMerge. by rewrite u32_small by lia. Qed.

Lemma IsFull_spec b : fits b → Buffer_IsFull b BS = Ret (Offset b + Len b =? BS).
Proof.
  intros (?&?&?&?). unfold Buffer_IsFull. rewrite u32_small by lia.
  by rewrite (proj2 (Z.leb_le _ _)) by lia.
Qed.

(** Appending [data] to a buffer with room for it. *)
Lemma MergeData_spec now b data :
  fits b → Offset b + Len b + Zlen data ≤ BS →
  ∃ d, Buffer_MergeData now b data =
       Ret {| buf_Id := buf_Id b; buf_fe := buf_fe b; BlkIdx := BlkIdx b; Offset := Offset b;
              Len := Len b + Zlen data; dataBuf := d; LastUpdateTime := now; elm := elm b |} ∧
       Zlen d = BS ∧
       (∀ r, covers b r = true → byte_at d r = byte_at (dataBuf b) r) ∧
       (∀ k, 0 ≤ k < Zlen data → byte_at d (Offset b + Len b + k) = byte_at data k).
Proof.
  intros (Ho & Hl & Hol & Hd) Hfit. pose proof (Zlen_nonneg data). unfold Buffer_MergeData.
  rewrite (u32_small (Offset b + Len b)) by lia.
  destruct (go_copy_ok (dataBuf b) (Offset b + Len b) data) as (d & -> & Hdl & Hdb); [lia..|].
  rewrite (u32_small (Zlen data)), u32_small by lia.
  exists d. split; [done|]. split; [congruence|]. split.
  - intros r Hc. rewrite Hdb. unfold covers in Hc. zbool.
  - intros k Hk. rewrite Hdb. zbool. f_equal. lia.
Qed.

Lemma GetData_spec b : fits b → ∃ d, Buffer_GetData b = Ret d ∧ held b d.
Proof.
  intros (Ho & Hl & Hol & Hd). unfold Buffer_GetData. rewrite u32_small by lia.
  destruct (go_slice_ok (dataBuf b) (Offset b) (Offset b + Len b)) as (d & -> & Hdl & Hdb);
    [lia..|].
  exists d. split; [done|]. split; [lia|]. intros k Hk. apply Hdb. lia.
Qed.

Lemma GetFileOffset_spec b fe i :
  fits b → buf_fe b = Some fe → BlockSize fe = BS → BlkIdx b = i →
  0 ≤ i → (i + 1) * BS < 2 ^ 64 →
  Buffer_GetFileOffset b = Ret (i * BS + Offset b) ∧
  Buffer_GetTailOffset b = Ret (i * BS + Offset b + Len b).
Proof.
  intros (Ho & Hl & Hol & Hd) Hfe HB Hi ??.
  unfold Buffer_GetFileOffset, Buffer_GetTailOffset, Buffer_GetAlignOffset.
  rewrite Hfe, HB, Hi. rewrite (u64_small (i * BS)) by nia.
  rewrite (u64_small (i * BS + Offset b)) by nia. rewrite u64_small by nia. done.
Qed.

Lemma ReSet_spec b fe i :
  elm b = false → Zlen (dataBuf b) = 0 ∨ Zlen (dataBuf b) = BS → BlockSize fe = BS →
  ∃ d, Buffer_ReSet b fe i =
       Ret {| buf_Id := buf_Id b; buf_fe := Some fe; BlkIdx := i; Offset := 0; Len := 0;
              dataBuf := d; LastUpdateTime := 0; elm := false |} ∧ Zlen d = BS.
Proof.
  intros He Hd HB. unfold Buffer_ReSet. rewrite He, HB.
  eexists. split; [done|]. destruct Hd as [->|E]; [apply Zlen_zeros; lia|].
  rewrite E, u32_small by lia. zbool.
Qed.
End BufferFacts.
