(* ===== verification/CacheState.v ===== *)
(** The state the two caches share: their pools, the write cache's channel of
    buffers waiting for an asynchronous write, the read cache's channel of
    prefetch operations, the proxy behind them, and the clock. *)

From stdpp Require Import base gmap list.
From Stdlib Require Import ZArith Lia.
From S2P Require Import Prelude GoString Proto Store Buffer Pool.

(** A channel is the list of what has been sent and not yet received, and
    whether it has been closed; a sender that finds it full holds nothing but
    its block's lock while it waits, so the list also stands for the waiting
    senders. *)
Record chan (A : Type) : Type := MkChan { ch_queue : list A; ch_closed : bool }.
Arguments MkChan {A} _ _.
Arguments ch_queue {A} _.
Arguments ch_closed {A} _.

Definition open_chan {A} (q : list A) : chan A := MkChan q false.

(** [ch <- x]: sending on a closed channel panics, on a nil one it blocks for
    ever. [close(ch)]: a closed or nil channel panics. *)
Definition chan_send {A} (x : A) (ch : option (chan A)) : outcome (option (chan A)) :=
  match ch with
  | None => Block
  | Some c => if ch_closed c then Panic else Ret (Some (MkChan (ch_queue c ++ [x]) false))
  end.
Definition chan_close {A} (ch : option (chan A)) : outcome (option (chan A)) :=
  match ch with
  | None => Panic
  | Some c => if ch_closed c then Panic else Ret (Some (MkChan (ch_queue c) true))
  end.

(** [chSync = None] and [chPrefetch = None] are Go's nil channels. [now] is
    [time.Now()] in nanoseconds. *)
Record CS (W : Type) : Type := MkCS {
  rc : Pool;
  wc : Pool;
  chSync : option (chan Z);
  chPrefetch : option (chan RWBlockOp);
  PrefetchTimes : Z;
  world : W;
  now : Z;
}.
Arguments MkCS {W} _ _ _ _ _ _ _.
Arguments rc {W} _.
Arguments wc {W} _.
Arguments chSync {W} _.
Arguments chPrefetch {W} _.
Arguments PrefetchTimes {W} _.
Arguments world {W} _.
Arguments now {W} _.

Section CS.
Context {W : Type}.

Definition set_rc (p : Pool) (s : CS W) : CS W :=
  MkCS p (wc s) (chSync s) (chPrefetch s) (PrefetchTimes s) (world s) (now s).
Definition set_wc (p : Pool) (s : CS W) : CS W :=
  MkCS (rc s) p (chSync s) (chPrefetch s) (PrefetchTimes s) (world s) (now s).
Definition set_chSync (q : option (chan Z)) (s : CS W) : CS W :=
  MkCS (rc s) (wc s) q (chPrefetch s) (PrefetchTimes s) (world s) (now s).
Definition set_chPrefetch (q : option (chan RWBlockOp)) (s : CS W) : CS W :=
  MkCS (rc s) (wc s) (chSync s) q (PrefetchTimes s) (world s) (now s).
Definition set_world (w : W) (s : CS W) : CS W :=
  MkCS (rc s) (wc s) (chSync s) (chPrefetch s) (PrefetchTimes s) w (now s).
Definition set_now (t : Z) (s : CS W) : CS W :=
  MkCS (rc s) (wc s) (chSync s) (chPrefetch s) (PrefetchTimes s) (world s) t.

(** Operations of one of the pools. *)
Definition onr {A} (m : M Pool A) : M (CS W) A := zoom rc set_rc m.
Definition onw {A} (m : M Pool A) : M (CS W) A := zoom wc set_wc m.
End CS.

Section IO.
Context {W : Type} `{ProxyIO W}.

(** [WCache.DirectWrite]. *)
Definition DirectWrite (fe : FileEntry) (buffer : bytes) (offset : Z)
    : M (CS W) (Z * option error) := λ s,
  let '(r, w') := Writer_Write (fe_Id fe) buffer offset (world s) in
  Ret (r, set_world w' s).

(** [RCache.DirectRead]. *)
Definition DirectRead (fe : FileEntry) (buffer : bytes) (offset : Z)
    : M (CS W) ReadResult := λ s,
  let '(r, w') := Reader_Read (fe_Id fe) buffer offset (world s) in
  Ret (r, set_world w' s).
End IO.
