(* ===== verification/WCache.v ===== *)
(** The write cache (lib/libfs/wcache.go). *)

From stdpp Require Import base gmap list.
From Stdlib Require Import ZArith Lia.
From S2P Require Import Prelude GoString Proto Store Buffer Pool View CacheState.

Section Ops.
Context {W : Type} `{ProxyIO W}.
Abbreviation MC := (M (CS W)) (only parsing).

Definition SyncIo : MC bool :=
  gets (λ s, match chSync s with None => true | Some _ => false end).

(** [cache.chSync <- buffer] *)
Definition send_sync (bid : Z) : MC unit :=
  let! ch := gets chSync in
  let! ch' := lift (chan_send bid ch) in
  modify (set_chSync ch').

(** [buffer.Skip(off); Assert(buffer.CanMerge(off)); buffer.MergeData(data)] *)
Definition fill_buffer (bid off : Z) (data : bytes) : MC unit :=
  onw (buf_upd bid (λ b, Buffer_Skip b off));;;
  let! b := onw (buf_get bid) in
  Assert (Buffer_CanMerge b off);;;
  let! t := gets now in
  onw (buf_upd bid (λ b, Buffer_MergeData t b data)).

(** [fileBuf.DetachBuffer(idx); cache.FreeBuffer(buffer)] *)
Definition release_buffer (fid idx bid : Z) : MC unit :=
  onw (DetachBuffer fid idx);;; onw (FreeBuffer bid).

(** [cache.DirectWrite(fe, buffer.GetData(), buffer.GetFileOffset())] *)
Definition write_buffer (fe : FileEntry) (bid : Z) : MC (Z * option error) :=
  let! data := onw (buf_call bid Buffer_GetData) in
  let! off := onw (buf_call bid Buffer_GetFileOffset) in
  DirectWrite fe data off.

Definition do_lru (bid : Z) : MC unit :=
  let! t := gets now in onw (DoLru t bid).

(** [WriteOp]: whether the block's lock is to be released by the caller, the
    size and the error. [fid] is the handle of [fileBuf]. *)
Definition WriteOp (fe : FileEntry) (fid : Z) (op : RWBlockOp) : MC (bool * Z * option error) :=
  let! buffer := onw (GetBuffer fid (Index op)) in
  let! sync := SyncIo in
  match buffer with
  | None =>
      let! full := lift (Op_IsFull op) in
      if full && sync then
        let! (size, err) := DirectWrite fe (rwBuf op) (Op_GetFileOffset op) in
        ret (true, size, err)
      else
        let! nb := onw (AllocBuffer fe (Index op)) in
        match nb with
        | None =>
            let! (size, err) := DirectWrite fe (rwBuf op) (Op_GetFileOffset op) in
            ret (true, size, err)
        | Some bid =>
            fill_buffer bid (RwOffset op) (rwBuf op);;;
            onw (AttachBuffer fid (Index op) bid);;;
            let! bfull := onw (buf_call bid (λ b, Buffer_IsFull b (BlockSize fe))) in
            if bfull then
              let! ofull := lift (Op_IsFull op) in
              Assert (ofull && negb sync);;;
              send_sync bid;;;
              ret (false, RwSize op, None)
            else
              do_lru bid;;; ret (true, RwSize op, None)
        end
  | Some bid =>
      onw (RemoveLru bid);;;
      let! b := onw (buf_get bid) in
      if Buffer_CanMerge b (RwOffset op) then
        let! t := gets now in
        onw (buf_upd bid (λ b, Buffer_MergeData t b (rwBuf op)));;;
        let! bfull := onw (buf_call bid (λ b, Buffer_IsFull b (BlockSize fe))) in
        if bfull then
          if negb sync then send_sync bid;;; ret (false, RwSize op, None)
          else
            let! (size, err) := write_buffer fe bid in
            match err with
            | Some _ => do_lru bid;;; ret (true, size, err)
            | None =>
                release_buffer fid (Index op) bid;;;
                ret (true, RwSize op, None)
            end
        else do_lru bid;;; ret (true, RwSize op, None)
      else
        let! (size, err) := write_buffer fe bid in
        match err with
        | Some _ => do_lru bid;;; ret (true, size, err)
        | None =>
            let! full := lift (Op_IsFull op) in
            if full then
              release_buffer fid (Index op) bid;;;
              let! (size, err) := DirectWrite fe (rwBuf op) (Op_GetFileOffset op) in
              ret (true, size, err)
            else
              onw (buf_upd bid (λ b, Buffer_ReSet b fe (Index op)));;;
              fill_buffer bid (RwOffset op) (rwBuf op);;;
              do_lru bid;;;
              ret (true, RwSize op, None)
        end
  end.

(** One iteration of [Write]'s loop: the block is locked, written, and
    unlocked unless a sync routine will do so. *)
Definition WriteBlock (fe : FileEntry) (fid : Z) (op : RWBlockOp) : MC (Z * option error) :=
  onw (fb_lock fid (LockBuffer (Index op)));;;
  let! (syncIo, size, err) := WriteOp fe fid op in
  (if syncIo then onw (fb_lock fid (UnLockBuffer (Index op))) else ret tt);;;
  ret (size, err).

Fixpoint Write_loop (fe : FileEntry) (fid : Z) (ops : list RWBlockOp) (wtSize : Z)
    : MC (Z * option error) :=
  match ops with
  | [] => ret (wtSize, None)
  | op :: ops' =>
      let! (size, err) := WriteBlock fe fid op in
      match err with
      | Some _ => ret (wtSize, err)
      | None => Write_loop fe fid ops' (wtSize + size)
      end
  end.

Definition WCache_Write (fe : FileEntry) (buffer : bytes) (offset : Z) : MC (Z * option error) :=
  let! fb := onw (GetFileBuffer fe true) in
  match fb with
  | None => panic
  | Some fid =>
      let! ops := lift (Slice fe buffer offset) in
      let! (wtSize, err) := Write_loop fe fid ops 0 in
      match err with
      | Some _ => ret (wtSize, err)
      | None => Assert (wtSize =? Zlen buffer);;; ret (wtSize, None)
      end
  end.

(** [MergeOp]: the size and [op.rwBuf] after the copy. *)
Definition MergeOp (fid : Z) (op : RWBlockOp) (dataSize : Z) : MC (Z * bytes) :=
  Assert (dataSize <=? RwSize op);;;
  let! buffer := onw (GetBuffer fid (Index op)) in
  match buffer with
  | None =>
      let! fb := onw (fb_get fid) in
      if (dataSize <? RwSize op) && (Index op <? UpperIdx fb)
      then ret (RwSize op, rwBuf op) else ret (dataSize, rwBuf op)
  | Some bid =>
      let! b := onw (buf_get bid) in
      if (u32 (Offset b + Len b) <=? RwOffset op)
         || (u32 (RwOffset op + RwSize op) <=? Offset b) then
        if (dataSize <? RwSize op) && (RwOffset op <? Offset b)
        then ret (RwSize op, rwBuf op) else ret (dataSize, rwBuf op)
      else
        let cpOffset := if Offset b <? RwOffset op then RwOffset op else Offset b in
        let tail := u32 (Offset b + Len b) in
        let opTail := u32 (RwOffset op + RwSize op) in
        let cpTailOffset := if opTail <? tail then opTail else tail in
        Assert (cpOffset <? cpTailOffset);;;
        Assert (cpTailOffset <=? opTail);;;
        let! data := lift (Buffer_GetRangeData b cpOffset cpTailOffset) in
        let! rw := lift (go_copy (rwBuf op) (u32 (cpOffset - RwOffset op)) data) in
        let sz := u32 (cpTailOffset - RwOffset op) in
        ret (if dataSize <? sz then sz else dataSize, rw)
  end.

(** [err.(Errno)] is [E_POSIX_ENOENT]. *)
Definition is_enoent (e : error) : bool :=
  match e with ErrErrno c => Errno_Equal E_POSIX_ENOENT c | _ => false end.

Definition FlushBuffer_body (fid idx : Z) : MC (option error) :=
  let! buffer := onw (GetBuffer fid idx) in
  match buffer with
  | None => ret None
  | Some bid =>
      onw (RemoveLru bid);;;
      let! b := onw (buf_get bid) in
      match buf_fe b with
      | None => panic
      | Some bfe =>
          let! (_, err) := write_buffer bfe bid in
          match err with
          | Some e =>
              if is_enoent e then release_buffer fid idx bid;;; ret err
              else do_lru bid;;; ret err
          | None => release_buffer fid idx bid;;; ret None
          end
      end
  end.

Definition FlushBuffer (fid idx : Z) : MC (option error) :=
  onw (fb_lock fid (LockBuffer idx));;;
  let! err := FlushBuffer_body fid idx in
  onw (fb_lock fid (UnLockBuffer idx));;;
  ret err.

(** The flush goroutines handle the indices in some order; the error returned
    is the last one received that is not nil. *)
Fixpoint Flush_list (fid : Z) (order : list Z) (flushErr : option error) : MC (option error) :=
  match order with
  | [] => ret flushErr
  | idx :: rest =>
      let! err := FlushBuffer fid idx in
      Flush_list fid rest (match err with Some _ => err | None => flushErr end)
  end.

Definition WCache_Flush (fe : FileEntry) : MC (option error) :=
  let! fb := onw (GetFileBuffer fe false) in
  match fb with
  | None => ret None
  | Some fid =>
      let! fileBuf := onw (fb_get fid) in
      Flush_list fid (GetAllBufferIndex fileBuf) None
  end.

(** The inner loop of [CheckExpire], at most [fuel] rounds. *)
Fixpoint CheckExpire_round (fuel : nat) : MC unit :=
  match fuel with
  | O => ret tt
  | S fuel' =>
      let! t := gets now in
      let! e := onw (LruExpire t) in
      match e with
      | None => ret tt
      | Some (fe, blkIdx) =>
          let! fb := onw (GetFileBuffer fe false) in
          match fb with
          | None => CheckExpire_round fuel'
          | Some fid => FlushBuffer fid blkIdx;;; CheckExpire_round fuel'
          end
      end
  end.

(** A sync routine received the buffer [bid] from the channel. It writes the
    buffer and frees it (or puts it back into the LRU list); the result is the
    handle of the file. *)
Definition SyncWrite_begin (bid : Z) : MC Z :=
  let! ch := gets chSync in
  match ch with
  | None => block
  | Some c =>
      modify (set_chSync (Some (MkChan (list_remove_id bid (ch_queue c)) (ch_closed c))));;;
      let! b := onw (buf_get bid) in
      match buf_fe b with
      | None => panic
      | Some bfe =>
          let! fb := onw (GetFileBuffer bfe false) in
          match fb with
          | None => panic
          | Some fid =>
              let! (_, err) := write_buffer bfe bid in
              match err with
              | Some _ => do_lru bid;;; ret fid
              | None =>
                  let! b := onw (buf_get bid) in
                  release_buffer fid (BlkIdx b) bid;;; ret fid
              end
          end
      end
  end.

(** [fileBuf.UnLockBuffer(buffer.BlkIdx)], in both branches the last step: the
    block index is read from the buffer again. *)
Definition SyncWrite_end (fid bid : Z) : MC unit :=
  let! b := onw (buf_get bid) in
  onw (fb_lock fid (UnLockBuffer (BlkIdx b))).

(** One round of [SyncWrite] with no other goroutine in between. *)
Definition SyncWrite_one (bid : Z) : MC unit :=
  let! fid := SyncWrite_begin bid in SyncWrite_end fid bid.

(** The sync routines receive the buffers [bids], in that order. *)
Fixpoint sync_all (bids : list Z) : MC unit :=
  match bids with
  | [] => ret tt
  | bid :: rest => SyncWrite_one bid;;; sync_all rest
  end.

Definition StatSize (fe : FileEntry) : MC (Z * option error) :=
  let! fb := onw (GetFileBuffer fe false) in
  match fb with
  | None => ret (0, None)
  | Some fid =>
      let! fileBuf := onw (fb_get fid) in
      if IsZeroCache fileBuf then ret (0, None)
      else
        let up := UpperIdx fileBuf in
        onw (fb_lock fid (LockBuffer up));;;
        let! r :=
          (let! buffer := onw (GetBuffer fid up) in
           match buffer with
           | None => ret (0, Some (ErrErrno E_POSIX_EIO))
           | Some bid =>
               let! t := onw (buf_call bid Buffer_GetTailOffset) in ret (t, None)
           end) in
        onw (fb_lock fid (UnLockBuffer up));;;
        ret r
  end.

Definition WCache_Close (fe : FileEntry) : MC (option error) :=
  let! err := WCache_Flush fe in
  match err with
  | Some _ => ret err
  | None => onw (DetachFileBuffer fe);;; ret None
  end.

Fixpoint WCache_Close_list (fes : list FileEntry) : MC unit :=
  match fes with
  | [] => ret tt
  | fe :: rest => WCache_Close fe;;; WCache_Close_list rest
  end.

(** [CloseAll]: the channel is closed and the sync routines write what it still
    holds (a file is closed only when none of its blocks is locked), then every
    file is closed; errors of [Close] are dropped. *)
Definition WCache_CloseAll : MC unit :=
  let! ch := gets chSync in
  (match ch with
   | Some _ => let! ch' := lift (chan_close ch) in modify (set_chSync ch')
   | None => ret tt
   end);;;
  sync_all (from_option ch_queue [] ch);;;
  let! cache := gets (λ s, Cache (wc s)) in
  WCache_Close_list (fb_fe <$> (map_to_list cache).*2).
End Ops.
