(* ===== verification/WCacheProof.v ===== *)
(** Correctness of the write cache: every block operation keeps the pool's
    invariant and the locks, raises none of the source's assertions, and
    changes the logical content of the file exactly as the write it performs. *)

From stdpp Require Import base gmap list.
From Stdlib Require Import ZArith Lia.
From S2P Require Import Prelude GoString Proto Store Buffer Pool View CacheState WCache.

Section Proof.
Context {W : Type} `{ProxyStore W}.
Context (BS : Z) {shut : bool}.
Hypothesis HBS : 0 < BS < 2 ^ 32.
Implicit Types (s : CS W) (p : Pool).

(** The logical content of file [f]. *)
Definition wview s (f : Z) : afile := view BS (slot_buf (wc s) f) (content (world s) f).

(** The buffers waiting for (or being written by) a sync routine. *)
Definition pending s : list Z := from_option ch_queue [] (chSync s).

(** What no operation of the write cache touches. *)
Definition frame s s' : Prop :=
  rc s' = rc s ∧ chPrefetch s' = chPrefetch s ∧ PrefetchTimes s' = PrefetchTimes s ∧
  now s' = now s ∧ ExpireTime (wc s') = ExpireTime (wc s).

Lemma frame_refl s : frame s s.
Proof. by split_and!. Qed.

Lemma frame_trans s1 s2 s3 : frame s1 s2 → frame s2 s3 → frame s1 s3.
Proof. intros (?&?&?&?&?) (?&?&?&?&?). split_and!; congruence. Qed.

(** The channel, if there is one, has not been closed. *)
Definition sync_open s : Prop := ∀ c, chSync s = Some c → ch_closed c = false.

Lemma sync_open_pending s : sync_open s → chSync s ≠ None → chSync s = Some (open_chan (pending s)).
Proof.
  intros Ho Hn. unfold pending. destruct (chSync s) as [[q c]|] eqn:E; [|done].
  pose proof (Ho _ E) as Hc. simpl in *. by subst c.
Qed.

(** The invariant between block operations: a well-formed pool, the locks held
    are exactly those of the pending buffers, and the channel has been closed
    when [shut] says so. *)
Record winv s : Prop := {
  wi_wf : pool_wf BS (wc s);
  wi_nodup : NoDup (pending s);
  wi_pend : ∀ bid, bid ∈ pending s → ∃ f i b,
    slot (wc s) f i = Some bid ∧ bufs (wc s) !! bid = Some b ∧ elm b = false ∧
    lockof (wc s) f i = Some (MkLock WriteLock 0);
  wi_lock : ∀ f i l, lockof (wc s) f i = Some l →
    ∃ bid, slot (wc s) f i = Some bid ∧ bid ∈ pending s;
  wi_shut : ∀ c, chSync s = Some c → ch_closed c = shut;
}.

Lemma winv_open s : shut = false → winv s → sync_open s.
Proof. intros Hsh Hi c Hc. by rewrite (wi_shut _ Hi c Hc). Qed.

Lemma winv_pending s : winv s → chSync s ≠ None → chSync s = Some (MkChan (pending s) shut).
Proof.
  intros Hi Hn. pose proof (wi_shut _ Hi) as Hs. unfold pending.
  destruct (chSync s) as [[q c]|]; [|done]. simpl. by rewrite <- (Hs _ eq_refl).
Qed.

Lemma wf_slots_ok p f : pool_wf BS p → slots_ok BS (slot_buf p f).
Proof.
  intros Hwf i b Hs. unfold slot_buf in Hs. destruct (slot p f i) as [bid|] eqn:E; [|done].
  destruct (wf_slot _ _ Hwf _ _ _ _ E Hs) as (_&_&?&_&?&?&?&?). by split_and!.
Qed.

Lemma buf_ok_fits f i b : buf_ok BS f i b → fits BS b.
Proof. intros (_&_&_&_&?&?&?&?). split_and!; lia || done. Qed.

Lemma buf_ok_range f i b : buf_ok BS f i b → buf_range BS b.
Proof. intros (_&_&_&_&?&?&?&?). by split_and!. Qed.

(** The pool differs at one block: so does the overlay of its file, and the
    other files' overlays are unchanged. *)
Lemma only_upd f i p p' : only f i p p' →
  (∀ j, slot_buf p' f j = upd (slot_buf p f) i (slot_buf p' f i) j) ∧
  (∀ f', f' ≠ f → ∀ j, slot_buf p' f' j = slot_buf p f' j).
Proof.
  intros Ho. split.
  - intros j. unfold upd. case_decide; [by subst|]. apply Ho. tauto.
  - intros f' Hne j. apply Ho. tauto.
Qed.

Lemma view_pointwise sb sb' c : (∀ j, sb' j = sb j) → view BS sb' c ≡ view BS sb c.
Proof.
  intros E. apply view_ext. intros j. rewrite E. destruct (sb j); [by split_and!|done].
Qed.

(** ** Steps that end with the block unlocked, or with its buffer handed to a
    sync routine *)

Lemma winv_step s s' f i :
  winv s → pool_wf BS (wc s') → chSync s' = chSync s → only f i (wc s) (wc s') →
  lockof (wc s) f i = None → lockof (wc s') f i = None → winv s'.
Proof.
  intros Hi Hwf Hch Ho Hl Hl'. constructor; [done|..]; unfold pending; rewrite Hch.
  - apply (wi_nodup _ Hi).
  - intros bid Hb. destruct (wi_pend _ Hi bid Hb) as (g & j & b & Hs & Hbb & He & Hlk).
    assert (¬ (g = f ∧ j = i)) as Hn by (intros [-> ->]; congruence).
    destruct (Ho g j Hn) as (E1 & E2 & E3). unfold slot_buf in E2. rewrite E1, Hs in E2.
    simpl in E2. rewrite Hbb in E2. exists g, j, b. rewrite E1, E3. done.
  - intros g j l Hlk. destruct (decide (g = f ∧ j = i)) as [[-> ->]|Hn]; [congruence|].
    destruct (Ho g j Hn) as (E1 & _ & E3). rewrite E3 in Hlk. rewrite E1.
    by apply (wi_lock _ Hi) in Hlk.
  - apply (wi_shut _ Hi).
Qed.

Lemma winv_send s s' f i bid b :
  winv s → pool_wf BS (wc s') → chSync s' = Some (MkChan (pending s ++ [bid]) shut) →
  only f i (wc s) (wc s') → lockof (wc s) f i = None →
  lockof (wc s') f i = Some (MkLock WriteLock 0) →
  slot (wc s') f i = Some bid → bufs (wc s') !! bid = Some b → elm b = false → winv s'.
Proof.
  intros Hi Hwf Hcs Ho Hl Hl' Hs' Hb' He.
  assert (pending s' = pending s ++ [bid]) as Hch by (unfold pending at 1; by rewrite Hcs).
  assert (∀ x, x ∈ pending s → ∃ g j c, ¬ (g = f ∧ j = i) ∧ slot (wc s') g j = Some x ∧
    bufs (wc s') !! x = Some c ∧ elm c = false ∧
    lockof (wc s') g j = Some (MkLock WriteLock 0)) as Hold.
  { intros x Hx. destruct (wi_pend _ Hi x Hx) as (g & j & c & Hs & Hc & Hec & Hlk).
    assert (¬ (g = f ∧ j = i)) as Hn by (intros [-> ->]; congruence).
    destruct (Ho g j Hn) as (E1 & E2 & E3). unfold slot_buf in E2. rewrite E1, Hs in E2.
    simpl in E2. rewrite Hc in E2. exists g, j, c. rewrite E1, E3. done. }
  constructor; [done|..]; rewrite ?Hch.
  - apply NoDup_app. split_and!; [apply (wi_nodup _ Hi)| |apply NoDup_singleton].
    intros x Hx ->%list_elem_of_singleton. destruct (Hold _ Hx) as (g & j & c & Hn & Hs & _).
    apply Hn. by apply (wf_inj _ _ Hwf _ _ _ _ _ Hs Hs').
  - intros x [Hx| ->%list_elem_of_singleton]%elem_of_app.
    + destruct (Hold _ Hx) as (g & j & c & _ & ?). eauto.
    + exists f, i, b. done.
  - intros g j l Hlk. destruct (decide (g = f ∧ j = i)) as [[-> ->]|Hn].
    + exists bid. split; [done|]. set_solver.
    + destruct (Ho g j Hn) as (E1 & _ & E3). rewrite E3 in Hlk.
      apply (wi_lock _ Hi) in Hlk as (x & Hx & Hin). exists x. rewrite E1. set_solver.
  - intros c. rewrite Hcs. by intros [= <-].
Qed.

(** ** Building blocks of [WriteOp] *)

Lemma wp_onw {A} (m : M Pool A) Q s :
  wp m (λ a p, Q a (set_wc p s)) (wc s) → wp (onw m) Q s.
Proof. apply wp_zoom. Qed.

(** [RemoveLru] in one formula for both of its branches. *)
Lemma wp_RemoveLru bid b (Q : unit → Pool → Prop) p :
  pool_wf BS p → bufs p !! bid = Some b →
  Q tt (MkPool (<[bid := set_elm false (LastUpdateTime b) b]> (bufs p)) (FreeList p)
          (Cache p) (list_remove_id bid (LruList p)) (ExpireTime p)) →
  wp (RemoveLru bid) Q p.
Proof.
  intros Hwf Hb HQ. unfold RemoveLru. apply wp_bind, (wp_buf_get _ b); [done|].
  destruct (elm b) eqn:E.
  - apply wp_bind, wp_modify, (wp_buf_upd _ b _ (set_elm false (LastUpdateTime b) b)); done.
  - apply wp_ret. assert (set_elm false (LastUpdateTime b) b = b) as Eb by (destruct b; simpl in *; by subst).
    assert (list_remove_id bid (LruList p) = LruList p) as El.
    { apply list_remove_id_notin. intros Hx. apply (wf_lru _ _ Hwf _ _ Hb) in Hx. congruence. }
    rewrite Eb, El, insert_id in HQ by done. by destruct p.
Qed.

Lemma wp_DoLru t bid b (Q : unit → Pool → Prop) p :
  bufs p !! bid = Some b → elm b = false →
  Q tt (MkPool (<[bid := set_elm true t b]> (bufs p)) (FreeList p) (Cache p)
          (bid :: LruList p) (ExpireTime p)) →
  wp (DoLru t bid) Q p.
Proof.
  intros Hb He HQ. unfold DoLru. apply wp_bind, (wp_buf_get _ b); [done|]. rewrite He.
  apply wp_bind, wp_modify, (wp_buf_upd _ b _ (set_elm true t b)); done.
Qed.

(** A freshly reset buffer receives the data of an operation. *)
Lemma wp_fill bid b off data (Q : unit → CS W → Prop) s :
  bufs (wc s) !! bid = Some b → Offset b = 0 → Len b = 0 → Zlen (dataBuf b) = BS →
  0 ≤ off → off + Zlen data ≤ BS →
  (∀ d, Zlen d = BS → (∀ k, 0 ≤ k < Zlen data → byte_at d (off + k) = byte_at data k) →
     Q tt (set_wc (set_bufs (<[bid := {| buf_Id := buf_Id b; buf_fe := buf_fe b;
       BlkIdx := BlkIdx b; Offset := off; Len := Zlen data; dataBuf := d;
       LastUpdateTime := now s; elm := elm b |}]> (bufs (wc s))) (wc s)) s)) →
  wp (fill_buffer bid off data) Q s.
Proof.
  intros Hb HO HL HD Ho Hol HQ. pose proof (Zlen_nonneg data). unfold fill_buffer.
  set (b1 := {| buf_Id := buf_Id b; buf_fe := buf_fe b; BlkIdx := BlkIdx b; Offset := off;
                Len := 0; dataBuf := dataBuf b; LastUpdateTime := LastUpdateTime b;
                elm := elm b |}).
  assert (fits BS b1) as Hfit by (unfold fits; simpl; split_and!; lia || done).
  apply wp_bind, wp_onw, (wp_buf_upd _ b _ b1); [done| |].
  { unfold Buffer_Skip. rewrite HO, HL. simpl. by rewrite u32_small by lia. }
  apply wp_bind, wp_onw, (wp_buf_get _ b1); [apply lookup_insert_eq|].
  apply wp_bind, wp_assert.
  { rewrite (CanMerge_spec BS) by done. simpl. zbool. }
  apply wp_bind, wp_gets, wp_onw.
  destruct (MergeData_spec BS HBS (now s) b1 data Hfit) as (d & Hm & Hdl & _ & Hdn); [simpl; lia|].
  eapply (wp_buf_upd _ b1); [apply lookup_insert_eq|exact Hm|].
  simpl. rewrite insert_insert_eq. apply (HQ d); [done|].
  intros k Hk. rewrite <- Hdn by done. f_equal. simpl. lia.
Qed.

(** Writing a buffer's bytes to the proxy. *)
Lemma wp_write_buffer fe bid b f i (Q : Z * option error → CS W → Prop) s :
  bufs (wc s) !! bid = Some b → buf_ok BS f i b → fe_Id fe = f →
  (∀ n e w' d, held b d → (∀ f', f' ≠ f → content w' f' = content (world s) f') →
     match e with
     | None => written (content (world s) f) (i * BS + Offset b) d (content w' f)
     | Some _ => is_errno e ∧ torn (content (world s) f) (i * BS + Offset b) d (content w' f)
     end → Q (n, e) (set_world w' s)) →
  wp (write_buffer fe bid) Q s.
Proof.
  intros Hb Hok Hf HQ. pose proof (buf_ok_fits _ _ _ Hok) as Hfit.
  destruct Hok as ((bfe & Hbfe & Hbid & HbBS) & Hidx & Hi & Hmax & Ho & _).
  destruct (GetData_spec BS HBS b Hfit) as (d & Hd & Hheld).
  destruct (GetFileOffset_spec BS HBS b bfe i Hfit Hbfe HbBS Hidx Hi Hmax) as [Hoff _].
  unfold write_buffer.
  apply wp_bind, wp_onw, (wp_buf_call _ b _ d); [done..|].
  apply wp_bind, wp_onw, (wp_buf_call _ b _ (i * BS + Offset b)); [done..|].
  assert (∀ s0 : CS W, set_wc (wc s0) s0 = s0) as Hid by (by intros []).
  rewrite !Hid.
  unfold wp, DirectWrite. rewrite Hf. destruct (Writer_Write f d _ (world s)) as [[n e] w'] eqn:E.
  destruct (Writer_Write_spec f d (i * BS + Offset b) (world s) n e w') as [Hfr Hr]; [nia|done|].
  apply (HQ n e w' d); [done..|]. destruct e; tauto.
Qed.

(** ** The pools a block operation can end in *)

Definition pool_step f i p p' : Prop :=
  pool_wf BS p' ∧ only f i p p' ∧ lockof p' f i = lockof p f i ∧
  ExpireTime p' = ExpireTime p ∧ is_Some (Cache p' !! f).

Lemma pool_step_refl f i p : pool_wf BS p → is_Some (Cache p !! f) → pool_step f i p p.
Proof. intros. by split_and!. Qed.

Lemma cache_same p f (fb : FileBuffer) : Cache p !! f = Some fb → Cache p = <[f := fb]> (Cache p).
Proof. intros. by rewrite insert_id. Qed.

Lemma slot_unique p f i bid :
  pool_wf BS p → slot p f i = Some bid → ∀ f' i', slot p f' i' = Some bid → f' = f ∧ i' = i.
Proof. intros Hwf Hs f' i' Hs'. apply (wf_inj _ _ Hwf _ _ _ _ _ Hs' Hs). Qed.

Lemma step_attach p f i fb bid rest b :
  pool_wf BS p → Cache p !! f = Some fb → slot p f i = None → FreeList p = bid :: rest →
  buf_ok BS f i b →
  let p' := MkPool (<[bid := b]> (bufs p)) rest
              (<[f := MkFileBuffer (fb_fe fb) (<[i := bid]> (BufferMap fb)) (LockMap fb) (pw fb)]>
                 (Cache p))
              (if elm b then bid :: LruList p else LruList p) (ExpireTime p) in
  pool_step f i p p' ∧ slot p' f i = Some bid ∧ slot_buf p' f i = Some b.
Proof.
  intros Hwf Hc Hs HF Hok p'.
  assert (∀ f' i', slot p' f' i' = if decide (f' = f ∧ i' = i) then Some bid else slot p f' i') as Hs'.
  { intros f' i'. unfold p', slot. simpl. rewrite lookup_insert.
    destruct (decide (f = f')) as [->|Hne]; simpl.
    - rewrite Hc. simpl. rewrite lookup_insert. repeat case_decide; naive_solver.
    - rewrite decide_False; [done|]. naive_solver. }
  assert (slot p' f i = Some bid) as Hsi by (rewrite Hs', decide_True; done).
  split; [|split; [done|unfold slot_buf; rewrite Hsi; apply lookup_insert_eq]].
  split_and!.
  - apply (wf_attach BS p p' bid b f i rest); try done.
    intros f' fb'. simpl. rewrite lookup_insert. case_decide; intros Hfb; simplify_eq; simpl;
      by apply (wf_fb _ _ Hwf).
  - eapply (only_intro f i p p' bid b fb); try done.
    + intros j Hj. simpl. by rewrite lookup_insert_ne.
    + intros f' i' Hx. exfalso. apply (wf_disj _ _ Hwf) in Hx. rewrite HF in Hx. set_solver.
  - unfold p', lockof. simpl. by rewrite lookup_insert_eq, Hc.
  - done.
  - simpl. rewrite lookup_insert_eq. eauto.
Qed.

Lemma step_update p f i fb bid b lru :
  pool_wf BS p → Cache p !! f = Some fb → slot p f i = Some bid → buf_ok BS f i b →
  (if elm b then lru = bid :: list_remove_id bid (LruList p)
   else lru = list_remove_id bid (LruList p)) →
  let p' := MkPool (<[bid := b]> (bufs p)) (FreeList p) (Cache p) lru (ExpireTime p) in
  pool_step f i p p' ∧ slot p' f i = Some bid ∧ slot_buf p' f i = Some b.
Proof.
  intros Hwf Hc Hs Hok Hlru p'.
  assert (slot p' f i = Some bid) as Hsi by done.
  split; [|split; [done|unfold slot_buf; rewrite Hsi; apply lookup_insert_eq]].
  pose proof (list_remove_id_NoDup bid _ (wf_lru_nodup _ _ Hwf)) as Hnd.
  split_and!.
  - apply (wf_update BS p p' bid b f i); try done.
    + simpl. destruct (elm b); subst lru; [|done].
      apply NoDup_cons. split; [|done]. rewrite list_remove_id_spec. tauto.
    + intros x. simpl. destruct (elm b); subst lru; rewrite ?elem_of_cons, list_remove_id_spec;
        intuition congruence.
    + simpl. apply (wf_fb _ _ Hwf).
  - eapply (only_intro f i p p' bid b fb fb); try done.
    + simpl. by apply (cache_same p).
    + by apply (slot_unique p f i bid Hwf Hs).
  - done.
  - done.
  - simpl. eauto.
Qed.

Lemma step_release p f i fb bid b0 b :
  pool_wf BS p → Cache p !! f = Some fb → slot p f i = Some bid → bufs p !! bid = Some b0 →
  elm b = false → Zlen (dataBuf b) = BS →
  let p' := MkPool (<[bid := b]> (bufs p)) (FreeList p ++ [bid])
              (<[f := FB_DetachBuffer i fb]> (Cache p))
              (list_remove_id bid (LruList p)) (ExpireTime p) in
  pool_step f i p p' ∧ slot_buf p' f i = None.
Proof.
  intros Hwf Hc Hs Hb0 He Hd p'.
  assert (∀ f' i', slot p' f' i' = if decide (f' = f ∧ i' = i) then None else slot p f' i') as Hs'.
  { intros f' i'. unfold p', slot. simpl. rewrite lookup_insert.
    destruct (decide (f = f')) as [->|Hne]; simpl.
    - rewrite Hc. simpl. rewrite lookup_delete. repeat case_decide; naive_solver.
    - rewrite decide_False; [done|]. naive_solver. }
  split; [|unfold slot_buf; by rewrite Hs', decide_True].
  split_and!.
  - apply (wf_release BS p p' bid b b0 f i); try done.
    + by right.
    + by apply list_remove_id_NoDup, (wf_lru_nodup _ _ Hwf).
    + intros x. simpl. rewrite list_remove_id_spec. tauto.
    + intros f' fb'. simpl. rewrite lookup_insert. case_decide; intros Hfb; simplify_eq; simpl;
        by apply (wf_fb _ _ Hwf).
  - eapply (only_intro f i p p' bid b fb); try done.
    + intros j Hj. simpl. by rewrite lookup_delete_ne.
    + by apply (slot_unique p f i bid Hwf Hs).
  - unfold p', lockof. simpl. by rewrite lookup_insert_eq, Hc.
  - done.
  - simpl. rewrite lookup_insert_eq. eauto.
Qed.

Lemma pool_step_trans f i p1 p2 p3 :
  pool_step f i p1 p2 → pool_step f i p2 p3 → pool_step f i p1 p3.
Proof.
  intros (?&O1&L1&E1&?) (?&O2&L2&E2&?). split_and!; try done; try congruence.
  by eapply only_trans.
Qed.

(** ** The effect of one block operation *)

(** Everything but the view of file [f], which is described separately. *)
Definition bstep f i s s' : Prop :=
  pool_step f i (wc s) (wc s') ∧ frame s s' ∧
  (∀ f', f' ≠ f → content (world s') f' = content (world s) f').

Lemma bstep_trans f i s1 s2 s3 : bstep f i s1 s2 → bstep f i s2 s3 → bstep f i s1 s3.
Proof.
  intros (P1&F1&C1) (P2&F2&C2). split_and!.
  - by eapply pool_step_trans.
  - by eapply frame_trans.
  - intros. rewrite C2, C1; done.
Qed.

(** How [WriteOp] may end: the range of [data] at [pos] is written in the view
    (or, with an error, nothing outside it is touched), and the lock is either
    left to the caller or goes with the buffer to a sync routine. *)
Definition wop_post s f i pos (data : bytes) (syncIo : bool) (size : Z) (err : option error) s' :=
  bstep f i s s' ∧
  (if syncIo then chSync s' = chSync s
   else err = None ∧ ∃ bid b, slot (wc s') f i = Some bid ∧ bufs (wc s') !! bid = Some b ∧
          elm b = false ∧ chSync s = Some (open_chan (pending s)) ∧ chSync s' = Some (open_chan (pending s ++ [bid]))) ∧
  match err with
  | None => size = Zlen data ∧ wview s' f ≡ spec_write (wview s f) pos data
  | Some _ => is_errno err ∧ agree_outside pos (pos + Zlen data) (wview s f) (wview s' f)
  end.

Lemma wview_upd s s' f i :
  only f i (wc s) (wc s') →
  wview s' f ≡ view BS (upd (slot_buf (wc s) f) i (slot_buf (wc s') f i)) (content (world s') f).
Proof. intros Ho. apply view_pointwise, (only_upd f i _ _ Ho). Qed.

Lemma wview_same s s' f :
  slot_buf (wc s') f = slot_buf (wc s) f → content (world s') f = content (world s) f →
  wview s' f = wview s f.
Proof. unfold wview. by intros -> ->. Qed.

(** A block operation that leaves the view alone, followed by one that ends
    well, ends well. *)
Lemma wop_post_pre s s1 s2 f i pos data syncIo size err :
  bstep f i s s1 → chSync s1 = chSync s → wview s1 f ≡ wview s f →
  wop_post s1 f i pos data syncIo size err s2 → wop_post s f i pos data syncIo size err s2.
Proof.
  intros Hb Hch Hv (Hb2 & Hs & He). split; [by eapply bstep_trans|]. split.
  - unfold pending in *. rewrite Hch in Hs. done.
  - destruct err.
    + destruct He as [? He]. split; [done|]. by eapply agree_outside_equiv.
    + destruct He as [? ->]. split; [done|]. by rewrite Hv.
Qed.

Section OneBlock.
Context (fe : FileEntry) (op : RWBlockOp).
Hypothesis HfeBS : BlockSize fe = BS.
Hypothesis Hop : op_ok fe op.

Abbreviation f := (fe_Id fe).
Abbreviation i := (Index op).
Abbreviation pos := (Index op * BS + RwOffset op).
Abbreviation post s := (λ r s', wop_post s f i pos (rwBuf op) (fst (fst r)) (snd (fst r)) (snd r) s').

Lemma op_IsFull : Op_IsFull op = Ret (RwOffset op + RwSize op =? BS).
Proof.
  destruct Hop as (Hf & _ & _ & ? & ? & ? & Hl). unfold Op_IsFull.
  rewrite Hf, HfeBS, Hl in *. rewrite !u32_small by lia. zbool.
Qed.

Lemma op_pos : Op_GetFileOffset op = pos ∧ 0 ≤ pos.
Proof.
  destruct Hop as (Hf & ? & ? & ? & ? & ? & Hl). unfold Op_GetFileOffset, Op_GetAlignOffset.
  rewrite Hf, HfeBS in *. rewrite (u64_small (i * BS)) by nia. rewrite u64_small by nia. nia.
Qed.

(** *** The direct write *)
Lemma wp_direct s :
  pool_wf BS (wc s) → is_Some (Cache (wc s) !! f) → slot (wc s) f i = None →
  wp (let! (size, err) := DirectWrite fe (rwBuf op) (Op_GetFileOffset op) in
      ret (true, size, err)) (post s) s.
Proof.
  intros Hwf Hc Hs. destruct op_pos as [-> Hpos].
  assert (slot_buf (wc s) f i = None) as Hsb by (unfold slot_buf; by rewrite Hs).
  destruct Hop as (_ & ? & ? & ? & ? & ? & Hl). rewrite HfeBS in *.
  apply wp_bind. unfold wp, DirectWrite.
  destruct (Writer_Write f (rwBuf op) pos (world s)) as [[n e] w'] eqn:E.
  destruct (Writer_Write_spec _ _ _ _ _ _ _ Hpos E) as [Hfr Hr]. simpl.
  split; [|split; [done|]].
  { split_and!; try done. }
  destruct e; simpl.
  - destruct Hr as (_ & ? & Ht). split; [done|]. apply view_direct_torn; [lia..|done].
  - destruct Hr as [-> Hw]. rewrite u32_small by lia. split; [done|].
    apply view_direct; [lia|done|lia..|done].
Qed.

Lemma wp_send bid (Q : unit → CS W → Prop) s :
  chSync s = Some (open_chan (pending s)) → Q tt (set_chSync (Some (open_chan (pending s ++ [bid]))) s) →
  wp (send_sync bid) Q s.
Proof. intros Hq HQ. unfold send_sync. apply wp_bind, wp_gets. rewrite Hq. done. Qed.

Lemma wp_do_lru bid b (Q : unit → CS W → Prop) s :
  bufs (wc s) !! bid = Some b → elm b = false →
  Q tt (set_wc (MkPool (<[bid := set_elm true (now s) b]> (bufs (wc s))) (FreeList (wc s))
          (Cache (wc s)) (bid :: LruList (wc s)) (ExpireTime (wc s))) s) →
  wp (do_lru bid) Q s.
Proof. intros. unfold do_lru. apply wp_bind, wp_gets, wp_onw. by eapply wp_DoLru. Qed.

(** *** A buffer is allocated for the block *)

Lemma wp_alloc idx (Q : option Z → Pool → Prop) p :
  pool_wf BS p →
  (FreeList p = [] → Q None p) →
  (∀ bid rest b d, FreeList p = bid :: rest → bufs p !! bid = Some b → Zlen d = BS →
     Q (Some bid) (MkPool (<[bid := {| buf_Id := buf_Id b; buf_fe := Some fe; BlkIdx := idx;
       Offset := 0; Len := 0; dataBuf := d; LastUpdateTime := 0; elm := false |}]> (bufs p))
       rest (Cache p) (LruList p) (ExpireTime p))) →
  wp (AllocBuffer fe idx) Q p.
Proof.
  intros Hwf H1 H2. unfold AllocBuffer. apply wp_bind, wp_gets.
  destruct (FreeList p) as [|bid rest] eqn:EF; [by apply H1|].
  assert (bid ∈ FreeList p) as Hin by (rewrite EF; set_solver).
  destruct (proj2 (wf_total _ _ Hwf bid)) as [b Hb]; [by left|].
  destruct (ReSet_spec BS HBS b fe idx) as (d & Hr & Hd); [by eapply wf_free_elm|by eapply wf_size|done|].
  apply wp_bind, wp_modify, wp_bind. eapply wp_buf_upd; [exact Hb|exact Hr|].
  apply wp_ret. by apply (H2 bid rest b d).
Qed.

Lemma wp_AttachBuffer bid fb (Q : unit → Pool → Prop) p :
  Cache p !! f = Some fb → BufferMap fb !! i = None →
  Q tt (set_cache (<[f := MkFileBuffer (fb_fe fb) (<[i := bid]> (BufferMap fb)) (LockMap fb) (pw fb)]>
          (Cache p)) p) →
  wp (AttachBuffer f i bid) Q p.
Proof.
  intros Hc Hn HQ. unfold AttachBuffer. eapply wp_fb_upd; [exact Hc| |exact HQ].
  unfold FB_AttachBuffer. by rewrite Hn.
Qed.

Lemma wp_new s fb :
  pool_wf BS (wc s) → Cache (wc s) !! f = Some fb → slot (wc s) f i = None →
  (RwOffset op + RwSize op = BS → chSync s = Some (open_chan (pending s))) →
  wp (let! nb := onw (AllocBuffer fe i) in
      match nb with
      | None =>
          let! (size, err) := DirectWrite fe (rwBuf op) (Op_GetFileOffset op) in
          ret (true, size, err)
      | Some bid =>
          fill_buffer bid (RwOffset op) (rwBuf op);;;
          onw (AttachBuffer f i bid);;;
          let! bfull := onw (buf_call bid (λ b, Buffer_IsFull b (BlockSize fe))) in
          if bfull then
            let! ofull := lift (Op_IsFull op) in
            Assert (ofull && negb (match chSync s with None => true | Some _ => false end));;;
            send_sync bid;;; ret (false, RwSize op, None)
          else do_lru bid;;; ret (true, RwSize op, None)
      end) (post s) s.
Proof.
  intros Hwf Hc Hs Hfull. pose proof op_IsFull as HIF.
  pose proof Hop as (Hof & ? & Hmax & ? & ? & ? & Hl). rewrite HfeBS in *.
  apply wp_bind, wp_onw, wp_alloc; [done| |].
  { intros _. replace (set_wc (wc s) s) with s by (by destruct s). apply wp_direct; eauto. }
  intros bid rest b0 d0 HF Hb0 Hd0.
  apply wp_bind. eapply wp_fill; [apply lookup_insert_eq|done..|simpl; lia|lia|].
  intros d Hd Hdat. simpl. rewrite insert_insert_eq.
  set (b := {| buf_Id := _ |}).
  assert (buf_ok BS f i b) as Hok.
  { unfold buf_ok; simpl. split_and!; (lia || done || by exists fe). }
  assert (BufferMap fb !! i = None) as Hnone by (unfold slot in Hs; by rewrite Hc in Hs).
  assert (view BS (upd (slot_buf (wc s) f) i (Some b)) (content (world s) f) ≡
          spec_write (wview s f) pos (rwBuf op)) as Hview.
  { apply (view_attach BS ltac:(lia) _ _ _ b); [unfold slot_buf; by rewrite Hs|lia|by eapply buf_ok_range|].
    split; [simpl; lia|]. intros k Hk. symmetry. apply Hdat. simpl in Hk. lia. }
  apply wp_bind, wp_onw, (wp_AttachBuffer _ fb); [done..|].
  apply wp_bind, wp_onw, (wp_buf_call _ b _ (RwOffset op + RwSize op =? BS)).
  { apply lookup_insert_eq. }
  { rewrite (IsFull_spec BS) by (done || by eapply buf_ok_fits). simpl. by rewrite Hl. }
  simpl. destruct (Z.eqb_spec (RwOffset op + RwSize op) BS) as [E|E].
  - specialize (Hfull E). apply wp_bind. eapply wp_lift; [exact HIF|].
    apply wp_bind, wp_assert; [rewrite Hfull; zbool|].
    apply wp_bind, wp_send; [done|]. apply wp_ret. simpl.
    destruct (step_attach (wc s) f i fb bid rest b) as (Hst & Hsl & Hsb); [done..|].
    split; [split_and!; done|]. split.
    + split; [done|]. exists bid, b. split_and!; try done. apply lookup_insert_eq.
    + split; [done|]. rewrite (wview_upd s _ f i) by apply Hst. simpl. etransitivity; [|exact Hview].
      by rewrite <- Hsb.
  - apply wp_bind, (wp_do_lru _ b); [apply lookup_insert_eq|done|]. apply wp_ret. simpl.
    rewrite insert_insert_eq.
    destruct (step_attach (wc s) f i fb bid rest (set_elm true (now s) b)) as (Hst & Hsl & Hsb); [done..|].
    simpl in Hst, Hsl, Hsb.
    split; [split_and!; done|]. split; [done|]. split; [done|].
    rewrite (wview_upd s _ f i) by apply Hst. simpl. rewrite Hsb.
    etransitivity; [|exact Hview]. apply view_ext. intros j. unfold upd. case_decide; [done|].
    by destruct (slot_buf (wc s) f j).
Qed.
End OneBlock.

(** ** Blocks that have a buffer *)

Lemma wp_release g idx bid fb (Q : unit → CS W → Prop) s :
  Cache (wc s) !! g = Some fb →
  Q tt (set_wc (MkPool (bufs (wc s)) (FreeList (wc s) ++ [bid])
          (<[g := FB_DetachBuffer idx fb]> (Cache (wc s))) (LruList (wc s)) (ExpireTime (wc s))) s) →
  wp (release_buffer g idx bid) Q s.
Proof.
  intros Hc HQ. unfold release_buffer. apply wp_bind, wp_onw. unfold DetachBuffer.
  eapply wp_fb_upd; [exact Hc|done|]. apply wp_onw. unfold FreeBuffer. apply wp_modify. done.
Qed.

Lemma upd_upd (sb : Z → option Buffer) i ob ob' j : upd (upd sb i ob) i ob' j = upd sb i ob' j.
Proof. unfold upd. by case_decide. Qed.

Lemma view_set_elm sb i t b c :
  view BS (upd sb i (Some (set_elm true t b))) c ≡ view BS (upd sb i (Some b)) c.
Proof.
  apply view_ext. intros j. unfold upd. case_decide; [by split_and!|]. by destruct (sb j).
Qed.

(** The pool after the buffer of the block was changed to [b], and the buffer
    put into the LRU list or not. *)
Definition upd_pool p bid b lru : Pool :=
  MkPool (<[bid := b]> (bufs p)) (FreeList p) (Cache p) lru (ExpireTime p).

Section Attached.
Context (s : CS W) (f i : Z) (fb : FileBuffer) (bid : Z).
Hypothesis Hwf : pool_wf BS (wc s).
Hypothesis Hc : Cache (wc s) !! f = Some fb.
Hypothesis Hs : slot (wc s) f i = Some bid.

(** The two ends of an operation that changed the buffer to [b] and the proxy
    to [w']. *)
Lemma end_update w' b' :
  buf_ok BS f i b' → (∀ f', f' ≠ f → content w' f' = content (world s) f') →
  let lru := if elm b' then bid :: list_remove_id bid (LruList (wc s))
             else list_remove_id bid (LruList (wc s)) in
  let s' := set_world w' (set_wc (upd_pool (wc s) bid b' lru) s) in
  bstep f i s s' ∧ slot (wc s') f i = Some bid ∧
  wview s' f ≡ view BS (upd (slot_buf (wc s) f) i (Some b')) (content w' f).
Proof.
  intros Hok Hw lru s'.
  destruct (step_update (wc s) f i fb bid b' lru) as (Hst & Hsl & Hsb); try done.
  { unfold lru. by destruct (elm b'). }
  split; [split_and!; done|]. split; [done|].
  rewrite (wview_upd s s' f i) by apply Hst. rewrite <- Hsb. done.
Qed.

Lemma end_release w' b' :
  elm b' = false → Zlen (dataBuf b') = BS →
  (∀ f', f' ≠ f → content w' f' = content (world s) f') →
  let s' := set_world w' (set_wc (MkPool (<[bid := b']> (bufs (wc s))) (FreeList (wc s) ++ [bid])
              (<[f := FB_DetachBuffer i fb]> (Cache (wc s)))
              (list_remove_id bid (LruList (wc s))) (ExpireTime (wc s))) s) in
  bstep f i s s' ∧ slot (wc s') f i = None ∧
  wview s' f ≡ view BS (upd (slot_buf (wc s) f) i None) (content w' f).
Proof.
  intros He Hd Hw s'. destruct (wf_slot_buf _ _ _ _ _ Hwf Hs) as (b0 & Hb0 & _).
  destruct (step_release (wc s) f i fb bid b0 b') as (Hst & Hsb); try done.
  split; [split_and!; done|]. split.
  - unfold s', slot. simpl. rewrite lookup_insert_eq. simpl. apply lookup_delete_eq.
  - rewrite (wview_upd s s' f i) by apply Hst. rewrite <- Hsb. done.
Qed.

(** Writing the buffer back, seen through the view. *)
Lemma view_writeback w' b' d e :
  buf_ok BS f i b' → held b' d →
  match e with
  | None => written (content (world s) f) (i * BS + Offset b') d (content w' f)
  | Some _ => is_errno e ∧ torn (content (world s) f) (i * BS + Offset b') d (content w' f)
  end →
  view BS (upd (slot_buf (wc s) f) i (match e with None => None | Some _ => Some b' end))
    (content w' f) ≡
  view BS (upd (slot_buf (wc s) f) i (Some b')) (content (world s) f).
Proof.
  intros Hok Hh He.
  assert (slots_ok BS (upd (slot_buf (wc s) f) i (Some b'))) as Hso.
  { apply slots_ok_upd; [by apply wf_slots_ok|]. intros ? [= <-].
    split; [apply Hok|by eapply buf_ok_range]. }
  destruct e.
  - destruct He as [_ Ht]. eapply view_torn; [lia|done|apply upd_eq|apply Hh|done].
  - rewrite <- (view_flush BS ltac:(lia) _ _ _ _ _ _ Hso (upd_eq _ _ _) Hh He).
    apply view_pointwise. intros j. by rewrite upd_upd.
Qed.

(** The common code of the write-backs: an error puts the buffer back into the
    LRU list, and the view shows the buffer's bytes in both cases. *)
Lemma wp_writeback {A} (kerr : Z → option error → A) (kok : M (CS W) A) fe' b'
    (Q : A → CS W → Prop) :
  buf_ok BS f i b' → elm b' = false → fe_Id fe' = f →
  (∀ n e s', is_errno (Some e) → bstep f i s s' → chSync s' = chSync s →
     slot (wc s') f i = Some bid →
     wview s' f ≡ view BS (upd (slot_buf (wc s) f) i (Some b')) (content (world s) f) →
     Q (kerr n (Some e)) s') →
  (∀ w', (∀ f', f' ≠ f → content w' f' = content (world s) f') →
     view BS (upd (slot_buf (wc s) f) i None) (content w' f) ≡
     view BS (upd (slot_buf (wc s) f) i (Some b')) (content (world s) f) →
     wp kok Q (set_world w' (set_wc (upd_pool (wc s) bid b'
                 (list_remove_id bid (LruList (wc s)))) s))) →
  wp (let! (size, err) := write_buffer fe' bid in
      match err with
      | Some _ => do_lru bid;;; ret (kerr size err)
      | None => kok
      end) Q (set_wc (upd_pool (wc s) bid b' (list_remove_id bid (LruList (wc s)))) s).
Proof.
  intros Hok He Hfe HA HB. apply wp_bind.
  eapply (wp_write_buffer fe' bid b' f i); [apply lookup_insert_eq|done|done|].
  intros n e w' d Hh Hw Hres. simpl in Hw, Hres.
  pose proof (view_writeback w' b' d e Hok Hh Hres) as Hv.
  destruct e as [e|]; [|by apply HB].
  destruct Hres as [Her _].
  apply wp_bind, (wp_do_lru _ b'); [apply lookup_insert_eq|done|]. apply wp_ret.
  unfold upd_pool. simpl. rewrite insert_insert_eq.
  destruct (end_update w' (set_elm true (now s) b')) as (Hst & Hsl & Hvw); [done..|].
  simpl in *. apply HA; try done. etransitivity; [exact Hvw|].
  rewrite view_set_elm. exact Hv.
Qed.
End Attached.

Section WriteOp.
Context (fe : FileEntry) (op : RWBlockOp).
Hypothesis HfeBS : BlockSize fe = BS.
Hypothesis Hop : op_ok fe op.

Abbreviation f := (fe_Id fe).
Abbreviation i := (Index op).
Abbreviation pos := (Index op * BS + RwOffset op).
Abbreviation post s := (λ r s', wop_post s f i pos (rwBuf op) (fst (fst r)) (snd (fst r)) (snd r) s').

(** A full buffer is sent to the sync routines, a partial one goes to the LRU
    list; [b'] is the buffer with the operation's data in it. *)
Lemma end_kept s fb bid b' :
  pool_wf BS (wc s) → Cache (wc s) !! f = Some fb → slot (wc s) f i = Some bid →
  buf_ok BS f i b' → elm b' = false →
  view BS (upd (slot_buf (wc s) f) i (Some b')) (content (world s) f) ≡
    spec_write (wview s f) pos (rwBuf op) →
  let s1 := set_wc (upd_pool (wc s) bid b' (list_remove_id bid (LruList (wc s)))) s in
  wp (do_lru bid;;; ret (true, RwSize op, None)) (post s) s1 ∧
  (chSync s = Some (open_chan (pending s)) →
     wp (send_sync bid;;; ret (false, RwSize op, None)) (post s) s1).
Proof.
  intros Hwf Hc Hs Hok He Hv s1. destruct Hop as (_&_&_&_&_&_&Hl). split; [|intros Hq].
  - apply wp_bind, (wp_do_lru _ b'); [apply lookup_insert_eq|done|]. apply wp_ret. simpl.
    rewrite insert_insert_eq.
    destruct (end_update s f i fb bid Hwf Hc Hs (world s) (set_elm true (now s) b'))
      as (Hst & Hsl & Hvw); [done..|].
    split; [exact Hst|]. split; [done|]. split; [done|].
    etransitivity; [exact Hvw|]. by rewrite view_set_elm.
  - apply wp_bind, wp_send; [done|]. apply wp_ret. simpl.
    destruct (end_update s f i fb bid Hwf Hc Hs (world s) b') as (Hst & Hsl & Hvw); [done..|].
    rewrite He in *. split; [exact Hst|]. split.
    + split; [done|]. exists bid, b'. split_and!; try done. apply lookup_insert_eq.
    + split; [done|]. etransitivity; [exact Hvw|done].
Qed.

(** The operation continues the buffer's bytes. *)
Lemma wp_merge s fb bid b :
  pool_wf BS (wc s) → sync_open s → Cache (wc s) !! f = Some fb → slot (wc s) f i = Some bid →
  buf_ok BS f i b → elm b = false → Offset b + Len b = RwOffset op →
  slot_buf (wc s) f i = Some (set_elm true (LastUpdateTime b) b) ∨ slot_buf (wc s) f i = Some b →
  wp (let! t := gets now in
      onw (buf_upd bid (λ b, Buffer_MergeData t b (rwBuf op)));;;
      let! bfull := onw (buf_call bid (λ b, Buffer_IsFull b (BlockSize fe))) in
      if bfull then
        if negb (match chSync s with None => true | Some _ => false end)
        then send_sync bid;;; ret (false, RwSize op, None)
        else
          let! (size, err) := write_buffer fe bid in
          match err with
          | Some _ => do_lru bid;;; ret (true, size, err)
          | None => release_buffer f i bid;;; ret (true, RwSize op, None)
          end
      else do_lru bid;;; ret (true, RwSize op, None)) (post s)
    (set_wc (upd_pool (wc s) bid b (list_remove_id bid (LruList (wc s)))) s).
Proof.
  intros Hwf Hopen Hc Hs Hok He Htail Hsb.
  pose proof Hop as (_ & ? & Hmax & ? & ? & ? & Hl). rewrite HfeBS in *.
  destruct (MergeData_spec BS HBS (now s) b (rwBuf op)) as (d & Hm & Hd & Hold & Hnew);
    [by eapply buf_ok_fits|lia|].
  apply wp_bind, wp_gets. simpl.
  apply wp_bind, wp_onw. eapply wp_buf_upd; [apply lookup_insert_eq|exact Hm|].
  unfold upd_pool. simpl. rewrite insert_insert_eq. set (b' := {| buf_Id := _ |}).
  assert (buf_ok BS f i b') as Hok'.
  { destruct Hok as (?&?&?&?&?&?&?&?). unfold buf_ok; simpl. split_and!; lia || done. }
  assert (view BS (upd (slot_buf (wc s) f) i (Some b')) (content (world s) f) ≡
          spec_write (wview s f) pos (rwBuf op)) as Hv.
  { rewrite <- Htail. destruct Hsb as [Hsb|Hsb].
    - apply (view_append BS ltac:(lia) _ _ _ _ b' _ Hsb); try done; by eapply buf_ok_range.
    - apply (view_append BS ltac:(lia) _ _ _ _ b' _ Hsb); try done; by eapply buf_ok_range. }
  destruct (end_kept s fb bid b') as [Hlru Hsend]; [done..|].
  apply wp_bind, wp_onw, (wp_buf_call _ b' _ (Offset b' + Len b' =? BS)).
  { apply lookup_insert_eq. }
  { apply (IsFull_spec BS); [done|by eapply buf_ok_fits]. }
  destruct (_ =? BS); [|exact Hlru].
  destruct (chSync s) as [q|] eqn:Eq; simpl;
    [apply Hsend; rewrite <- Eq; apply (sync_open_pending _ Hopen); by rewrite Eq|].
  eapply (wp_writeback s f i fb bid Hwf Hc Hs (λ n e, (true, n, e))); [done..| |].
  - intros n e s' Her Hst Hch _ Hvw. split; [done|]. split; [done|]. split; [done|].
    eapply agree_outside_equiv; [done|exact Hvw|].
    eapply agree_outside_equiv; [done|exact Hv|]. by apply spec_write_agree.
  - intros w' Hw Hvw. apply wp_bind, (wp_release _ _ _ fb); [done|]. apply wp_ret.
    destruct (end_release s f i fb bid Hwf Hc Hs w' b') as (Hst & _ & Hvr); [done..|].
    split; [done|]. split; [done|]. split; [done|].
    etransitivity; [exact Hvr|]. by rewrite Hvw.
Qed.

(** The operation does not continue the buffer's bytes: these are written back
    first. *)
Lemma wp_nomerge s fb bid b :
  pool_wf BS (wc s) → Cache (wc s) !! f = Some fb → slot (wc s) f i = Some bid →
  buf_ok BS f i b → elm b = false →
  slot_buf (wc s) f i = Some (set_elm true (LastUpdateTime b) b) ∨ slot_buf (wc s) f i = Some b →
  wp (let! (size, err) := write_buffer fe bid in
      match err with
      | Some _ => do_lru bid;;; ret (true, size, err)
      | None =>
          let! full := lift (Op_IsFull op) in
          if full then
            release_buffer f i bid;;;
            let! (size, err) := DirectWrite fe (rwBuf op) (Op_GetFileOffset op) in
            ret (true, size, err)
          else
            onw (buf_upd bid (λ b, Buffer_ReSet b fe i));;;
            fill_buffer bid (RwOffset op) (rwBuf op);;;
            do_lru bid;;;
            ret (true, RwSize op, None)
      end) (post s)
    (set_wc (upd_pool (wc s) bid b (list_remove_id bid (LruList (wc s)))) s).
Proof.
  intros Hwf Hc Hs Hok He Hsb.
  pose proof Hop as (_ & ? & Hmax & ? & ? & ? & Hl). rewrite HfeBS in *.
  assert (view BS (upd (slot_buf (wc s) f) i (Some b)) (content (world s) f) ≡ wview s f) as Hv.
  { apply view_ext. intros j. unfold upd. case_decide as Hj; [subst j|by destruct (slot_buf (wc s) f j)].
    destruct Hsb as [->| ->]; by split_and!. }
  eapply (wp_writeback s f i fb bid Hwf Hc Hs (λ n e, (true, n, e))); [done..| |].
  { intros n e s' Her Hst Hch _ Hvw. split; [done|]. split; [done|]. split; [done|].
    apply equiv_agree. by rewrite Hvw, Hv. }
  intros w' Hw Hvw. apply wp_bind. eapply wp_lift; [exact (op_IsFull fe op HfeBS Hop)|].
  assert (Zlen (dataBuf b) = BS) as Hd by apply Hok.
  destruct (_ =? BS).
  - apply wp_bind, (wp_release _ _ _ fb); [done|].
    destruct (end_release s f i fb bid Hwf Hc Hs w' b) as (Hst & Hn & Hvr); [done..|].
    simpl in Hst, Hn, Hvr. eapply wp_mono; [|apply wp_direct; try done; apply Hst].
    simpl. intros [[io n] e] s' Hp. eapply wop_post_pre; [exact Hst|done| |exact Hp].
    etransitivity; [exact Hvr|]. by rewrite Hvw.
  - destruct (ReSet_spec BS HBS b fe i) as (d0 & Hr & Hd0); [done|by right|done|].
    apply wp_bind, wp_onw. eapply wp_buf_upd; [apply lookup_insert_eq|exact Hr|].
    unfold upd_pool. simpl. rewrite insert_insert_eq.
    apply wp_bind. eapply wp_fill; [apply lookup_insert_eq|done..|lia|simpl; lia|].
    intros d Hdl Hdat. simpl. rewrite insert_insert_eq. set (b' := {| buf_Id := _ |}).
    apply wp_bind, (wp_do_lru _ b'); [apply lookup_insert_eq|done|]. apply wp_ret. simpl.
    rewrite insert_insert_eq.
    assert (buf_ok BS f i b') as Hok'.
    { unfold buf_ok; simpl. split_and!; (lia || done || by exists fe). }
    destruct (end_update s f i fb bid Hwf Hc Hs w' (set_elm true (now s) b'))
      as (Hst & Hsl & Hvu); [done..|]. simpl in Hst, Hsl, Hvu.
    split; [done|]. split; [done|]. split; [done|].
    etransitivity; [exact Hvu|]. rewrite view_set_elm.
    assert (view BS (upd (slot_buf (wc s) f) i (Some b')) (content w' f) ≡
      view BS (upd (upd (slot_buf (wc s) f) i None) i (Some b')) (content w' f)) as ->.
    { apply view_pointwise. intros j. by rewrite upd_upd. }
    rewrite (view_attach BS ltac:(lia) _ _ i b' (rwBuf op)); [|apply upd_eq|lia|by eapply buf_ok_range|].
    + by rewrite Hvw, Hv.
    + split; [simpl; lia|]. intros k Hk. symmetry. apply Hdat. simpl in Hk. lia.
Qed.

Lemma wp_WriteOp s fb :
  pool_wf BS (wc s) → sync_open s → Cache (wc s) !! f = Some fb →
  wp (WriteOp fe f op) (post s) s.
Proof.
  intros Hwf Hopen Hc. unfold WriteOp.
  assert (∀ s0 : CS W, set_wc (wc s0) s0 = s0) as Hid by (by intros []).
  apply wp_bind, wp_onw, (wp_GetBuffer _ _ fb); [done|]. rewrite Hid.
  assert (∀ K : bool → M (CS W) (bool * Z * option error),
    wp (K (match chSync s with None => true | Some _ => false end)) (post s) s →
    wp (bind SyncIo K) (post s) s) as HS by done.
  apply HS. clear HS. destruct (slot (wc s) f i) as [bid|] eqn:Es.
  - destruct (wf_slot_buf _ _ _ _ _ Hwf Es) as (b & Hb & Hok).
    apply wp_bind, wp_onw, (wp_RemoveLru _ b); [done..|].
    set (b1 := set_elm false (LastUpdateTime b) b).
    apply wp_bind, wp_onw, (wp_buf_get _ b1); [apply lookup_insert_eq|].
    assert (buf_ok BS f i b1) as Hok1 by exact Hok.
    assert (slot_buf (wc s) f i = Some (set_elm true (LastUpdateTime b1) b1) ∨
            slot_buf (wc s) f i = Some b1) as Hsb.
    { unfold slot_buf. rewrite Es. simpl. rewrite Hb. unfold b1. destruct b as [??????? []];
        [by left|by right]. }
    rewrite (CanMerge_spec BS HBS) by by eapply buf_ok_fits.
    destruct (Z.eqb_spec (Offset b1 + Len b1) (RwOffset op)) as [E|E].
    + by apply (wp_merge s fb bid b1).
    + by apply (wp_nomerge s fb bid b1).
  - apply wp_bind. eapply wp_lift; [exact (op_IsFull fe op HfeBS Hop)|].
    destruct (chSync s) as [q|] eqn:Eq.
    + rewrite andb_false_r. pose proof (wp_new fe op HfeBS Hop s fb Hwf Hc Es) as Hn.
      rewrite Eq in Hn. apply Hn. intros _. rewrite <- Eq. apply (sync_open_pending _ Hopen). by rewrite Eq.
    + rewrite andb_true_r. destruct (Z.eqb_spec (RwOffset op + RwSize op) BS) as [E|E].
      * apply wp_direct; eauto.
      * pose proof (wp_new fe op HfeBS Hop s fb Hwf Hc Es) as Hn. rewrite Eq in Hn.
        apply Hn. done.
Qed.
End WriteOp.

(** ** Taking and giving back the lock of a block *)

(** [p'] is [p] but for the lock of block [i] of [f]. *)
Definition relock f i p p' : Prop :=
  pool_wf BS p' ∧ only f i p p' ∧ (∀ g j, slot p' g j = slot p g j) ∧ bufs p' = bufs p ∧
  ExpireTime p' = ExpireTime p ∧ is_Some (Cache p' !! f) ∧ LruList p' = LruList p.

Lemma relock_intro f i p fb lm :
  pool_wf BS p → Cache p !! f = Some fb → (∀ j, j ≠ i → lm !! j = LockMap fb !! j) →
  relock f i p (set_cache (<[f := set_LockMap lm fb]> (Cache p)) p).
Proof.
  intros Hwf Hc Hlm. set (p' := set_cache _ _).
  assert (∀ g j, slot p' g j = slot p g j) as Hs.
  { intros. unfold p'. rewrite slot_set_cache. case_decide; [subst|done]. unfold slot. by rewrite Hc. }
  split_and!; try done.
  - by apply wf_lock.
  - intros g j Hn. split_and!; [apply Hs|unfold slot_buf; by rewrite Hs|].
    unfold p'. rewrite lockof_set_cache. case_decide; [subst g|done].
    unfold lockof. rewrite Hc. apply Hlm. naive_solver.
  - simpl. rewrite lookup_insert_eq. eauto.
Qed.

Lemma wp_lock f i (Q : unit → Pool → Prop) p :
  pool_wf BS p → is_Some (Cache p !! f) → lockof p f i = None →
  (∀ p', relock f i p p' → lockof p' f i = Some (MkLock WriteLock 0) → Q tt p') →
  wp (fb_lock f (LockBuffer i)) Q p.
Proof.
  intros Hwf [fb Hc] Hl HQ. unfold lockof in Hl. rewrite Hc in Hl. simpl in Hl.
  unfold fb_lock. eapply wp_fb_upd; [exact Hc|unfold LockBuffer; by rewrite Hl|].
  apply HQ.
  - apply relock_intro; [done..|]. intros j Hj. by rewrite lookup_insert_ne.
  - rewrite lockof_set_cache, decide_True by done. apply lookup_insert_eq.
Qed.

Lemma wp_unlock f i (Q : unit → Pool → Prop) p :
  pool_wf BS p → is_Some (Cache p !! f) → lockof p f i = Some (MkLock WriteLock 0) →
  (∀ p', relock f i p p' → lockof p' f i = None → Q tt p') →
  wp (fb_lock f (UnLockBuffer i)) Q p.
Proof.
  intros Hwf [fb Hc] Hl HQ. unfold lockof in Hl. rewrite Hc in Hl. simpl in Hl.
  unfold fb_lock. eapply wp_fb_upd; [exact Hc|unfold UnLockBuffer; by rewrite Hl|].
  apply HQ.
  - apply relock_intro; [done..|]. intros j Hj. by rewrite lookup_delete_ne.
  - rewrite lockof_set_cache, decide_True by done. apply lookup_delete_eq.
Qed.

Lemma relock_slot_buf f i p p' g j : relock f i p p' → slot_buf p' g j = slot_buf p g j.
Proof. intros (_&_&Hs&Hb&_). unfold slot_buf. by rewrite Hs, Hb. Qed.

Lemma relock_wview f i s p' g : relock f i (wc s) p' → wview (set_wc p' s) g ≡ wview s g.
Proof. intros Hr. apply view_pointwise. intros j. by eapply relock_slot_buf. Qed.

(** What every block operation guarantees between [s], where the block is
    unlocked, and [s'], where it is unlocked or its buffer is pending. *)
Record blk_post f i s s' : Prop := {
  bp_inv : winv s';
  bp_frame : frame s s';
  bp_fb : is_Some (Cache (wc s') !! f);
  bp_only : only f i (wc s) (wc s');
  bp_others : ∀ f', f' ≠ f → wview s' f' ≡ wview s f';
  bp_sync : chSync s = None ↔ chSync s' = None;
}.

Lemma only_wview f i s s' f' :
  only f i (wc s) (wc s') → content (world s') f' = content (world s) f' → f' ≠ f →
  wview s' f' ≡ wview s f'.
Proof.
  intros Ho Hc Hne. unfold wview. rewrite Hc. apply view_pointwise.
  by apply (only_upd f i _ _ Ho).
Qed.

(** A locked section around a block operation. *)
Lemma locked_section {A B} f i s (m : M (CS W) A) (g : A → B) (keep : A → bool)
    (P : A → CS W → Prop) (Q : B → CS W → Prop) :
  winv s → is_Some (Cache (wc s) !! f) → lockof (wc s) f i = None →
  (∀ s1, pool_wf BS (wc s1) → is_Some (Cache (wc s1) !! f) → wview s1 f ≡ wview s f →
     chSync s1 = chSync s → bufs (wc s1) = bufs (wc s) →
     (∀ g j, slot (wc s1) g j = slot (wc s) g j) →
     wp m (λ a s2, bstep f i s1 s2 ∧
       (if keep a then chSync s2 = chSync s1
        else ∃ bid b, slot (wc s2) f i = Some bid ∧ bufs (wc s2) !! bid = Some b ∧
          elm b = false ∧ chSync s1 = Some (MkChan (pending s1) shut) ∧
          chSync s2 = Some (MkChan (pending s1 ++ [bid]) shut)) ∧
       ∀ s3, wview s3 f ≡ wview s2 f → slot_buf (wc s3) f i = slot_buf (wc s2) f i →
         (keep a = true → lockof (wc s3) f i = None ∧ chSync s3 = chSync s) → P a s3) s1) →
  (∀ a s', blk_post f i s s' → P a s' → Q (g a) s') →
  wp (onw (fb_lock f (LockBuffer i));;;
      let! a := m in
      (if keep a then onw (fb_lock f (UnLockBuffer i)) else ret tt);;; ret (g a)) Q s.
Proof.
  intros Hi Hc Hl Hm HQ. apply wp_bind, wp_onw, wp_lock; [apply Hi|done|done|].
  intros p1 Hr1 Hl1. pose proof Hr1 as (Hwf1 & Ho1 & Hs1 & Hb1 & Het1 & Hc1 & _).
  apply wp_bind. eapply wp_mono; [|apply Hm]; simpl; try done; [|by eapply relock_wview].
  clear Hm. intros a s2 (((Hwf2 & Ho2 & Hl2 & He2 & Hc2) & Hfr & Hw) & Hk & HP). simpl in *.
  pose proof (only_trans _ _ _ _ _ Ho1 Ho2) as Ho. rewrite Hl1 in Hl2.
  assert (frame s s2) as Hfr2 by (destruct Hfr as (?&?&?&?&?); split_and!; simpl in *; congruence).
  destruct (keep a) eqn:Ek.
  - apply wp_bind, wp_onw, wp_unlock; [done..|]. intros p3 Hr3 Hl3. apply wp_ret.
    pose proof Hr3 as (Hwf3 & Ho3 & Hs3 & Hb3 & Het3 & Hc3 & _).
    pose proof (only_trans _ _ _ _ _ Ho Ho3) as Ho'. apply HQ.
    + constructor; try done.
      * by eapply winv_step.
      * destruct Hfr2 as (?&?&?&?&?); split_and!; simpl in *; congruence.
      * intros f' Hne. eapply only_wview; [done|simpl; by apply Hw|done].
      * simpl. by rewrite Hk.
    + apply HP; [by eapply relock_wview|by eapply relock_slot_buf|]. intros _. by rewrite <- Hk.
  - destruct Hk as (bid & b & Hsl & Hb & He & Hq & Hq2). apply wp_bind, wp_ret, wp_ret. apply HQ.
    + constructor; try done.
      * by eapply winv_send.
      * intros f' Hne. eapply only_wview; [done|by apply Hw|done].
      * by rewrite Hq2, Hq.
    + by apply HP.
Qed.

(** ** One iteration of [Write] *)

Definition wrote s f pos (data : bytes) (size : Z) (err : option error) s' : Prop :=
  match err with
  | None => size = Zlen data ∧ wview s' f ≡ spec_write (wview s f) pos data
  | Some _ => is_errno err ∧ agree_outside pos (pos + Zlen data) (wview s f) (wview s' f)
  end.

Lemma wrote_equiv s0 s1 s2 s3 f pos data size err :
  wview s1 f ≡ wview s0 f → wview s3 f ≡ wview s2 f →
  wrote s1 f pos data size err s2 → wrote s0 f pos data size err s3.
Proof.
  intros H1 H2. unfold wrote. destruct err.
  - intros [? Ha]. split; [done|]. by eapply agree_outside_equiv.
  - intros [-> Hv]. split; [done|]. by rewrite H2, Hv, H1.
Qed.

Lemma wp_WriteBlock s fe op :
  shut = false → winv s → BlockSize fe = BS → op_ok fe op → is_Some (Cache (wc s) !! fe_Id fe) →
  lockof (wc s) (fe_Id fe) (Index op) = None →
  wp (WriteBlock fe (fe_Id fe) op) (λ r s',
    blk_post (fe_Id fe) (Index op) s s' ∧
    wrote s (fe_Id fe) (Index op * BS + RwOffset op) (rwBuf op) r.1 r.2 s') s.
Proof.
  intros Hsh Hi Hfe Hop Hc Hl. unfold WriteBlock.
  set (f := fe_Id fe) in *. set (idx := Index op) in *.
  eapply wp_bind_ext; [|eapply (locked_section f idx s (WriteOp fe f op)
    (λ a, (a.1.2, a.2)) (λ a, a.1.1)
    (λ a s', wrote s f (idx * BS + RwOffset op) (rwBuf op) a.1.2 a.2 s'))]; try done.
  - intros [] t. unfold bind. by destruct (WriteOp fe f op t) as [[[[io n] e] t']| |].
  - intros s1 Hwf1 [fb Hc1] Hv1 Hch1 _ _.
    assert (sync_open s1) as Hopen by (intros c; rewrite Hch1; by apply winv_open).
    eapply wp_mono; [|by apply (wp_WriteOp fe op Hfe Hop s1 fb)].
    intros [[io n] e] s2 (Hb & Hs & Hw). simpl in *. split; [done|]. split.
    + destruct io; [done|]. rewrite Hsh. by destruct Hs as [_ ?].
    + intros s3 Hv3 _ _. by eapply wrote_equiv.
Qed.

(** ** [Write] *)

(** What an operation on several blocks of file [f] guarantees. *)
Record file_post f s s' : Prop := {
  fp_inv : winv s';
  fp_frame : frame s s';
  fp_fb : is_Some (Cache (wc s') !! f);
  fp_others : ∀ f', f' ≠ f → wview s' f' ≡ wview s f';
  fp_sync : chSync s = None ↔ chSync s' = None;
}.

Lemma blk_file_post f i s s' : blk_post f i s s' → file_post f s s'.
Proof. by intros []. Qed.

Lemma file_post_refl f s : winv s → is_Some (Cache (wc s) !! f) → file_post f s s.
Proof. by constructor. Qed.

Lemma file_post_trans f s1 s2 s3 : file_post f s1 s2 → file_post f s2 s3 → file_post f s1 s3.
Proof.
  intros [] []. constructor; try done.
  - by eapply frame_trans.
  - intros f' Hne. transitivity (wview s2 f'); auto.
  - tauto.
Qed.

Definition spec_writes (v : afile) off (data : bytes) : afile :=
  match data with [] => v | _ => spec_write v off data end.

#[local] Instance spec_writes_proper : Proper ((≡) ==> (=) ==> (=) ==> (≡)) spec_writes.
Proof. intros v v' Hv ? off -> ? d ->. destruct d; [done|]. simpl. by rewrite Hv. Qed.

Lemma spec_writes_app v off d1 d2 :
  0 ≤ off → d1 ≠ [] →
  spec_writes (spec_write v off d1) (off + Zlen d1) d2 ≡ spec_write v off (d1 ++ d2).
Proof.
  intros Ho Hd. destruct d2 as [|x d2]; [by rewrite app_nil_r|]. by apply spec_write_app.
Qed.

(** The outcome of a request: all of it written; or an error, the returned
    count of bytes written, and nothing changed outside the rest. *)
Definition wrote_req s f off (data : bytes) (size : Z) (err : option error) s' : Prop :=
  match err with
  | None => size = Zlen data ∧ wview s' f ≡ spec_writes (wview s f) off data
  | Some _ => is_errno err ∧ 0 ≤ size < Zlen data ∧
      agree_outside (off + size) (off + Zlen data)
        (spec_writes (wview s f) off (take (Z.to_nat size) data)) (wview s' f)
  end.

Lemma wrote_req_cons s s1 s2 f off d1 d2 n e :
  0 ≤ off → d1 ≠ [] → wview s1 f ≡ spec_write (wview s f) off d1 →
  wrote_req s1 f (off + Zlen d1) d2 n e s2 →
  wrote_req s f off (d1 ++ d2) (Zlen d1 + n) e s2.
Proof.
  intros Ho Hd Hv. pose proof (Zlen_nonneg d1). unfold wrote_req. rewrite Zlen_app. destruct e.
  - intros (He & Hn & Ha). split_and!; [done|lia..|].
    replace (off + (Zlen d1 + n)) with (off + Zlen d1 + n) by lia.
    replace (off + (Zlen d1 + Zlen d2)) with (off + Zlen d1 + Zlen d2) by lia.
    eapply agree_outside_equiv; [|reflexivity|exact Ha].
    rewrite Hv, spec_writes_app by done.
    assert (take (Z.to_nat (Zlen d1 + n)) (d1 ++ d2) = d1 ++ take (Z.to_nat n) d2) as ->.
    { rewrite take_app, take_ge by (unfold Zlen in *; lia). do 2 f_equal. unfold Zlen in *. lia. }
    by destruct d1.
  - intros [-> Hw]. split; [done|]. rewrite Hw, Hv, spec_writes_app by done. by destruct d1.
Qed.

Definition unlocked_from s f i : Prop := ∀ j, i ≤ j → lockof (wc s) f j = None.

Lemma tiling_next fe off op data pos ops :
  0 < BlockSize fe → 0 ≤ off → tiling fe off (rwBuf op ++ data) pos (op :: ops) →
  Index op * BlockSize fe + RwOffset op = off ∧ Index op = off / BlockSize fe ∧
  op_ok fe op ∧ tiling fe (off + RwSize op) data (pos + RwSize op) ops ∧
  (data = [] ∨ Index op < (off + RwSize op) / BlockSize fe).
Proof.
  intros HB Ho Ht. inversion Ht as [|? ? ? d0 ? Hop Hi Hr Hp Hend Hrest Heq]; subst.
  assert (d0 = data) as -> by (by apply app_inv_head in H1).
  pose proof (Z.div_mod off (BlockSize fe) ltac:(lia)).
  split; [nia|]. split; [done|]. split; [done|]. split; [done|].
  destruct Hend as [->|He]; [by left|right].
  apply Z.lt_le_trans with (Index op + 1); [lia|]. apply Z.div_le_lower_bound; nia.
Qed.

Lemma wp_Write_loop fe ops : shut = false → ∀ s off data pos acc,
  BlockSize fe = BS → winv s → is_Some (Cache (wc s) !! fe_Id fe) → 0 ≤ off →
  data = [] ∨ unlocked_from s (fe_Id fe) (off / BS) → tiling fe off data pos ops →
  wp (Write_loop fe (fe_Id fe) ops acc) (λ r s',
    file_post (fe_Id fe) s s' ∧ wrote_req s (fe_Id fe) off data (r.1 - acc) r.2 s') s.
Proof.
  intros Hsh. set (f := fe_Id fe).
  induction ops as [|op ops IH]; intros s off data pos acc Hfe Hi Hc Ho Hu Ht.
  - inversion Ht; subst. apply wp_ret. split; [by apply file_post_refl|].
    unfold wrote_req. simpl. split; [unfold Zlen; simpl; lia|done].
  - assert (∃ d2, data = rwBuf op ++ d2) as [d2 ->] by (inversion Ht; eauto).
    apply tiling_next in Ht as (Hpos & Hidx & Hop & Hrest & Hnext); [|lia|done].
    rewrite Hfe in *. pose proof Hop as (_ & ? & _ & ? & Hsz & ? & Hl).
    assert (rwBuf op ≠ []) as Hne by (intros E; rewrite E in Hl; unfold Zlen in Hl; simpl in Hl; lia).
    destruct Hu as [[? _]%app_eq_nil|Hu]; [done|].
    simpl. apply wp_bind. eapply wp_mono; [|apply wp_WriteBlock; try done].
    2:{ apply Hu. lia. }
    fold f. rewrite Hpos. intros [n e] s1 [Hbp Hw]. simpl in Hw. pose proof (Zlen_nonneg d2).
    pose proof (blk_file_post _ _ _ _ Hbp) as Hfp. destruct e as [e|].
    + apply wp_ret. split; [done|]. destruct Hw as [He Ha]. simpl.
      replace (acc - acc) with 0 by lia. rewrite Zlen_app.
      split_and!; [done|lia|lia|]. simpl. eapply agree_outside_mono; [..|exact Ha]; lia.
    + destruct Hw as [-> Hv].
      eapply wp_mono; [|apply (IH s1 (off + RwSize op) d2 (pos + RwSize op))]; try done; try lia.
      * fold f. intros [n' e'] s2 [Hfp2 Hreq]. split; [by eapply file_post_trans|]. simpl in *.
        replace (n' - acc) with (Zlen (rwBuf op) + (n' - (acc + Zlen (rwBuf op)))) by lia.
        rewrite <- Hl in Hreq. by apply (wrote_req_cons s s1 s2).
      * apply Hbp.
      * apply Hbp.
      * destruct Hnext as [?|Hlt]; [by left|right]. intros j Hj.
        destruct (bp_only _ _ _ _ Hbp f j) as (_ & _ & ->); [lia|]. apply Hu. lia.
Qed.

Lemma GetFileBuffer_new fe s :
  winv s → BlockSize fe = BS →
  wp (onw (GetFileBuffer fe true)) (λ r s', r = Some (fe_Id fe) ∧
    file_post (fe_Id fe) s s' ∧ wview s' (fe_Id fe) ≡ wview s (fe_Id fe) ∧
    (∀ g i, lockof (wc s') g i = lockof (wc s) g i) ∧
    (∀ g i, slot_buf (wc s') g i = slot_buf (wc s) g i) ∧ world s' = world s) s.
Proof.
  intros Hi Hfe. apply wp_onw. unfold GetFileBuffer. apply wp_bind, wp_gets.
  destruct (Cache (wc s) !! fe_Id fe) as [fb|] eqn:E.
  { apply wp_ret. replace (set_wc (wc s) s) with s by (by destruct s).
    assert (file_post (fe_Id fe) s s) by (apply file_post_refl; eauto). by split_and!. }
  apply wp_bind, wp_modify, wp_ret. set (p' := set_cache _ _).
  assert (∀ g i, slot p' g i = slot (wc s) g i) as Hs.
  { intros. unfold p'. rewrite slot_set_cache. case_decide; [subst|done]. unfold slot. by rewrite E. }
  assert (∀ g i, lockof p' g i = lockof (wc s) g i) as Hl.
  { intros. unfold p'. rewrite lockof_set_cache. case_decide; [subst|done]. unfold lockof. by rewrite E. }
  assert (∀ g i, slot_buf p' g i = slot_buf (wc s) g i) as Hsb by (intros; unfold slot_buf; by rewrite Hs).
  split_and!; try done.
  2:{ apply view_pointwise. intros j. apply Hsb. }
  constructor; simpl.
  - constructor; simpl.
    + by apply wf_new_fb; [apply Hi|..].
    + apply Hi.
    + intros bid Hb. destruct (wi_pend _ Hi bid Hb) as (g & j & b & ?). exists g, j, b.
      by rewrite Hs, Hl.
    + intros g j l. rewrite Hl, Hs. apply (wi_lock _ Hi).
    + apply (wi_shut _ Hi).
  - by split_and!.
  - rewrite lookup_insert_eq. eauto.
  - intros f' _. apply view_pointwise. intros j. apply Hsb.
  - done.
Qed.

(** The refinement of [Write]: the request runs to the end, and it is one
    write of the whole buffer in the logical file. *)
Lemma WCache_Write_spec fe buffer offset s :
  shut = false → winv s → BlockSize fe = BS → req_ok fe buffer offset →
  unlocked_from s (fe_Id fe) (offset / BS) →
  wp (WCache_Write fe buffer offset) (λ r s',
    file_post (fe_Id fe) s s' ∧ wrote_req s (fe_Id fe) offset buffer r.1 r.2 s') s.
Proof.
  intros Hsh Hi Hfe Hreq Hu. unfold WCache_Write.
  apply wp_bind. eapply wp_mono; [|by apply GetFileBuffer_new]. simpl.
  intros ? s1 (-> & Hfp & Hv & Hl & _). apply wp_bind.
  destruct (Slice_tiling _ _ _ Hreq) as (ops & HS & Ht).
  eapply wp_lift; [exact HS|]. apply wp_bind.
  eapply wp_mono; [|apply (wp_Write_loop fe ops Hsh s1 offset buffer 0 0)]; try done.
  - intros [n e] s2 [Hfp2 Hw]. rewrite Z.sub_0_r in Hw. simpl in Hw.
    assert (file_post (fe_Id fe) s s2) by (by eapply file_post_trans).
    assert (wrote_req s (fe_Id fe) offset buffer n e s2) as Hw'.
    { revert Hw. unfold wrote_req. destruct e.
      - intros (?&?&Ha). split; [done|]. split; [done|]. eapply agree_outside_equiv; [|done|exact Ha].
        by rewrite Hv.
      - intros [-> ->]. split; [done|]. by rewrite Hv. }
    destruct e; [by apply wp_ret|].
    destruct Hw as [-> _]. apply wp_bind, wp_assert; [by apply Z.eqb_refl|]. by apply wp_ret.
  - apply Hfp.
  - apply Hfp.
  - apply Hreq.
  - right. intros j Hj. rewrite Hl. by apply Hu.
Qed.

(** ** [FlushBuffer] *)

(** After a flush of block [i]: without error its buffer is gone and the logical
    file is the same; an error other than ENOENT leaves the logical file the
    same; ENOENT (the file was removed) drops the block's buffered bytes. *)
Definition flushed s f i (err : option error) s' : Prop :=
  match err with
  | None => wview s' f ≡ wview s f ∧ slot_buf (wc s') f i = None
  | Some e => is_errno err ∧
      if is_enoent e
      then slot_buf (wc s') f i = None ∧
           ∀ x, 0 ≤ x → x / BS ≠ i → abyte (wview s' f) x = abyte (wview s f) x
      else wview s' f ≡ wview s f
  end.

Lemma wp_FlushBuffer_body s f i fb :
  pool_wf BS (wc s) → Cache (wc s) !! f = Some fb →
  wp (FlushBuffer_body f i) (λ e s', bstep f i s s' ∧ chSync s' = chSync s ∧ flushed s f i e s') s.
Proof.
  intros Hwf Hc. unfold FlushBuffer_body.
  assert (∀ s0 : CS W, set_wc (wc s0) s0 = s0) as Hid by (by intros []).
  apply wp_bind, wp_onw, (wp_GetBuffer _ _ fb); [done|]. rewrite Hid.
  destruct (slot (wc s) f i) as [bid|] eqn:Es.
  2:{ apply wp_ret. split_and!; try done; try (by eexists); unfold flushed, slot_buf.
      by rewrite Es. }
  destruct (wf_slot_buf _ _ _ _ _ Hwf Es) as (b & Hb & Hok).
  apply wp_bind, wp_onw, (wp_RemoveLru _ b); [done..|].
  set (b1 := set_elm false (LastUpdateTime b) b).
  apply wp_bind, wp_onw, (wp_buf_get _ b1); [apply lookup_insert_eq|].
  assert (buf_ok BS f i b1) as Hok1 by exact Hok. rewrite Hid.
  pose proof Hok1 as ((bfe & Hbfe & Hbid & _) & _). rewrite Hbfe.
  assert (view BS (upd (slot_buf (wc s) f) i (Some b1)) (content (world s) f) ≡ wview s f) as Hv.
  { apply view_ext. intros j. unfold upd. case_decide as Hj; [subst j|by destruct (slot_buf (wc s) f j)].
    unfold slot_buf. rewrite Es. simpl. rewrite Hb. by split_and!. }
  apply wp_bind. eapply (wp_write_buffer bfe bid b1 f i); [apply lookup_insert_eq|done..|].
  intros n e w' d Hh Hw Hres. simpl in Hw, Hres.
  pose proof (view_writeback s f i Hwf w' b1 d e Hok1 Hh Hres) as Hvw. rewrite Hv in Hvw.
  assert (Zlen (dataBuf b1) = BS) as Hd by apply Hok.
  destruct (end_release s f i fb bid Hwf Hc Es w' b1) as (Hst & Hn & Hvr); [done..|].
  simpl in Hst, Hn, Hvr.
  destruct e as [e|]; [destruct Hres as [Her Ht]; destruct (is_enoent e) eqn:En|].
  - apply wp_bind, (wp_release _ _ _ fb); [done|]. apply wp_ret.
    split_and!; try apply Hst; try done. unfold flushed. rewrite En. split; [done|].
    split; [unfold slot_buf; simpl; by rewrite Hn|]. intros x Hx Hxi.
    destruct Hvr as [_ Hvr]. etransitivity; [exact (Hvr x Hx)|].
    destruct Hvw as [_ Hvw]. rewrite <- (Hvw x Hx). simpl. by rewrite !upd_ne.
  - apply wp_bind, (wp_do_lru _ b1); [apply lookup_insert_eq|done|]. apply wp_ret. simpl.
    rewrite insert_insert_eq.
    destruct (end_update s f i fb bid Hwf Hc Es w' (set_elm true (now s) b1)) as (Hst2 & _ & Hvu);
      [done..|]. simpl in Hst2, Hvu.
    split; [exact Hst2|]. split; [done|]. unfold flushed. rewrite En. split; [done|].
    etransitivity; [exact Hvu|]. by rewrite view_set_elm.
  - apply wp_bind, (wp_release _ _ _ fb); [done|]. apply wp_ret.
    split; [exact Hst|]. split; [done|]. split; [|unfold slot_buf; simpl; by rewrite Hn].
    etransitivity; [exact Hvr|done].
Qed.

Lemma flushed_equiv s0 s1 s2 s3 f i e :
  wview s1 f ≡ wview s0 f → wview s3 f ≡ wview s2 f → slot_buf (wc s3) f i = slot_buf (wc s2) f i →
  flushed s1 f i e s2 → flushed s0 f i e s3.
Proof.
  intros H1 H2 Hs. unfold flushed. rewrite Hs. destruct e as [e|]; [destruct (is_enoent e)|].
  - intros (? & ? & Hb). split_and!; try done. intros x Hx Hne.
    rewrite (proj2 H2 x Hx), (Hb x Hx Hne). by apply H1.
  - intros [? Hv]. split; [done|]. by rewrite H2, Hv.
  - intros [Hv ?]. split; [|done]. by rewrite H2, Hv.
Qed.

Lemma wp_FlushBuffer s f i :
  winv s → is_Some (Cache (wc s) !! f) → lockof (wc s) f i = None →
  wp (FlushBuffer f i) (λ e s', blk_post f i s s' ∧ flushed s f i e s' ∧
    lockof (wc s') f i = None ∧ chSync s' = chSync s) s.
Proof.
  intros Hi Hc Hl. unfold FlushBuffer.
  apply (locked_section f i s (FlushBuffer_body f i) id (λ _, true)
    (λ e s', flushed s f i e s' ∧ lockof (wc s') f i = None ∧ chSync s' = chSync s)); try done.
  intros s1 Hwf1 [fb Hc1] Hv1 Hch1 _ _.
  eapply wp_mono; [|by apply (wp_FlushBuffer_body s1 f i fb)].
  intros e s2 (Hb & Hch & Hf). split_and!; try apply Hb; try done.
  intros s3 Hv3 Hs3 Hl3. split; [by eapply flushed_equiv|by apply Hl3].
Qed.

(** ** [Flush] *)

(** The effect of flushing the blocks [order] of [f], in that order. *)
Definition flushed_all s f (order : list Z) (e0 err : option error) s' : Prop :=
  (∀ j, j ∉ order → slot_buf (wc s') f j = slot_buf (wc s) f j) ∧
  (∀ j, lockof (wc s') f j = lockof (wc s) f j) ∧ chSync s' = chSync s ∧
  (∀ x, 0 ≤ x → x / BS ∉ order → abyte (wview s' f) x = abyte (wview s f) x) ∧
  (err = None → e0 = None ∧ wview s' f ≡ wview s f ∧ ∀ j, j ∈ order → slot_buf (wc s') f j = None) ∧
  (err ≠ None → err = e0 ∨ is_errno err).

Lemma wp_Flush_list f order : ∀ s e0,
  winv s → is_Some (Cache (wc s) !! f) → NoDup order →
  (∀ j, j ∈ order → lockof (wc s) f j = None) →
  wp (Flush_list f order e0) (λ e s', file_post f s s' ∧ flushed_all s f order e0 e s') s.
Proof.
  induction order as [|i order IH]; intros s e0 Hi Hc Hnd Hl.
  - apply wp_ret. split; [by apply file_post_refl|]. split_and!; try done; [|by left].
    intros. split_and!; try done. by intros j ?%not_elem_of_nil.
  - apply NoDup_cons in Hnd as [Hni Hnd]. simpl. apply wp_bind.
    eapply wp_mono; [|apply wp_FlushBuffer; try done; apply Hl; set_solver].
    intros e s1 (Hbp & Hf & Hl1 & Hch1).
    assert (∀ j, j ≠ i → lockof (wc s1) f j = lockof (wc s) f j) as Hlk
      by (intros j Hj; apply (bp_only _ _ _ _ Hbp f j); tauto).
    assert (∀ j, j ≠ i → slot_buf (wc s1) f j = slot_buf (wc s) f j) as Hsb
      by (intros j Hj; apply (bp_only _ _ _ _ Hbp f j); tauto).
    eapply wp_mono; [|apply (IH s1)]; try apply Hbp; try done.
    2:{ intros j Hj. rewrite Hlk by set_solver. apply Hl. set_solver. }
    intros e' s2 [Hfp (A1 & A2 & A3 & A4 & A5 & A6)].
    split; [eapply file_post_trans; [by eapply blk_file_post|done]|].
    split_and!.
    + intros j Hj. rewrite A1, Hsb by set_solver. done.
    + intros j. rewrite A2. destruct (decide (j = i)) as [->|Hne]; [|by apply Hlk].
      rewrite Hl1, Hl; [done|set_solver].
    + congruence.
    + intros x Hx Hnin. rewrite A4 by set_solver. unfold flushed in Hf.
      destruct e as [e|]; [destruct (is_enoent e)|].
      * apply Hf; [done|set_solver].
      * by apply Hf.
      * by apply Hf.
    + intros He. destruct (A5 He) as (E0 & Hv & Hall). destruct e as [e|]; [done|].
      destruct Hf as [Hv1 Hn]. split; [done|]. split; [by rewrite Hv, Hv1|].
      intros j [->|Hj]%elem_of_cons; [by rewrite A1|by apply Hall].
    + intros He. destruct (A6 He) as [E|?]; [|by right]. destruct e as [e|]; [|by left].
      right. rewrite E. apply Hf.
Qed.

(** No error from [Flush] means that the proxy has the logical file. *)
Definition flush_post s f (e : option error) s' : Prop :=
  winv s' ∧ frame s s' ∧ (∀ f', f' ≠ f → wview s' f' ≡ wview s f') ∧
  (∀ j, lockof (wc s') f j = None) ∧ chSync s' = chSync s ∧
  (e = None → wview s' f ≡ wview s f ∧ (∀ j, slot_buf (wc s') f j = None) ∧
     of_bytes (content (world s') f) ≡ wview s f) ∧
  (e ≠ None → is_errno e).

(** The flush goroutines may take the blocks in any order. *)
Lemma Flush_order_spec f fb order s :
  winv s → (∀ j, lockof (wc s) f j = None) → Cache (wc s) !! f = Some fb →
  order ≡ₚ GetAllBufferIndex fb →
  wp (Flush_list f order None) (λ e s', flush_post s f e s' ∧ is_Some (Cache (wc s') !! f)) s.
Proof.
  intros Hi Hl Ec Hord.
  eapply wp_mono; [|apply (wp_Flush_list f order s None Hi)]; eauto.
  2:{ rewrite Hord. apply GetAllBufferIndex_NoDup. }
  intros e s' [Hfp (A1 & A2 & A3 & A4 & A5 & A6)].
  split; [|apply Hfp]. split_and!; try apply Hfp; try done.
  - intros j. by rewrite A2.
  - intros He. destruct (A5 He) as (_ & Hv & Hall).
    assert (∀ j, slot_buf (wc s') f j = None) as Hnone.
    { intros j. destruct (decide (j ∈ order)) as [Hin|Hin]; [by apply Hall|].
      rewrite A1 by done. unfold slot_buf, slot. rewrite Ec. simpl.
      rewrite Hord, GetAllBufferIndex_spec, <- eq_None_not_Some in Hin. by rewrite Hin. }
    split; [done|]. split; [done|]. rewrite <- Hv. symmetry. by apply view_empty.
  - intros He. destruct (A6 He); [congruence|done].
Qed.

Lemma WCache_Flush_spec fe s :
  winv s → (∀ j, lockof (wc s) (fe_Id fe) j = None) →
  wp (WCache_Flush fe) (λ e s', flush_post s (fe_Id fe) e s' ∧
    (is_Some (Cache (wc s) !! fe_Id fe) → is_Some (Cache (wc s') !! fe_Id fe))) s.
Proof.
  intros Hi Hl. unfold WCache_Flush. set (f := fe_Id fe) in *.
  assert (∀ s0 : CS W, set_wc (wc s0) s0 = s0) as Hid by (by intros []).
  apply wp_bind, wp_onw. unfold GetFileBuffer. apply wp_bind, wp_gets. fold f.
  destruct (Cache (wc s) !! f) as [fb|] eqn:Ec; apply wp_ret; rewrite Hid.
  - apply wp_bind, wp_onw, (wp_fb_get _ fb); [done|]. rewrite Hid.
    eapply wp_mono; [|by apply (Flush_order_spec f fb)]. intros e s' [? ?]. by split.
  - apply wp_ret. assert (∀ j, slot_buf (wc s) f j = None) as Hnone.
    { intros j. unfold slot_buf, slot. by rewrite Ec. }
    split; [|by intros []]. split_and!; try done. intros _. split; [done|]. split; [done|].
    symmetry. by apply view_empty.
Qed.

(** ** The sync routines *)

Lemma set_wc_id s : set_wc (wc s) s = s.
Proof. by destruct s. Qed.

Lemma upd_pool_id p bid b :
  pool_wf BS p → bufs p !! bid = Some b → elm b = false →
  upd_pool p bid b (list_remove_id bid (LruList p)) = p.
Proof.
  intros Hwf Hb He. unfold upd_pool. rewrite insert_id by done.
  rewrite list_remove_id_notin; [by destruct p|].
  intros Hx. apply (wf_lru _ _ Hwf _ _ Hb) in Hx. congruence.
Qed.

Lemma winv_unsend s s' f i bid :
  winv s → pool_wf BS (wc s') → chSync s' = Some (MkChan (list_remove_id bid (pending s)) shut) →
  only f i (wc s) (wc s') → slot (wc s) f i = Some bid → lockof (wc s') f i = None → winv s'.
Proof.
  intros Hi Hwf Hcs Ho Hs Hl.
  assert (pending s' = list_remove_id bid (pending s)) as Hch by (unfold pending at 1; by rewrite Hcs).
  constructor; [done|..]; rewrite ?Hch.
  - apply list_remove_id_NoDup, (wi_nodup _ Hi).
  - intros x [Hx Hne]%list_remove_id_spec.
    destruct (wi_pend _ Hi x Hx) as (g & j & c & Hsx & Hc & Hec & Hlk).
    assert (¬ (g = f ∧ j = i)) as Hn by (intros [-> ->]; congruence).
    destruct (Ho g j Hn) as (E1 & E2 & E3). unfold slot_buf in E2. rewrite E1, Hsx in E2.
    simpl in E2. rewrite Hc in E2. exists g, j, c. rewrite E1, E3. done.
  - intros g j l Hlk. destruct (decide (g = f ∧ j = i)) as [[-> ->]|Hn]; [congruence|].
    destruct (Ho g j Hn) as (E1 & _ & E3). rewrite E3 in Hlk.
    apply (wi_lock _ Hi) in Hlk as (x & Hx & Hin). exists x. rewrite E1. split; [done|].
    apply list_remove_id_spec. split; [done|]. intros ->.
    destruct (wf_inj _ _ (wi_wf _ Hi) _ _ _ _ _ Hs Hx). by apply Hn.
  - intros c. rewrite Hcs. by intros [= <-].
Qed.

Record sync_post s bid f i s' : Prop := {
  sp_inv : winv s';
  sp_frame : frame s s';
  sp_view : ∀ g, wview s' g ≡ wview s g;
  sp_lock : lockof (wc s') f i = None;
  sp_only : only f i (wc s) (wc s');
  sp_fb : is_Some (Cache (wc s') !! f);
  sp_ch : chSync s' = Some (MkChan (list_remove_id bid (pending s)) shut);
}.

(** The block's buffer, taken from the channel, is written back: the logical
    file stays as it is and the lock is given back. *)
Lemma SyncWrite_one_spec bid s :
  winv s → bid ∈ pending s →
  ∃ f i, slot (wc s) f i = Some bid ∧
  wp (SyncWrite_one bid) (λ _, sync_post s bid f i) s.
Proof.
  intros Hi Hb. destruct (wi_pend _ Hi bid Hb) as (f & i & b & Hs & Hbb & He & Hl).
  exists f, i. split; [done|].
  assert (∃ fb, Cache (wc s) !! f = Some fb) as [fb Hc].
  { unfold slot in Hs. destruct (Cache (wc s) !! f); [eauto|done]. }
  pose proof (wf_slot _ _ (wi_wf _ Hi) _ _ _ _ Hs Hbb) as Hok.
  pose proof Hok as ((bfe & Hbfe & Hbid & _) & Hidx & _).
  assert (chSync s = Some (MkChan (pending s) shut)) as Hq.
  { apply (winv_pending _ Hi). intros E. unfold pending in Hb. rewrite E in Hb.
    by apply not_elem_of_nil in Hb. }
  set (s0 := set_chSync (Some (MkChan (list_remove_id bid (pending s)) shut)) s).
  unfold SyncWrite_one, SyncWrite_begin. apply wp_bind, wp_bind, wp_gets. rewrite Hq.
  apply wp_bind, wp_modify.
  change (set_chSync _ s) with s0. apply wp_bind, wp_onw, (wp_buf_get _ b); [done|].
  rewrite set_wc_id, Hbfe. apply wp_bind, wp_onw. unfold GetFileBuffer. rewrite Hbid.
  apply wp_bind, wp_gets. simpl. rewrite Hc. apply wp_ret.
  rewrite (set_wc_id s0 : set_wc (wc s) s0 = s0).
  assert (s0 = set_wc (upd_pool (wc s0) bid b (list_remove_id bid (LruList (wc s0)))) s0) as Es0.
  { change (wc s0) with (wc s). rewrite (upd_pool_id _ _ b) by (done || apply Hi).
    change (wc s) with (wc s0). by rewrite set_wc_id. }
  assert (∀ s', bstep f i s0 s' → chSync s' = chSync s0 → wview s' f ≡ wview s f →
    (∃ b', bufs (wc s') !! bid = Some b' ∧ BlkIdx b' = i) →
    wp (SyncWrite_end f bid) (λ _, sync_post s bid f i) s') as Hend.
  { intros s' ((Hwf' & Ho & Hl' & Het & Hc') & Hfr & Hw) Hch Hv (b' & Hb' & Hbi).
    unfold SyncWrite_end. apply wp_bind, wp_onw, (wp_buf_get _ b'); [done|].
    rewrite set_wc_id, Hbi. apply wp_onw, wp_unlock; [done..|by rewrite Hl'|].
    intros p3 Hr3 Hl3. pose proof Hr3 as (Hwf3 & Ho3 & Hs3 & Hb3 & Het3 & Hc3 & _).
    pose proof (only_trans _ _ _ _ _ Ho Ho3) as Ho'.
    constructor; simpl; try done.
    - eapply (winv_unsend s); try done. simpl. by rewrite Hch.
    - destruct Hfr as (?&?&?&?&?). split_and!; simpl in *; congruence.
    - intros g. destruct (decide (g = f)) as [->|Hne].
      + rewrite (relock_wview f i s' p3 f Hr3). done.
      + eapply only_wview; [exact Ho'|by apply Hw|done]. }
  rewrite Es0. assert (pool_wf BS (wc s0)) as Hwf0 by apply Hi.
  assert (view BS (upd (slot_buf (wc s0) f) i (Some b)) (content (world s0) f) ≡ wview s f) as Hv.
  { change (wc s0) with (wc s). apply view_ext. intros j. unfold upd.
    case_decide as Hj; [subst j|by destruct (slot_buf (wc s) f j)].
    unfold slot_buf. rewrite Hs. simpl. rewrite Hbb. by split_and!. }
  apply (wp_writeback s0 f i fb bid Hwf0 Hc Hs (λ _ _, f) _ bfe b); try done.
  - intros n e s' _ Hst Hch Hsl Hvw. apply Hend; try done; [by rewrite Hvw|].
    destruct (wf_slot_buf BS (wc s') f i bid) as (b' & Hb' & Hok'); [apply Hst|done|].
    exists b'. split; [done|apply Hok'].
  - intros w' Hw Hvw. apply wp_bind, wp_onw, (wp_buf_get _ b); [apply lookup_insert_eq|].
    rewrite set_wc_id, Hidx. apply wp_bind, (wp_release _ _ _ fb); [done|]. apply wp_ret.
    assert (Zlen (dataBuf b) = BS) as Hd by apply Hok.
    destruct (end_release s0 f i fb bid Hwf0 Hc Hs w' b) as (Hst & _ & Hvr); [done..|].
    apply Hend; [exact Hst|done| |].
    + etransitivity; [exact Hvr|]. by rewrite Hvw.
    + exists b. split; [apply lookup_insert_eq|done].
Qed.

(** ** Expiry *)

(** An element of the LRU list is attached to an unlocked block. *)
Lemma lru_slot s bid :
  winv s → bid ∈ LruList (wc s) →
  ∃ f i b fe, slot (wc s) f i = Some bid ∧ bufs (wc s) !! bid = Some b ∧ buf_ok BS f i b ∧
    elm b = true ∧ lockof (wc s) f i = None ∧ is_Some (Cache (wc s) !! f) ∧
    buf_fe b = Some fe ∧ fe_Id fe = f.
Proof.
  intros Hi Hin. pose proof (wi_wf _ Hi) as Hwf.
  destruct (wf_lru_dom _ _ Hwf _ Hin) as (f & i & Hs).
  destruct (wf_slot_buf _ _ _ _ _ Hwf Hs) as (b & Hb & Hok).
  pose proof Hok as ((fe & Hfe & Hid & _) & _).
  exists f, i, b, fe. split_and!; try done.
  - by apply (wf_lru _ _ Hwf _ _ Hb).
  - destruct (lockof (wc s) f i) as [l|] eqn:El; [|done].
    apply (wi_lock _ Hi) in El as (x & Hx & Hp). simplify_eq.
    destruct (wi_pend _ Hi _ Hp) as (g & j & b' & _ & Hb' & He & _). simplify_eq.
    apply (wf_lru _ _ Hwf _ _ Hb) in Hin. congruence.
  - unfold slot in Hs. by destruct (Cache (wc s) !! f).
Qed.

(** The oldest buffer of the LRU list has not expired. *)
Definition lru_fresh s : Prop := ∀ bid b,
  last (LruList (wc s)) = Some bid → bufs (wc s) !! bid = Some b →
  now s - LastUpdateTime b < ExpireTime (wc s) * 1000000.

Lemma LruExpire_spec s :
  winv s →
  wp (onw (LruExpire (now s))) (λ r s',
    winv s' ∧ frame s s' ∧ (∀ g, wview s' g ≡ wview s g) ∧ chSync s' = chSync s ∧
    world s' = world s ∧ (∀ g j, lockof (wc s') g j = lockof (wc s) g j) ∧
    (∀ g j, slot (wc s') g j = slot (wc s) g j) ∧
    match r with
    | None => s' = s ∧ lru_fresh s
    | Some (fe, i) => ∃ bid b,
        last (LruList (wc s)) = Some bid ∧ bufs (wc s) !! bid = Some b ∧
        ExpireTime (wc s) * 1000000 ≤ now s - LastUpdateTime b ∧
        LruList (wc s') = list_remove_id bid (LruList (wc s)) ∧
        bufs (wc s') = <[bid := set_elm false (LastUpdateTime b) b]> (bufs (wc s)) ∧
        slot (wc s) (fe_Id fe) i = Some bid ∧
        lockof (wc s) (fe_Id fe) i = None ∧ is_Some (Cache (wc s') !! fe_Id fe)
    end) s.
Proof.
  intros Hi. apply wp_onw. unfold LruExpire. apply wp_bind, wp_gets.
  destruct (last (LruList (wc s))) as [bid|] eqn:El.
  2:{ apply wp_ret. rewrite set_wc_id. split_and!; try done. unfold lru_fresh. congruence. }
  assert (bid ∈ LruList (wc s)) as Hin by (by apply last_Some_elem_of).
  destruct (lru_slot s bid Hi Hin) as (f & i & b & fe & Hs & Hb & Hok & He & Hl & [fb Hc] & Hfe & Hid).
  apply wp_bind, (wp_buf_get _ b); [done|]. apply wp_bind, wp_assert; [done|].
  apply wp_bind, wp_gets. destruct (Z.ltb_spec (now s - LastUpdateTime b) (ExpireTime (wc s) * 1000000)).
  { apply wp_ret. rewrite set_wc_id. split_and!; try done. unfold lru_fresh. intros. by simplify_eq. }
  apply wp_bind, wp_modify, wp_bind. eapply wp_buf_upd; [exact Hb|done|]. apply wp_ret.
  set (b1 := set_elm false (LastUpdateTime b) b).
  assert (buf_ok BS f i b1) as Hok1 by exact Hok.
  destruct (end_update s f i fb bid (wi_wf _ Hi) Hc Hs (world s) b1) as (Hst & _ & Hv); [done..|].
  destruct Hst as ((Hwf' & Ho & Hlk & Het & Hc') & Hfr & _). cbn -[only] in Hwf', Ho, Hlk, Hv.
  rewrite Hfe. destruct Hok as (_ & Hidx & _).
  assert (∀ g, wview (set_wc (upd_pool (wc s) bid b1 (list_remove_id bid (LruList (wc s)))) s) g
    ≡ wview s g) as Hviews.
  { intros g. apply view_ext. intros j. unfold slot_buf. simpl.
    change (slot (upd_pool _ _ _ _) g j) with (slot (wc s) g j).
    destruct (slot (wc s) g j) as [x|] eqn:Ex; simpl; [|done].
    rewrite lookup_insert. case_decide; [subst x|by destruct (bufs (wc s) !! x)].
    rewrite Hb. by split_and!. }
  split_and!; try done.
  - by eapply (winv_step s).
  - exists bid, b. rewrite Hid, Hidx. by split_and!.
Qed.

(** The LRU list under a flush of a buffer that is not in it: the buffer comes
    back to the front with a fresh time, or not at all. *)
Definition lru_post s bid s' : Prop :=
  (∀ x, x ≠ bid → bufs (wc s') !! x = bufs (wc s) !! x) ∧
  (LruList (wc s') = LruList (wc s) ∨
   LruList (wc s') = bid :: LruList (wc s) ∧
   ∃ b', bufs (wc s') !! bid = Some b' ∧ LastUpdateTime b' = now s).

Lemma unlock_lru s bid s2 f i (e : option error) :
  pool_wf BS (wc s2) → is_Some (Cache (wc s2) !! f) →
  lockof (wc s2) f i = Some (MkLock WriteLock 0) → lru_post s bid s2 →
  wp (onw (fb_lock f (UnLockBuffer i));;; ret e) (λ _ s', lru_post s bid s') s2.
Proof.
  intros Hwf2 Hc2 Hl2 HL. apply wp_bind, wp_onw, wp_unlock; [done..|].
  intros p3 (_ & _ & _ & Hb3 & _ & _ & Hlr3) _. apply wp_ret.
  unfold lru_post. simpl. by rewrite Hb3, Hlr3.
Qed.

Lemma not_in_lru p bid b :
  pool_wf BS p → bufs p !! bid = Some b → elm b = false →
  list_remove_id bid (LruList p) = LruList p.
Proof.
  intros Hwf Hb He. apply list_remove_id_notin. intros Hx.
  apply (wf_lru _ _ Hwf _ _ Hb) in Hx. congruence.
Qed.

Lemma FlushBuffer_lru s f i bid b :
  winv s → slot (wc s) f i = Some bid → bufs (wc s) !! bid = Some b → elm b = false →
  lockof (wc s) f i = None →
  wp (FlushBuffer f i) (λ _ s', lru_post s bid s') s.
Proof.
  intros Hi Hs Hb He Hl. pose proof (wi_wf _ Hi) as Hwf.
  pose proof (wf_slot _ _ Hwf _ _ _ _ Hs Hb) as Hok.
  assert (is_Some (Cache (wc s) !! f)) as Hc by (unfold slot in Hs; by destruct (Cache (wc s) !! f)).
  unfold FlushBuffer. apply wp_bind, wp_onw, wp_lock; [done..|].
  intros p1 (Hwf1 & _ & Hs1 & Hb1 & _ & [fb Hc1] & Hlr1) Hl1. rewrite <- Hb1 in Hb.
  pose proof (not_in_lru p1 bid b Hwf1 Hb He) as Hnl. rewrite <- Hs1 in Hs.
  unfold FlushBuffer_body. apply wp_bind, wp_bind, wp_onw, (wp_GetBuffer _ _ fb); [done|].
  simpl. rewrite Hs. apply wp_bind, wp_onw, (wp_RemoveLru _ b); [done..|].
  assert (set_elm false (LastUpdateTime b) b = b) as -> by (destruct b; simpl in *; by subst).
  simpl. rewrite insert_id, Hnl by done.
  assert (MkPool (bufs p1) (FreeList p1) (Cache p1) (LruList p1) (ExpireTime p1) = p1) as -> by (by destruct p1).
  apply wp_bind, wp_onw, (wp_buf_get _ b); [done|].
  pose proof Hok as ((bfe & -> & Hbid & _) & _).
  apply wp_bind. eapply (wp_write_buffer bfe bid b f i); [done..|].
  intros n e w' d _ _ _. simpl.
  assert (∀ err : option error, wp (release_buffer f i bid;;; ret err)
    (λ a, wp (onw (fb_lock f (UnLockBuffer i));;; ret a) (λ _ s', lru_post s bid s'))
    (set_world w' (set_wc p1 s))) as Hrel.
  { intros err. apply wp_bind, (wp_release _ _ _ fb); [done|]. apply wp_ret.
    destruct (step_release p1 f i fb bid b b) as ((Hwf2 & _ & Hl2 & _ & Hc2) & _); try done.
    1: apply Hok. simpl in *. rewrite insert_id in Hwf2, Hl2 by done. rewrite Hnl in Hwf2, Hl2.
    apply unlock_lru; try done; [simpl; congruence|].
    split; simpl; [by rewrite Hb1|by left]. }
  destruct e as [e|]; [destruct (is_enoent e)|]; [apply Hrel| |apply Hrel].
  apply wp_bind, (wp_do_lru _ b); [done..|]. apply wp_ret.
  destruct (step_update p1 f i fb bid (set_elm true (now s) b) (bid :: LruList p1))
    as ((Hwf2 & _ & Hl2 & _ & Hc2) & _); try done.
  { simpl. by rewrite Hnl. }
  assert (lockof (MkPool (<[bid := set_elm true (now s) b]> (bufs p1)) (FreeList p1) (Cache p1)
    (bid :: LruList p1) (ExpireTime p1)) f i = Some (MkLock WriteLock 0)) as Hl3 by done.
  apply unlock_lru; try done. split; simpl.
  - intros x Hx. rewrite lookup_insert_ne by done. by rewrite Hb1.
  - right. split; [by rewrite Hlr1|]. exists (set_elm true (now s) b).
    split; [apply lookup_insert_eq|done].
Qed.

Lemma list_remove_id_last (l : list Z) x : NoDup (l ++ [x]) → list_remove_id x (l ++ [x]) = l.
Proof.
  intros (_ & Hx & _)%NoDup_app. unfold list_remove_id. rewrite filter_app.
  rewrite filter_cons, decide_False, filter_nil, app_nil_r by tauto.
  apply (list_remove_id_notin x). intros Hin. apply (Hx x Hin). set_solver.
Qed.

(** The expiry loop ends by itself: every round takes the oldest buffer, and a
    buffer it puts back is fresh. *)
Lemma CheckExpire_round_ok fuel : ∀ s fresh old,
  winv s → 0 < ExpireTime (wc s) → LruList (wc s) = fresh ++ old →
  (∀ x b, x ∈ fresh → bufs (wc s) !! x = Some b → LastUpdateTime b = now s) →
  (length old < fuel)%nat →
  wp (CheckExpire_round fuel) (λ _ s', winv s' ∧ frame s s' ∧ chSync s' = chSync s ∧
    lru_fresh s') s.
Proof.
  induction fuel as [|fuel IH]; intros s fresh old Hi Hex HL Hfr Hf; [lia|].
  pose proof (wi_wf _ Hi) as Hwf. simpl. apply wp_bind, wp_gets, wp_bind.
  eapply wp_mono; [|by apply LruExpire_spec].
  intros [[fe i]|] s1 (Hi1 & Hfr1 & _ & Hch1 & _ & Hlk1 & Hsl1 & Hr).
  2:{ destruct Hr as [-> ?]. by apply wp_ret. }
  destruct Hr as (bid & b & Hlast & Hb & Hexp & HL1 & Hb1 & Hs & Hl & [fb Hc]).
  apply wp_bind, wp_onw. unfold GetFileBuffer. apply wp_bind, wp_gets. rewrite Hc.
  apply wp_ret. rewrite set_wc_id.
  destruct old as [|o old _] using rev_ind.
  { (* every buffer is fresh, so none has expired *)
    rewrite app_nil_r in HL. assert (bid ∈ fresh) as Hin by (rewrite <- HL; by apply last_Some_elem_of).
    rewrite (Hfr _ _ Hin Hb) in Hexp. lia. }
  rewrite HL, app_assoc, last_snoc in Hlast. injection Hlast as ->.
  assert (LruList (wc s1) = fresh ++ old) as HL1'.
  { rewrite HL1, HL, app_assoc. apply list_remove_id_last.
    pose proof (wf_lru_nodup _ _ Hwf) as Hnd. by rewrite HL, app_assoc in Hnd. }
  set (b1 := set_elm false (LastUpdateTime b) b) in *.
  assert (bufs (wc s1) !! bid = Some b1) as Hbb1 by (rewrite Hb1; apply lookup_insert_eq).
  assert (lockof (wc s1) (fe_Id fe) i = None) as Hl1 by (by rewrite Hlk1).
  assert (slot (wc s1) (fe_Id fe) i = Some bid) as Hs1 by (by rewrite Hsl1).
  apply wp_bind. eapply wp_mono; [|apply wp_and; [by apply (wp_FlushBuffer s1 (fe_Id fe) i)|
    by apply (FlushBuffer_lru s1 (fe_Id fe) i bid b1)]].
  intros e s2 [(Hbp & _ & _ & Hch2) [Hx HL2]].
  assert (frame s s2) as Hfr2 by (eapply frame_trans; [done|apply Hbp]).
  assert (now s1 = now s) as En by apply Hfr1. assert (now s2 = now s) as En2 by apply Hfr2.
  rewrite length_app in Hf. simpl in Hf.
  assert (bid ∉ fresh) as Hnf.
  { pose proof (wf_lru_nodup _ _ Hwf) as Hnd. rewrite HL in Hnd.
    apply NoDup_app in Hnd as (_ & Hnd & _). intros Hin. apply (Hnd _ Hin). set_solver. }
  assert (∀ x c, x ∈ fresh → bufs (wc s2) !! x = Some c → LastUpdateTime c = now s2) as Hold.
  { intros x c Hin Hxc. assert (x ≠ bid) by (by intros ->). rewrite En2. apply (Hfr x); [done|].
    rewrite Hx, Hb1, lookup_insert_ne in Hxc by done. done. }
  rewrite HL1' in HL2.
  assert (∃ fresh', LruList (wc s2) = fresh' ++ old ∧
    ∀ x c, x ∈ fresh' → bufs (wc s2) !! x = Some c → LastUpdateTime c = now s2) as (fresh' & HL' & Hfr').
  { destruct HL2 as [?|[HL2 (b' & Hb' & Ht)]]; [by exists fresh|].
    exists (bid :: fresh). split; [done|]. intros x c [->|Hin]%elem_of_cons Hxc; [|by eauto].
    simplify_eq. congruence. }
  eapply wp_mono; [|apply (IH s2 fresh' old)]; try done.
  - intros _ s3 (? & Hf3 & ? & ?). split_and!; try done; [by eapply frame_trans|congruence].
  - apply Hbp.
  - destruct Hfr2 as (_&_&_&_&->). done.
  - lia.
Qed.

(** ** [StatSize] *)

(** The end of the logical file is the larger of the proxy's size and the
    size that [StatSize] returns. *)
Definition size_bound s f (n : Z) : Prop :=
  0 ≤ n ∧ ∀ x, 0 ≤ x → live (wview s f) x ↔ x < Z.max (Zlen (content (world s) f)) n.

Lemma size_bound_equiv s s' f n :
  wview s' f ≡ wview s f → content (world s') f = content (world s) f →
  size_bound s' f n → size_bound s f n.
Proof.
  intros [Hv _] Hc [Hn Hb]. split; [done|]. intros x Hx. rewrite <- Hc, <- Hb by done.
  symmetry. by apply Hv.
Qed.

Lemma upper_bound s f fb up b :
  pool_wf BS (wc s) → Cache (wc s) !! f = Some fb → UpperIdx fb = up →
  slot_buf (wc s) f up = Some b → size_bound s f (up * BS + Offset b + Len b).
Proof.
  intros Hwf Hc Hup Hb. pose proof (wf_slots_ok _ f Hwf) as Hso.
  destruct (Hso _ _ Hb) as (Hup0 & Ho & Hl & Hol & _). split; [nia|].
  intros x Hx. simpl. split.
  - intros [?|(idx & b' & Hb' & Hlt)]; [lia|].
    destruct (Hso _ _ Hb') as (? & ? & ? & ? & _).
    assert (idx ≤ up) as Hle.
    { subst up. apply UpperIdx_spec. unfold slot_buf, slot in Hb'. rewrite Hc in Hb'. simpl in Hb'.
      destruct (BufferMap fb !! idx); [eauto|done]. }
    destruct (decide (idx = up)) as [->|Hne]; [simplify_eq; lia|]. nia.
  - intros Hlt. destruct (Z.lt_ge_cases x (Zlen (content (world s) f))); [by left|right].
    exists up, b. split; [done|lia].
Qed.

Lemma no_buffer_bound s f : (∀ j, slot_buf (wc s) f j = None) → size_bound s f 0.
Proof.
  intros Hn. split; [lia|]. intros x Hx. simpl. pose proof (Zlen_nonneg (content (world s) f)).
  split; [intros [?|(j & b & Hb & _)]; [lia|congruence]|]. intros ?. left. lia.
Qed.

Lemma StatSize_spec fe s :
  winv s → (∀ j, lockof (wc s) (fe_Id fe) j = None) →
  wp (StatSize fe) (λ r s', winv s' ∧ frame s s' ∧ (∀ g, wview s' g ≡ wview s g) ∧
    r.2 = None ∧ size_bound s (fe_Id fe) r.1) s.
Proof.
  intros Hi Hl. set (f := fe_Id fe) in *. unfold StatSize.
  apply wp_bind, wp_onw. unfold GetFileBuffer. apply wp_bind, wp_gets. fold f.
  destruct (Cache (wc s) !! f) as [fb|] eqn:Ec; apply wp_ret; rewrite set_wc_id.
  2:{ apply wp_ret. split_and!; try done. apply no_buffer_bound. intros j.
      unfold slot_buf, slot. by rewrite Ec. }
  apply wp_bind, wp_onw, (wp_fb_get _ fb); [done|]. rewrite set_wc_id.
  unfold IsZeroCache. destruct (bool_decide_reflect (BufferMap fb = ∅)) as [Em|Em].
  { apply wp_ret. split_and!; try done. apply no_buffer_bound. intros j.
    unfold slot_buf, slot. rewrite Ec. simpl. by rewrite Em, lookup_empty. }
  set (up := UpperIdx fb).
  assert (∃ bid, slot (wc s) f up = Some bid) as [bid Hs].
  { unfold slot. rewrite Ec. simpl. destruct (UpperIdx_spec fb) as [Hmax [E0|[bid Hb]]]; [|by eauto].
    destruct (map_choose _ Em) as (idx & x & Hx). specialize (Hmax idx ltac:(eauto)).
    destruct (wf_slot_buf BS (wc s) f idx x (wi_wf _ Hi)) as (b & _ & Hok); [unfold slot; by rewrite Ec|].
    destruct Hok as (_ & _ & ? & _). fold up in E0, Hmax. assert (idx = up) as <- by lia. eauto. }
  destruct (wf_slot_buf _ _ _ _ _ (wi_wf _ Hi) Hs) as (b & Hb & Hok).
  assert (slot_buf (wc s) f up = Some b) as Hsb by (unfold slot_buf; by rewrite Hs).
  eapply (locked_section f up s _ id (λ _, true)
    (λ r s', wview s' f ≡ wview s f ∧ r = (up * BS + Offset b + Len b, None))); try done; [eauto|..].
  - intros s1 Hwf1 [fb1 Hc1] Hv1 Hch1 Hb1 Hs1.
    apply wp_bind, wp_onw, (wp_GetBuffer _ _ fb1); [done|]. rewrite set_wc_id, Hs1, Hs.
    destruct Hok as ((bfe & Hbfe & _ & HbBS) & Hidx & Hup0 & Hmax & ? & ? & ? & ?).
    destruct (GetFileOffset_spec BS HBS b bfe up) as [_ Ht]; try done; [split_and!; lia|].
    apply wp_bind, wp_onw. eapply wp_buf_call; [rewrite Hb1; exact Hb|exact Ht|].
    apply wp_ret. rewrite set_wc_id. split; [by split_and!|]. split; [done|].
    intros s3 Hv3 _ _. split; [by rewrite Hv3|done].
  - intros [n e] s' Hbp [Hv [= -> ->]]. simpl. split_and!; try apply Hbp; try done.
    + intros g. destruct (decide (g = f)) as [->|Hne]; [done|]. by apply Hbp.
    + eapply (upper_bound s f fb); [apply Hi|done..].
Qed.
End Proof.

Arguments winv {W} BS shut s.
