(* ===== verification/WCacheSteps.v ===== *)
(** The write cache as a transition system. Writers, the sync routines, the
    flush and expiry goroutines and the clock interleave at the granularity of
    one block operation (each runs under the block's lock); the theorems hold
    for every interleaving. *)

From stdpp Require Import base gmap list relations.
From Stdlib Require Import ZArith Lia.
From S2P Require Import Prelude GoString Proto Store Buffer Pool View CacheState WCache.
From S2P Require Import WCacheProof.

(** ** Which part of the logical files a step touches *)
Inductive wlabel : Type :=
| LWrite (f pos : Z) (data : bytes) (err : option error)
| LFlush (f i : Z) (err : option error)
| LTau.

(** The abstract step of a label on the logical files. *)
Definition astep (BS : Z) (l : wlabel) (v v' : Z → afile) : Prop :=
  match l with
  | LWrite f pos data None =>
      v' f ≡ spec_write (v f) pos data ∧ ∀ g, g ≠ f → v' g ≡ v g
  | LWrite f pos data (Some _) =>
      agree_outside pos (pos + Zlen data) (v f) (v' f) ∧ ∀ g, g ≠ f → v' g ≡ v g
  | LFlush f i (Some e) =>
      if is_enoent e
      then (∀ x, 0 ≤ x → x / BS ≠ i → abyte (v' f) x = abyte (v f) x) ∧ ∀ g, g ≠ f → v' g ≡ v g
      else ∀ g, v' g ≡ v g
  | LFlush _ _ None | LTau => ∀ g, v' g ≡ v g
  end.

Section Steps.
Context {W : Type} `{ProxyStore W}.
Context (BS : Z).
Hypothesis HBS : 0 < BS < 2 ^ 32.
Implicit Types (s : CS W).

Inductive wstep : wlabel → CS W → CS W → Prop :=
| ws_open fe r s s' :
    BlockSize fe = BS → onw (GetFileBuffer fe true) s = Ret (r, s') → wstep LTau s s'
| ws_write fe op n e s s' :
    BlockSize fe = BS → op_ok fe op → WriteBlock fe (fe_Id fe) op s = Ret ((n, e), s') →
    wstep (LWrite (fe_Id fe) (Index op * BS + RwOffset op) (rwBuf op) e) s s'
| ws_flush f i e s s' :
    FlushBuffer f i s = Ret (e, s') → wstep (LFlush f i e) s s'
| ws_expire r s s' :
    onw (LruExpire (now s)) s = Ret (r, s') → wstep LTau s s'
| ws_sync bid s s' :
    bid ∈ pending s → SyncWrite_one bid s = Ret (tt, s') → wstep LTau s s'
| ws_tick t s : now s ≤ t → wstep LTau s (set_now t s).

(** The state [NewWCache] builds; [ch] tells whether the asynchronous mode is
    configured. *)
Definition winit (r : Pool) (n expire : Z) (ch : option (chan Z)) (w : W) (t : Z) : CS W :=
  MkCS r (NewPool n expire) ch None 0 w t.

Lemma slot_NewPool n t f i : slot (NewPool n t) f i = None.
Proof. unfold slot, NewPool. simpl. by rewrite lookup_empty. Qed.

Lemma winv_init r n expire ch w t :
  ch = None ∨ ch = Some (open_chan []) → winv BS false (winit r n expire ch w t).
Proof.
  intros Hch. assert (pending (winit r n expire ch w t) = []) as Hp
    by (destruct Hch as [->| ->]; done).
  constructor; rewrite ?Hp.
  - apply wf_NewPool.
  - apply NoDup_nil_2.
  - by intros ? ?%not_elem_of_nil.
  - intros f i l. unfold lockof. simpl. by rewrite lookup_empty.
  - intros c. simpl. by destruct Hch as [->| ->]; [|intros [= <-]].
Qed.

(** A block operation that returns found the block unlocked. *)
Lemma lock_returns f i s {A} (k : M (CS W) A) r :
  (onw (fb_lock f (LockBuffer i));;; k) s = Ret r →
  is_Some (Cache (wc s) !! f) ∧ lockof (wc s) f i = None.
Proof.
  unfold bind, onw, zoom, fb_lock, fb_upd, bind, fb_get, lockof.
  destruct (Cache (wc s) !! f) as [fb|]; [|done]. simpl. unfold LockBuffer.
  destruct (LockMap fb !! i); [done|]. eauto.
Qed.

Lemma wp_ret_inv {A} (m : M (CS W) A) Q s a s' : wp m Q s → m s = Ret (a, s') → Q a s'.
Proof. unfold wp. intros HQ E. by rewrite E in HQ. Qed.

Lemma wstep_ok l s s' :
  winv BS false s → wstep l s s' → winv BS false s' ∧ astep BS l (wview BS s) (wview BS s').
Proof.
  intros Hi Hst. destruct Hst as [fe r s s' Hfe Hr|fe op n e s s' Hfe Hop Hr|f i e s s' Hr
    |r s s' Hr|bid s s' Hb Hr|t s Ht]; simpl.
  - eapply wp_ret_inv in Hr; [|by apply (GetFileBuffer_new BS (shut:=false))].
    destruct Hr as (_ & Hfp & Hv & _). split; [apply Hfp|]. intros g.
    destruct (decide (g = fe_Id fe)) as [->|Hne]; [done|]. by apply Hfp.
  - destruct (lock_returns _ _ _ _ _ Hr) as [Hc Hl].
    eapply wp_ret_inv in Hr; [|by apply (wp_WriteBlock BS HBS (shut:=false))]. destruct Hr as [Hbp Hw].
    split; [apply Hbp|]. simpl in Hw. destruct e; (split; [apply Hw|apply Hbp]).
  - destruct (lock_returns _ _ _ _ _ Hr) as [Hc Hl].
    eapply wp_ret_inv in Hr; [|by apply (wp_FlushBuffer BS HBS (shut:=false))]. destruct Hr as (Hbp & Hf & _).
    split; [apply Hbp|]. unfold flushed in Hf.
    assert (wview BS s' f ≡ wview BS s f → ∀ g, wview BS s' g ≡ wview BS s g) as Hall.
    { intros Hv g. destruct (decide (g = f)) as [->|Hne]; [done|]. by apply Hbp. }
    destruct e as [e|]; [destruct (is_enoent e)|].
    + split; [apply Hf|apply Hbp].
    + apply Hall, Hf.
    + apply Hall, Hf.
  - eapply wp_ret_inv in Hr; [|by apply (LruExpire_spec BS HBS (shut:=false))].
    destruct Hr as (Hi' & _ & Hv & _). done.
  - destruct (SyncWrite_one_spec BS HBS bid s Hi Hb) as (f & i & _ & Hw).
    eapply wp_ret_inv in Hr; [|exact Hw]. split; apply Hr.
  - split; [|done]. destruct Hi. by constructor.
Qed.

(** ** Runs *)

Inductive wrun : list wlabel → CS W → CS W → Prop :=
| wrun_nil s : wrun [] s s
| wrun_cons l ls s1 s2 s3 : wstep l s1 s2 → wrun ls s2 s3 → wrun (l :: ls) s1 s3.

(** Nothing failed (a flush may have failed, but not with ENOENT). *)
Definition clean (l : wlabel) : bool :=
  match l with
  | LWrite _ _ _ None | LTau | LFlush _ _ None => true
  | LWrite _ _ _ (Some _) => false
  | LFlush _ _ (Some e) => negb (is_enoent e)
  end.

(** The writes to file [f] among the steps, applied in order. *)
Fixpoint apply_writes (f : Z) (ls : list wlabel) (v : afile) : afile :=
  match ls with
  | [] => v
  | LWrite g pos data _ :: ls' =>
      apply_writes f ls' (if g =? f then spec_write v pos data else v)
  | _ :: ls' => apply_writes f ls' v
  end.

#[local] Instance apply_writes_proper f ls : Proper ((≡) ==> (≡)) (apply_writes f ls).
Proof.
  induction ls as [|[g pos d e|g i e|] ls IH]; intros v v' Hv; simpl; [done|apply IH..]; try done.
  destruct (g =? f); [by rewrite Hv|done].
Qed.

Lemma wrun_inv ls s s' : winv BS false s → wrun ls s s' → winv BS false s'.
Proof. intros Hi Hr. induction Hr as [|l ls s1 s2 s3 Hst _ IH]; [done|]. by apply IH, (wstep_ok _ _ _ Hi Hst). Qed.

Lemma astep_clean l v v' f :
  clean l = true → astep BS l v v' → v' f ≡ apply_writes f [l] (v f).
Proof.
  intros Hc Ha. destruct l as [g pos d [e|]|g i [e|]|]; simpl in *; try done.
  - destruct Ha as [Hw Ho]. destruct (Z.eqb_spec g f) as [->|Hne]; [done|]. by apply Ho.
  - destruct (is_enoent e); [done|]. apply Ha.
Qed.

Lemma wrun_view ls s s' f :
  winv BS false s → wrun ls s s' → forallb clean ls = true →
  wview BS s' f ≡ apply_writes f ls (wview BS s f).
Proof.
  intros Hi Hr Hc. induction Hr as [|l ls s1 s2 s3 Hst _ IH]; [done|]. simpl in Hc.
  apply andb_true_iff in Hc as [Hl Hls].
  destruct (wstep_ok _ _ _ Hi Hst) as [Hi2 Ha]. rewrite (IH Hi2 Hls).
  apply (astep_clean _ _ _ f Hl) in Ha. simpl in Ha.
  destruct l; simpl in *; by rewrite Ha.
Qed.

Context {shut : bool}.

(** A block of a reachable state is locked only while its buffer is pending. *)
Lemma locked_pending s f i :
  winv BS shut s → is_Some (lockof (wc s) f i) → ∃ bid, slot (wc s) f i = Some bid ∧ bid ∈ pending s.
Proof. intros Hi [l Hl]. by apply (wi_lock _ _ Hi) in Hl. Qed.

Lemma no_pending_unlocked s f i : winv BS shut s → pending s = [] → lockof (wc s) f i = None.
Proof.
  intros Hi Hp. destruct (lockof (wc s) f i) as [l|] eqn:E; [|done].
  apply (wi_lock _ _ Hi) in E as (bid & _ & Hin). rewrite Hp in Hin. by apply not_elem_of_nil in Hin.
Qed.

(** ** Draining the channel *)

Lemma sync_all_ok bids : ∀ s,
  winv BS shut s → NoDup bids → (∀ x, x ∈ bids ↔ x ∈ pending s) →
  wp (sync_all bids) (λ _ s', winv BS shut s' ∧ frame s s' ∧ (∀ g, wview BS s' g ≡ wview BS s g) ∧
    pending s' = []) s.
Proof.
  induction bids as [|bid bids IH]; intros s Hi Hnd Hb; simpl.
  - apply wp_ret. split_and!; try done. apply elem_of_nil_inv. intros x Hx.
    apply Hb in Hx. by apply not_elem_of_nil in Hx.
  - apply NoDup_cons in Hnd as [Hni Hnd].
    destruct (SyncWrite_one_spec BS HBS bid s Hi) as (f & i & _ & Hw); [apply Hb; set_solver|].
    apply wp_bind. eapply wp_mono; [|exact Hw]. intros [] s1 Hp.
    eapply wp_mono; [|apply (IH s1)]; try apply Hp; try done.
    + intros [] s2 (Hi2 & Hf2 & Hv2 & Hp2). split_and!; try done.
      * eapply frame_trans; [apply Hp|done].
      * intros g. rewrite Hv2. apply Hp.
    + intros x. unfold pending at 1. rewrite (sp_ch _ _ _ _ _ _ Hp). simpl.
      rewrite list_remove_id_spec, <- Hb, elem_of_cons. set_solver.
Qed.

(** ** Closing files *)

Lemma slot_none s f : winv BS shut s → (∀ j, slot_buf (wc s) f j = None) → ∀ j, slot (wc s) f j = None.
Proof.
  intros Hi Hn j. destruct (slot (wc s) f j) as [bid|] eqn:E; [|done].
  destruct (wf_slot_buf _ _ _ _ _ (wi_wf _ _ Hi) E) as (b & Hb & _).
  specialize (Hn j). unfold slot_buf in Hn. rewrite E in Hn. simpl in Hn. congruence.
Qed.

Lemma detach_file s f :
  winv BS shut s → (∀ j, slot_buf (wc s) f j = None) → (∀ j, lockof (wc s) f j = None) →
  let s' := set_wc (set_cache (delete f (Cache (wc s))) (wc s)) s in
  winv BS shut s' ∧ frame s s' ∧ (∀ g, wview BS s' g ≡ wview BS s g) ∧
  (∀ g j, lockof (wc s') g j = lockof (wc s) g j).
Proof.
  intros Hi Hn Hl s'. pose proof (slot_none s f Hi Hn) as Hsn.
  assert (∀ g j, slot (wc s') g j = slot (wc s) g j) as Hs.
  { intros g j. destruct (decide (g = f)) as [->|Hne].
    - rewrite Hsn. unfold slot. simpl. by rewrite lookup_delete_eq.
    - unfold slot. simpl. by rewrite lookup_delete_ne. }
  assert (∀ g j, lockof (wc s') g j = lockof (wc s) g j) as Hlk.
  { intros g j. destruct (decide (g = f)) as [->|Hne].
    - rewrite Hl. unfold lockof. simpl. by rewrite lookup_delete_eq.
    - unfold lockof. simpl. by rewrite lookup_delete_ne. }
  split_and!; try done.
  - constructor.
    + by apply wf_detach_fb; [apply Hi|].
    + apply (wi_nodup _ _ Hi).
    + intros bid Hb. destruct (wi_pend _ _ Hi bid Hb) as (g & j & b & ?). exists g, j, b.
      by rewrite Hs, Hlk.
    + intros g j l. rewrite Hlk, Hs. apply (wi_lock _ _ Hi).
    + apply (wi_shut _ _ Hi).
  - intros g. apply view_pointwise. intros j. unfold slot_buf. by rewrite Hs.
Qed.

Lemma WCache_Close_ok fe s :
  winv BS shut s → (∀ g j, lockof (wc s) g j = None) →
  wp (WCache_Close fe) (λ e s', winv BS shut s' ∧ frame s s' ∧ (∀ g j, lockof (wc s') g j = None) ∧
    chSync s' = chSync s ∧
    (∀ g, g ≠ fe_Id fe → wview BS s' g ≡ wview BS s g) ∧
    match e with
    | None => Cache (wc s') !! fe_Id fe = None ∧
              of_bytes (content (world s') (fe_Id fe)) ≡ wview BS s (fe_Id fe)
    | Some _ => is_errno e
    end) s.
Proof.
  intros Hi Hl. unfold WCache_Close. apply wp_bind.
  eapply wp_mono; [|by apply (WCache_Flush_spec BS HBS (shut:=shut))].
  intros e s1 [(Hi1 & Hf1 & Ho1 & Hl1 & Hch1 & Hok & Herr) Hcache].
  assert (∀ g j, lockof (wc s1) g j = None) as Hl1'.
  { intros g j. destruct (lockof (wc s1) g j) as [l|] eqn:E; [|done].
    assert (pending s = []) as Hp.
    { apply elem_of_nil_inv. intros x Hx. destruct (wi_pend _ _ Hi x Hx) as (?&?&?&_&_&_&Hx2).
      by rewrite Hl in Hx2. }
    assert (pending s1 = []) as Hp1 by (unfold pending in *; by rewrite Hch1).
    by rewrite (no_pending_unlocked s1 g j Hi1 Hp1) in E. }
  destruct e as [e|].
  - apply wp_ret. split_and!; try done. by apply Herr.
  - apply wp_bind, wp_onw. unfold DetachFileBuffer. apply wp_modify, wp_ret.
    destruct (Hok eq_refl) as (Hv & Hn & Hd).
    destruct (detach_file s1 (fe_Id fe) Hi1 Hn Hl1) as (Hi2 & Hf2 & Hv2 & Hl2).
    split; [done|]. split; [by eapply frame_trans|]. split_and!; try done.
    + intros g j. rewrite Hl2. apply Hl1'.
    + intros g Hne. rewrite Hv2. by apply Ho1.
    + simpl. apply lookup_delete_eq.
Qed.

Lemma WCache_Close_list_ok fes : ∀ s,
  winv BS shut s → (∀ g j, lockof (wc s) g j = None) →
  wp (WCache_Close_list fes) (λ _ s', winv BS shut s' ∧ frame s s' ∧ ∀ g j, lockof (wc s') g j = None) s.
Proof.
  induction fes as [|fe fes IH]; intros s Hi Hl; simpl; [by apply wp_ret|].
  apply wp_bind. eapply wp_mono; [|by apply WCache_Close_ok].
  intros e s1 (Hi1 & Hf1 & Hl1 & _). eapply wp_mono; [|by apply (IH s1)].
  intros _ s2 (?&?&?). split; [done|]. split; [by eapply frame_trans|done].
Qed.

End Steps.
