(* ===== verification/WCacheTheorems.v ===== *)
(** What the write cache guarantees in every state it can reach, with
    witnesses on an in-memory proxy. *)

From stdpp Require Import base gmap list relations strings.
From Stdlib Require Import ZArith Lia.
From S2P Require Import Prelude GoString Proto Store Buffer Pool View CacheState WCache.
From S2P Require Import WCacheProof WCacheSteps.

Section Theorems.
Context {W : Type} `{ProxyStore W}.
Context (BS : Z).

(** A state reached from the one [NewWCache] builds. *)
Definition wreachable (s : CS W) : Prop :=
  ∃ r n expire ch w t ls,
    (ch = None ∨ ch = Some (open_chan [])) ∧ wrun BS ls (winit r n expire ch w t) s.

Hypothesis HBS : 0 < BS < 2 ^ 32.

Lemma reach_inv s : wreachable s → winv BS false s.
Proof.
  intros (r & n & ex & ch & w & t & ls & Hch & Hr).
  eapply (wrun_inv BS HBS); [|exact Hr]. by apply winv_init.
Qed.

Lemma wp_cases {A} (m : M (CS W) A) Q s : wp m Q s → m s ≠ Panic ∧ m s ≠ Block.
Proof. unfold wp. by destruct (m s) as [[]| |]. Qed.

(** C1: whatever writers, sync routines, flushes, expiry and the clock do, in
    any order, the logical content of each file (the proxy's bytes overlaid
    with the buffers) is the initial content with the writes of that file
    applied in the order in which they happened, as long as nothing failed. *)
Theorem wcache_linear r n expire ch w t ls s f :
  (ch = None ∨ ch = Some (open_chan [])) → wrun BS ls (winit r n expire ch w t) s →
  forallb clean ls = true →
  wview BS s f ≡ apply_writes f ls (of_bytes (content w f)).
Proof.
  intros Hch Hr Hc. rewrite (wrun_view BS HBS ls _ s f) by (done || by apply winv_init).
  apply apply_writes_proper, view_empty. intros i. unfold slot_buf. simpl. by rewrite slot_NewPool.
Qed.

(** In every reachable state each buffer of the pool is either on the free
    list or attached to exactly one block of one file, the LRU list holds
    exactly the buffers marked as its elements, and every attached buffer holds
    a non-empty range of its own block. *)
Theorem wcache_pool_invariant s : wreachable s → pool_wf BS (wc s).
Proof. intros Hr%reach_inv. apply Hr. Qed.


(** C6: [Write] of a whole request: it returns, without a panic; without an
    error the count is the length of the buffer and the logical file is the
    old one with the buffer written at the offset; with an error the count
    tells how many leading bytes are written, and nothing outside the rest of
    the request's range has changed. Other files are untouched. *)
Theorem wcache_write s fe buffer offset :
  wreachable s → BlockSize fe = BS → req_ok fe buffer offset →
  unlocked_from s (fe_Id fe) (offset / BS) →
  ∃ size err s', WCache_Write fe buffer offset s = Ret ((size, err), s') ∧
    wrote_req BS s (fe_Id fe) offset buffer size err s' ∧
    ∀ g, g ≠ fe_Id fe → wview BS s' g ≡ wview BS s g.
Proof.
  intros Hr%reach_inv Hfe Hreq Hu.
  pose proof (WCache_Write_spec BS HBS fe buffer offset s eq_refl Hr Hfe Hreq Hu) as Hw.
  apply wp_run in Hw as ([size err] & s' & E & Hfp & Hw). exists size, err, s'.
  split_and!; try done. apply Hfp.
Qed.

(** C7: [Flush] returns, whatever the order in which its goroutines take the
    blocks, and when it reports no error, no buffer of the file is left and the
    proxy holds exactly the logical file: everything written before is durable.
    An error is an errno; other files are untouched. *)
Theorem wcache_flush_durable s fe :
  wreachable s → (∀ j, lockof (wc s) (fe_Id fe) j = None) →
  let durable m := ∃ err s', m s = Ret (err, s') ∧
    (err = None → of_bytes (content (world s') (fe_Id fe)) ≡ wview BS s (fe_Id fe) ∧
       ∀ j, slot_buf (wc s') (fe_Id fe) j = None) ∧
    (err ≠ None → is_errno err) ∧ ∀ g, g ≠ fe_Id fe → wview BS s' g ≡ wview BS s g in
  durable (WCache_Flush fe) ∧
  (∀ fb order, Cache (wc s) !! fe_Id fe = Some fb → order ≡ₚ GetAllBufferIndex fb →
     durable (Flush_list (fe_Id fe) order None)).
Proof.
  intros Hr%reach_inv Hl durable.
  assert (∀ m Q, wp m (λ e s', flush_post BS (shut:=false) s (fe_Id fe) e s' ∧ Q s') s → durable m) as Hd.
  { intros m Q Hw. apply wp_run in Hw as (err & s' & E & (_ & _ & Ho & _ & _ & Hok & Herr) & _).
    exists err, s'. split_and!; try done. intros He. by destruct (Hok He) as (_ & ? & ?). }
  split; [by eapply Hd, (WCache_Flush_spec BS HBS)|].
  intros fb order Hc Hord. eapply Hd. by apply (Flush_order_spec BS HBS (shut:=false) _ fb).
Qed.

(** C32: the sync routines empty the channel: they can write the pending buffers
    in any order, none of them panics or waits, afterwards nothing is pending
    and no block is locked, and no logical file has changed. *)
Theorem wcache_sync_drains s bids :
  wreachable s → bids ≡ₚ pending s →
  ∃ s', sync_all bids s = Ret (tt, s') ∧ pending s' = [] ∧
    (∀ f i, lockof (wc s') f i = None) ∧ ∀ f, wview BS s' f ≡ wview BS s f.
Proof.
  intros Hr%reach_inv Hp.
  pose proof (sync_all_ok BS HBS bids s Hr) as Hw.
  destruct (proj1 (wp_run _ _ _) (Hw ltac:(rewrite Hp; apply Hr) ltac:(intros; by rewrite Hp)))
    as ([] & s' & E & Hi' & _ & Hv & Hp').
  exists s'. split_and!; try done. intros f i. by eapply no_pending_unlocked.
Qed.

(** [StatSize] returns without error, and the logical file ends at the
    larger of that size and the size of the proxy's file. *)
Theorem wcache_statsize s fe :
  wreachable s → (∀ j, lockof (wc s) (fe_Id fe) j = None) →
  ∃ n s', StatSize fe s = Ret ((n, None), s') ∧
    ∀ x, 0 ≤ x → live (wview BS s (fe_Id fe)) x ↔
                 x < Z.max (Zlen (content (world s) (fe_Id fe))) n.
Proof.
  intros Hr%reach_inv Hl. pose proof (StatSize_spec BS HBS fe s Hr Hl) as Hw.
  apply wp_run in Hw as ([n e] & s' & E & _ & _ & _ & He & [_ Hb]). simpl in *. subst e.
  by exists n, s'.
Qed.

(** The expiry loop ends: after at most one round more than the LRU list
    has elements it finds the list empty or its oldest buffer not expired, and
    it never panics or waits for a lock. *)
Theorem wcache_expire_terminates s :
  wreachable s → 0 < ExpireTime (wc s) →
  ∃ s', CheckExpire_round (S (length (LruList (wc s)))) s = Ret (tt, s') ∧ lru_fresh s'.
Proof.
  intros Hr%reach_inv Hex.
  pose proof (CheckExpire_round_ok BS HBS (S (length (LruList (wc s)))) s [] (LruList (wc s)) Hr Hex) as Hw.
  destruct (proj1 (wp_run _ _ _) (Hw eq_refl ltac:(by intros ?? ?%not_elem_of_nil) ltac:(lia)))
    as ([] & s' & E & _ & _ & _ & Hf). by exists s'.
Qed.

End Theorems.

(** * Witnesses: a file of three bytes, blocks of four, two buffers *)

Module WExample.

Definition fe : FileEntry := MkFileEntry 1 4 0 "/m/a" 2 0 false "u" 7 0 false.
Definition mem : MemStore := MkMem {[1 := [9; 8; 7]]} [].
Definition init (ch : option (chan Z)) : CS MemStore := winit (NewPool 0 0) 2 10 ch mem 0.
Definition after {A} (o : outcome (A * CS MemStore)) (s : CS MemStore) : CS MemStore :=
  match o with Ret (_, s') => s' | _ => s end.

(** The file's table exists; then two bytes are written at offset 5, then (in
    the asynchronous mode) the rest of block 1. *)
Definition op1 : RWBlockOp := MkOp fe 1 1 2 [1; 2] 0.
Definition op2 : RWBlockOp := MkOp fe 1 3 1 [3] 0.
Definition st0 ch := after (onw (GetFileBuffer fe true) (init ch)) (init ch).
Definition st1 ch := after (WriteBlock fe 1 op1 (st0 ch)) (st0 ch).
Definition st2 ch := after (WriteBlock fe 1 op2 (st1 ch)) (st1 ch).

Lemma op1_ok : op_ok fe op1.
Proof. by repeat split. Qed.

Lemma op2_ok : op_ok fe op2.
Proof. by repeat split. Qed.

Lemma step0 ch : ch = None ∨ ch = Some (open_chan []) →
  onw (GetFileBuffer fe true) (init ch) = Ret (Some 1, st0 ch).
Proof. by intros [->| ->]; vm_compute. Qed.

Lemma step1 ch : ch = None ∨ ch = Some (open_chan []) → WriteBlock fe 1 op1 (st0 ch) = Ret ((2, None), st1 ch).
Proof. by intros [->| ->]; vm_compute. Qed.

Lemma step2 : WriteBlock fe 1 op2 (st1 (Some (open_chan []))) = Ret ((1, None), st2 (Some (open_chan []))).
Proof. by vm_compute. Qed.

Lemma run1 ch : ch = None ∨ ch = Some (open_chan []) → wrun 4 [LTau; LWrite 1 5 [1; 2] None] (init ch) (st1 ch).
Proof.
  intros Hch. apply (wrun_cons 4 _ _ _ (st0 ch)); [by apply (ws_open 4 fe (Some 1)), step0|].
  apply (wrun_cons 4 _ _ _ (st1 ch)); [|apply wrun_nil].
  by apply (ws_write 4 fe op1 2 None), step1; [|apply op1_ok|].
Qed.

Lemma reach1 ch : ch = None ∨ ch = Some (open_chan []) → wreachable 4 (st1 ch).
Proof. intros Hch. eexists _, _, _, _, _, _, _. split; [exact Hch|by apply run1]. Qed.

Lemma reach2 : wreachable 4 (st2 (Some (open_chan []))).
Proof.
  eexists _, _, _, _, _, _, [LTau; LWrite 1 5 [1; 2] None; LWrite 1 7 [3] None].
  split; [right; reflexivity|].
  apply (wrun_cons 4 _ _ _ (st0 (Some (open_chan [])))); [by apply (ws_open 4 fe (Some 1)), step0; [|right]|].
  apply (wrun_cons 4 _ _ _ (st1 (Some (open_chan [])))).
  { apply (ws_write 4 fe op1 2 None); [done|apply op1_ok|]. apply step1. by right. }
  apply (wrun_cons 4 _ _ _ (st2 (Some (open_chan [])))); [|apply wrun_nil].
  apply (ws_write 4 fe op2 1 None); [done|apply op2_ok|apply step2].
Qed.

Lemma bs4 : 0 < 4 < 2 ^ 32.
Proof. lia. Qed.

Lemma unlocked1 j : lockof (wc (st1 None)) 1 j = None.
Proof.
  assert (Cache (wc (st1 None)) !! 1 ≫= (λ fb, Some (LockMap fb)) = Some ∅) as E by by vm_compute.
  unfold lockof. destruct (Cache (wc (st1 None)) !! 1) as [fb|]; [|done].
  simpl in *. injection E as ->. apply lookup_empty.
Qed.

Lemma wcache_linear_witness :
  wview 4 (st1 None) 1 ≡
  apply_writes 1 [LTau; LWrite 1 5 [1; 2] None] (of_bytes (content mem 1)).
Proof.
  apply (wcache_linear 4 bs4 (NewPool 0 0) 2 10 None mem 0 _ (st1 None) 1).
  - left. reflexivity.
  - apply run1. left. reflexivity.
  - reflexivity.
Defined.

Lemma wcache_pool_invariant_witness : pool_wf 4 (wc (st2 (Some (open_chan [])))).
Proof. apply (wcache_pool_invariant 4 bs4). exact reach2. Defined.


Lemma wcache_write_witness :
  ∃ size err s', WCache_Write fe [4; 5; 6; 7; 8; 9] 2 (st1 None) = Ret ((size, err), s') ∧
    wrote_req 4 (st1 None) 1 2 [4; 5; 6; 7; 8; 9] size err s' ∧
    ∀ g, g ≠ 1 → wview 4 s' g ≡ wview 4 (st1 None) g.
Proof.
  apply (wcache_write 4 bs4 (st1 None) fe [4; 5; 6; 7; 8; 9] 2).
  - apply reach1. left. reflexivity.
  - reflexivity.
  - unfold req_ok. simpl. repeat split; try lia. discriminate.
  - intros j _. apply unlocked1.
Defined.

Lemma wcache_flush_durable_witness :
  ∃ err s', WCache_Flush fe (st1 None) = Ret (err, s') ∧
    (err = None → of_bytes (content (world s') 1) ≡ wview 4 (st1 None) 1 ∧
       ∀ j, slot_buf (wc s') 1 j = None) ∧
    (err ≠ None → is_errno err) ∧ ∀ g, g ≠ 1 → wview 4 s' g ≡ wview 4 (st1 None) g.
Proof.
  apply (wcache_flush_durable 4 bs4 (st1 None) fe).
  - apply reach1. left. reflexivity.
  - exact unlocked1.
Defined.

Lemma wcache_sync_drains_witness :
  ∃ s', sync_all [0] (st2 (Some (open_chan []))) = Ret (tt, s') ∧ pending s' = [] ∧
    (∀ f i, lockof (wc s') f i = None) ∧ ∀ f, wview 4 s' f ≡ wview 4 (st2 (Some (open_chan []))) f.
Proof. apply (wcache_sync_drains 4 bs4); [exact reach2|by vm_compute]. Defined.

Lemma wcache_statsize_witness :
  ∃ n s', StatSize fe (st1 None) = Ret ((n, None), s') ∧
    ∀ x, 0 ≤ x → live (wview 4 (st1 None) 1) x ↔ x < Z.max (Zlen (content (world (st1 None)) 1)) n.
Proof.
  apply (wcache_statsize 4 bs4 (st1 None) fe); [apply reach1; left; reflexivity|exact unlocked1].
Defined.

Lemma wcache_expire_terminates_witness :
  length (LruList (wc (st1 None))) = 1%nat ∧
  ∃ s', CheckExpire_round 2 (st1 None) = Ret (tt, s') ∧ lru_fresh s'.
Proof.
  split; [by vm_compute|].
  apply (wcache_expire_terminates 4 bs4 (st1 None)); [apply reach1; left; reflexivity|by vm_compute].
Defined.

(** ** A race of the sync routine *)

(** After [FreeBuffer] the buffer can be allocated again before the routine
    reads [buffer.BlkIdx] for the unlocking. *)
Definition op3 : RWBlockOp := MkOp fe 2 0 1 [6] 0.
Definition init1 : CS MemStore := winit (NewPool 0 0) 1 10 (Some (open_chan [])) mem 0.
Definition race0 := after (onw (GetFileBuffer fe true) init1) init1.
Definition race1 := after (WriteBlock fe 1 (MkOp fe 1 0 4 [1; 2; 3; 4] 0) race0) race0.
Definition race2 := after (SyncWrite_begin 0 race1) race1.
Definition race3 := after (WriteBlock fe 1 op3 race2) race2.

(** [SyncWrite] reads [buffer.BlkIdx] after it has freed the buffer. When a
    writer allocates the buffer for another block in between, the routine
    unlocks that block instead, fails the assertion of [UnLockBuffer], and the
    block it served stays locked. *)
Theorem syncwrite_unlock_race :
  SyncWrite_begin 0 race1 = Ret (1, race2) ∧
  (∃ r, WriteBlock fe 1 op3 race2 = Ret (r, race3)) ∧
  SyncWrite_end 1 0 race3 = Panic ∧
  lockof (wc race3) 1 1 = Some (MkLock WriteLock 0) ∧ slot (wc race3) 1 1 = None.
Proof. vm_compute. repeat split; eauto. Qed.
End WExample.
