(* ===== verification/RCache.v ===== *)
(** The read cache with its prefetching (lib/libfs/rcache.go). *)

From stdpp Require Import base gmap list strings.
From Stdlib Require Import ZArith Lia.
From S2P Require Import Prelude GoString Proto Store Buffer Pool View CacheState.

Section Ops.
Context {W : Type} `{ProxyIO W}.
Abbreviation MC := (M (CS W)) (only parsing).

(** ** The pool operations, on the read cache's pool *)

Definition RCache_AllocBuffer (fe : FileEntry) (blk : Z) : MC (option Z) := onr (AllocBuffer fe blk).
Definition RCache_FreeBuffer (bid : Z) : MC unit := onr (FreeBuffer bid).
Definition RCache_DoLru (t bid : Z) : MC unit := onr (DoLru t bid).
Definition RCache_RemoveLru (bid : Z) : MC unit := onr (RemoveLru bid).
Definition RCache_LruExpire (t : Z) : MC (option (FileEntry * Z)) := onr (LruExpire t).
Definition RCache_GetFileBuffer (fe : FileEntry) (bAlloc : bool) : MC (option Z) :=
  onr (GetFileBuffer fe bAlloc).
Definition RCache_DetachFileBuffer (fe : FileEntry) : MC unit := onr (DetachFileBuffer fe).

(** [Slice] of the read cache: the loop of the write cache's, with an assertion
    after the increment. *)
Fixpoint RCache_Slice_loop (fuel : nat) (fe : FileEntry) (buffer : bytes)
    (blkStart blkEnd RWOffset leftRwSize rwBufOffset : Z) : outcome (list RWBlockOp) :=
  match fuel with
  | O => Ret []
  | S fuel' =>
      if blkStart <? blkEnd then
        let off := RWOffset mod BlockSize fe in
        let sz0 := u32 (BlockSize fe - off) in
        let RWSize := if leftRwSize <? sz0 then leftRwSize else sz0 in
        match go_slice buffer rwBufOffset (u32 (rwBufOffset + RWSize)) with
        | Ret piece =>
            if u64 (blkStart + 1) <=? blkEnd then
              match RCache_Slice_loop fuel' fe buffer (u64 (blkStart + 1)) blkEnd
                      (u32 (RWOffset + RWSize)) (u32 (leftRwSize - RWSize))
                      (u32 (rwBufOffset + RWSize)) with
              | Ret ops => Ret (MkOp fe blkStart off RWSize piece rwBufOffset :: ops)
              | Panic => Panic
              | Block => Block
              end
            else Panic
        | Panic => Panic
        | Block => Block
        end
      else Ret []
  end.

Definition RCache_Slice (fe : FileEntry) (buffer : bytes) (offset : Z) : outcome (list RWBlockOp) :=
  if BlockSize fe =? 0 then Panic
  else
    let Size := u32 (Zlen buffer) in
    let blkStart := offset / BlockSize fe in
    let blkEnd := u64 (u64 (u64 (offset + Size) + BlockSize fe) - 1) / BlockSize fe in
    RCache_Slice_loop (Z.to_nat (blkEnd - blkStart)) fe buffer blkStart blkEnd
      (u32 (offset mod BlockSize fe)) Size 0.

(** ** Reading *)

(** [ReadOp]: the size, the error, and [op.rwBuf] afterwards. *)
Definition ReadOp (fe : FileEntry) (fid : Z) (op : RWBlockOp) : MC ReadResult :=
  let! buffer := onr (GetBuffer fid (Index op)) in
  match buffer with
  | None => DirectRead fe (rwBuf op) (Op_GetFileOffset op)
  | Some bid =>
      let! b := onr (buf_get bid) in
      Assert ((Offset b =? 0) && negb (Len b =? 0));;;
      if Len b <=? RwOffset op then ret (MkRead 0 None (rwBuf op))
      else
        let sz0 := u32 (Len b - RwOffset op) in
        let Size := if RwSize op <? sz0 then RwSize op else sz0 in
        let! data := lift (Buffer_GetRangeData b (RwOffset op) (u32 (RwOffset op + Size))) in
        ret (MkRead Size None (copy0 (rwBuf op) data))
  end.

Definition GetReadWindow (fe : FileEntry) (Size offset : Z) : outcome PrefetchWindow :=
  if BlockSize fe =? 0 then Panic
  else Ret (MkWin (offset / BlockSize fe)
              (u64 (u64 (u64 (offset + Size) + BlockSize fe) - 1) / BlockSize fe)).

(** The operation that prefetches block [blk]. *)
Definition prefetch_op (fe : FileEntry) (blk : Z) : RWBlockOp :=
  MkOp fe blk 0 (BlockSize fe) (zeros (BlockSize fe)) 0.

Definition send_prefetch (op : RWBlockOp) : MC unit :=
  let! ch := gets chPrefetch in
  let! ch' := lift (chan_send op ch) in
  modify (set_chPrefetch ch').

(** The loop that pushes the blocks of the window into the channel; the lock of
    a block goes with its operation. *)
Fixpoint Prefetch_loop (fuel : nat) (fid blkStart blkEnd : Z) : MC unit :=
  match fuel with
  | O => ret tt
  | S fuel' =>
      if blkStart <? blkEnd then
        let! fileBuf := onr (fb_get fid) in
        onr (fb_lock fid (LockBuffer blkStart));;;
        let! buffer := onr (GetBuffer fid blkStart) in
        (match buffer with
         | Some _ => onr (fb_lock fid (UnLockBuffer blkStart))
         | None => send_prefetch (prefetch_op (fb_fe fileBuf) blkStart)
         end);;;
        Prefetch_loop fuel' fid (u64 (blkStart + 1)) blkEnd
      else ret tt
  end.

(** The new prefetch window, if the read moves it. [times] is
    [cache.PrefetchTimes]. *)
Definition next_window (pw rw : PrefetchWindow) (times : Z) : outcome (option PrefetchWindow) :=
  match PW_Size pw with
  | Ret n =>
      if (PW_GetStart rw =? 0) && (n =? 0) then Ret (Some (PW_Extend (PW_Move rw) (u32 times)))
      else if PW_Cross rw pw then
        if 0 <? n then Ret (Some (PW_Move pw)) else Panic
      else Ret None
  | Panic => if BlkStart rw =? 0 then Panic else
             if PW_Cross rw pw then Panic else Ret None
  | Block => Block
  end.

Definition DoPrefetch (fid Size offset : Z) : MC unit :=
  let! ch := gets chPrefetch in
  Assert (match ch with Some _ => true | None => false end);;;
  let! fileBuf := onr (fb_get fid) in
  let! rw := lift (GetReadWindow (fb_fe fileBuf) Size offset) in
  let! n := lift (PW_Size rw) in
  Assert (0 <? n);;;
  let! times := gets PrefetchTimes in
  let! w := lift (next_window (pw fileBuf) rw times) in
  match w with
  | None => ret tt
  | Some w =>
      onr (fb_upd fid (λ fb, Ret (set_pw w fb)));;;
      Prefetch_loop (Z.to_nat (PW_GetEnd w - PW_GetStart w)) fid (PW_GetStart w) (PW_GetEnd w)
  end.

Definition TryDoPrefetch (fid Size offset : Z) : MC unit :=
  let! ch := gets chPrefetch in
  match ch with
  | Some _ => DoPrefetch fid Size offset
  | None => ret tt
  end.

(** [fileBuf.DetachBuffer(idx); cache.FreeBuffer(buffer)] *)
Definition r_release_buffer (fid idx bid : Z) : MC unit :=
  onr (DetachBuffer fid idx);;; RCache_FreeBuffer bid.

Definition ReleaseBuffer_body (fid idx : Z) : MC (option error) :=
  let! buffer := onr (GetBuffer fid idx) in
  match buffer with
  | None => ret None
  | Some bid =>
      RCache_RemoveLru bid;;;
      r_release_buffer fid idx bid;;;
      ret None
  end.

Definition ReleaseBuffer (fid idx : Z) : MC (option error) :=
  onr (fb_lock fid (LockBuffer idx));;;
  let! err := ReleaseBuffer_body fid idx in
  onr (fb_lock fid (UnLockBuffer idx));;;
  ret err.

Fixpoint Release_list (fid : Z) (order : list Z) : MC (option error) :=
  match order with
  | [] => ret None
  | idx :: rest =>
      let! err := ReleaseBuffer fid idx in
      match err with Some _ => ret err | None => Release_list fid rest end
  end.

Definition RCache_Release (fe : FileEntry) : MC (option error) :=
  let! fb := RCache_GetFileBuffer fe false in
  match fb with
  | None => ret None
  | Some fid =>
      let! fileBuf := onr (fb_get fid) in
      let! _ := lift (FB_Wait fileBuf) in
      Release_list fid (GetAllBufferIndex fileBuf)
  end.

(** The inner loop of [CheckExpire], at most [fuel] rounds. *)
Fixpoint RCache_CheckExpire_round (fuel : nat) : MC unit :=
  match fuel with
  | O => ret tt
  | S fuel' =>
      let! t := gets now in
      let! e := RCache_LruExpire t in
      match e with
      | None => ret tt
      | Some (fe, blkIdx) =>
          let! fb := RCache_GetFileBuffer fe false in
          match fb with
          | None => RCache_CheckExpire_round fuel'
          | Some fid => ReleaseBuffer fid blkIdx;;; RCache_CheckExpire_round fuel'
          end
      end
  end.

Definition DoPrefetchRead (fid : Z) (op : RWBlockOp) : MC (option error) :=
  let! r := DirectRead (op_fe op) (rwBuf op) (Op_GetFileOffset op) in
  match rd_err r with
  | Some e => ret (Some e)
  | None =>
      if rd_size r =? 0 then ret None
      else
        Assert (0 <? rd_size r);;;
        let! nb := RCache_AllocBuffer (op_fe op) (Index op) in
        match nb with
        | None => ret (Some (ErrNew "AllocRBuffer"))
        | Some bid =>
            onr (buf_upd bid (λ b, Buffer_Skip b (RwOffset op)));;;
            let! b := onr (buf_get bid) in
            Assert (Buffer_CanMerge b (RwOffset op));;;
            let! t := gets now in
            onr (buf_upd bid (λ b, Buffer_MergeData t b (rd_buf r)));;;
            onr (AttachBuffer fid (Index op) bid);;;
            RCache_DoLru t bid;;;
            ret None
        end
  end.

(** What a prefetch routine does with the operation at the head of the
    channel. *)
Definition PrefetchRead_one : MC unit :=
  let! ch := gets chPrefetch in
  match ch with
  | Some (MkChan (op :: q) shut) =>
      modify (set_chPrefetch (Some (MkChan q shut)));;;
      let! fb := RCache_GetFileBuffer (op_fe op) false in
      match fb with
      | None => panic
      | Some fid =>
          let! _ := DoPrefetchRead fid op in
          onr (fb_lock fid (UnLockBuffer (Index op)))
      end
  | _ => block
  end.

(** The prefetch routines take the next [n] operations. *)
Fixpoint prefetch_all (n : nat) : MC unit :=
  match n with
  | O => ret tt
  | S n' => PrefetchRead_one;;; prefetch_all n'
  end.

(** [for blkStart < blkEnd { cache.ReleaseBuffer(fileBuf, blkStart); blkStart++ }] *)
Fixpoint Clean_loop (fuel : nat) (fid blkStart blkEnd : Z) : MC unit :=
  match fuel with
  | O => ret tt
  | S fuel' =>
      if blkStart <? blkEnd then
        let! _ := ReleaseBuffer fid blkStart in
        Clean_loop fuel' fid (u64 (blkStart + 1)) blkEnd
      else ret tt
  end.

Definition Clean (fe : FileEntry) (Size offset : Z) : MC (option error) :=
  let! fb := RCache_GetFileBuffer fe false in
  match fb with
  | None => ret None
  | Some fid =>
      let! rw := lift (GetReadWindow fe (u32 Size) offset) in
      let! n := lift (PW_Size rw) in
      Assert (0 <? n);;;
      Clean_loop (Z.to_nat (PW_GetEnd rw - PW_GetStart rw)) fid (PW_GetStart rw) (PW_GetEnd rw);;;
      ret None
  end.

Definition RCache_Close (fe : FileEntry) : MC (option error) :=
  let! err := RCache_Release fe in
  match err with
  | Some _ => ret err
  | None => RCache_DetachFileBuffer fe;;; ret None
  end.

Fixpoint RCache_Close_list (fes : list FileEntry) : MC unit :=
  match fes with
  | [] => ret tt
  | fe :: rest => RCache_Close fe;;; RCache_Close_list rest
  end.

(** [CloseAll]: the prefetch routines take what the closed channel still holds,
    then every file is closed. *)
Definition RCache_CloseAll : MC unit :=
  let! ch := gets chPrefetch in
  (match ch with
   | Some _ => let! ch' := lift (chan_close ch) in modify (set_chPrefetch ch')
   | None => ret tt
   end);;;
  prefetch_all (length (from_option ch_queue [] ch));;;
  let! cache := gets (λ s, Cache (rc s)) in
  RCache_Close_list (fb_fe <$> (map_to_list cache).*2).
End Ops.
