(* ===== verification/RWCache.v ===== *)
(** The combination of the two caches (lib/libfs/rwcache.go). *)

From stdpp Require Import base gmap list strings.
From Stdlib Require Import ZArith Lia.
From S2P Require Import Prelude GoString Proto Store Buffer Pool View CacheState WCache RCache.

Section Ops.
Context {W : Type} `{ProxyIO W}.
Abbreviation MC := (M (CS W)) (only parsing).

(** What the read cache and the write cache contribute to one block; the
    result is the size, the error and [op.rwBuf]. [fidW] is the handle of
    [fileBufWrite], [None] when the write cache has no table for the file. *)
Definition ReadBlock (fe : FileEntry) (fidR : Z) (fidW : option Z) (op : RWBlockOp) : MC ReadResult :=
  (match fidW with
   | Some fw => onw (fb_lock fw (RLockBuffer (Index op)))
   | None => ret tt
   end);;;
  onr (fb_lock fidR (RLockBuffer (Index op)));;;
  let! r := ReadOp fe fidR op in
  onr (fb_lock fidR (RUnLockBuffer (Index op)));;;
  match rd_err r, fidW with
  | Some _, Some fw => onw (fb_lock fw (RUnLockBuffer (Index op)));;; ret r
  | Some _, None => ret r
  | None, Some fw =>
      let op' := MkOp (op_fe op) (Index op) (RwOffset op) (RwSize op) (rd_buf r) (rwPos op) in
      let! (size, buf) := MergeOp fw op' (rd_size r) in
      onw (fb_lock fw (RUnLockBuffer (Index op)));;;
      ret (MkRead size None buf)
  | None, None => ret r
  end.

(** The loop over the block operations: [dataBuf] is the shared buffer whose
    sub-slices the operations hold; [Size] the running result. *)
Fixpoint doRead_loop (fe : FileEntry) (fidR : Z) (fidW : option Z) (offset : Z)
    (ops : list RWBlockOp) (dataBuf : bytes) (Size : Z) : MC ReadResult :=
  match ops with
  | [] => ret (MkRead Size None dataBuf)
  | op :: ops' =>
      let! r := ReadBlock fe fidR fidW op in
      match rd_err r with
      | Some _ => ret r
      | None =>
          let! dataBuf' := lift (go_copy dataBuf (rwPos op) (rd_buf r)) in
          doRead_loop fe fidR fidW offset ops' dataBuf'
            (if rd_size r =? 0 then Size
             else i64 (u64 (Op_GetFileOffset op - offset)) + rd_size r)
      end
  end.

(** [doRead]; [rd_buf] is the caller's buffer afterwards. *)
Definition doRead (fe : FileEntry) (buffer : bytes) (offset : Z) : MC ReadResult :=
  let dataBuf := zeros (Zlen buffer) in
  let! fr := RCache_GetFileBuffer fe true in
  match fr with
  | None => panic
  | Some fidR =>
      TryDoPrefetch fidR (u32 (Zlen dataBuf)) offset;;;
      let! fidW := onw (GetFileBuffer fe false) in
      let! ops := lift (RCache_Slice fe dataBuf offset) in
      let! r := doRead_loop fe fidR fidW offset ops dataBuf 0 in
      match rd_err r with
      | Some _ => ret (MkRead (rd_size r) (rd_err r) buffer)
      | None =>
          Assert (rd_size r <=? Zlen buffer);;;
          let! data := lift (go_slice (rd_buf r) 0 (rd_size r)) in
          ret (MkRead (rd_size r) None (copy0 buffer data))
      end
  end.

Definition RWCache_Read (fe : FileEntry) (buffer : bytes) (offset : Z) : MC ReadResult :=
  doRead fe buffer offset.

Definition RWCache_Write (fe : FileEntry) (buffer : bytes) (offset : Z) : MC (Z * option error) :=
  let! (Size, err) := WCache_Write fe buffer offset in
  let! _ := Clean fe (Zlen buffer) offset in
  ret (Size, err).

Definition RWCache_Release (fe : FileEntry) : MC (option error) := RCache_Release fe.

Definition RWCache_Flush (fe : FileEntry) : MC (option error) := WCache_Flush fe.

Definition RWCache_Close (fe : FileEntry) : MC (option error) :=
  let! err := RCache_Close fe in
  match err with
  | Some _ => ret err
  | None => WCache_Close fe
  end.

Definition RWCache_CloseAll : MC unit := RCache_CloseAll;;; WCache_CloseAll.
End Ops.
