(* ===== verification/RWCacheProof.v ===== *)
(** Correctness of reading through both caches: the bytes returned are those
    of the logical file. *)

From stdpp Require Import base gmap list strings.
From Stdlib Require Import ZArith Lia.
From S2P Require Import Prelude GoString Proto Store Buffer Pool View CacheState WCache.
From S2P Require Import WCacheProof RCache RWCache.

(** The two [Slice]s agree: the read cache's extra assertion always holds. *)
Lemma RCache_Slice_loop_eq fuel fe buffer blkEnd : ∀ blkStart rwOff left pos,
  0 ≤ blkStart → blkEnd < 2 ^ 64 →
  RCache_Slice_loop fuel fe buffer blkStart blkEnd rwOff left pos =
  Slice_loop fuel fe buffer blkStart blkEnd rwOff left pos.
Proof.
  induction fuel as [|fuel IH]; intros blkStart rwOff left pos Hs He; [done|]. simpl.
  destruct (Z.ltb_spec blkStart blkEnd); [|done].
  destruct (go_slice _ _ _) as [piece| |]; [|done..].
  rewrite (u64_small (blkStart + 1)), (proj2 (Z.leb_le (blkStart + 1) blkEnd)) by lia.
  by rewrite IH by lia.
Qed.

Lemma RCache_Slice_eq fe buffer offset :
  0 ≤ offset → 0 ≤ BlockSize fe → RCache_Slice fe buffer offset = Slice fe buffer offset.
Proof.
  intros Ho Hb. unfold RCache_Slice, Slice. destruct (Z.eqb_spec (BlockSize fe) 0); [done|].
  apply RCache_Slice_loop_eq; [apply Z.div_pos; lia|].
  apply Z.div_lt_upper_bound; [lia|].
  pose proof (u64_bound (u64 (u64 (offset + u32 (Zlen buffer)) + BlockSize fe) - 1)). nia.
Qed.

Section Read.
Context {W : Type} `{ProxyStore W}.
Context (BS : Z).
Hypothesis HBS : 0 < BS < 2 ^ 32.
Implicit Types (s : CS W) (p : Pool).

(** Every block cached for reading holds the proxy's bytes, padded with
    zeros. *)
Definition rcoherent s (f : Z) : Prop := ∀ i b,
  slot_buf (rc s) f i = Some b →
  Offset b = 0 ∧ Len b = BS ∧ Zlen (dataBuf b) = BS ∧
  ∀ k, 0 ≤ k < BS → byte_at (dataBuf b) k = byte_at (content (world s) f) (i * BS + k).

(** [s'] differs from [s] in the proxy only, and not in any file. *)
Definition same_files s s' : Prop :=
  ∃ w', s' = set_world w' s ∧ ∀ g, content w' g = content (world s) g.

Lemma same_files_refl s : same_files s s.
Proof. exists (world s). split; [by destruct s|done]. Qed.

Lemma same_files_trans s1 s2 s3 : same_files s1 s2 → same_files s2 s3 → same_files s1 s3.
Proof.
  intros (w & -> & Hw) (w' & -> & Hw'). exists w'. split; [done|].
  intros g. by rewrite Hw', <- Hw.
Qed.

Lemma same_files_view s s' f : same_files s s' → wview BS s' f = wview BS s f.
Proof. intros (w & -> & Hw). unfold wview. simpl. by rewrite Hw. Qed.

Lemma same_files_rcoherent s s' f : same_files s s' → rcoherent s f → rcoherent s' f.
Proof. intros (w & -> & Hw) Hr i b Hb. simpl. rewrite Hw. by apply Hr. Qed.

(** The bytes of [c] in [pos, pos+len) before the end of file. *)
Definition avail (c : bytes) (pos len : Z) : Z := Z.max 0 (Z.min len (Zlen c - pos)).

(** What a block read delivers: the proxy's bytes, and a size which is exact
    when the block is not cached for reading. *)
Definition read_post (c : bytes) (pos : Z) (op : RWBlockOp) (cached : bool) (r : ReadResult) : Prop :=
  match rd_err r with
  | Some _ => is_errno (rd_err r)
  | None =>
      Zlen (rd_buf r) = RwSize op ∧
      (∀ k, 0 ≤ k < RwSize op → byte_at (rd_buf r) k = byte_at c (pos + k)) ∧
      avail c pos (RwSize op) ≤ rd_size r ≤ RwSize op ∧
      (cached = false → rd_size r = avail c pos (RwSize op))
  end.

Lemma wp_ReadOp s fe op fb :
  pool_wf BS (rc s) → BlockSize fe = BS → op_ok fe op →
  (∀ k, byte_at (rwBuf op) k = 0) → Cache (rc s) !! fe_Id fe = Some fb →
  rcoherent s (fe_Id fe) →
  wp (ReadOp fe (fe_Id fe) op) (λ r s', same_files s s' ∧
    read_post (content (world s) (fe_Id fe)) (Index op * BS + RwOffset op) op
      (bool_decide (is_Some (slot (rc s) (fe_Id fe) (Index op)))) r) s.
Proof.
  intros Hwf Hfe Hop Hz Hc Hcoh. set (f := fe_Id fe) in *.
  destruct (op_pos BS HBS fe op Hfe Hop) as [Hpos Hpos0].
  destruct Hop as (_ & Hi & Hmax & Ho & Hsz & Hos & Hl). rewrite Hfe in *.
  set (pos := Index op * BS + RwOffset op) in *. set (c := content (world s) f).
  unfold ReadOp. apply wp_bind, wp_zoom, (wp_GetBuffer _ _ fb); [done|].
  assert (∀ s0 : CS W, set_rc (rc s0) s0 = s0) as Hid by (by intros []). rewrite Hid.
  destruct (slot (rc s) f (Index op)) as [bid|] eqn:Es.
  - destruct (wf_slot_buf _ _ _ _ _ Hwf Es) as (b & Hb & _).
    destruct (Hcoh (Index op) b) as (HO & HL & HD & Hby).
    { unfold slot_buf. by rewrite Es. }
    apply wp_bind, wp_zoom, (wp_buf_get _ b); [done|]. rewrite Hid.
    apply wp_bind, wp_assert; [zbool|].
    rewrite HL. rewrite (proj2 (Z.leb_gt _ _)) by lia.
    rewrite (u32_small (BS - RwOffset op)) by lia.
    replace (if RwSize op <? BS - RwOffset op then RwSize op else BS - RwOffset op) with (RwSize op)
      by zbool.
    rewrite u32_small by lia. apply wp_bind.
    destruct (go_slice_ok (dataBuf b) (RwOffset op) (RwOffset op + RwSize op)) as (d & Hd & Hdl & Hdb);
      [lia..|].
    eapply wp_lift.
    { unfold Buffer_GetRangeData. rewrite HO, HL, u32_small by lia.
      rewrite (proj2 (Z.leb_le 0 (RwOffset op))), (proj2 (Z.leb_le _ (0 + BS))) by lia. exact Hd. }
    apply wp_ret. split; [apply same_files_refl|]. unfold read_post. simpl.
    destruct (copy0_ok (rwBuf op) d) as [Hcl Hcb]; [lia|].
    split_and!; [congruence| |unfold avail; lia..|]; [|discriminate].
    intros k Hk. rewrite Hcb. rewrite (proj2 (Z.leb_le 0 k)), (proj2 (Z.ltb_lt k _)) by lia. simpl.
    rewrite Hdb, Hby by lia. f_equal. unfold pos. lia.
  - unfold wp, DirectRead. rewrite Hpos. fold f.
    destruct (Reader_Read f (rwBuf op) pos (world s)) as [r w'] eqn:Er.
    apply Reader_Read_spec in Er as [Hfr Hr]; [|lia|lia]. fold c in Hr.
    split; [by exists w'|]. unfold read_post. destruct (rd_err r); [apply Hr|].
    destruct Hr as (Hn & Hbl & Hb). rewrite Hl in Hn, Hbl. unfold avail. split_and!; try done; try lia.
    intros k Hk. rewrite Hb, Hn. destruct ((0 <=? k) && (k <? _)) eqn:E; [done|].
    rewrite Hz. symmetry. apply byte_at_ge. zbool.
Qed.

(** ** Read locks *)

Definition rlocked (f i : Z) (fb : FileBuffer) p : Pool :=
  set_cache (<[f := set_LockMap (<[i := MkLock ReadLock 1]> (LockMap fb)) fb]> (Cache p)) p.

Lemma wp_rlock f i fb (Q : unit → Pool → Prop) p :
  Cache p !! f = Some fb → lockof p f i = None → Q tt (rlocked f i fb p) →
  wp (fb_lock f (RLockBuffer i)) Q p.
Proof.
  intros Hc Hl HQ. unfold fb_lock. eapply wp_fb_upd; [exact Hc| |exact HQ].
  unfold lockof in Hl. rewrite Hc in Hl. simpl in Hl. unfold RLockBuffer. by rewrite Hl.
Qed.

Lemma wp_runlock f i fb (Q : unit → Pool → Prop) p :
  Cache p !! f = Some fb → lockof p f i = None → Q tt p →
  wp (fb_lock f (RUnLockBuffer i)) Q (rlocked f i fb p).
Proof.
  intros Hc Hl HQ. unfold fb_lock. unfold lockof in Hl. rewrite Hc in Hl. simpl in Hl.
  eapply wp_fb_upd; [apply lookup_insert_eq| |].
  { unfold RUnLockBuffer. simpl. rewrite lookup_insert_eq. simpl. rewrite delete_insert_id by done. done. }
  assert (set_cache (<[f := set_LockMap (LockMap fb) (set_LockMap (<[i:=MkLock ReadLock 1]>
    (LockMap fb)) fb)]> (Cache (rlocked f i fb p))) (rlocked f i fb p) = p) as E; [|by rewrite E].
  unfold rlocked, set_cache, set_LockMap. simpl. rewrite insert_insert_eq.
  destruct fb, p. simpl in *. by rewrite insert_id.
Qed.

Lemma rlocked_facts f i fb p :
  Cache p !! f = Some fb →
  Cache (rlocked f i fb p) !! f = Some (set_LockMap (<[i := MkLock ReadLock 1]> (LockMap fb)) fb) ∧
  (∀ g j, slot (rlocked f i fb p) g j = slot p g j) ∧
  (∀ g j, slot_buf (rlocked f i fb p) g j = slot_buf p g j) ∧
  (pool_wf BS p → pool_wf BS (rlocked f i fb p)).
Proof.
  intros Hc.
  assert (∀ g j, slot (rlocked f i fb p) g j = slot p g j) as Hs.
  { intros. unfold rlocked. rewrite slot_set_cache. case_decide; [subst|done].
    unfold slot. by rewrite Hc. }
  split_and!; [apply lookup_insert_eq|done| |].
  - intros. unfold slot_buf. by rewrite Hs.
  - intros Hwf. by apply wf_lock.
Qed.

(** ** Merging with the write cache *)

Lemma div_block i o : 0 ≤ o < BS → (i * BS + o) / BS = i ∧ (i * BS + o) mod BS = o.
Proof.
  intros Ho. split.
  - symmetry. apply (Z.div_unique _ _ _ o); lia.
  - symmetry. apply (Z.mod_unique _ _ i); lia.
Qed.

(** The byte of the logical file at offset [o] of block [i]. *)
Lemma abyte_block s f i o : 0 ≤ o < BS →
  abyte (wview BS s f) (i * BS + o) =
  match slot_buf (wc s) f i with
  | Some b => if covers b o then byte_at (dataBuf b) o else byte_at (content (world s) f) (i * BS + o)
  | None => byte_at (content (world s) f) (i * BS + o)
  end.
Proof. intros Ho. simpl. by destruct (div_block i o Ho) as [-> ->]. Qed.

(** Why a position of block [i] is before the end of the logical file. *)
Lemma live_block s f i o :
  pool_wf BS (wc s) → 0 ≤ o < BS → live (wview BS s f) (i * BS + o) →
  i * BS + o < Zlen (content (world s) f) ∨
  (∃ b, slot_buf (wc s) f i = Some b ∧ o < Offset b + Len b) ∨
  (∃ j, i < j ∧ slot (wc s) f j ≠ None).
Proof.
  intros Hwf Ho [?|(j & b & Hb & Hlt)]; [by left|]. right.
  destruct (wf_slots_ok BS _ f Hwf _ _ Hb) as (? & ? & ? & ? & _).
  destruct (Z.lt_trichotomy j i) as [Hj|[->|Hj]].
  - nia.
  - left. exists b. split; [done|lia].
  - right. exists j. split; [done|]. unfold slot_buf in Hb. by destruct (slot (wc s) f j).
Qed.

Lemma live_higher s f i j o :
  pool_wf BS (wc s) → 0 ≤ o ≤ BS → i < j → slot (wc s) f j ≠ None →
  live (wview BS s f) (i * BS + o).
Proof.
  intros Hwf Ho Hj Hs. destruct (slot (wc s) f j) as [bid|] eqn:E; [|done].
  destruct (wf_slot_buf _ _ _ _ _ Hwf E) as (b & Hb & Hok).
  assert (slot_buf (wc s) f j = Some b) as Hsb by (unfold slot_buf; by rewrite E).
  destruct (wf_slots_ok BS _ f Hwf _ _ Hsb) as (? & ? & ? & ? & _).
  right. exists j, b. split; [done|]. nia.
Qed.

(** The outcome of a block read through both caches. *)
Definition merged s f (op : RWBlockOp) (exact : bool) (sz : Z) (buf : bytes) : Prop :=
  let at_ k := Index op * BS + (RwOffset op + k) in
  Zlen buf = RwSize op ∧ 0 ≤ sz ≤ RwSize op ∧
  (∀ k, 0 ≤ k < RwSize op → byte_at buf k = abyte (wview BS s f) (at_ k)) ∧
  (exact = true → ∀ k, 0 ≤ k < sz → live (wview BS s f) (at_ k)) ∧
  (∀ k, 0 ≤ k < RwSize op → live (wview BS s f) (at_ k) →
     k < sz ∨ slot (wc s) f (Index op) ≠ None ∧ ∃ j, Index op < j ∧ slot (wc s) f j ≠ None).

Section Merge.
Context (s : CS W) (fe : FileEntry) (op : RWBlockOp) (fb : FileBuffer).
Context (buf : bytes) (n : Z) (exact : bool).
Abbreviation f := (fe_Id fe).
Abbreviation i := (Index op).
Abbreviation c := (content (world s) f).
Hypothesis Hwf : pool_wf BS (wc s).
Hypothesis HfeBS : BlockSize fe = BS.
Hypothesis Hop : op_ok fe op.
Hypothesis Hbl : Zlen buf = RwSize op.
Hypothesis Hby : ∀ k, 0 ≤ k < RwSize op → byte_at buf k = byte_at c (i * BS + (RwOffset op + k)).
Hypothesis Hn : avail c (i * BS + RwOffset op) (RwSize op) ≤ n ≤ RwSize op.
Hypothesis Hex : exact = true → n = avail c (i * BS + RwOffset op) (RwSize op).

(** Without bytes from the block's own buffer the sizes [n] and (when a later
    position is buffered) [RwSize] are right. *)
Lemma merged_disk :
  (∀ b, slot_buf (wc s) f i = Some b → ∀ k, 0 ≤ k < RwSize op → covers b (RwOffset op + k) = false) →
  (∀ b, slot_buf (wc s) f i = Some b → n < RwSize op → Offset b + Len b ≤ RwOffset op) →
  (slot (wc s) f i = None → n < RwSize op → ∀ j, i < j → slot (wc s) f j = None) →
  merged s f op exact n buf.
Proof.
  intros Hcov Htail Hup. pose proof Hop as (_ & ? & _ & ? & ? & ? & _). rewrite HfeBS in *.
  unfold avail in *. split_and!; try lia.
  - intros k Hk. rewrite Hby, abyte_block by lia.
    destruct (slot_buf (wc s) f i) as [b|] eqn:E; [|done]. by rewrite (Hcov b).
  - intros E k Hk. left. specialize (Hex E). lia.
  - intros k Hk Hlive. destruct (Z.lt_ge_cases k n) as [|Hkn]; [by left|].
    destruct (live_block s f i (RwOffset op + k) Hwf ltac:(lia) Hlive)
      as [?|[(b & Hb & ?)|(j & Hj & Hs)]]; [lia|..].
    + specialize (Htail b Hb). lia.
    + destruct (slot (wc s) f i) as [bid|] eqn:Es; [right; eauto|].
      exfalso. apply Hs. apply Hup; [done|lia|done].
Qed.

(** A hole before a later buffered position: the whole range is inside the
    file. *)
Lemma merged_hole :
  (∀ b, slot_buf (wc s) f i = Some b → ∀ k, 0 ≤ k < RwSize op → covers b (RwOffset op + k) = false) →
  (∀ k, 0 ≤ k < RwSize op → live (wview BS s f) (i * BS + (RwOffset op + k))) →
  merged s f op exact (RwSize op) buf.
Proof.
  intros Hcov Hlive. pose proof Hop as (_ & ? & _ & ? & ? & ? & _). rewrite HfeBS in *.
  split_and!; try lia.
  - intros k Hk. rewrite Hby, abyte_block by lia.
    destruct (slot_buf (wc s) f i) as [b|] eqn:E; [|done]. by rewrite (Hcov b).
  - intros _ k Hk. apply Hlive. lia.
Qed.

(** The buffer's bytes are copied over the proxy's. *)
Lemma merged_copy b lo hi buf' :
  slot_buf (wc s) f i = Some b → Zlen buf' = RwSize op →
  lo = Z.max (Offset b) (RwOffset op) →
  hi = Z.min (Offset b + Len b) (RwOffset op + RwSize op) → lo < hi →
  (∀ k, 0 ≤ k < RwSize op → byte_at buf' k =
     if (lo - RwOffset op <=? k) && (k <? hi - RwOffset op)
     then byte_at (dataBuf b) (RwOffset op + k) else byte_at buf k) →
  merged s f op exact (if n <? hi - RwOffset op then hi - RwOffset op else n) buf'.
Proof.
  intros Hsb Hbl' Hlo Hhi Hlt Hb'. pose proof Hop as (_ & ? & _ & ? & ? & ? & _).
  rewrite HfeBS in *. destruct (wf_slots_ok BS _ f Hwf _ _ Hsb) as (_ & ? & ? & ? & _).
  unfold avail in *. set (sz := if _ <? _ then _ else _).
  assert (sz = Z.max n (hi - RwOffset op)) as -> by (unfold sz; zbool).
  split_and!; try lia.
  - intros k Hk. rewrite Hb', abyte_block, Hsb by lia. unfold covers.
    destruct ((Offset b <=? RwOffset op + k) && (RwOffset op + k <? Offset b + Len b)) eqn:E.
    + rewrite (proj2 (Z.leb_le _ _)), (proj2 (Z.ltb_lt _ _)) by zbool. done.
    + destruct ((lo - RwOffset op <=? k) && (k <? hi - RwOffset op)) eqn:E2; [zbool|]. by apply Hby.
  - intros E k Hk. specialize (Hex E).
    destruct (Z.lt_ge_cases (i * BS + (RwOffset op + k)) (Zlen c)); [by left|].
    right. exists i, b. split; [done|]. lia.
  - intros k Hk Hlive.
    destruct (live_block s f i (RwOffset op + k) Hwf ltac:(lia) Hlive)
      as [?|[(b0 & Hb0 & ?)|(j & Hj & Hs)]].
    + left. lia.
    + simplify_eq. left. lia.
    + right. split; [|eauto]. unfold slot_buf in Hsb. by destruct (slot (wc s) f i).
Qed.

Lemma wp_MergeOp :
  Cache (wc s) !! f = Some fb →
  wp (MergeOp f (MkOp (op_fe op) i (RwOffset op) (RwSize op) buf (rwPos op)) n)
    (λ r s', s' = s ∧ merged s f op exact r.1 r.2) s.
Proof.
  intros Hc. pose proof Hop as (_ & ? & _ & ? & ? & ? & _). rewrite HfeBS in *.
  unfold MergeOp. apply wp_bind, wp_assert; [simpl; zbool|]. simpl.
  apply wp_bind, wp_onw, (wp_GetBuffer _ _ fb); [done|]. rewrite set_wc_id.
  destruct (slot (wc s) f i) as [bid|] eqn:Es.
  2:{ apply wp_bind, wp_onw, (wp_fb_get _ fb); [done|]. rewrite set_wc_id.
      assert (slot_buf (wc s) f i = None) as Hsb by (unfold slot_buf; by rewrite Es).
      destruct (UpperIdx_spec fb) as [Hmax Hup].
      destruct ((n <? RwSize op) && (i <? UpperIdx fb)) eqn:E; apply wp_ret; (split; [done|]).
      - apply merged_hole; [congruence|]. intros k Hk.
        apply (live_higher s f i (UpperIdx fb)); [done|lia|zbool|].
        destruct Hup as [?|[x Hx]]; [zbool|]. unfold slot. rewrite Hc. simpl. by rewrite Hx.
      - apply merged_disk; [congruence..|]. intros _ Hlt j Hj.
        destruct (slot (wc s) f j) as [x|] eqn:Ej; [|done]. unfold slot in Ej. rewrite Hc in Ej.
        simpl in Ej. specialize (Hmax j ltac:(eauto)). zbool. }
  destruct (wf_slot_buf _ _ _ _ _ Hwf Es) as (b & Hb & Hok).
  assert (slot_buf (wc s) f i = Some b) as Hsb by (unfold slot_buf; by rewrite Es).
  destruct (wf_slots_ok BS _ f Hwf _ _ Hsb) as (_ & ? & ? & ? & HD).
  apply wp_bind, wp_onw, (wp_buf_get _ b); [done|]. rewrite set_wc_id.
  rewrite !(u32_small (Offset b + Len b)), !(u32_small (RwOffset op + RwSize op)) by lia.
  destruct ((Offset b + Len b <=? RwOffset op) || (RwOffset op + RwSize op <=? Offset b)) eqn:Ei.
  - assert (∀ b0, slot_buf (wc s) f i = Some b0 →
      ∀ k, 0 ≤ k < RwSize op → covers b0 (RwOffset op + k) = false) as Hcov.
    { intros b0 Hb0 k Hk. simplify_eq. unfold covers. zbool. }
    destruct ((n <? RwSize op) && (RwOffset op <? Offset b)) eqn:E; apply wp_ret; (split; [done|]).
    + apply merged_hole; [done|]. intros k Hk. right. exists i, b. split; [done|]. zbool.
    + apply merged_disk; [done| |congruence]. intros b0 Hb0 Hlt. simplify_eq. zbool.
  - set (lo := if Offset b <? RwOffset op then RwOffset op else Offset b).
    set (hi := if RwOffset op + RwSize op <? Offset b + Len b then RwOffset op + RwSize op
               else Offset b + Len b).
    assert (lo = Z.max (Offset b) (RwOffset op)) as Hlo by (unfold lo; zbool).
    assert (hi = Z.min (Offset b + Len b) (RwOffset op + RwSize op)) as Hhi by (unfold hi; zbool).
    assert (lo < hi) as Hlt by zbool. clearbody lo hi.
    apply wp_bind, wp_assert; [zbool|]. apply wp_bind, wp_assert; [zbool|].
    destruct (go_slice_ok (dataBuf b) lo hi) as (d & Hd & Hdl & Hdb); [lia..|].
    apply wp_bind. eapply wp_lift.
    { unfold Buffer_GetRangeData. rewrite (u32_small (Offset b + Len b)) by lia.
      rewrite (proj2 (Z.leb_le (Offset b) lo)), (proj2 (Z.leb_le hi _)) by lia. exact Hd. }
    rewrite !u32_small by lia.
    destruct (go_copy_ok buf (lo - RwOffset op) d) as (buf' & Hcp & Hcl & Hcb); [lia..|].
    apply wp_bind. eapply wp_lift; [exact Hcp|]. apply wp_ret. split; [done|].
    simpl. eapply (merged_copy b lo hi); [done|by rewrite Hcl|done..|].
    intros k Hk. rewrite Hcb. replace (lo - RwOffset op + Zlen d) with (hi - RwOffset op) by lia.
    destruct (_ && _) eqn:E; [|done]. rewrite Hdb by zbool. f_equal. lia.
Qed.
End Merge.

(** ** One block of a read *)

(** The blocks that are about to be read are [free]. *)
Record rd_pre s f (free : Z → Prop) : Prop := {
  rp_rwf : pool_wf BS (rc s);
  rp_wwf : pool_wf BS (wc s);
  rp_fb : is_Some (Cache (rc s) !! f);
  rp_coh : rcoherent s f;
  rp_rlock : ∀ j, free j → lockof (rc s) f j = None;
  rp_wlock : ∀ j, free j → lockof (wc s) f j = None;
}.

Lemma rd_pre_same s s' f free : same_files s s' → rd_pre s f free → rd_pre s' f free.
Proof.
  intros Hs [????]. pose proof Hs as (w' & -> & Hw). constructor; try done.
  by eapply same_files_rcoherent.
Qed.

Definition w_handle s f : option Z := match Cache (wc s) !! f with Some _ => Some f | None => None end.

Definition not_cached s f i : bool := bool_decide (slot (rc s) f i = None).

Definition block_post s f op (r : ReadResult) : Prop :=
  match rd_err r with
  | Some _ => is_errno (rd_err r)
  | None => merged s f op (not_cached s f (Index op)) (rd_size r) (rd_buf r)
  end.

Lemma set_rc_id s : set_rc (rc s) s = s.
Proof. by destruct s. Qed.

Lemma merged_nowrite s f op r :
  Cache (wc s) !! f = None → pool_wf BS (wc s) → op_ok (op_fe op) op → BlockSize (op_fe op) = BS →
  read_post (content (world s) f) (Index op * BS + RwOffset op) op
    (negb (not_cached s f (Index op))) r →
  block_post s f op r.
Proof.
  intros Hc Hwf Hop HB. unfold read_post, block_post. destruct (rd_err r); [done|].
  intros (Hl & Hb & Hn & Hex). pose proof Hop as (_ & ? & _ & ? & ? & ? & _). rewrite HB in *.
  assert (∀ j, slot (wc s) f j = None) as Hs by (intros j; unfold slot; by rewrite Hc).
  assert (∀ j, slot_buf (wc s) f j = None) as Hsb by (intros j; unfold slot_buf; by rewrite Hs).
  unfold avail in *. split_and!; try lia.
  - intros k Hk. rewrite Hb, abyte_block, Hsb by lia. f_equal. lia.
  - intros E k Hk. left. rewrite E in Hex. specialize (Hex eq_refl). lia.
  - intros k Hk Hlive. left.
    destruct (live_block s f (Index op) (RwOffset op + k) Hwf ltac:(lia) Hlive)
      as [?|[(b & Hb' & _)|(j & _ & Hj)]]; [lia|congruence|by rewrite Hs in Hj].
Qed.

(** [merged] depends on the buffers and the files only. *)
Lemma merged_same s s' f op ex sz buf :
  (∀ j, slot (wc s') f j = slot (wc s) f j) → (∀ j, slot_buf (wc s') f j = slot_buf (wc s) f j) →
  content (world s') f = content (world s) f →
  merged s' f op ex sz buf → merged s f op ex sz buf.
Proof.
  intros Hs Hsb Hc (A1 & A2 & A3 & A4 & A5).
  assert (∀ x, live (wview BS s' f) x ↔ live (wview BS s f) x) as Hl.
  { intros x. simpl. rewrite Hc. by setoid_rewrite Hsb. }
  split_and!; try done; try apply A2.
  - intros k Hk. rewrite A3 by done. simpl. by rewrite Hc, Hsb.
  - intros E k Hk. apply Hl. by apply A4.
  - intros k Hk Hlive. apply Hl in Hlive. specialize (A5 k Hk Hlive).
    setoid_rewrite Hs in A5. done.
Qed.

Lemma wp_bracket {A B} (a c : M (CS W) unit) (m : M (CS W) A) (K : A → M (CS W) B) Q s :
  wp (a;;; let! r := m in c;;; ret r) (λ r, wp (K r) Q) s → wp (a;;; let! r := m in c;;; K r) Q s.
Proof.
  unfold wp, bind, ret. destruct (a s) as [[? s1]| |]; [|done..].
  destruct (m s1) as [[r s2]| |]; [|done..]. by destruct (c s2) as [[? s3]| |].
Qed.

Lemma wp_ReadBlock s fe op free :
  rd_pre s (fe_Id fe) free → free (Index op) → BlockSize fe = BS → op_ok fe op → (∀ k, byte_at (rwBuf op) k = 0) →
  wp (ReadBlock fe (fe_Id fe) (w_handle s (fe_Id fe)) op) (λ r s',
    same_files s s' ∧ block_post s (fe_Id fe) op r) s.
Proof.
  intros Hpre Hfree Hfe Hop Hz. set (f := fe_Id fe) in *.
  destruct Hpre as [Hrwf Hwwf [fbr Hfbr] Hcoh Hrl Hwl]. specialize (Hrl _ Hfree). specialize (Hwl _ Hfree).
  pose proof Hop as (Hofe & _).
  (* the read itself, from any state with the same pools up to read locks *)
  assert (∀ s1, world s1 = world s → rc s1 = rc s →
    wp (onr (fb_lock f (RLockBuffer (Index op)));;; let! r := ReadOp fe f op in
        onr (fb_lock f (RUnLockBuffer (Index op)));;; ret r)
      (λ r s', same_files s1 s' ∧ read_post (content (world s) f) (Index op * BS + RwOffset op) op
        (negb (not_cached s f (Index op))) r) s1) as Hread.
  { intros s1 Hw1 Hr1. apply wp_bind, wp_zoom, (wp_rlock _ _ fbr); [by rewrite Hr1..|].
    rewrite Hr1. destruct (rlocked_facts f (Index op) fbr (rc s) Hfbr) as (Hc2 & Hs2 & Hsb2 & Hwf2).
    apply wp_bind. eapply wp_mono; [|eapply (wp_ReadOp _ fe op); try done; try apply Hwf2, Hrwf].
    2:{ intros i b. simpl. fold f. rewrite Hsb2, Hw1. apply Hcoh. }
    simpl. intros r s2 [(w2 & -> & Hw2) Hp]. apply wp_bind, wp_zoom. simpl.
    apply (wp_runlock f (Index op) fbr); [done..|]. apply wp_ret. split.
    - exists w2. split; [destruct s1; simpl in *; by subst|]. intros g. rewrite Hw2. done.
    - rewrite Hw1, Hs2 in Hp. fold f in Hp.
      replace (negb (not_cached s f (Index op))) with (bool_decide (is_Some (slot (rc s) f (Index op)))); [done|].
      unfold not_cached. by destruct (slot (rc s) f (Index op)). }
  unfold ReadBlock, w_handle. fold f. destruct (Cache (wc s) !! f) as [fbw|] eqn:Ew.
  - apply wp_bind, wp_onw, (wp_rlock _ _ fbw); [done..|].
    set (s1 := set_wc (rlocked f (Index op) fbw (wc s)) s).
    apply wp_bracket. eapply wp_mono; [|by apply (Hread s1)].
    intros r s2 [(w2 & -> & Hw2) Hp]. unfold block_post, read_post in *.
    assert (∀ A (Q : A → CS W → Prop) (a : A),
      (∀ w', (∀ g, content w' g = content (world s) g) → Q a (set_world w' s)) →
      wp (onw (fb_lock f (RUnLockBuffer (Index op)));;; ret a) Q (set_world w2 s1)) as Hun.
    { intros A Q a HQ. apply wp_bind, wp_onw. simpl. apply (wp_runlock f (Index op) fbw); [done..|].
      apply wp_ret. destruct s; simpl. by apply HQ. }
    destruct (rd_err r) as [e|] eqn:Ee.
    + apply Hun. intros w' Hw'. split; [by exists w'|]. by rewrite Ee.
    + destruct Hp as (Hl & Hb & Hn & Hex).
      destruct (rlocked_facts f (Index op) fbw (wc s) Ew) as (Hc2 & Hs2 & Hsb2 & Hwf2).
      apply wp_bind. eapply wp_mono; [|eapply (wp_MergeOp (set_world w2 s1) fe op _ (rd_buf r) (rd_size r)
        (not_cached s f (Index op)))]; simpl; try done.
      * intros [sz buf] s3 [-> Hm]. apply Hun. intros w' Hw'. split; [by exists w'|]. simpl.
        revert Hm. apply merged_same; [intros; apply Hs2|intros; apply Hsb2|done].
      * by apply Hwf2.
      * intros k Hk. rewrite Hw2, Hb by done. simpl. f_equal. lia.
      * rewrite Hw2. done.
      * rewrite Hw2. intros E. apply Hex. by rewrite E.
  - apply wp_bind, wp_ret, wp_bracket. eapply wp_mono; [|by apply (Hread s)].
    intros r s2 [Hsf Hp]. assert (block_post s f op r) as Hbp.
    { apply merged_nowrite; try done; by rewrite Hofe. }
    destruct (rd_err r); by apply wp_ret.
Qed.

(** ** The loop over the blocks *)

Lemma live_down s f x y : y ≤ x → live (wview BS s f) x → live (wview BS s f) y.
Proof.
  intros Hle [?|(j & b & Hb & ?)]; [left; lia|right]. exists j, b. split; [done|lia].
Qed.

Lemma zero_app (d1 d2 : bytes) :
  (∀ k, byte_at (d1 ++ d2) k = 0) → (∀ k, byte_at d1 k = 0) ∧ (∀ k, byte_at d2 k = 0).
Proof.
  intros Hz. split; intros k.
  - specialize (Hz k). rewrite byte_at_app in Hz. destruct (Z.ltb_spec k (Zlen d1)); [done|].
    by apply byte_at_ge.
  - specialize (Hz (Zlen d1 + k)). rewrite byte_at_app in Hz.
    destruct (Z.ltb_spec (Zlen d1 + k) (Zlen d1)); [by apply byte_at_neg; lia|].
    by replace (Zlen d1 + k - Zlen d1) with k in Hz by lia.
Qed.

(** The block before [e] is either not buffered, or nothing after it is. *)
Definition last_ok s f e : Prop :=
  slot (wc s) f ((e - 1) / BS) = None ∨ ∀ j, (e - 1) / BS < j → slot (wc s) f j = None.

Lemma same_files_pools s s' : same_files s s' → rc s' = rc s ∧ wc s' = wc s.
Proof. by intros (w & -> & _). Qed.

(** The result of the loop from position [pos] of the buffer on; [off] is the
    file offset there. *)
Definition loop_post s f offset pos (len total Sz : Z) (r : ReadResult) : Prop :=
  match rd_err r with
  | Some _ => is_errno (rd_err r)
  | None =>
      Zlen (rd_buf r) = total ∧
      (∀ k, 0 ≤ k < total → byte_at (rd_buf r) k = abyte (wview BS s f) (offset + k)) ∧
      (rd_size r = Sz ∨ pos < rd_size r ≤ pos + len) ∧
      ((∀ j, slot (rc s) f j = None) → (∀ k, 0 ≤ k < Sz → live (wview BS s f) (offset + k)) →
       ∀ k, 0 ≤ k < rd_size r → live (wview BS s f) (offset + k)) ∧
      (last_ok s f (offset + pos + len) → ∀ k, pos ≤ k < pos + len →
       live (wview BS s f) (offset + k) → k < rd_size r)
  end.

Lemma loop_post_cons s s1 f offset op d2 pos total Sz sz buf r :
  pool_wf BS (wc s) → same_files s s1 → 0 < RwSize op → 0 ≤ RwOffset op →
  RwOffset op + RwSize op ≤ BS →
  Index op * BS + RwOffset op = offset + pos → 0 ≤ pos → 0 ≤ Sz ≤ pos → 0 ≤ d2 →
  (d2 = 0 ∨ RwOffset op + RwSize op = BS) →
  merged s f op (not_cached s f (Index op)) sz buf →
  loop_post s1 f offset (pos + RwSize op) d2 total (if sz =? 0 then Sz else pos + sz) r →
  loop_post s f offset pos (RwSize op + d2) total Sz r.
Proof.
  intros Hwf Hsf Hs Ho Hos Hoff Hp HSz Hd2 Hend (M1 & M2 & M3 & M4 & M5).
  pose proof (same_files_view _ _ f Hsf) as Hv. pose proof (same_files_pools _ _ Hsf) as [Hrc Hwc].
  unfold loop_post, last_ok. rewrite Hv, Hrc, Hwc.
  destruct (rd_err r); [done|]. intros (A1 & A2 & A3 & A4 & A5).
  set (S' := if sz =? 0 then Sz else pos + sz) in *.
  assert (∀ k, 0 ≤ k < RwSize op → offset + (pos + k) = Index op * BS + (RwOffset op + k)) as Hat by lia.
  split_and!; try done.
  - unfold S' in A3. zbool.
  - intros Hno HSl. apply A4; [done|]. intros k Hk. unfold S' in Hk.
    destruct (Z.eqb_spec sz 0); [by apply HSl|].
    apply (live_down _ _ (offset + (pos + (sz - 1)))); [lia|]. rewrite Hat by lia.
    apply M4; [|lia]. unfold not_cached. by rewrite Hno.
  - intros Hlast k Hk Hlive. destruct (Z.lt_ge_cases k (pos + RwSize op)) as [Hin|Hin].
    2:{ apply A5; [|lia|done]. by replace (offset + (pos + RwSize op) + d2) with
          (offset + pos + (RwSize op + d2)) by lia. }
    destruct (M5 (k - pos)) as [Hsz|[Hsome (j & Hj & Hsj)]]; [lia| | |].
    + rewrite <- Hat by lia. by replace (pos + (k - pos)) with k by lia.
    + unfold S' in A3. zbool.
    + destruct (Z.eq_dec d2 0) as [->|Hne].
      * exfalso. replace (offset + pos + (RwSize op + 0) - 1) with
          (Index op * BS + (RwOffset op + RwSize op - 1)) in Hlast by lia.
        destruct (div_block (Index op) (RwOffset op + RwSize op - 1)) as [Hq _]; [lia|].
        rewrite Hq in Hlast. destruct Hlast as [?|Hn]; [done|]. by apply Hsj, Hn.
      * apply Z.lt_trans with (pos + RwSize op); [lia|].
        apply A5; [by replace (offset + (pos + RwSize op) + d2) with
          (offset + pos + (RwSize op + d2)) by lia|lia|].
        replace (offset + (pos + RwSize op)) with (Index op * BS + (RwOffset op + RwSize op)) by lia.
        eapply live_higher; [done|lia|exact Hj|done].
Qed.

Lemma wp_doRead_loop fe ops offset total free : ∀ s data pos dbuf Sz,
  rd_pre s (fe_Id fe) free → Forall (λ op, free (Index op)) ops → BlockSize fe = BS → 0 ≤ offset → 0 ≤ pos →
  tiling fe (offset + pos) data pos ops → (∀ k, byte_at data k = 0) →
  pos + Zlen data = total → Zlen dbuf = total → total < 2 ^ 32 →
  (∀ k, 0 ≤ k < pos → byte_at dbuf k = abyte (wview BS s (fe_Id fe)) (offset + k)) →
  0 ≤ Sz ≤ pos →
  wp (doRead_loop fe (fe_Id fe) (w_handle s (fe_Id fe)) offset ops dbuf Sz) (λ r s',
    same_files s s' ∧ loop_post s (fe_Id fe) offset pos (Zlen data) total Sz r) s.
Proof.
  set (f := fe_Id fe).
  induction ops as [|op ops IH]; intros s data pos dbuf Sz Hpre Hfr Hfe Hoff Hp Ht Hz Htot Hdl Hmax Hdb HS.
  - inversion Ht; subst. apply wp_ret. split; [apply same_files_refl|].
    unfold loop_post. simpl. rewrite Zlen_nil in *. split_and!; try lia; try done.
    intros k Hk. apply Hdb. lia.
  - assert (∃ d2, data = rwBuf op ++ d2) as [d2 ->] by (inversion Ht; eauto).
    apply zero_app in Hz as [Hz1 Hz2]. rewrite Zlen_app in *.
    assert (rwPos op = pos ∧ (d2 = [] ∨ RwOffset op + RwSize op = BlockSize fe)) as [Hpos Hend].
    { inversion Ht as [|o1 p1 op1 d0 ops1 K1 K2 K3 K4 Hend' K5 Heq]; subst. split; [done|].
      match goal with E : _ ++ d0 = _ ++ d2 |- _ => apply app_inv_head in E; by subst d0 end. }
    destruct (tiling_offset _ _ _ _ _ _ Ht ltac:(lia) ltac:(lia)) as [Hfo _].
    apply tiling_next in Ht as (Hposn & Hidx & Hop & Hrest & _); [|lia|lia]. rewrite Hfe in *.
    pose proof Hop as (_ & Hi0 & _ & Ho & Hsz & Hos & Hl). rewrite Hfe in *. pose proof (Zlen_nonneg d2).
    apply Forall_cons in Hfr as [Hfr1 Hfr].
    simpl. apply wp_bind. eapply wp_mono; [|by apply (wp_ReadBlock s fe op free)].
    fold f. intros r s1 [Hsf Hbp]. unfold block_post in Hbp.
    destruct (rd_err r) as [e|] eqn:Ee.
    { apply wp_ret. split; [done|]. unfold loop_post. by rewrite Ee. }
    pose proof Hbp as (M1 & M2 & M3 & _). rewrite Hpos, Hfo. rewrite Hl in *.
    destruct (go_copy_ok dbuf pos (rd_buf r)) as (dbuf' & Hcp & Hcl & Hcb); [lia..|].
    apply wp_bind. eapply wp_lift; [exact Hcp|].
    replace (offset + pos - offset) with pos by lia. rewrite (u64_small pos), (i64_small pos) by lia.
    assert (w_handle s f = w_handle s1 f) as ->.
    { unfold w_handle. by destruct (same_files_pools _ _ Hsf) as [_ ->]. }
    eapply wp_mono; [|apply (IH s1 d2 (pos + RwSize op) dbuf' (if rd_size r =? 0 then Sz else pos + rd_size r))];
      try done; try lia.
    + intros r' s2 [Hsf2 Hlp]. split; [by eapply same_files_trans|].
      eapply loop_post_cons; try done.
      * apply Hpre.
      * destruct Hend as [->|?]; [left; done|by right].
    + by eapply rd_pre_same.
    + by rewrite Z.add_assoc.
    + intros k Hk. rewrite Hcb, M1. fold f. rewrite (same_files_view _ _ f Hsf).
      destruct ((pos <=? k) && (k <? pos + RwSize op)) eqn:E; [|apply Hdb; zbool].
      rewrite M3 by zbool. f_equal. lia.
    + zbool.
Qed.

(** ** [doRead] *)

(** The caller's buffer after a read of [buffer] at [offset]. *)
Definition read_result s f offset (buffer : bytes) (r : ReadResult) : Prop :=
  Zlen (rd_buf r) = Zlen buffer ∧
  match rd_err r with
  | Some _ => is_errno (rd_err r) ∧ rd_buf r = buffer
  | None =>
      0 ≤ rd_size r ≤ Zlen buffer ∧
      (∀ k, 0 ≤ k < rd_size r → byte_at (rd_buf r) k = abyte (wview BS s f) (offset + k)) ∧
      (∀ k, rd_size r ≤ k → byte_at (rd_buf r) k = byte_at buffer k) ∧
      ((∀ j, slot (rc s) f j = None) → ∀ k, 0 ≤ k < rd_size r → live (wview BS s f) (offset + k)) ∧
      (last_ok s f (offset + Zlen buffer) → ∀ k, 0 ≤ k < Zlen buffer →
       live (wview BS s f) (offset + k) → k < rd_size r)
  end.

(** A new, empty table in the read cache changes nothing. *)
Lemma rc_new_table s fe (Q : option Z → CS W → Prop) :
  pool_wf BS (rc s) → BlockSize fe = BS →
  (∀ s1, is_Some (Cache (rc s1) !! fe_Id fe) → pool_wf BS (rc s1) → wc s1 = wc s →
     world s1 = world s → chPrefetch s1 = chPrefetch s → chSync s1 = chSync s →
     (∀ g j, slot (rc s1) g j = slot (rc s) g j) → (∀ g j, slot_buf (rc s1) g j = slot_buf (rc s) g j) →
     (∀ g j, lockof (rc s1) g j = lockof (rc s) g j) → Q (Some (fe_Id fe)) s1) →
  wp (RCache_GetFileBuffer fe true) Q s.
Proof.
  intros Hwf Hfe HQ. apply wp_zoom. unfold GetFileBuffer. apply wp_bind, wp_gets.
  destruct (Cache (rc s) !! fe_Id fe) as [fb|] eqn:E.
  { apply wp_ret. rewrite set_rc_id. by apply HQ. }
  apply wp_bind, wp_modify, wp_ret.
  assert (∀ g j, slot (set_cache (<[fe_Id fe := NewFileBuffer fe]> (Cache (rc s))) (rc s)) g j
    = slot (rc s) g j) as Hs.
  { intros. rewrite slot_set_cache. case_decide; [subst|done]. unfold slot. by rewrite E. }
  apply HQ; try done; simpl.
  - rewrite lookup_insert_eq. eauto.
  - by apply wf_new_fb.
  - intros. unfold slot_buf. by rewrite Hs.
  - intros. rewrite lockof_set_cache. case_decide; [subst|done]. unfold lockof. by rewrite E.
Qed.

(** What [doRead] does once the file has a table and the prefetch window has
    been looked at. *)
Definition doRead_finish (fe : FileEntry) (fidR : Z) (buffer : bytes) (offset : Z) : M (CS W) ReadResult :=
  let dataBuf := zeros (Zlen buffer) in
  let! fidW := onw (GetFileBuffer fe false) in
  let! ops := lift (RCache_Slice fe dataBuf offset) in
  let! r := doRead_loop fe fidR fidW offset ops dataBuf 0 in
  match rd_err r with
  | Some _ => ret (MkRead (rd_size r) (rd_err r) buffer)
  | None =>
      Assert (rd_size r <=? Zlen buffer);;;
      let! data := lift (go_slice (rd_buf r) 0 (rd_size r)) in
      ret (MkRead (rd_size r) None (copy0 buffer data))
  end.

Lemma doRead_finish_spec fe buffer offset s :
  rd_pre s (fe_Id fe) (λ j, offset / BS ≤ j ≤ (offset + Zlen buffer - 1) / BS) →
  BlockSize fe = BS → req_ok fe buffer offset →
  wp (doRead_finish fe (fe_Id fe) buffer offset) (λ r s',
    same_files s s' ∧ read_result s (fe_Id fe) offset buffer r) s.
Proof.
  intros Hpre Hfe Hreq. set (f := fe_Id fe) in *.
  pose proof (Zlen_nonneg buffer) as Hl0.
  assert (Zlen (zeros (Zlen buffer)) = Zlen buffer) as Hzl by (by apply Zlen_zeros).
  assert (req_ok fe (zeros (Zlen buffer)) offset) as Hreq0.
  { destruct Hreq as (?&?&Hne&?&?). unfold req_ok. rewrite Hzl. split_and!; try done; try lia.
    intros E. rewrite E in Hzl. apply Zlen_pos in Hne. rewrite Zlen_nil in Hzl. lia. }
  unfold doRead_finish. apply wp_bind, wp_onw.
  apply wp_mono with (P := λ r p, r = w_handle s f ∧ p = wc s).
  2:{ unfold GetFileBuffer. apply wp_bind, wp_gets. unfold w_handle. fold f.
      by destruct (Cache (wc s) !! f). }
  intros r ? [-> ->]. rewrite set_wc_id.
  destruct (Slice_tiling _ _ _ Hreq0) as (ops & HS & Ht). apply wp_bind.
  eapply wp_lift; [rewrite RCache_Slice_eq by (destruct Hreq0 as (?&?&_); lia); exact HS|].
  apply wp_bind. eapply wp_mono; [|eapply (wp_doRead_loop fe ops offset (Zlen buffer) _ s
    (zeros (Zlen buffer)) 0 (zeros (Zlen buffer)) 0); [exact Hpre|..]]; try done; try lia.
  - fold f. intros r2 s2 [Hsf Hlp]. unfold loop_post in Hlp. rewrite Hzl in Hlp.
    destruct (rd_err r2) as [e|] eqn:Ee.
    + apply wp_ret. split; [done|]. split; [done|]. simpl. done.
    + destruct Hlp as (B1 & B2 & B3 & B4 & B5). apply wp_bind, wp_assert; [zbool|].
      destruct (go_slice_ok (rd_buf r2) 0 (rd_size r2)) as (d & Hd & Hdl & Hdb); [lia..|].
      apply wp_bind. eapply wp_lift; [exact Hd|]. apply wp_ret. simpl.
      destruct (copy0_ok buffer d) as [Hcl Hcb]; [lia|].
      split; [done|]. split; [done|]. simpl. split_and!; try lia.
      * intros k Hk. rewrite Hcb, Hdl. rewrite (proj2 (Z.leb_le 0 k)), (proj2 (Z.ltb_lt k _)) by lia.
        simpl. rewrite Hdb, B2 by lia. done.
      * intros k Hk. rewrite Hcb, Hdl. zbool.
      * intros Hno. apply B4; [done|lia].
      * intros Hlast k Hk. apply B5; [|lia]. by rewrite Z.add_0_r.
  - apply List.Forall_forall. intros op Hop. apply list_elem_of_In, list_elem_of_lookup in Hop as [i Hop].
    destruct Hreq0 as (HB & Ho & _). rewrite Hfe in *.
    destruct (tiling_lookup _ _ _ _ _ Ht Ho ltac:(lia) i op Hop) as (Hok & Hi & Hf & Hd).
    destruct (op_pos BS HBS fe op Hfe Hok) as [Hpos _].
    destruct Hok as (_ & _ & _ & Hro & Hrs & _ & Hl). rewrite Hfe, Z.sub_0_r in *. split; [lia|].
    apply (f_equal length) in Hd. rewrite length_take, length_drop in Hd.
    apply Z.div_le_lower_bound; [lia|]. unfold Zlen in *. lia.
  - apply Hreq.
  - by rewrite Z.add_0_r.
  - apply byte_at_zeros.
  - destruct Hreq as (?&?&?&?&?). pose proof (Z.mod_pos_bound offset (BlockSize fe) ltac:(lia)). lia.
Qed.

Lemma doRead_spec fe buffer offset s :
  pool_wf BS (rc s) → pool_wf BS (wc s) → rcoherent s (fe_Id fe) →
  (∀ j, lockof (rc s) (fe_Id fe) j = None) → (∀ j, lockof (wc s) (fe_Id fe) j = None) →
  chPrefetch s = None → BlockSize fe = BS → req_ok fe buffer offset →
  wp (doRead fe buffer offset) (λ r s',
    wc s' = wc s ∧ chSync s' = chSync s ∧ (∀ g, content (world s') g = content (world s) g) ∧
    read_result s (fe_Id fe) offset buffer r) s.
Proof.
  intros Hrwf Hwwf Hcoh Hrl Hwl Hch Hfe Hreq. set (f := fe_Id fe) in *.
  unfold doRead. apply wp_bind. eapply rc_new_table; [done..|].
  intros s1 Hfb1 Hwf1 Hwc1 Hw1 Hch1 Hcs1 Hs1 Hsb1 Hl1. apply wp_bind. unfold TryDoPrefetch.
  apply wp_bind, wp_gets. rewrite Hch1, Hch. apply wp_ret.
  assert (wview BS s1 f = wview BS s f) as Hv by (unfold wview; by rewrite Hwc1, Hw1).
  eapply wp_mono; [|apply (doRead_finish_spec fe buffer offset s1)]; [|constructor|done|done]; try done.
  - intros r s2 [(w2 & -> & Hw2) Hr]. fold f in Hr. simpl. split_and!; [done|done|intros g; by rewrite Hw2, Hw1|].
    unfold read_result, last_ok in *. rewrite Hwc1, Hv in Hr. destruct Hr as [Hl Hr]. split; [done|].
    destruct (rd_err r); [done|]. destruct Hr as (R1 & R2 & R3 & R4 & R5).
    split; [done|]. split; [done|]. split; [done|]. split; [|done]. intros Hno. apply R4. intros j. by rewrite Hs1.
  - by rewrite Hwc1.
  - intros i b. rewrite Hsb1, Hw1. apply Hcoh.
  - intros j _. by rewrite Hl1.
  - intros j _. by rewrite Hwc1.
Qed.
End Read.
