(* ===== verification/RCacheProof.v ===== *)
(** Correctness of the read cache: releasing and cleaning, prefetching, and the
    invariant that ties the block locks to the prefetch channel. *)

From stdpp Require Import base gmap list strings.
From Stdlib Require Import ZArith Lia.
From S2P Require Import Prelude GoString Proto Store Buffer Pool View CacheState WCache.
From S2P Require Import WCacheProof RCache RWCache RWCacheProof.

Section Proof.
Context {W : Type} `{ProxyStore W}.
Context (BS : Z) {shut : bool}.
Hypothesis HBS : 0 < BS < 2 ^ 32.
Implicit Types (s : CS W) (p : Pool).

Lemma wp_onr {A} (m : M Pool A) Q s :
  wp m (λ a p, Q a (set_rc p s)) (rc s) → wp (onr m) Q s.
Proof. apply wp_zoom. Qed.

(** ** Releasing *)

(** A step on block [i] of [f] that leaves it unlocked. *)
Definition rblock f i p p' : Prop :=
  pool_wf BS p' ∧ only f i p p' ∧ lockof p' f i = None ∧ is_Some (Cache p' !! f) ∧
  ExpireTime p' = ExpireTime p.

Lemma wp_ReleaseBuffer f i (Q : option error → CS W → Prop) s :
  pool_wf BS (rc s) → is_Some (Cache (rc s) !! f) → lockof (rc s) f i = None →
  (∀ p', rblock f i (rc s) p' → slot p' f i = None →
     (∀ bid, slot (rc s) f i = Some bid → LruList p' = list_remove_id bid (LruList (rc s))) →
     (∀ x, slot (rc s) f i ≠ Some x → bufs p' !! x = bufs (rc s) !! x) →
     Q None (set_rc p' s)) →
  wp (ReleaseBuffer f i) Q s.
Proof.
  intros Hwf Hc Hl HQ. unfold ReleaseBuffer. apply wp_bind, wp_onr, (wp_lock BS); [done..|].
  intros p1 (Hwf1 & Ho1 & Hs1 & Hb1 & He1 & [fb Hc1] & Hlr1) Hl1.
  set (s1 := set_rc p1 s).
  (* from the state before the unlocking *)
  assert (∀ p2, pool_wf BS p2 → is_Some (Cache p2 !! f) → only f i p1 p2 →
    lockof p2 f i = Some (MkLock WriteLock 0) → slot p2 f i = None → ExpireTime p2 = ExpireTime p1 →
    (∀ bid, slot (rc s) f i = Some bid → LruList p2 = list_remove_id bid (LruList (rc s))) →
    (∀ x, slot (rc s) f i ≠ Some x → bufs p2 !! x = bufs (rc s) !! x) →
    wp (onr (fb_lock f (UnLockBuffer i));;; ret None) Q (set_rc p2 s)) as Hend.
  { intros p2 Hwf2 Hc2 Ho2 Hl2 Hn2 He2 Hlr2 Hb2. apply wp_bind, wp_onr, (wp_unlock BS); [done..|].
    intros p3 (Hwf3 & Ho3 & Hs3 & Hb3 & He3 & Hc3 & Hlr3) Hl3. apply wp_ret. simpl.
    apply HQ.
    - split_and!; try done; [|simpl in *; congruence].
      eapply only_trans; [exact Ho1|]. by eapply only_trans.
    - by rewrite Hs3.
    - intros bid Hb. rewrite Hlr3. by apply Hlr2.
    - intros x Hx. rewrite Hb3. by apply Hb2. }
  apply wp_bind. unfold ReleaseBuffer_body.
  apply wp_bind, wp_onr, (wp_GetBuffer _ _ fb); [done|]. simpl. rewrite Hs1.
  destruct (slot (rc s) f i) as [bid|] eqn:Es.
  2:{ apply wp_ret. apply Hend; try done; [|by rewrite Hb1]. by rewrite Hs1. }
  assert (slot p1 f i = Some bid) as Es1 by (by rewrite Hs1).
  destruct (wf_slot_buf _ _ _ _ _ Hwf1 Es1) as (b & Hb & Hok).
  apply wp_bind, wp_onr, (wp_RemoveLru BS _ b); [done..|].
  apply wp_bind. unfold r_release_buffer. apply wp_bind, wp_onr. unfold DetachBuffer.
  eapply wp_fb_upd; [exact Hc1|done|]. apply wp_onr. unfold FreeBuffer. apply wp_modify, wp_ret.
  set (b1 := set_elm false (LastUpdateTime b) b).
  destruct (step_release BS HBS p1 f i fb bid b b1) as ((Hwf2 & Ho2 & Hl2 & He2 & Hc2) & Hsb2); try done.
  { apply Hok. }
  apply (Hend (MkPool (<[bid := b1]> (bufs p1)) (FreeList p1 ++ [bid])
    (<[f := FB_DetachBuffer i fb]> (Cache p1)) (list_remove_id bid (LruList p1)) (ExpireTime p1))); try done.
  - by rewrite Hl2.
  - unfold slot. simpl. rewrite lookup_insert_eq. simpl. apply lookup_delete_eq.
  - intros ? [= <-]. simpl. by rewrite Hlr1.
  - intros x Hx. simpl. rewrite lookup_insert_ne by congruence. by rewrite Hb1.
Qed.

(** Several blocks of [f] were released; nothing else changed. *)
Definition rshrink f (gone : Z → Prop) p p' : Prop :=
  pool_wf BS p' ∧ is_Some (Cache p' !! f) ∧ ExpireTime p' = ExpireTime p ∧
  (∀ g j, lockof p' g j = lockof p g j) ∧
  (∀ g j, ¬ (g = f ∧ gone j) → slot_buf p' g j = slot_buf p g j ∧ slot p' g j = slot p g j) ∧
  (∀ j, gone j → slot p' f j = None).

Lemma rshrink_one f i p p' :
  rblock f i p p' → lockof p f i = None → slot p' f i = None → rshrink f (λ j, j = i) p p'.
Proof.
  intros (Hwf & Ho & Hl' & Hc & He) Hl Hs. split_and!; try done.
  - intros g j. destruct (decide (g = f ∧ j = i)) as [[-> ->]|Hn]; [congruence|by apply Ho].
  - intros g j Hn. by destruct (Ho g j Hn) as (? & ? & ?).
  - by intros j ->.
Qed.

Lemma rshrink_trans f A B p1 p2 p3 :
  rshrink f A p1 p2 → rshrink f B p2 p3 → (∀ j, A j ∨ ¬ A j) → (∀ j, B j ∨ ¬ B j) →
  rshrink f (λ j, A j ∨ B j) p1 p3.
Proof.
  intros (_ & _ & E1 & L1 & S1 & G1) (W2 & C2 & E2 & L2 & S2 & G2) DA DB. split_and!; try done.
  - congruence.
  - intros. by rewrite L2.
  - intros g j Hn. destruct (S2 g j) as [-> ->]; [tauto|]. apply S1. tauto.
  - intros j HAB. destruct (DB j) as [Hb|Hb]; [by apply G2|].
    destruct (S2 f j) as [_ ->]; [tauto|]. apply G1. tauto.
Qed.

Lemma rshrink_mono f A B p p' : (∀ j, A j ↔ B j) → rshrink f A p p' → rshrink f B p p'.
Proof.
  intros E (Hw & Hc & He & Hl & Hs & Hg). split_and!; try done.
  - intros g j Hn. apply Hs. by rewrite E.
  - intros j Hj. apply Hg. by rewrite E.
Qed.

Lemma wp_Clean_loop f fuel : ∀ s lo hi (Q : unit → CS W → Prop),
  pool_wf BS (rc s) → is_Some (Cache (rc s) !! f) → (∀ j, lockof (rc s) f j = None) →
  fuel = Z.to_nat (hi - lo) → 0 ≤ lo ≤ hi → hi < 2 ^ 64 →
  (∀ p', rshrink f (λ j, lo ≤ j < hi) (rc s) p' → Q tt (set_rc p' s)) →
  wp (Clean_loop fuel f lo hi) Q s.
Proof.
  induction fuel as [|fuel IH]; intros s lo hi Q Hwf Hc Hl Hf Hlo Hhi HQ.
  - simpl. apply wp_ret. rewrite <- (set_rc_id s). apply HQ. split_and!; try done. intros j ?. lia.
  - simpl. rewrite (proj2 (Z.ltb_lt lo hi)) by lia. apply wp_bind.
    apply wp_ReleaseBuffer; [done..|by rewrite Hl|]. intros p1 Hrb Hs1 _ _.
    pose proof (rshrink_one f lo _ _ Hrb (Hl lo) Hs1) as Hsh.
    pose proof Hsh as (Hwf1 & Hc1 & He1 & Hl1 & _).
    rewrite u64_small by lia. apply (IH (set_rc p1 s)); simpl; try done; try lia.
    + intros j. by rewrite Hl1.
    + intros p2 Hsh2. apply HQ. eapply rshrink_mono; [|eapply rshrink_trans; [exact Hsh|exact Hsh2|..]].
      * intros j. cbv beta. lia.
      * intros j. cbv beta. lia.
      * intros j. cbv beta. lia.
Qed.

(** ** [Clean] and [Write] *)

Definition window_lo (offset : Z) : Z := offset / BS.
Definition window_hi (offset size : Z) : Z := (offset + size + BS - 1) / BS.

Lemma window_bounds offset size :
  0 ≤ offset → 0 < size → offset + size + BS < 2 ^ 64 →
  0 ≤ window_lo offset < window_hi offset size ∧ window_hi offset size < 2 ^ 64.
Proof.
  intros Ho Hs Hm. unfold window_lo, window_hi.
  assert (0 ≤ offset / BS) by (apply Z.div_pos; lia).
  destruct (blk_bound BS offset size _ ltac:(lia) Hs eq_refl ltac:(lia)) as [? _].
  split; [lia|]. apply Z.le_lt_trans with (offset + size + BS - 1); [|lia].
  apply Z.div_le_upper_bound; nia.
Qed.

Lemma GetReadWindow_ok fe size offset :
  BlockSize fe = BS → 0 ≤ offset → 0 < size → offset + size + BS < 2 ^ 64 →
  GetReadWindow fe size offset = Ret (MkWin (window_lo offset) (window_hi offset size)).
Proof.
  intros Hfe Ho Hs Hm. unfold GetReadWindow. rewrite Hfe, (proj2 (Z.eqb_neq BS 0)) by lia.
  rewrite (u64_small (offset + size)), (u64_small (_ + BS)), (u64_small (_ - 1)) by lia. done.
Qed.

Lemma Clean_spec fe size offset s :
  pool_wf BS (rc s) → (∀ j, lockof (rc s) (fe_Id fe) j = None) → BlockSize fe = BS →
  0 ≤ offset → 0 < size < 2 ^ 32 → offset + size + BS < 2 ^ 64 →
  window_hi offset size - window_lo offset < 2 ^ 32 →
  wp (Clean fe size offset) (λ e s', e = None ∧ ∃ p', s' = set_rc p' s ∧ pool_wf BS p' ∧
    (∀ g j, lockof p' g j = lockof (rc s) g j) ∧
    (∀ g j, ¬ (g = fe_Id fe ∧ window_lo offset ≤ j < window_hi offset size) →
       slot_buf p' g j = slot_buf (rc s) g j ∧ slot p' g j = slot (rc s) g j) ∧
    (∀ j, window_lo offset ≤ j < window_hi offset size → slot p' (fe_Id fe) j = None)) s.
Proof.
  intros Hwf Hl Hfe Ho Hs Hm Hw. unfold Clean. apply wp_bind, wp_onr.
  unfold GetFileBuffer. apply wp_bind, wp_gets.
  destruct (Cache (rc s) !! fe_Id fe) as [fb|] eqn:Ec; apply wp_ret; rewrite set_rc_id.
  2:{ apply wp_ret. split; [done|]. exists (rc s). rewrite set_rc_id. split_and!; try done.
      intros j _. unfold slot. by rewrite Ec. }
  destruct (window_bounds offset size) as [Hlo Hhi]; [lia..|].
  rewrite u32_small by lia. apply wp_bind.
  eapply wp_lift; [by apply GetReadWindow_ok; lia|]. simpl.
  apply wp_bind. eapply wp_lift.
  { unfold PW_Size. simpl. rewrite (proj2 (Z.leb_le _ _)) by lia. done. }
  rewrite u32_small by lia. apply wp_bind, wp_assert; [zbool|].
  apply wp_bind, (wp_Clean_loop (fe_Id fe)); try done; try lia.
  intros p' (Hwf' & _ & _ & Hl' & Hs' & Hg'). apply wp_ret. split; [done|]. by exists p'.
Qed.

(** A write through both caches. *)
Lemma RWCache_Write_spec fe buffer offset s :
  shut = false → winv BS shut s → pool_wf BS (rc s) → (∀ j, lockof (rc s) (fe_Id fe) j = None) →
  BlockSize fe = BS → req_ok fe buffer offset → unlocked_from s (fe_Id fe) (offset / BS) →
  wp (RWCache_Write fe buffer offset) (λ r s',
    winv BS shut s' ∧ wrote_req BS s (fe_Id fe) offset buffer r.1 r.2 s' ∧
    (∀ g, g ≠ fe_Id fe → wview BS s' g ≡ wview BS s g) ∧
    chPrefetch s' = chPrefetch s ∧ (chSync s = None ↔ chSync s' = None) ∧
    pool_wf BS (rc s') ∧ (∀ g j, lockof (rc s') g j = lockof (rc s) g j) ∧
    (∀ g j, slot (rc s') g j = slot (rc s) g j ∨ slot (rc s') g j = None) ∧
    (∀ j, window_lo offset ≤ j < window_hi offset (Zlen buffer) → slot (rc s') (fe_Id fe) j = None) ∧
    (∀ g j b, slot_buf (rc s') g j = Some b → slot_buf (rc s) g j = Some b)) s.
Proof.
  intros Hsh Hi Hwf Hl Hfe Hreq Hu. unfold RWCache_Write. apply wp_bind.
  eapply wp_mono; [|by apply (WCache_Write_spec BS HBS (shut:=shut))].
  intros [n e] s1 [Hfp Hw]. simpl in Hw.
  destruct (fp_frame _ _ _ _ Hfp) as (Hrc & Hpf & _).
  pose proof Hreq as (_ & Ho & Hne & Hmax & Hsz). rewrite Hfe in *. apply Zlen_pos in Hne.
  pose proof (Z.mod_pos_bound offset BS ltac:(lia)).
  apply wp_bind. eapply wp_mono; [|apply Clean_spec; rewrite ?Hrc; try done; try lia].
  - simpl. intros ? s2 (-> & p' & -> & Hwf' & Hl' & Hs' & Hg'). apply wp_ret. simpl. rewrite Hrc in *.
    destruct Hfp as [Hinv _ _ Hoth Hch]. split_and!; try done.
    + destruct Hinv. by constructor.
    + intros g j. destruct (decide (g = fe_Id fe ∧ window_lo offset ≤ j < window_hi offset (Zlen buffer)))
        as [[-> Hj]|Hn]; [right; by apply Hg'|left; by apply Hs'].
    + intros g j b. destruct (decide (g = fe_Id fe ∧ window_lo offset ≤ j < window_hi offset (Zlen buffer)))
        as [[-> Hj]|Hn]; [unfold slot_buf at 1; by rewrite Hg'|by destruct (Hs' g j Hn) as [-> _]].
  - unfold window_hi, window_lo.
    assert ((offset + Zlen buffer + BS - 1) / BS ≤ offset / BS + (offset mod BS + Zlen buffer + BS - 1) / BS).
    { rewrite (Z.div_mod offset BS) at 1 by lia.
      replace (BS * (offset / BS) + offset mod BS + Zlen buffer + BS - 1) with
        (offset mod BS + Zlen buffer + BS - 1 + offset / BS * BS) by lia.
      rewrite Z.div_add by lia. lia. }
    assert ((offset mod BS + Zlen buffer + BS - 1) / BS < 2 ^ 32); [|lia].
    apply Z.div_lt_upper_bound; [lia|]. nia.
Qed.

(** ** Prefetching *)

Definition pqueue s : list RWBlockOp := from_option ch_queue [] (chPrefetch s).
Definition opkey (op : RWBlockOp) : Z * Z := (fe_Id (op_fe op), Index op).

(** The invariant of the read cache: the write locks are those of the blocks
    waiting to be prefetched, which have no buffer yet; a buffer holds a whole
    block. *)
Record rinv s : Prop := {
  ri_wf : pool_wf BS (rc s);
  ri_shape : ∀ f i b, slot_buf (rc s) f i = Some b → Offset b = 0 ∧ Len b = BS;
  ri_q : ∀ op, op ∈ pqueue s → op = prefetch_op (op_fe op) (Index op) ∧
    BlockSize (op_fe op) = BS ∧ 0 ≤ Index op ∧ (Index op + 1) * BS < 2 ^ 64 ∧
    slot (rc s) (fe_Id (op_fe op)) (Index op) = None ∧
    lockof (rc s) (fe_Id (op_fe op)) (Index op) = Some (MkLock WriteLock 0);
  ri_nodup : NoDup (opkey <$> pqueue s);
  ri_lock : ∀ f i l, lockof (rc s) f i = Some l → (f, i) ∈ (opkey <$> pqueue s);
  ri_shut : ∀ c, chPrefetch s = Some c → ch_closed c = shut;
}.

Lemma rinv_pqueue s : rinv s → chPrefetch s ≠ None → chPrefetch s = Some (MkChan (pqueue s) shut).
Proof.
  intros Hi Hn. pose proof (ri_shut _ Hi) as Hs. unfold pqueue.
  destruct (chPrefetch s) as [[q c]|]; [|done]. simpl. by rewrite <- (Hs _ eq_refl).
Qed.

Lemma rinv_pqueue_cons s op q :
  rinv s → pqueue s = op :: q → chPrefetch s = Some (MkChan (op :: q) shut).
Proof.
  intros Hi Hq. rewrite <- Hq. apply rinv_pqueue; [done|].
  intros E. unfold pqueue in Hq. by rewrite E in Hq.
Qed.

(** The buffer of block [i] holds the proxy's bytes. *)
Definition holds_block s f i b : Prop :=
  Offset b = 0 ∧ Len b = BS ∧ Zlen (dataBuf b) = BS ∧
  ∀ k, 0 ≤ k < BS → byte_at (dataBuf b) k = byte_at (content (world s) f) (i * BS + k).

Lemma slot_buf_None p f i : pool_wf BS p → slot p f i = None ↔ slot_buf p f i = None.
Proof.
  intros Hwf. unfold slot_buf. destruct (slot p f i) as [bid|] eqn:E; simpl; [|done].
  destruct (wf_slot_buf _ _ _ _ _ Hwf E) as (b & -> & _). done.
Qed.

Lemma prefetch_op_ok fe i :
  BlockSize fe = BS → 0 ≤ i → (i + 1) * BS < 2 ^ 64 → op_ok fe (prefetch_op fe i).
Proof.
  intros Hfe Hi Hm. unfold op_ok, prefetch_op. simpl. rewrite Hfe.
  split_and!; try done; try lia. apply Zlen_zeros. lia.
Qed.

(** [DoPrefetchRead] on a locked block without buffer. *)
Lemma wp_DoPrefetchRead s fe i fb :
  pool_wf BS (rc s) → BlockSize fe = BS → 0 ≤ i → (i + 1) * BS < 2 ^ 64 →
  Cache (rc s) !! fe_Id fe = Some fb → slot (rc s) (fe_Id fe) i = None →
  wp (DoPrefetchRead (fe_Id fe) (prefetch_op fe i)) (λ e s',
    ∃ p' w', s' = set_rc p' (set_world w' s) ∧ (∀ g, content w' g = content (world s) g) ∧
      pool_wf BS p' ∧ only (fe_Id fe) i (rc s) p' ∧
      lockof p' (fe_Id fe) i = lockof (rc s) (fe_Id fe) i ∧ is_Some (Cache p' !! fe_Id fe) ∧
      (∀ b, slot_buf p' (fe_Id fe) i = Some b → holds_block s (fe_Id fe) i b) ∧
      (e = None → i * BS < Zlen (content (world s) (fe_Id fe)) → slot p' (fe_Id fe) i ≠ None)) s.
Proof.
  intros Hwf Hfe Hi Hm Hc Hs. set (f := fe_Id fe) in *. set (op := prefetch_op fe i).
  pose proof (prefetch_op_ok fe i Hfe Hi Hm) as Hop. fold op in Hop.
  destruct (op_pos BS HBS fe op Hfe Hop) as [Hpos Hpos0]. simpl in Hpos, Hpos0.
  unfold DoPrefetchRead. apply wp_bind. unfold wp at 1, DirectRead. rewrite Hpos.
  change (op_fe op) with fe. fold f. change (rwBuf op) with (zeros (BlockSize fe)). rewrite Hfe, Z.add_0_r.
  destruct (Reader_Read f (zeros BS) (i * BS) (world s)) as [r w'] eqn:Er.
  apply Reader_Read_spec in Er as [Hfr Hr]; [|lia|rewrite Zlen_zeros; lia].
  rewrite Zlen_zeros in Hr by lia.
  assert (slot_buf (rc s) f i = None) as Hsb by (unfold slot_buf; by rewrite Hs).
  (* nothing was cached *)
  assert (∀ e : option error, (e = None → Zlen (content (world s) f) ≤ i * BS) →
    wp (ret e) (λ e s', ∃ p' w', s' = set_rc p' (set_world w' s) ∧
      (∀ g, content w' g = content (world s) g) ∧ pool_wf BS p' ∧ only f i (rc s) p' ∧
      lockof p' f i = lockof (rc s) f i ∧ is_Some (Cache p' !! f) ∧
      (∀ b, slot_buf p' f i = Some b → holds_block s f i b) ∧
      (e = None → i * BS < Zlen (content (world s) f) → slot p' f i ≠ None)) (set_world w' s)) as Hnone.
  { intros e He. apply wp_ret. exists (rc s), w'. split_and!; try done.
    - congruence.
    - intros -> ?. specialize (He eq_refl). lia. }
  destruct (rd_err r) as [e|]; [by apply Hnone|]. destruct Hr as (Hn & Hbl & Hb).
  destruct (Z.eqb_spec (rd_size r) 0) as [E0|E0]; [apply Hnone; intros _; lia|].
  apply wp_bind, wp_assert; [zbool|]. apply wp_bind, wp_onr. change (Index op) with i.
  apply (wp_alloc BS HBS fe op Hfe Hop); [done| |].
  { intros _. rewrite set_rc_id. by apply Hnone. }
  intros bid rest b0 d0 HF Hb0 Hd0. set (b1 := {| buf_Id := _ |}).
  assert (fits BS b1) as Hfit by (unfold fits; simpl; split_and!; lia || done).
  apply wp_bind, wp_onr, (wp_buf_upd _ b1 _ b1); [apply lookup_insert_eq|done|].
  simpl. rewrite insert_insert_eq.
  apply wp_bind, wp_onr, (wp_buf_get _ b1); [apply lookup_insert_eq|].
  apply wp_bind, wp_assert; [done|]. apply wp_bind, wp_gets.
  destruct (MergeData_spec BS HBS (now s) b1 (rd_buf r) Hfit) as (d & Hmd & Hdl & _ & Hdn); [simpl; lia|].
  apply wp_bind, wp_onr. eapply wp_buf_upd; [apply lookup_insert_eq|exact Hmd|].
  simpl. rewrite insert_insert_eq. simpl in Hdn. set (b2 := {| buf_Id := _ |}).
  assert (BufferMap fb !! i = None) as Hnb by (unfold slot in Hs; by rewrite Hc in Hs).
  apply wp_bind, wp_onr, (wp_AttachBuffer fe op _ fb); [done..|].
  apply wp_bind, wp_onr, (wp_DoLru _ _ b2); [apply lookup_insert_eq|done|]. apply wp_ret. simpl.
  rewrite insert_insert_eq. rewrite Hbl in *.
  assert (buf_ok BS f i (set_elm true (now s) b2)) as Hok.
  { unfold buf_ok; simpl. split_and!; (lia || done || by exists fe). }
  destruct (step_attach BS HBS (rc s) f i fb bid rest (set_elm true (now s) b2))
    as ((Hwf2 & Ho2 & Hl2 & He2 & Hc2) & Hsl & Hsb2); [done..|].
  eexists _, w'. split; [reflexivity|]. split_and!; try done.
  - intros b Hbb. assert (Some b = Some (set_elm true (now s) b2)) as Heq
      by (etransitivity; [symmetry; exact Hbb|exact Hsb2]). injection Heq as ->.
    unfold holds_block. simpl. split_and!; try lia; try done.
    intros k Hk. specialize (Hdn k Hk). replace (0 + 0 + k) with k in Hdn by lia. rewrite Hdn, Hb.
    destruct ((0 <=? k) && (k <? rd_size r)) eqn:E; [done|].
    rewrite byte_at_zeros. symmetry. apply byte_at_ge. zbool.
  - intros _ _ Hnone'. assert (Some bid = None) by (etransitivity; [symmetry; exact Hsl|exact Hnone']). done.
Qed.

(** What one prefetch changes: block [i] of [f] is unlocked and, if it has a
    buffer now, that holds the proxy's bytes. *)
Record prefetched s f i q s' : Prop := {
  pf_inv : rinv s';
  pf_only : only f i (rc s) (rc s');
  pf_lock : lockof (rc s') f i = None;
  pf_block : ∀ b, slot_buf (rc s') f i = Some b → holds_block s f i b;
  pf_wc : wc s' = wc s;
  pf_files : ∀ g, content (world s') g = content (world s) g;
  pf_ch : chPrefetch s' = Some (MkChan q shut);
  pf_sync : chSync s' = chSync s;
  pf_table : is_Some (Cache (rc s') !! f);
}.

Lemma wp_PrefetchRead_one s op q :
  rinv s → chPrefetch s = Some (MkChan (op :: q) shut) →
  wp PrefetchRead_one (λ _ s', prefetched s (fe_Id (op_fe op)) (Index op) q s') s.
Proof.
  intros Hi Hq. assert (pqueue s = op :: q) as Hpq by (unfold pqueue; by rewrite Hq).
  destruct (ri_q _ Hi op) as (Eop & Hfe & Hi0 & Hm & Hs & Hl); [rewrite Hpq; left|].
  set (fe := op_fe op) in *. set (i := Index op) in *. set (f := fe_Id fe) in *.
  assert (∃ fb, Cache (rc s) !! f = Some fb) as [fb Hc].
  { unfold lockof in Hl. destruct (Cache (rc s) !! f); [eauto|done]. }
  pose proof (ri_nodup _ Hi) as Hnd. rewrite Hpq, fmap_cons in Hnd. apply NoDup_cons in Hnd as [Hni Hnd].
  unfold PrefetchRead_one. apply wp_bind, wp_gets. rewrite Hq. apply wp_bind, wp_modify.
  set (s0 := set_chPrefetch (Some (MkChan q shut)) s). fold fe.
  apply wp_bind, wp_onr. unfold GetFileBuffer. apply wp_bind, wp_gets. fold f. simpl. rewrite Hc.
  apply wp_ret. rewrite (set_rc_id s0 : set_rc (rc s) s0 = s0). fold i.
  apply wp_bind. rewrite Eop. eapply wp_mono; [|by apply (wp_DoPrefetchRead s0 fe i fb); [apply Hi|..]].
  fold f. intros e s1 (p1 & w1 & -> & Hw & Hwf1 & Ho1 & Hl1 & Hc1 & Hblk & _).
  apply wp_onr, (wp_unlock BS); [done..|simpl in *; congruence|].
  intros p2 (Hwf2 & Ho2 & Hs2 & Hb2 & He2 & Hc2 & _) Hl2. simpl in *.
  pose proof (only_trans _ _ _ _ _ Ho1 Ho2) as Ho.
  assert (∀ b, slot_buf p2 f i = Some b → holds_block s f i b) as Hblk2.
  { intros b. unfold slot_buf. rewrite Hs2, Hb2. apply Hblk. }
  constructor; simpl; try done. constructor; simpl; try done.
  - intros g j b Hb. destruct (decide (g = f ∧ j = i)) as [[-> ->]|Hn].
    + by destruct (Hblk2 b Hb) as (? & ? & _).
    + destruct (Ho g j Hn) as (_ & E & _). rewrite E in Hb. by eapply (ri_shape _ Hi).
  - intros o Ho'. destruct (ri_q _ Hi o) as (?&?&?&?&?&?); [rewrite Hpq; by right|].
    destruct (Ho (fe_Id (op_fe o)) (Index o)) as (-> & _ & ->).
    { intros [E1 E2]. apply Hni. assert (opkey op = opkey o) as -> by (unfold opkey; by rewrite E1, E2).
      by apply list_elem_of_fmap_2. }
    done.
  - intros g j l Hlk. destruct (decide (g = f ∧ j = i)) as [[-> ->]|Hn]; [congruence|].
    destruct (Ho g j Hn) as (_ & _ & E). rewrite E in Hlk.
    apply (ri_lock _ Hi) in Hlk. rewrite Hpq in Hlk. apply elem_of_cons in Hlk as [Hk|?]; [|done].
    exfalso. apply Hn. unfold opkey in Hk. by injection Hk.
  - by intros c [= <-].
Qed.

(** Every buffer of the read cache is the proxy's block, for all files. *)
Definition coherent s : Prop := ∀ f i b, slot_buf (rc s) f i = Some b → holds_block s f i b.

Lemma coherent_step s f i q s' : coherent s → prefetched s f i q s' → coherent s'.
Proof.
  intros Hco Hp g j b Hb. destruct Hp as [_ Ho _ Hblk _ Hfiles _ _ _].
  assert (∀ b0, holds_block s g j b0 → holds_block s' g j b0) as Hmv.
  { intros b0 (?&?&?&Hk). split_and!; try done. intros k Hk'. rewrite Hfiles. by apply Hk. }
  apply Hmv. destruct (decide (g = f ∧ j = i)) as [[-> ->]|Hn]; [by apply Hblk|].
  destruct (Ho g j Hn) as (_ & E & _). rewrite E in Hb. by apply Hco.
Qed.

Lemma prefetch_all_ok n : ∀ s,
  rinv s → length (pqueue s) = n →
  wp (prefetch_all n) (λ _ s', rinv s' ∧ (coherent s → coherent s') ∧ pqueue s' = [] ∧
    wc s' = wc s ∧ chSync s' = chSync s ∧
    (∀ g, content (world s') g = content (world s) g) ∧ ∀ f i, lockof (rc s') f i = None) s.
Proof.
  induction n as [|n IH]; intros s Hi Hlen; simpl.
  - apply nil_length_inv in Hlen. apply wp_ret. split_and!; try done.
    intros f i. destruct (lockof (rc s) f i) as [l|] eqn:E; [|done].
    apply (ri_lock _ Hi) in E. rewrite Hlen in E. by apply not_elem_of_nil in E.
  - destruct (pqueue s) as [|op q] eqn:Eq; [done|]. simpl in Hlen.
    pose proof (rinv_pqueue_cons s op q Hi Eq) as Hch.
    apply wp_bind. eapply wp_mono; [|by apply (wp_PrefetchRead_one s op q)].
    intros [] s1 Hp.
    assert (pqueue s1 = q) as Hq1 by (unfold pqueue; by rewrite (pf_ch _ _ _ _ _ Hp)).
    eapply wp_mono; [|apply (IH s1)].
    + intros [] s2 (?&Hco&?&E&Ey&Hf&?). split_and!; try done.
      * intros Hc. apply Hco. by eapply coherent_step.
      * rewrite E. apply Hp.
      * rewrite Ey. apply Hp.
      * intros g. rewrite Hf. apply Hp.
    + apply Hp.
    + rewrite Hq1. lia.
Qed.

(** ** Filling the channel *)

Lemma rinv_ext s p' :
  rinv s → pool_wf BS p' → (∀ g j, slot p' g j = slot (rc s) g j) →
  (∀ g j, slot_buf p' g j = slot_buf (rc s) g j) → (∀ g j, lockof p' g j = lockof (rc s) g j) →
  rinv (set_rc p' s).
Proof.
  intros [Hwf Hsh Hq Hnd Hlk Hst] Hwf' Hs Hsb Hl. constructor; simpl; try done.
  - intros f i b. rewrite Hsb. apply Hsh.
  - intros op Hop. rewrite Hs, Hl. by apply Hq.
  - intros f i l. rewrite Hl. apply Hlk.
Qed.

Lemma rinv_send s p' fe i :
  rinv s → pool_wf BS p' → BlockSize fe = BS → 0 ≤ i → (i + 1) * BS < 2 ^ 64 →
  only (fe_Id fe) i (rc s) p' → slot p' (fe_Id fe) i = None → lockof (rc s) (fe_Id fe) i = None →
  lockof p' (fe_Id fe) i = Some (MkLock WriteLock 0) →
  rinv (set_chPrefetch (Some (MkChan (pqueue s ++ [prefetch_op fe i]) shut)) (set_rc p' s)).
Proof.
  intros [Hwf Hsh Hq Hnd Hlk Hst] Hwf' Hfe Hi Hm Ho Hs Hl Hl'.
  assert (slot_buf p' (fe_Id fe) i = None) as Hsb by (unfold slot_buf; by rewrite Hs).
  assert (opkey (prefetch_op fe i) ∉ (opkey <$> pqueue s)) as Hnew.
  { intros (op & E & Hin)%list_elem_of_fmap. destruct (Hq op Hin) as (_&_&_&_&_&Hlo).
    unfold opkey, prefetch_op in E. simpl in E. injection E as E1 E2. rewrite <- E1, <- E2 in Hlo. congruence. }
  constructor; unfold pqueue; simpl; try done.
  - intros g j b Hb. destruct (decide (g = fe_Id fe ∧ j = i)) as [[-> ->]|Hn]; [congruence|].
    destruct (Ho g j Hn) as (_ & E & _). rewrite E in Hb. by eapply Hsh.
  - intros op [Hop|Hop]%elem_of_app.
    + destruct (Hq op Hop) as (?&?&?&?&?&?).
      destruct (Ho (fe_Id (op_fe op)) (Index op)) as (-> & _ & ->); [|done].
      intros [E1 E2]. rewrite E1, E2 in *. congruence.
    + apply list_elem_of_singleton in Hop as ->. done.
  - rewrite fmap_app. apply NoDup_app. split_and!; [done| |apply NoDup_singleton].
    intros x Hx Hx'. simpl in Hx'. apply list_elem_of_singleton in Hx' as ->. done.
  - intros g j l Hlj. rewrite fmap_app, elem_of_app.
    destruct (decide (g = fe_Id fe ∧ j = i)) as [[-> ->]|Hn]; [right; simpl; left|left].
    destruct (Ho g j Hn) as (_ & _ & E). rewrite E in Hlj. by eapply Hlk.
  - by intros c [= <-].
Qed.

(** The blocks of [lo, hi) without buffer are sent, each with its lock. *)
Record filled s fe lo hi s' : Prop := {
  fl_inv : rinv s';
  fl_wc : wc s' = wc s;
  fl_world : world s' = world s;
  fl_sync : chSync s' = chSync s;
  fl_sb : ∀ g j, slot_buf (rc s') g j = slot_buf (rc s) g j;
  fl_lock : ∀ g j, ¬ (g = fe_Id fe ∧ lo ≤ j < hi) → lockof (rc s') g j = lockof (rc s) g j;
  fl_ch : chPrefetch s' = Some (open_chan (pqueue s ++ (prefetch_op fe <$>
    filter (λ j, slot (rc s) (fe_Id fe) j = None) (seqZ lo (hi - lo)))));
}.

(** Locking and unlocking keep the entry of the table. *)
Lemma wp_lock_entry f i fb (Q : unit → Pool → Prop) p :
  pool_wf BS p → Cache p !! f = Some fb → lockof p f i = None →
  (∀ p' fb', relock BS f i p p' → lockof p' f i = Some (MkLock WriteLock 0) →
     Cache p' !! f = Some fb' → fb_fe fb' = fb_fe fb → Q tt p') →
  wp (fb_lock f (LockBuffer i)) Q p.
Proof.
  intros Hwf Hc Hl HQ. unfold lockof in Hl. rewrite Hc in Hl. simpl in Hl.
  unfold fb_lock. eapply wp_fb_upd; [exact Hc|unfold LockBuffer; by rewrite Hl|].
  eapply HQ; [|rewrite lockof_set_cache, decide_True by done; apply lookup_insert_eq
    |apply lookup_insert_eq|done].
  apply relock_intro; [done..|]. intros j Hj. by rewrite lookup_insert_ne.
Qed.

Lemma wp_unlock_entry f i fb (Q : unit → Pool → Prop) p :
  pool_wf BS p → Cache p !! f = Some fb → lockof p f i = Some (MkLock WriteLock 0) →
  (∀ p' fb', relock BS f i p p' → lockof p' f i = None →
     Cache p' !! f = Some fb' → fb_fe fb' = fb_fe fb → Q tt p') →
  wp (fb_lock f (UnLockBuffer i)) Q p.
Proof.
  intros Hwf Hc Hl HQ. unfold lockof in Hl. rewrite Hc in Hl. simpl in Hl.
  unfold fb_lock. eapply wp_fb_upd; [exact Hc|unfold UnLockBuffer; by rewrite Hl|].
  eapply HQ; [|rewrite lockof_set_cache, decide_True by done; apply lookup_delete_eq
    |apply lookup_insert_eq|done].
  apply relock_intro; [done..|]. intros j Hj. by rewrite lookup_delete_ne.
Qed.

Lemma filled_cons s s1 fe lo hi s' (sent : list RWBlockOp) :
  lo < hi → wc s1 = wc s → world s1 = world s → chSync s1 = chSync s →
  (∀ g j, slot (rc s1) g j = slot (rc s) g j) → (∀ g j, slot_buf (rc s1) g j = slot_buf (rc s) g j) →
  (∀ g j, ¬ (g = fe_Id fe ∧ j = lo) → lockof (rc s1) g j = lockof (rc s) g j) →
  pqueue s1 = pqueue s ++ sent →
  sent = (if decide (slot (rc s) (fe_Id fe) lo = None) then [prefetch_op fe lo] else []) →
  filled s1 fe (lo + 1) hi s' → filled s fe lo hi s'.
Proof.
  intros Hlt Hwc Hw Hy Hs Hsb Hl Hq -> [F1 F2 F3 Fy F4 F5 F6].
  constructor; [done|congruence|congruence|congruence|intros; by rewrite F4, Hsb|..].
  - intros g j Hn. rewrite F5 by lia. apply Hl. lia.
  - rewrite F6, Hq. f_equal. rewrite <- app_assoc. f_equal.
    assert (seqZ lo (hi - lo) = lo :: seqZ (lo + 1) (hi - (lo + 1))) as ->.
    { rewrite (seqZ_cons lo (hi - lo)) by lia. f_equal. f_equal; lia. }
    rewrite filter_cons.
    assert (filter (λ j, slot (rc s1) (fe_Id fe) j = None) (seqZ (lo + 1) (hi - (lo + 1))) =
            filter (λ j, slot (rc s) (fe_Id fe) j = None) (seqZ (lo + 1) (hi - (lo + 1)))) as ->.
    { apply list_filter_iff. intros j. by rewrite Hs. }
    by case_decide.
Qed.

Lemma wp_Prefetch_loop fe fuel : shut = false → ∀ s fb lo hi,
  rinv s → Cache (rc s) !! fe_Id fe = Some fb → fb_fe fb = fe → BlockSize fe = BS →
  chPrefetch s = Some (open_chan (pqueue s)) → fuel = Z.to_nat (hi - lo) → 0 ≤ lo ≤ hi → hi * BS < 2 ^ 64 →
  (∀ j, lo ≤ j < hi → lockof (rc s) (fe_Id fe) j = None) →
  wp (Prefetch_loop fuel (fe_Id fe) lo hi) (λ _ s', filled s fe lo hi s') s.
Proof.
  intros Hsh. set (f := fe_Id fe).
  induction fuel as [|fuel IH]; intros s fb lo hi Hi Hc Hfb Hfe Hch Hf Hlo Hhi Hl.
  - simpl. apply wp_ret. constructor; try done. rewrite Hch.
    rewrite (seqZ_nil lo (hi - lo)) by lia. by rewrite app_nil_r.
  - simpl. rewrite (proj2 (Z.ltb_lt lo hi)) by lia.
    apply wp_bind, wp_onr, (wp_fb_get _ fb); [done|]. rewrite set_rc_id, Hfb.
    apply wp_bind, wp_onr, (wp_lock_entry _ _ fb); [apply (ri_wf _ Hi)|done|apply Hl; lia|].
    intros p1 fb1 Hr1 Hl1 Hc1 Hfb1. pose proof Hr1 as (Hwf1 & Ho1 & Hs1 & Hb1 & _).
    apply wp_bind, wp_onr, (wp_GetBuffer _ _ fb1); [done|]. simpl.
    assert (∀ g j, slot_buf p1 g j = slot_buf (rc s) g j) as Hsb1
      by (intros; by apply (relock_slot_buf BS f lo)).
    rewrite Hs1. destruct (slot (rc s) f lo) as [bid|] eqn:Es.
    + apply wp_bind, wp_onr, (wp_unlock_entry _ _ fb1); [done..|].
      intros p2 fb2 Hr2 Hl2 Hc2 Hfb2. pose proof Hr2 as (Hwf2 & Ho2 & Hs2 & Hb2 & _).
      rewrite u64_small by nia.
      assert (∀ g j, lockof p2 g j = lockof (rc s) g j) as Hlk.
      { intros g j. destruct (decide (g = f ∧ j = lo)) as [[-> ->]|Hn]; [rewrite Hl; [done|lia]|].
        destruct (Ho1 g j Hn) as (_ & _ & <-). by apply Ho2. }
      assert (∀ g j, slot p2 g j = slot (rc s) g j) as Hs2' by (intros; rewrite Hs2; apply Hs1).
      assert (∀ g j, slot_buf p2 g j = slot_buf (rc s) g j) as Hsb2.
      { intros. rewrite (relock_slot_buf BS f lo p1) by done. apply Hsb1. }
      eapply wp_mono; [|apply (IH (set_rc p2 s) fb2)]; try done; try lia; try congruence.
      * intros ? s' Hfl. eapply (filled_cons s _ _ _ _ _ []); [..|exact Hfl]; try done; try lia.
        -- unfold pqueue. by rewrite app_nil_r.
        -- fold f. rewrite Es. by case_decide.
      * by apply rinv_ext.
      * intros j Hj. simpl. rewrite Hlk. apply Hl. lia.
    + apply wp_bind. unfold send_prefetch. apply wp_bind, wp_gets. simpl. rewrite Hch.
      apply wp_bind. eapply wp_lift; [reflexivity|]. apply wp_modify. rewrite u64_small by nia.
      eapply wp_mono; [|eapply (IH (set_chPrefetch (Some (open_chan (pqueue s ++ [prefetch_op fe lo]))) (set_rc p1 s)) fb1)];
        try done; try lia; try congruence.
      * intros ? s' Hfl. eapply (filled_cons s _ _ _ _ _ [prefetch_op fe lo]); [..|exact Hfl]; try done; try lia.
        -- intros g j Hn. by apply Ho1.
        -- fold f. rewrite Es. by case_decide.
      * unfold open_chan. rewrite <- Hsh. apply rinv_send; try done; try lia; [|by rewrite Hs1|apply Hl; lia]. nia.
      * intros j Hj. simpl. destruct (Ho1 f j) as (_ & _ & ->); [lia|]. apply Hl. lia.
Qed.

(** The first read at offset 0 opens the window behind itself, as many blocks
    as it read times [PrefetchTimes]; a read that reaches the window moves it on
    by its own length. *)
Lemma next_window_first n times :
  0 < n < 2 ^ 32 → 0 ≤ times < 2 ^ 31 → n * times < 2 ^ 63 →
  next_window NewPrefetchWindow (MkWin 0 n) times = Ret (Some (MkWin n (n + n * times))).
Proof.
  intros Hn Ht Hm. unfold next_window. simpl.
  unfold PW_Extend, PW_Move, PW_Shift. simpl.
  rewrite (u32_small times) by lia.
  repeat match goal with |- context [u64 ?x] => rewrite (u64_small x) by nia end.
  do 3 f_equal; nia.
Qed.

Lemma next_window_move pw rw times :
  0 ≤ BlkStart pw < BlkEnd pw → BlkEnd pw < 2 ^ 31 → PW_Cross rw pw = true →
  next_window pw rw times = Ret (Some (MkWin (BlkEnd pw) (BlkEnd pw + (BlkEnd pw - BlkStart pw)))).
Proof.
  intros H1 H2 Hc. unfold next_window, PW_Size. rewrite (proj2 (Z.leb_le _ _)) by lia.
  rewrite u32_small by lia. rewrite (proj2 (Z.eqb_neq (_ - _) 0)) by lia.
  rewrite andb_false_r, Hc, (proj2 (Z.ltb_lt _ _)) by lia.
  unfold PW_Move, PW_Shift. rewrite !(u64_small (_ - _)), !u64_small by lia.
  do 3 f_equal; lia.
Qed.
End Proof.

Arguments rinv {W} BS shut s.
