(* ===== verification/CloseProof.v ===== *)
(** Releasing, flushing and closing files in both caches, and closing the
    caches themselves: what [Release], [Close] and [CloseAll] of
    lib/libfs/rcache.go, wcache.go and rwcache.go leave behind. *)

From stdpp Require Import base gmap list strings relations.
From Stdlib Require Import ZArith Lia.
From S2P Require Import Prelude GoString Proto Store Buffer Pool View CacheState WCache.
From S2P Require Import WCacheProof WCacheSteps RCache RWCache RWCacheProof RCacheProof.

(** ** Tables never disappear but by [DetachFileBuffer] *)

Definition keeps (p p' : Pool) : Prop := ∀ g, is_Some (Cache p !! g) → is_Some (Cache p' !! g).

#[export] Instance keeps_preorder : PreOrder keeps.
Proof. split; [by intros ? ?|]. intros ? ? ? H1 H2 g Hg. by apply H2, H1. Qed.

Lemma keeps_insert p g fb : keeps p (set_cache (<[g := fb]> (Cache p)) p).
Proof. intros g' Hg. simpl. rewrite lookup_insert. by case_decide. Qed.

Ltac stays_tac :=
  repeat match goal with
  | |- stays _ (bind _ _) => apply stays_bind; [apply _| |intros ?]
  | |- stays _ (modify _) => apply stays_modify; intros ?
  | |- stays _ (if ?b then _ else _) => destruct b
  | |- stays _ (match ?x with _ => _ end) => destruct x
  | |- stays _ (let '(_, _) := ?x in _) => destruct x
  end; eauto with stays typeclass_instances.

Lemma keeps_buf_get bid : stays keeps (buf_get bid).
Proof. intros p b p' E. unfold buf_get in E. destruct (bufs p !! bid); by simplify_eq. Qed.

Lemma keeps_fb_get f : stays keeps (fb_get f).
Proof. intros p b p' E. unfold fb_get in E. destruct (Cache p !! f); by simplify_eq. Qed.
#[export] Hint Resolve keeps_buf_get keeps_fb_get keeps_insert : stays.

Lemma keeps_buf_upd bid h : stays keeps (buf_upd bid h).
Proof. unfold buf_upd. stays_tac. by intros g. Qed.

Lemma keeps_buf_call {A} bid (h : Buffer → outcome A) : stays keeps (buf_call bid h).
Proof. unfold buf_call. stays_tac. Qed.

Lemma keeps_fb_upd f h : stays keeps (fb_upd f h).
Proof. unfold fb_upd. stays_tac. Qed.
#[export] Hint Resolve keeps_buf_upd keeps_buf_call keeps_fb_upd : stays.

Lemma keeps_GetBuffer f i : stays keeps (GetBuffer f i).
Proof. unfold GetBuffer. stays_tac. Qed.

Lemma keeps_DetachBuffer f i : stays keeps (DetachBuffer f i).
Proof. apply keeps_fb_upd. Qed.

Lemma keeps_fb_lock f h : stays keeps (fb_lock f h).
Proof. apply keeps_fb_upd. Qed.

Lemma keeps_FreeBuffer bid : stays keeps (FreeBuffer bid).
Proof. unfold FreeBuffer. stays_tac. by intros g. Qed.

Lemma keeps_DoLru t bid : stays keeps (DoLru t bid).
Proof. unfold DoLru. stays_tac. by intros g. Qed.

Lemma keeps_RemoveLru bid : stays keeps (RemoveLru bid).
Proof. unfold RemoveLru. stays_tac. by intros g. Qed.
#[export] Hint Resolve keeps_GetBuffer keeps_DetachBuffer keeps_fb_lock keeps_FreeBuffer
  keeps_DoLru keeps_RemoveLru : stays.

Section Close.
Context {W : Type} `{ProxyStore W}.
Context (BS : Z) {shut : bool}.
Hypothesis HBS : 0 < BS < 2 ^ 32.
Implicit Types (s : CS W) (p : Pool).

Definition wkeeps s s' : Prop := keeps (wc s) (wc s').

#[local] Instance wkeeps_preorder : PreOrder wkeeps.
Proof. split; [by intros ? ? ?|]. intros ? ? ? H1 H2 g Hg. by apply H2, H1. Qed.

Lemma wkeeps_onw {A} (m : M Pool A) : stays keeps m → stays wkeeps (onw m).
Proof. apply stays_zoom. by intros s t. Qed.

Lemma wkeeps_DirectWrite fe b off : stays wkeeps (DirectWrite fe b off).
Proof.
  intros s a s' E. unfold DirectWrite in E. destruct (Writer_Write _ _ _ _) as [r w'].
  injection E as <- <-. by intros g.
Qed.
#[local] Hint Resolve wkeeps_onw wkeeps_DirectWrite : stays.

(** [Flush] never drops a table, whatever it reports. *)
Lemma wkeeps_Flush fe : stays wkeeps (WCache_Flush fe).
Proof.
  assert (∀ fid idx, stays wkeeps (FlushBuffer fid idx)) as Hb.
  { intros fid idx. unfold FlushBuffer, FlushBuffer_body, write_buffer, release_buffer, do_lru.
    stays_tac. }
  assert (∀ order fid e, stays wkeeps (Flush_list fid order e)) as Hl.
  { induction order as [|i order IH]; intros fid e; simpl; stays_tac. }
  unfold WCache_Flush, GetFileBuffer. stays_tac. apply wkeeps_onw. stays_tac.
Qed.

(** ** The read cache *)

Lemma wp_Release_list f order : ∀ s (Q : option error → CS W → Prop),
  pool_wf BS (rc s) → is_Some (Cache (rc s) !! f) → (∀ j, lockof (rc s) f j = None) →
  (∀ p', rshrink BS f (λ j, j ∈ order) (rc s) p' → Q None (set_rc p' s)) →
  wp (Release_list f order) Q s.
Proof.
  induction order as [|i order IH]; intros s Q Hwf Hc Hl HQ; simpl.
  - apply wp_ret. rewrite <- (set_rc_id s). apply HQ. split_and!; try done. by intros j ?%not_elem_of_nil.
  - apply wp_bind, (wp_ReleaseBuffer BS HBS); [done..|by rewrite Hl|]. intros p1 Hrb Hs1 _ _.
    pose proof (rshrink_one BS f i _ _ Hrb (Hl i) Hs1) as Hsh.
    pose proof Hsh as (Hwf1 & Hc1 & He1 & Hl1 & _).
    apply (IH (set_rc p1 s)); simpl; try done.
    + intros j. by rewrite Hl1.
    + intros p2 Hsh2. apply HQ. eapply rshrink_mono; [|eapply (rshrink_trans BS HBS); [exact Hsh|exact Hsh2|..]].
      * intros j. by rewrite elem_of_cons.
      * intros j. destruct (decide (j = i)); tauto.
      * intros j. destruct (decide (j ∈ order)); tauto.
Qed.

(** What releasing the whole file leaves: its blocks are gone, nothing else
    changed. *)
Definition released s f s' : Prop :=
  ∃ p', s' = set_rc p' s ∧ pool_wf BS p' ∧ (∀ g j, lockof p' g j = lockof (rc s) g j) ∧
    (∀ g j, g ≠ f → slot_buf p' g j = slot_buf (rc s) g j ∧ slot p' g j = slot (rc s) g j) ∧
    (∀ j, slot p' f j = None).

Lemma released_rinv s f s' :
  rinv BS shut s → (∀ j, lockof (rc s) f j = None) → released s f s' → rinv BS shut s'.
Proof.
  intros [Hwf Hsh Hq Hnd Hlk Hst] Hl (p' & -> & Hwf' & Hl' & Hs & Hg). constructor; simpl; try done.
  - intros g i b Hb. destruct (decide (g = f)) as [->|Hne].
    + unfold slot_buf in Hb. by rewrite Hg in Hb.
    + destruct (Hs g i Hne) as [E _]. rewrite E in Hb. by eapply Hsh.
  - intros op Hop. destruct (Hq op Hop) as (?&?&?&?&?&Hlo). split_and!; try done.
    + destruct (decide (fe_Id (op_fe op) = f)) as [->|Hne]; [apply Hg|].
      by destruct (Hs _ (Index op) Hne) as [_ ->].
    + by rewrite Hl'.
  - intros g i l. rewrite Hl'. apply Hlk.
Qed.

Lemma RCache_Release_spec fe s :
  pool_wf BS (rc s) → (∀ j, lockof (rc s) (fe_Id fe) j = None) →
  wp (RCache_Release fe) (λ e s', e = None ∧ released s (fe_Id fe) s') s.
Proof.
  intros Hwf Hl. unfold RCache_Release. apply wp_bind, wp_onr.
  unfold GetFileBuffer. apply wp_bind, wp_gets.
  destruct (Cache (rc s) !! fe_Id fe) as [fb|] eqn:Ec; apply wp_ret; rewrite set_rc_id.
  2:{ apply wp_ret. split; [done|]. exists (rc s). rewrite set_rc_id. split_and!; try done.
      intros j. unfold slot. by rewrite Ec. }
  apply wp_bind, wp_onr, (wp_fb_get _ fb); [done|]. rewrite set_rc_id.
  apply wp_bind. eapply wp_lift.
  { unfold FB_Wait. rewrite bool_decide_true; [done|]. apply map_eq. intros j.
    specialize (Hl j). unfold lockof in Hl. rewrite Ec in Hl. simpl in Hl. by rewrite lookup_empty. }
  apply wp_Release_list; eauto. intros p' (Hwf' & _ & _ & Hl' & Hs' & Hg'). split; [done|].
  exists p'. split_and!; try done.
  - intros g j Hne. apply Hs'. tauto.
  - intros j. destruct (decide (j ∈ GetAllBufferIndex fb)) as [Hin|Hin]; [by apply Hg'|].
    destruct (Hs' (fe_Id fe) j) as [_ ->]; [tauto|]. unfold slot. rewrite Ec. simpl.
    by rewrite GetAllBufferIndex_spec, <- eq_None_not_Some in Hin.
Qed.

(** [Close] drops the table as well. *)
Lemma RCache_Close_spec fe s :
  rinv BS shut s → (∀ j, lockof (rc s) (fe_Id fe) j = None) →
  wp (RCache_Close fe) (λ e s', e = None ∧ rinv BS shut s' ∧ released s (fe_Id fe) s' ∧
    Cache (rc s') !! fe_Id fe = None) s.
Proof.
  intros Hi Hl. unfold RCache_Close. apply wp_bind.
  eapply wp_mono; [|by apply RCache_Release_spec; [apply Hi|]].
  intros ? s1 [-> Hrel]. pose proof (released_rinv _ _ _ Hi Hl Hrel) as Hi1.
  destruct Hrel as (p' & -> & Hwf' & Hl' & Hs' & Hg').
  apply wp_bind, wp_onr. unfold DetachFileBuffer. apply wp_modify, wp_ret. simpl.
  set (p2 := set_cache _ _). split; [done|].
  assert (∀ g j, slot p2 g j = slot p' g j) as Es.
  { intros g j. unfold slot, p2. simpl. rewrite lookup_delete. case_decide; [|done]. subst.
    symmetry. apply Hg'. }
  assert (∀ g j, slot_buf p2 g j = slot_buf p' g j) as Esb by (intros g j; unfold slot_buf; by rewrite Es).
  assert (∀ g j, lockof p2 g j = lockof p' g j) as El.
  { intros g j. unfold lockof at 1, p2. simpl. rewrite lookup_delete. case_decide; [|done]. subst.
    rewrite Hl'. by rewrite Hl. }
  assert (pool_wf BS p2) as Hwf2 by (by apply wf_detach_fb).
  split; [exact (rinv_ext BS (set_rc p' s) p2 Hi1 Hwf2 Es Esb El)|]. split.
  - exists p2. split_and!; try done.
    + intros g j. by rewrite El.
    + intros g j Hne. rewrite Es, Esb. by apply Hs'.
    + intros j. by rewrite Es.
  - apply lookup_delete_eq.
Qed.

Lemma RCache_Close_list_spec fes : ∀ s,
  rinv BS shut s → (∀ g j, lockof (rc s) g j = None) →
  wp (RCache_Close_list fes) (λ _ s', rinv BS shut s' ∧ (∃ p', s' = set_rc p' s) ∧
    ∀ g j, lockof (rc s') g j = None) s.
Proof.
  induction fes as [|fe fes IH]; intros s Hi Hl; simpl.
  { apply wp_ret. split_and!; try done. exists (rc s). by rewrite set_rc_id. }
  apply wp_bind. eapply wp_mono; [|by apply RCache_Close_spec].
  intros e s1 (_ & Hi1 & (p1 & -> & _ & Hl1 & _) & _).
  eapply wp_mono; [|apply (IH (set_rc p1 s)); [done|intros; simpl; by rewrite Hl1]].
  intros _ s2 (Hi2 & (p2 & ->) & Hl2). split_and!; try done. by exists p2.
Qed.

(** ** The write cache *)

(** A file without a table is exactly what the proxy has. *)
Lemma no_table_view s g : Cache (wc s) !! g = None → wview BS s g ≡ of_bytes (content (world s) g).
Proof. intros Hn. apply view_empty. intros j. unfold slot_buf, slot. by rewrite Hn. Qed.

(** [WCache_Close] once more: a failed flush keeps the table. *)
Lemma WCache_Close_keeps fe s e s' :
  WCache_Close fe s = Ret (e, s') →
  (∀ g, g ≠ fe_Id fe → is_Some (Cache (wc s) !! g) → is_Some (Cache (wc s') !! g)) ∧
  (e ≠ None → is_Some (Cache (wc s) !! fe_Id fe) → is_Some (Cache (wc s') !! fe_Id fe)).
Proof.
  unfold WCache_Close, bind. destruct (WCache_Flush fe s) as [[e1 s1]| |] eqn:E1; [|done..].
  pose proof (wkeeps_Flush fe s e1 s1 E1) as Hk. destruct e1 as [e1|].
  - intros [= <- <-]. split; [by intros g _ ?%Hk|by intros _ ?%Hk].
  - unfold onw, zoom, DetachFileBuffer, modify, ret. intros [= <- <-]. split; [|done].
    intros g Hne Hg%Hk. simpl. by rewrite lookup_delete_ne.
Qed.

Lemma WCache_Close_list_durable fes : ∀ s,
  winv BS shut s → (∀ g j, lockof (wc s) g j = None) → NoDup (fe_Id <$> fes) →
  (∀ fe, fe ∈ fes → is_Some (Cache (wc s) !! fe_Id fe)) →
  wp (WCache_Close_list fes) (λ _ s', winv BS shut s' ∧ frame s s' ∧
    (∀ g j, lockof (wc s') g j = None) ∧
    (∀ g, g ∉ (fe_Id <$> fes) → wview BS s' g ≡ wview BS s g ∧
       (is_Some (Cache (wc s) !! g) → is_Some (Cache (wc s') !! g))) ∧
    ∀ g, Cache (wc s') !! g = None → of_bytes (content (world s') g) ≡ wview BS s g) s.
Proof.
  induction fes as [|fe fes IH]; intros s Hi Hl Hnd Hc; simpl.
  { apply wp_ret. split_and!; try done. intros g Hg. symmetry. by apply no_table_view. }
  apply NoDup_cons in Hnd as [Hni Hnd]. apply wp_bind.
  pose proof (WCache_Close_ok BS HBS fe s Hi Hl) as Hw.
  apply wp_run in Hw as (e & s1 & E1 & Hi1 & Hf1 & Hl1 & _ & Ho1 & Hok).
  destruct (WCache_Close_keeps fe s e s1 E1) as [Hk1 Hk2].
  unfold wp at 1. rewrite E1.
  eapply wp_mono; [|apply (IH s1 Hi1 Hl1 Hnd)].
  2:{ intros fe' Hin. apply Hk1; [|apply Hc; by right]. intros E. apply Hni. rewrite <- E.
      apply list_elem_of_fmap. eauto. }
  intros _ s2 (Hi2 & Hf2 & Hl2 & Hv2 & Hd2). split_and!; try done; [by eapply frame_trans|..].
  - intros g [Hne Hg]%not_elem_of_cons. destruct (Hv2 g Hg) as [-> Hkg]. split; [by apply Ho1|].
    intros Hs. by apply Hkg, Hk1.
  - intros g Hg. rewrite Hd2 by done. destruct (decide (g = fe_Id fe)) as [->|Hne]; [|by apply Ho1].
    destruct (Hv2 _ Hni) as [_ Hkg]. destruct e as [e|].
    + destruct Hkg as [x Hx]; [apply Hk2; [done|]; apply Hc; by left|]. congruence.
    + destruct Hok as [Hn Hcont]. rewrite no_table_view by done. exact Hcont.
Qed.

Lemma tables_nodup p :
  pool_wf BS p → NoDup (fe_Id <$> (fb_fe <$> (map_to_list (Cache p)).*2)) ∧
  ∀ fe, fe ∈ (fb_fe <$> (map_to_list (Cache p)).*2) → is_Some (Cache p !! fe_Id fe).
Proof.
  intros Hwf. split.
  - assert (fe_Id <$> (fb_fe <$> (map_to_list (Cache p)).*2) = (map_to_list (Cache p)).*1) as ->;
      [|apply NoDup_fst_map_to_list].
    rewrite <- !list_fmap_compose. apply list_fmap_ext. intros i [k fb] Hk%list_elem_of_lookup_2.
    apply elem_of_map_to_list in Hk. simpl. by apply (wf_fb _ _ Hwf).
  - intros fe (fb & -> & Hin)%list_elem_of_fmap. apply list_elem_of_fmap in Hin as ([k fb'] & -> & Hin).
    apply elem_of_map_to_list in Hin. simpl in *. destruct (wf_fb _ _ Hwf _ _ Hin) as [-> _]. eauto.
Qed.

(** ** Both caches *)

Definition rwinv s : Prop := winv BS shut s ∧ rinv BS shut s.

Lemma winv_ext s s' : winv BS shut s → wc s' = wc s → chSync s' = chSync s → winv BS shut s'.
Proof.
  intros [H1 H2 H3 H4 H5] Hwc Hch. assert (pending s' = pending s) as Hp by (unfold pending; by rewrite Hch).
  constructor; rewrite ?Hwc, ?Hp, ?Hch; done.
Qed.

Lemma rinv_same s s' :
  rinv BS shut s → rc s' = rc s → chPrefetch s' = chPrefetch s → rinv BS shut s'.
Proof.
  intros [H1 H2 H3 H4 H5 H6] Hrc Hpf.
  assert (pqueue s' = pqueue s) as Hp by (unfold pqueue; by rewrite Hpf).
  constructor; rewrite ?Hrc, ?Hp, ?Hpf; done.
Qed.

Lemma rinv_frame s s' : rinv BS shut s → frame s s' → rinv BS shut s'.
Proof. intros Hi (Hrc & Hpf & _). by eapply rinv_same. Qed.

Lemma released_winv s f s' : winv BS shut s → released s f s' → winv BS shut s'.
Proof. intros Hi (p' & -> & _). by apply (winv_ext s). Qed.

Lemma released_view s f s' g : released s f s' → wview BS s' g = wview BS s g.
Proof. by intros (p' & -> & _). Qed.

(** A write through both caches keeps their invariant; in the synchronous mode
    it leaves no block locked. *)
Lemma RWCache_Write_rwinv fe buffer offset s :
  shut = false → rwinv s → (∀ g j, lockof (wc s) g j = None) → (∀ j, lockof (rc s) (fe_Id fe) j = None) →
  BlockSize fe = BS → req_ok fe buffer offset →
  wp (RWCache_Write fe buffer offset) (λ r s', rwinv s' ∧
    (chSync s = None ↔ chSync s' = None) ∧ (∀ j, lockof (rc s') (fe_Id fe) j = None) ∧
    wrote_req BS s (fe_Id fe) offset buffer r.1 r.2 s' ∧
    (∀ g, g ≠ fe_Id fe → wview BS s' g ≡ wview BS s g)) s.
Proof.
  intros Hshut [Hwi [Hwf Hsh Hq Hnd Hlk Hst]] Hwl Hrl Hfe Hreq.
  eapply wp_mono; [|apply (RWCache_Write_spec BS HBS (shut:=shut)); try done; by intros ??].
  intros r s' (Hwi' & Hwr & Ho & Hpf & Hy & Hwf' & Hl & Hs & _ & Hsb).
  assert (pqueue s' = pqueue s) as Hp by (unfold pqueue; by rewrite Hpf).
  split; [split; [done|]|].
  - constructor; rewrite ?Hp, ?Hpf; try done.
    + intros g i b Hb. by eapply Hsh, Hsb.
    + intros op Hop. destruct (Hq op Hop) as (?&?&?&?&Hn&?). rewrite Hl. split_and!; try done.
      by destruct (Hs (fe_Id (op_fe op)) (Index op)) as [->| ->].
    + intros g i l. rewrite Hl. apply Hlk.
  - split; [done|]. split_and!; try done. intros j. by rewrite Hl.
Qed.

(** [RWCache.Close]: both tables are gone, or the error of the flush. *)
Lemma RWCache_Close_spec fe s :
  rwinv s → (∀ j, lockof (rc s) (fe_Id fe) j = None) → (∀ g j, lockof (wc s) g j = None) →
  wp (RWCache_Close fe) (λ e s', rwinv s' ∧ (∀ g j, lockof (wc s') g j = None) ∧
    (∀ g j, lockof (rc s') g j = lockof (rc s) g j) ∧
    Cache (rc s') !! fe_Id fe = None ∧ (∀ j, slot (rc s') (fe_Id fe) j = None) ∧
    (∀ g, g ≠ fe_Id fe → wview BS s' g ≡ wview BS s g) ∧
    match e with
    | None => Cache (wc s') !! fe_Id fe = None ∧
              of_bytes (content (world s') (fe_Id fe)) ≡ wview BS s (fe_Id fe)
    | Some _ => is_errno e
    end) s.
Proof.
  intros [Hwi Hri] Hrl Hwl. unfold RWCache_Close. apply wp_bind.
  eapply wp_mono; [|by apply RCache_Close_spec]. intros ? s1 (-> & Hri1 & Hrel & Hcr).
  pose proof Hrel as (p1 & -> & _ & Hl1 & _ & Hg1).
  pose proof (released_winv _ _ _ Hwi Hrel) as Hwi1.
  eapply wp_mono; [|apply (WCache_Close_ok BS HBS fe _ Hwi1); by intros].
  intros e s2 (Hwi2 & Hf2 & Hl2 & _ & Ho2 & Hok). pose proof Hf2 as (Hrc & _).
  simpl in Hrc. split; [split; [done|by eapply rinv_frame]|]. split_and!; try done.
  - intros g j. rewrite Hrc. apply Hl1.
  - rewrite Hrc. done.
  - intros j. rewrite Hrc. apply Hg1.
Qed.

End Close.

Arguments rwinv {W} BS shut s.

(** ** [CloseAll] *)

Section CloseAll.
Context {W : Type} `{ProxyStore W}.
Context (BS : Z).
Hypothesis HBS : 0 < BS < 2 ^ 32.
Implicit Types (s : CS W).

(** [close(ch)] on the channel of the read cache. *)
Lemma rinv_close s :
  rinv BS false s →
  wp (match chPrefetch s with
      | Some _ => let! ch' := lift (chan_close (chPrefetch s)) in modify (set_chPrefetch ch')
      | None => ret tt
      end) (λ _ s', rinv BS true s' ∧ pqueue s' = pqueue s ∧ rc s' = rc s ∧ wc s' = wc s ∧
        chSync s' = chSync s ∧ world s' = world s) s.
Proof.
  intros [Hwf Hsh Hq Hnd Hlk Hst]. unfold pqueue in *. destruct (chPrefetch s) as [[q c]|] eqn:E; simpl in *.
  - rewrite (Hst _ eq_refl : c = false). apply wp_bind. eapply wp_lift; [done|]. apply wp_modify.
    split_and!; try done. constructor; try done. by intros ? [= <-].
  - apply wp_ret. rewrite E. split_and!; try done.
    constructor; unfold pqueue; rewrite ?E; done.
Qed.

Lemma RCache_CloseAll_spec s :
  rinv BS false s →
  wp RCache_CloseAll (λ _ s', rinv BS true s' ∧ pqueue s' = [] ∧ (∀ g j, lockof (rc s') g j = None) ∧
    wc s' = wc s ∧ chSync s' = chSync s ∧ ∀ g, content (world s') g = content (world s) g) s.
Proof.
  intros Hi. unfold RCache_CloseAll. apply wp_bind, wp_gets, wp_bind.
  eapply wp_mono; [|by apply rinv_close]. intros [] s0 (Hi0 & Hq0 & _ & Hwc0 & Hy0 & Hw0).
  apply wp_bind. eapply wp_mono; [|apply (prefetch_all_ok BS HBS _ s0 Hi0); by rewrite Hq0].
  intros [] s1 (Hi1 & _ & Hq & Hwc & Hy & Hw & Hl). apply wp_bind, wp_gets.
  eapply wp_mono; [|by apply (RCache_Close_list_spec BS HBS (shut:=true))].
  intros _ s2 (Hi2 & (p2 & ->) & Hl2). split_and!; try done; simpl; try congruence.
Qed.

(** [close(ch)] on the channel of the write cache. *)
Lemma winv_close s :
  winv BS false s →
  wp (match chSync s with
      | Some _ => let! ch' := lift (chan_close (chSync s)) in modify (set_chSync ch')
      | None => ret tt
      end) (λ _ s', winv BS true s' ∧ pending s' = pending s ∧ frame s s' ∧
        ∀ g, wview BS s' g = wview BS s g) s.
Proof.
  intros [Hwf Hnd Hp Hl Hst]. unfold pending in *. destruct (chSync s) as [[q c]|] eqn:E; simpl in *.
  - rewrite (Hst _ eq_refl : c = false). apply wp_bind. eapply wp_lift; [done|]. apply wp_modify.
    split_and!; try done. constructor; try done. by intros ? [= <-].
  - apply wp_ret. rewrite E. split_and!; try done. constructor; unfold pending; rewrite ?E; done.
Qed.

Lemma WCache_CloseAll_spec s :
  winv BS false s →
  wp WCache_CloseAll (λ _ s', winv BS true s' ∧ frame s s' ∧ pending s' = [] ∧
    (∀ g, Cache (wc s') !! g = None → of_bytes (content (world s') g) ≡ wview BS s g)) s.
Proof.
  intros Hi. unfold WCache_CloseAll. apply wp_bind, wp_gets, wp_bind.
  eapply wp_mono; [|by apply winv_close]. intros [] s0 (Hi0 & Hp0 & Hf0 & Hv0).
  apply wp_bind. change (from_option ch_queue [] (chSync s)) with (pending s). rewrite <- Hp0.
  eapply wp_mono; [|apply (sync_all_ok BS HBS (pending s0) s0 Hi0); [apply Hi0|done]].
  intros [] s1 (Hi1 & Hf1 & Hv1 & Hp1). apply wp_bind, wp_gets.
  destruct (tables_nodup BS (wc s1) (wi_wf _ _ Hi1)) as [Hnd Hc].
  eapply wp_mono; [|apply (WCache_Close_list_durable BS HBS (shut:=true)); try done; intros; by eapply no_pending_unlocked].
  intros _ s2 (Hi2 & Hf2 & Hl2 & _ & Hd2). split_and!; try done.
  - eapply frame_trans; [exact Hf0|]. by eapply frame_trans.
  - apply elem_of_nil_inv. intros x Hx. destruct (wi_pend _ _ Hi2 x Hx) as (?&?&?&_&_&_&Hx2).
    by rewrite Hl2 in Hx2.
  - intros g Hg. by rewrite Hd2, Hv1, <- Hv0.
Qed.

(** [RWCache.CloseAll]: it always returns, and every file whose table is gone
    afterwards is on the proxy with all that was written. *)
Lemma RWCache_CloseAll_spec s :
  rwinv BS false s →
  wp RWCache_CloseAll (λ _ s', rwinv BS true s' ∧ pending s' = [] ∧ pqueue s' = [] ∧
    ∀ g, Cache (wc s') !! g = None → of_bytes (content (world s') g) ≡ wview BS s g) s.
Proof.
  intros [Hwi Hri]. unfold RWCache_CloseAll. apply wp_bind.
  eapply wp_mono; [|by apply RCache_CloseAll_spec].
  intros [] s1 (Hri1 & Hq1 & Hl1 & Hwc1 & Hy1 & Hw1).
  pose proof (winv_ext BS s s1 Hwi Hwc1 Hy1) as Hwi1.
  eapply wp_mono; [|by apply WCache_CloseAll_spec].
  intros [] s2 (Hwi2 & Hf2 & Hp2 & Hd2).
  split; [split; [done|by eapply rinv_frame]|]. split_and!; try done.
  - destruct Hf2 as (_ & Hpf & _). unfold pqueue in *. by rewrite Hpf.
  - intros g Hg. rewrite Hd2 by done. unfold wview. rewrite Hwc1, Hw1. done.
Qed.

(** A second [CloseAll] closes a closed channel, if there is one. *)
Lemma RWCache_CloseAll_twice s :
  rwinv BS true s →
  match chPrefetch s, chSync s with
  | None, None => ∃ s', RWCache_CloseAll s = Ret (tt, s')
  | _, _ => RWCache_CloseAll s = Panic
  end.
Proof.
  intros [Hwi Hri]. destruct (chPrefetch s) as [[q c]|] eqn:Ep.
  { pose proof (ri_shut _ _ Hri _ Ep : c = true) as ->.
    unfold RWCache_CloseAll, RCache_CloseAll, bind, gets. by rewrite Ep. }
  assert (rinv BS false s) as Hri' by (destruct Hri; constructor; try done; by rewrite Ep).
  apply RCache_CloseAll_spec, wp_run in Hri' as ([] & s1 & E1 & _ & _ & _ & Hwc1 & Hy1 & _).
  destruct (chSync s) as [[q c]|] eqn:Es.
  - pose proof (wi_shut _ _ Hwi _ Es : c = true) as ->.
    unfold RWCache_CloseAll, bind. rewrite E1. unfold WCache_CloseAll, bind, gets. by rewrite Hy1.
  - assert (winv BS false s1) as Hwi1.
    { apply (winv_ext BS s); [|done|congruence]. destruct Hwi. constructor; try done. by rewrite Es. }
    apply WCache_CloseAll_spec, wp_run in Hwi1 as ([] & s2 & E2 & _).
    exists s2. unfold RWCache_CloseAll, bind. by rewrite E1.
Qed.
End CloseAll.
