(* ===== verification/RWCacheSteps.v ===== *)
(** Both caches as one transition system: readers, writers, the prefetch, sync,
    flush and expiry goroutines, closing files and the clock interleave, one
    block operation at a time.  The invariant of both caches holds in every
    reachable state, and no operation fails an assertion there. *)

From stdpp Require Import base gmap list strings relations.
From Stdlib Require Import ZArith Lia.
From S2P Require Import Prelude GoString Proto Store Buffer Pool View CacheState WCache.
From S2P Require Import WCacheProof WCacheSteps RCache RWCache RWCacheProof RCacheProof CloseProof.

Section Steps.
Context {W : Type} `{ProxyStore W}.
Context (BS : Z).
Hypothesis HBS : 0 < BS < 2 ^ 32.
Implicit Types (s : CS W) (p : Pool).

(** ** Locks of reachable states are write locks *)

Lemma wlock_write s f i l : winv BS false s → lockof (wc s) f i = Some l → l = MkLock WriteLock 0.
Proof.
  intros Hi Hl. destruct (wi_lock _ _ Hi _ _ _ Hl) as (bid & Hs & Hp).
  destruct (wi_pend _ _ Hi _ Hp) as (g & j & b & Hs' & _ & _ & Hl').
  destruct (wf_inj _ _ (wi_wf _ _ Hi) _ _ _ _ _ Hs Hs') as [-> ->]. congruence.
Qed.

Lemma rlock_write s f i l : rinv BS false s → lockof (rc s) f i = Some l → l = MkLock WriteLock 0.
Proof.
  intros Hi Hl. pose proof (ri_lock _ _ Hi _ _ _ Hl) as (op & Ek & Hin)%list_elem_of_fmap.
  destruct (ri_q _ _ Hi op Hin) as (_&_&_&_&_&Hlo). unfold opkey in Ek. injection Ek as -> ->. congruence.
Qed.

(** Locking a pool's block for writing returns only when it is free; for
    reading, only when no writer has it. *)
Lemma fb_lock_returns f h p x :
  fb_lock f h p = Ret x → ∃ fb lm, Cache p !! f = Some fb ∧ h (LockMap fb) = Ret lm.
Proof.
  unfold fb_lock, fb_upd, bind, fb_get, lift. destruct (Cache p !! f) as [fb|]; [|done].
  destruct (h (LockMap fb)) as [lm| |] eqn:E; intros Hx; [by exists fb, lm|done..].
Qed.

Lemma onr_lock_returns {A} f i s (k : M (CS W) A) x :
  (onr (fb_lock f (LockBuffer i));;; k) s = Ret x →
  is_Some (Cache (rc s) !! f) ∧ lockof (rc s) f i = None.
Proof.
  unfold bind, onr, zoom. destruct (fb_lock f (LockBuffer i) (rc s)) as [y| |] eqn:E; [|done..].
  intros _. apply fb_lock_returns in E as (fb & lm & Hc & Hl). split; [eauto|].
  unfold lockof. rewrite Hc. simpl. unfold LockBuffer in Hl. by destruct (LockMap fb !! i).
Qed.

Lemma RLock_free f i p x l :
  fb_lock f (RLockBuffer i) p = Ret x → lockof p f i = Some l → l ≠ MkLock WriteLock 0.
Proof.
  intros (fb & lm & Hc & Hl)%fb_lock_returns Hlk ->. unfold lockof in Hlk. rewrite Hc in Hlk.
  simpl in Hlk. unfold RLockBuffer in Hl. by rewrite Hlk in Hl.
Qed.

(** ** Reading a block needs no coherence to be safe *)

Lemma wp_ReadOp_safe s fe op fb :
  pool_wf BS (rc s) → BlockSize fe = BS → op_ok fe op → Cache (rc s) !! fe_Id fe = Some fb →
  (∀ b, slot_buf (rc s) (fe_Id fe) (Index op) = Some b → Offset b = 0 ∧ Len b = BS) →
  wp (ReadOp fe (fe_Id fe) op) (λ r s', same_files s s' ∧
    (rd_err r = None → Zlen (rd_buf r) = RwSize op ∧ 0 ≤ rd_size r ≤ RwSize op)) s.
Proof.
  intros Hwf Hfe Hop Hc Hsh. set (f := fe_Id fe) in *.
  destruct (op_pos BS HBS fe op Hfe Hop) as [Hpos Hpos0].
  destruct Hop as (_ & Hi & Hmax & Ho & Hsz & Hos & Hl). rewrite Hfe in *.
  unfold ReadOp. apply wp_bind, wp_zoom, (wp_GetBuffer _ _ fb); [done|].
  rewrite set_rc_id. destruct (slot (rc s) f (Index op)) as [bid|] eqn:Es.
  - destruct (wf_slot_buf _ _ _ _ _ Hwf Es) as (b & Hb & Hbok).
    destruct (Hsh b) as (HO & HL); [unfold slot_buf; by rewrite Es|].
    assert (Zlen (dataBuf b) = BS) as HD.
    { destruct Hbok as (_&_&_&_&?&?&?&?). done. }
    apply wp_bind, wp_zoom, (wp_buf_get _ b); [done|]. rewrite set_rc_id.
    apply wp_bind, wp_assert; [zbool|]. rewrite HL. rewrite (proj2 (Z.leb_gt _ _)) by lia.
    rewrite (u32_small (BS - RwOffset op)) by lia.
    replace (if RwSize op <? BS - RwOffset op then RwSize op else BS - RwOffset op) with (RwSize op)
      by zbool.
    rewrite u32_small by lia. apply wp_bind.
    destruct (go_slice_ok (dataBuf b) (RwOffset op) (RwOffset op + RwSize op)) as (d & Hd & Hdl & Hdb);
      [lia..|].
    eapply wp_lift.
    { unfold Buffer_GetRangeData. rewrite HO, HL, u32_small by lia.
      rewrite (proj2 (Z.leb_le 0 (RwOffset op))), (proj2 (Z.leb_le _ (0 + BS))) by lia. exact Hd. }
    apply wp_ret. split; [apply same_files_refl|]. simpl. intros _.
    destruct (copy0_ok (rwBuf op) d) as [Hcl _]; [lia|]. split; [congruence|lia].
  - unfold wp, DirectRead. rewrite Hpos. fold f.
    destruct (Reader_Read f (rwBuf op) (Index op * BS + RwOffset op) (world s)) as [r w'] eqn:Er.
    apply Reader_Read_spec in Er as [Hfr Hr]; [|lia|lia].
    split; [by exists w'|]. intros Hn. rewrite Hn in Hr. destruct Hr as (Hn' & Hbl & _).
    rewrite Hl in *. split; [done|]. lia.
Qed.

Lemma wp_MergeOp_safe s fe op fb n :
  pool_wf BS (wc s) → BlockSize fe = BS → op_ok fe op → Cache (wc s) !! fe_Id fe = Some fb →
  n ≤ RwSize op → wp (MergeOp (fe_Id fe) op n) (λ _ s', s' = s) s.
Proof.
  intros Hwf Hfe Hop Hc Hn. pose proof Hop as (_ & ? & _ & ? & ? & ? & Hl). rewrite Hfe in *.
  unfold MergeOp. apply wp_bind, wp_assert; [zbool|].
  apply wp_bind, wp_onw, (wp_GetBuffer _ _ fb); [done|]. rewrite set_wc_id.
  destruct (slot (wc s) (fe_Id fe) (Index op)) as [bid|] eqn:Es.
  2:{ apply wp_bind, wp_onw, (wp_fb_get _ fb); [done|]. rewrite set_wc_id.
      by destruct (_ && _); apply wp_ret. }
  destruct (wf_slot_buf _ _ _ _ _ Hwf Es) as (b & Hb & Hok).
  assert (slot_buf (wc s) (fe_Id fe) (Index op) = Some b) as Hsb by (unfold slot_buf; by rewrite Es).
  destruct (wf_slots_ok BS _ _ Hwf _ _ Hsb) as (_ & ? & ? & ? & HD).
  apply wp_bind, wp_onw, (wp_buf_get _ b); [done|]. rewrite set_wc_id.
  rewrite !(u32_small (Offset b + Len b)), !(u32_small (RwOffset op + RwSize op)) by lia.
  destruct ((Offset b + Len b <=? RwOffset op) || (RwOffset op + RwSize op <=? Offset b)) eqn:Ei.
  { by destruct (_ && _); apply wp_ret. }
  set (lo := if Offset b <? RwOffset op then RwOffset op else Offset b).
  set (hi := if RwOffset op + RwSize op <? Offset b + Len b then RwOffset op + RwSize op
             else Offset b + Len b).
  assert (lo = Z.max (Offset b) (RwOffset op)) as Hlo by (unfold lo; zbool).
  assert (hi = Z.min (Offset b + Len b) (RwOffset op + RwSize op)) as Hhi by (unfold hi; zbool).
  assert (lo < hi) as Hlt by zbool. clearbody lo hi.
  apply wp_bind, wp_assert; [zbool|]. apply wp_bind, wp_assert; [zbool|].
  destruct (go_slice_ok (dataBuf b) lo hi) as (d & Hd & Hdl & Hdb); [lia..|].
  apply wp_bind. eapply wp_lift.
  { unfold Buffer_GetRangeData. rewrite (u32_small (Offset b + Len b)) by lia.
    rewrite (proj2 (Z.leb_le (Offset b) lo)), (proj2 (Z.leb_le hi _)) by lia. exact Hd. }
  rewrite !u32_small by lia.
  destruct (go_copy_ok (rwBuf op) (lo - RwOffset op) d) as (buf' & Hcp & _ & _); [lia..|].
  apply wp_bind. eapply wp_lift; [exact Hcp|]. by apply wp_ret.
Qed.

Lemma wp_ReadBlock_safe s fe op :
  winv BS false s → rinv BS false s → is_Some (Cache (rc s) !! fe_Id fe) → BlockSize fe = BS → op_ok fe op →
  lockof (rc s) (fe_Id fe) (Index op) = None → lockof (wc s) (fe_Id fe) (Index op) = None →
  wp (ReadBlock fe (fe_Id fe) (w_handle s (fe_Id fe)) op) (λ r s', same_files s s') s.
Proof.
  intros Hwi Hri [fbr Hfbr] Hfe Hop Hrl Hwl. set (f := fe_Id fe) in *.
  assert (∀ s1, world s1 = world s → rc s1 = rc s →
    wp (onr (fb_lock f (RLockBuffer (Index op)));;; let! r := ReadOp fe f op in
        onr (fb_lock f (RUnLockBuffer (Index op)));;; ret r)
      (λ r s', same_files s1 s' ∧
        (rd_err r = None → Zlen (rd_buf r) = RwSize op ∧ 0 ≤ rd_size r ≤ RwSize op)) s1) as Hread.
  { intros s1 Hw1 Hr1. apply wp_bind, wp_zoom, (wp_rlock _ _ fbr); [by rewrite Hr1..|].
    rewrite Hr1. destruct (rlocked_facts BS f (Index op) fbr (rc s) Hfbr) as (Hc2 & Hs2 & Hsb2 & Hwf2).
    apply wp_bind. eapply wp_mono; [|eapply (wp_ReadOp_safe _ fe op); try done; try apply Hwf2, Hri].
    2:{ intros b. simpl. fold f. rewrite Hsb2. apply (ri_shape _ _ Hri). }
    simpl. intros r s2 [(w2 & -> & Hw2) Hp]. apply wp_bind, wp_zoom. simpl.
    apply (wp_runlock f (Index op) fbr); [done..|]. apply wp_ret. split; [|done].
    exists w2. split; [destruct s1; simpl in *; by subst|]. intros g. by rewrite Hw2. }
  unfold ReadBlock, w_handle. fold f. destruct (Cache (wc s) !! f) as [fbw|] eqn:Ew.
  - apply wp_bind, wp_onw, (wp_rlock _ _ fbw); [done..|].
    set (s1 := set_wc (rlocked f (Index op) fbw (wc s)) s).
    apply wp_bracket. eapply wp_mono; [|by apply (Hread s1)].
    intros r s2 [(w2 & -> & Hw2) Hp].
    assert (∀ A (a : A), wp (onw (fb_lock f (RUnLockBuffer (Index op)));;; ret a)
      (λ _ s', same_files s s') (set_world w2 s1)) as Hun.
    { intros A a. apply wp_bind, wp_onw. simpl. apply (wp_runlock f (Index op) fbw); [done..|].
      apply wp_ret. exists w2. by split; [destruct s|]. }
    destruct (rd_err r) as [e|] eqn:Ee; [apply Hun|]. destruct (Hp eq_refl) as [Hl Hn].
    destruct (rlocked_facts BS f (Index op) fbw (wc s) Ew) as (Hc2 & Hs2 & Hsb2 & Hwf2).
    apply wp_bind. eapply wp_mono; [|eapply (wp_MergeOp_safe (set_world w2 s1) fe)]; simpl; try done; try lia.
    + intros [sz buf] ? ->. apply Hun.
    + apply Hwf2, Hwi.
    + destruct Hop as (?&?&?&?&?&?&?). by split_and!.
  - apply wp_bind, wp_ret, wp_bracket. eapply wp_mono; [|by apply (Hread s)].
    intros r s2 [Hsf Hp]. destruct (rd_err r); by apply wp_ret.
Qed.

(** The oldest buffer leaves the LRU list, or nothing happens: [LruExpire]
    hands out the block of a buffer whose time has passed. *)
Definition expire_post t p (r : option (FileEntry * Z)) p' : Prop :=
  match r with
  | None => p' = p ∧ ∀ bid b, last (LruList p) = Some bid → bufs p !! bid = Some b →
      t - LastUpdateTime b < ExpireTime p * 1000000
  | Some (fe, i) => ∃ bid, last (LruList p) = Some bid ∧
      LruList p' = list_remove_id bid (LruList p) ∧ slot p (fe_Id fe) i = Some bid ∧
      ∃ b, bufs p !! bid = Some b ∧ ExpireTime p * 1000000 ≤ t - LastUpdateTime b
  end.

Lemma wp_LruExpire_pool t p :
  pool_wf BS p →
  wp (LruExpire t) (λ r p', pool_wf BS p' ∧ Cache p' = Cache p ∧ ExpireTime p' = ExpireTime p ∧
    (∀ g j b', slot_buf p' g j = Some b' → ∃ b, slot_buf p g j = Some b ∧
      Offset b' = Offset b ∧ Len b' = Len b ∧ dataBuf b' = dataBuf b) ∧ expire_post t p r p') p.
Proof.
  intros Hwf. unfold LruExpire. apply wp_bind, wp_gets.
  destruct (last (LruList p)) as [bid|] eqn:El.
  2:{ apply wp_ret. split_and!; eauto 10. split; [done|]. congruence. }
  assert (bid ∈ LruList p) as Hin by (by apply last_Some_elem_of).
  destruct (wf_lru_dom _ _ Hwf _ Hin) as (f & i & Hs).
  destruct (wf_slot_buf _ _ _ _ _ Hwf Hs) as (b & Hb & Hok).
  apply wp_bind, (wp_buf_get _ b); [done|].
  apply wp_bind, wp_assert; [by apply (wf_lru _ _ Hwf _ _ Hb)|].
  apply wp_bind, wp_gets. destruct (Z.ltb_spec (t - LastUpdateTime b) (ExpireTime p * 1000000)).
  { apply wp_ret. split_and!; eauto 10. split; [done|]. intros. by simplify_eq. }
  apply wp_bind, wp_modify, wp_bind. eapply wp_buf_upd; [exact Hb|done|]. apply wp_ret.
  set (b1 := set_elm false (LastUpdateTime b) b). split_and!; try done.
  - eapply (wf_update BS p _ bid b1 f i); try done; simpl.
    + by apply list_remove_id_NoDup, Hwf.
    + intros x. rewrite list_remove_id_spec. naive_solver.
    + apply (wf_fb _ _ Hwf).
  - intros g j b'. unfold slot_buf. simpl. change (slot (set_bufs _ _) g j) with (slot p g j).
    destruct (slot p g j) as [x|]; simpl; [|done]. rewrite lookup_insert. case_decide; [|eauto 6].
    subst x. intros [= <-]. exists b. by split_and!.
  - destruct Hok as ((fe & -> & Hid & _) & Hidx & _). exists bid. rewrite Hid, Hidx. split_and!; try done.
    by exists b.
Qed.

(** Taking the oldest buffer out of the LRU list changes no block. *)
Lemma expire_rinv s p' :
  rinv BS false s → pool_wf BS p' → Cache p' = Cache (rc s) →
  (∀ g j b', slot_buf p' g j = Some b' → ∃ b, slot_buf (rc s) g j = Some b ∧
     Offset b' = Offset b ∧ Len b' = Len b ∧ dataBuf b' = dataBuf b) →
  rinv BS false (set_rc p' s).
Proof.
  intros [_ Hshape Hq Hnd Hlk] Hwf Hc Hsh.
  assert (∀ g j, slot p' g j = slot (rc s) g j) as Hs by (intros; unfold slot; by rewrite Hc).
  assert (∀ g j, lockof p' g j = lockof (rc s) g j) as Hl by (intros; unfold lockof; by rewrite Hc).
  constructor; simpl; try done.
  - intros g j b' (b & Hb & -> & -> & _)%Hsh. by eapply Hshape.
  - intros op Hop. rewrite Hs, Hl. by apply Hq.
  - intros g j l. rewrite Hl. apply Hlk.
Qed.

(** ** The transition system *)

Inductive rwstep : CS W → CS W → Prop :=
| rw_wcache l s s' : wstep BS l s s' → rwstep s s'
| rw_table fe r s s' :
    BlockSize fe = BS → RCache_GetFileBuffer fe true s = Ret (r, s') → rwstep s s'
| rw_read fe op r s s' :
    BlockSize fe = BS → op_ok fe op → is_Some (Cache (rc s) !! fe_Id fe) →
    ReadBlock fe (fe_Id fe) (w_handle s (fe_Id fe)) op s = Ret (r, s') → rwstep s s'
| rw_window f w s s' :
    onr (fb_upd f (λ fb, Ret (set_pw w fb))) s = Ret (tt, s') → rwstep s s'
| rw_send f i s s' :
    chPrefetch s ≠ None → 0 ≤ i → (i + 1) * BS < 2 ^ 64 →
    Prefetch_loop 1 f i (i + 1) s = Ret (tt, s') → rwstep s s'
| rw_prefetch s s' : PrefetchRead_one s = Ret (tt, s') → rwstep s s'
| rw_release f i e s s' : ReleaseBuffer f i s = Ret (e, s') → rwstep s s'
| rw_expire r s s' : RCache_LruExpire (now s) s = Ret (r, s') → rwstep s s'
| rw_close fe e s s' :
    (∀ g j, lockof (wc s) g j = None) → (∀ j, lockof (rc s) (fe_Id fe) j = None) →
    RWCache_Close fe s = Ret (e, s') → rwstep s s'.

(** A step of the write cache leaves the read cache alone. *)
Lemma wstep_rc l s s' :
  winv BS false s → wstep BS l s s' → rc s' = rc s ∧ chPrefetch s' = chPrefetch s.
Proof.
  assert (∀ s1 s2 : CS W, frame s1 s2 → rc s2 = rc s1 ∧ chPrefetch s2 = chPrefetch s1) as Hfr
    by (by intros ? ? (?&?&_)).
  intros Hi Hst. destruct Hst as [fe r s s' Hfe Hr|fe op n e s s' Hfe Hop Hr|f i e s s' Hr
    |r s s' Hr|bid s s' Hb Hr|t s Ht].
  - eapply wp_ret_inv in Hr; [|by apply (GetFileBuffer_new BS (shut:=false))]. apply Hfr, Hr.
  - destruct (lock_returns _ _ _ _ _ Hr) as [Hc Hl].
    eapply wp_ret_inv in Hr; [|by apply (wp_WriteBlock BS HBS (shut:=false))]. apply Hfr, Hr.
  - destruct (lock_returns _ _ _ _ _ Hr) as [Hc Hl].
    eapply wp_ret_inv in Hr; [|by apply (wp_FlushBuffer BS HBS (shut:=false))]. apply Hfr, Hr.
  - eapply wp_ret_inv in Hr; [|by apply (LruExpire_spec BS HBS (shut:=false))]. apply Hfr, Hr.
  - destruct (SyncWrite_one_spec BS HBS bid s Hi Hb) as (f & i & _ & Hw).
    eapply wp_ret_inv in Hr; [|exact Hw]. apply Hfr, Hr.
  - done.
Qed.

(** A read returned, so no writer has its block. *)
Lemma ReadBlock_returns s fe op x :
  rwinv BS false s → ReadBlock fe (fe_Id fe) (w_handle s (fe_Id fe)) op s = Ret x →
  lockof (rc s) (fe_Id fe) (Index op) = None ∧ lockof (wc s) (fe_Id fe) (Index op) = None.
Proof.
  intros [Hwi Hri]. set (f := fe_Id fe). unfold ReadBlock, w_handle. fold f.
  assert (∀ A (k : M (CS W) A) s1 y, rc s1 = rc s →
    (onr (fb_lock f (RLockBuffer (Index op)));;; k) s1 = Ret y →
    lockof (rc s) f (Index op) = None) as Hr.
  { intros A k s1 y Hrc. unfold bind, onr, zoom. rewrite Hrc.
    destruct (fb_lock f _ (rc s)) as [z| |] eqn:E; [|done..]. intros _.
    destruct (lockof (rc s) f (Index op)) as [l|] eqn:El; [|done].
    destruct (RLock_free _ _ _ _ _ E El). by eapply rlock_write. }
  destruct (Cache (wc s) !! f) as [fbw|] eqn:Ew.
  - unfold bind at 1, onw, zoom. destruct (fb_lock f _ (wc s)) as [[[] p1]| |] eqn:E; [|done..].
    intros E2. split; [by eapply Hr; [|exact E2]|].
    destruct (lockof (wc s) f (Index op)) as [l|] eqn:El; [|done].
    destruct (RLock_free _ _ _ _ _ E El). by eapply wlock_write.
  - unfold bind at 1, ret at 1. intros E2. split; [by eapply Hr; [|exact E2]|].
    unfold lockof. by rewrite Ew.
Qed.

Lemma rinv_shrink s f (gone : Z → Prop) p' :
  rinv BS false s → rshrink BS f gone (rc s) p' → (∀ j, gone j ∨ ¬ gone j) →
  (∀ j, gone j → lockof (rc s) f j = None) → rinv BS false (set_rc p' s).
Proof.
  intros [Hwf Hsh Hq Hnd Hlk Hst] (Hwf' & _ & _ & Hl' & Hs & Hg) Hdec Hfree. constructor; simpl; try done.
  - intros g i b Hb. destruct (decide (g = f)) as [->|Hne].
    + destruct (Hdec i) as [Hi|Hi]; [unfold slot_buf in Hb; by rewrite Hg in Hb|].
      destruct (Hs f i) as [E _]; [tauto|]. rewrite E in Hb. by eapply Hsh.
    + destruct (Hs g i) as [E _]; [tauto|]. rewrite E in Hb. by eapply Hsh.
  - intros op Hop. destruct (Hq op Hop) as (?&?&?&?&?&Hlo). rewrite Hl'. split_and!; try done.
    destruct (Hs (fe_Id (op_fe op)) (Index op)) as [_ ->]; [|done].
    intros [E Hgo]. rewrite E, Hfree in Hlo by done. done.
  - intros g i l. rewrite Hl'. apply Hlk.
Qed.

(** A pool with the same tables up to their prefetch windows. *)
Lemma wf_set_pw p f fb w :
  pool_wf BS p → Cache p !! f = Some fb →
  let p' := set_cache (<[f := set_pw w fb]> (Cache p)) p in
  pool_wf BS p' ∧ (∀ g j, slot p' g j = slot p g j) ∧ (∀ g j, lockof p' g j = lockof p g j).
Proof.
  intros Hwf Hc p'.
  assert (∀ g j, slot p' g j = slot p g j) as Hs.
  { intros. unfold p'. rewrite slot_set_cache. case_decide; [subst|done]. unfold slot. by rewrite Hc. }
  split; [|split; [done|]].
  - destruct Hwf. constructor; simpl; intros *; rewrite ?Hs; try setoid_rewrite Hs; eauto.
    rewrite lookup_insert. case_decide; intros; simplify_eq; simpl; eauto.
  - intros. unfold p'. rewrite lockof_set_cache. case_decide; [subst|done]. unfold lockof. by rewrite Hc.
Qed.

Lemma send_returns f i s x :
  Prefetch_loop 1 f i (i + 1) s = Ret x →
  is_Some (Cache (rc s) !! f) ∧ lockof (rc s) f i = None.
Proof.
  simpl. rewrite (proj2 (Z.ltb_lt i (i + 1))) by lia. unfold bind at 1, onr at 1, zoom at 1, fb_get.
  destruct (Cache (rc s) !! f) as [fb|] eqn:Hc; [|done]. rewrite set_rc_id.
  intros E. apply onr_lock_returns in E as [_ ?]. eauto.
Qed.

Lemma rwstep_inv s s' : rwinv BS false s → rwstep s s' → rwinv BS false s'.
Proof.
  intros [Hwi Hri] Hst. destruct Hst as [l s s' Hst|fe r s s' Hfe Hr|fe op r s s' Hfe Hop Hc Hr
    |f w s s' Hr|f i s s' Hch Hi Hm Hr|s s' Hr|f i e s s' Hr|r s s' Hr|fe e s s' Hwl Hrl Hr].
  - destruct (wstep_rc _ _ _ Hwi Hst) as [Hrc Hpf]. split; [by eapply (wstep_ok BS HBS)|].
    by eapply rinv_same.
  - assert (wp (RCache_GetFileBuffer fe true) (λ _ s1, rwinv BS false s1) s) as Hw.
    { apply (rc_new_table BS HBS); [apply Hri|done|]. intros s1 _ Hwf Hwc _ Hpf Hy Hs Hsb Hl.
      split; [by eapply winv_ext|].
      apply (rinv_same BS (set_rc (rc s1) s)); [|done..]. by apply rinv_ext. }
    exact (wp_ret_inv _ _ _ _ _ Hw Hr).
  - destruct (ReadBlock_returns s fe op _ (conj Hwi Hri) Hr) as [Hrl Hwl].
    pose proof (wp_ReadBlock_safe s fe op Hwi Hri Hc Hfe Hop Hrl Hwl) as Hw.
    destruct (wp_ret_inv _ _ _ _ _ Hw Hr) as (w' & -> & _).
    split; [by apply (winv_ext BS s)|by apply (rinv_same BS s)].
  - unfold onr, zoom, fb_upd, bind, fb_get, lift, modify in Hr.
    destruct (Cache (rc s) !! f) as [fb|] eqn:Hc; [|done]. injection Hr as <-.
    destruct (wf_set_pw (rc s) f fb w (ri_wf _ _ Hri) Hc) as (Hwf & Hs & Hl).
    split; [by apply (winv_ext BS s)|]. apply rinv_ext; try done.
    intros g j. unfold slot_buf. by rewrite Hs.
  - destruct (send_returns f i s _ Hr) as [[fb Hc] Hl].
    destruct (wf_fb _ _ (ri_wf _ _ Hri) _ _ Hc) as [Hid Hfe]. rewrite <- Hid in *.
    pose proof (wp_Prefetch_loop BS HBS (fb_fe fb) 1 eq_refl s fb i (i + 1) Hri Hc eq_refl Hfe) as Hw.
    eapply wp_ret_inv in Hr as Hfl; [|apply Hw; try lia].
    + split; [eapply (winv_ext BS s); [done|apply Hfl..]|apply Hfl].
    + by apply (rinv_pqueue BS s Hri).
    + intros j Hj. by replace j with i by lia.
  - destruct (chPrefetch s) as [[[|op q] c]|] eqn:Hch;
      try (unfold PrefetchRead_one, bind, gets in Hr; by rewrite Hch in Hr).
    pose proof (ri_shut _ _ Hri _ Hch : c = false) as ->.
    eapply wp_ret_inv in Hr as Hp; [|by apply (wp_PrefetchRead_one BS HBS (shut:=false) s op q)].
    split; [eapply (winv_ext BS s); [done|apply Hp..]|apply Hp].
  - destruct (onr_lock_returns _ _ _ _ _ Hr) as [Hc Hl].
    assert (wp (ReleaseBuffer f i) (λ _ s', rwinv BS false s') s) as Hw.
    { apply (wp_ReleaseBuffer BS HBS); [apply Hri|done|done|]. intros p' Hrb Hs1 _ _.
      split; [by apply (winv_ext BS s)|].
      eapply (rinv_shrink s f (λ j, j = i)); [done|by apply rshrink_one|intros j; lia|by intros ? ->]. }
    exact (wp_ret_inv _ _ _ _ _ Hw Hr).
  - assert (wp (RCache_LruExpire (now s)) (λ _ s', rwinv BS false s') s) as Hw.
    { apply wp_zoom. eapply wp_mono; [|apply wp_LruExpire_pool, Hri]. intros _ p' (Hwf & Hc & _ & Hsh & _).
      split; [by apply (winv_ext BS s)|by apply expire_rinv]. }
    exact (wp_ret_inv _ _ _ _ _ Hw Hr).
  - pose proof (RWCache_Close_spec BS HBS fe s (conj Hwi Hri) Hrl Hwl) as Hw.
    apply (wp_ret_inv _ _ _ _ _ Hw Hr).
Qed.

(** ** Reachable states *)

(** The caches as [NewRWCache] builds them. *)
Definition rwinit (n expire : Z) (ch : option (chan Z)) (pf : option (chan RWBlockOp))
    (times : Z) (w : W) (t : Z) : CS W :=
  MkCS (NewPool n expire) (NewPool n expire) ch pf times w t.

Definition rwreachable s : Prop :=
  ∃ n expire ch pf times w t, (ch = None ∨ ch = Some (open_chan [])) ∧ (pf = None ∨ pf = Some (open_chan [])) ∧
    rtc rwstep (rwinit n expire ch pf times w t) s.

Lemma rwinv_init n expire ch pf times w t :
  (ch = None ∨ ch = Some (open_chan [])) → (pf = None ∨ pf = Some (open_chan [])) →
  rwinv BS false (rwinit n expire ch pf times w t).
Proof.
  intros Hch Hpf. set (s0 := rwinit n expire ch pf times w t).
  assert (pending s0 = []) as Hp by (destruct Hch as [->| ->]; done).
  assert (pqueue s0 = []) as Hq by (destruct Hpf as [->| ->]; done).
  assert (∀ f i, lockof (NewPool n expire) f i = None) as Hl
    by (intros; unfold lockof; simpl; by rewrite lookup_empty).
  split; constructor; rewrite ?Hp, ?Hq; try apply wf_NewPool; try apply NoDup_nil_2.
  - by intros ? ?%not_elem_of_nil.
  - intros f i l. simpl. by rewrite Hl.
  - intros c. simpl. by destruct Hch as [->| ->]; [|intros [= <-]].
  - intros f i b. unfold slot_buf. simpl. by rewrite slot_NewPool.
  - by intros ? ?%not_elem_of_nil.
  - intros f i l. simpl. by rewrite Hl.
  - intros c. simpl. by destruct Hpf as [->| ->]; [|intros [= <-]].
Qed.

Lemma rwreach_inv s : rwreachable s → rwinv BS false s.
Proof.
  intros (n & ex & ch & pf & times & w & t & Hch & Hpf & Hr).
  assert (∀ a, rtc rwstep a s → rwinv BS false a → rwinv BS false s) as Hind.
  { induction 1; [done|]. intros. eauto using rwstep_inv. }
  eapply Hind; [exact Hr|by apply rwinv_init].
Qed.

Lemma rwcache_locks_r s f i :
  rinv BS false s → is_Some (lockof (rc s) f i) ↔ ∃ op, op ∈ pqueue s ∧ opkey op = (f, i).
Proof.
  intros Hri. split.
  - intros [l Hl]. apply (ri_lock _ _ Hri) in Hl as (op & E & Hin)%list_elem_of_fmap. by exists op.
  - intros (op & Hin & E). destruct (ri_q _ _ Hri op Hin) as (_&_&_&_&_&Hl). unfold opkey in E.
    injection E as <- <-. eauto.
Qed.

Lemma rwcache_locks_w s f i :
  winv BS false s →
  is_Some (lockof (wc s) f i) ↔ ∃ bid, bid ∈ pending s ∧ slot (wc s) f i = Some bid.
Proof.
  intros Hwi. split.
  - intros [l Hl]. apply (wi_lock _ _ Hwi) in Hl as (bid & ? & ?). by exists bid.
  - intros (bid & Hin & Hs). destruct (wi_pend _ _ Hwi bid Hin) as (g & j & b & Hs' & _ & _ & Hl).
    destruct (wf_inj _ _ (wi_wf _ _ Hwi) _ _ _ _ _ Hs Hs') as [-> ->]. eauto.
Qed.


(** A read of a block that a writer has locked waits. *)
Lemma RLock_waits f i p :
  lockof p f i = Some (MkLock WriteLock 0) → fb_lock f (RLockBuffer i) p = Block.
Proof.
  unfold lockof, fb_lock, fb_upd, bind, fb_get, lift. destruct (Cache p !! f) as [fb|]; [|done].
  simpl. intros Hl. unfold RLockBuffer. by rewrite Hl.
Qed.

Lemma ReadBlock_waits s fe op :
  rwinv BS false s →
  is_Some (lockof (rc s) (fe_Id fe) (Index op)) ∨ is_Some (lockof (wc s) (fe_Id fe) (Index op)) →
  ReadBlock fe (fe_Id fe) (w_handle s (fe_Id fe)) op s = Block.
Proof.
  intros [Hwi Hri] Hl. set (f := fe_Id fe) in *. unfold ReadBlock, w_handle. fold f.
  destruct (Cache (wc s) !! f) as [fbw|] eqn:Ew.
  - unfold bind at 1, onw, zoom. destruct (lockof (wc s) f (Index op)) as [l|] eqn:El.
    { by rewrite RLock_waits by (rewrite El; f_equal; by eapply wlock_write). }
    destruct Hl as [[l Hl]|[? ?]]; [|done].
    pose proof (wp_rlock f (Index op) fbw (λ _ _, True) (wc s) Ew El I) as Hw.
    unfold wp in Hw. destruct (fb_lock f _ (wc s)) as [[[] p1]| |]; [|done..].
    unfold bind at 1, onr, zoom. simpl.
    by rewrite RLock_waits by (rewrite Hl; f_equal; by eapply rlock_write).
  - unfold bind at 1, ret at 1. destruct Hl as [[l Hl]|[l Hl]].
    + unfold bind at 1, onr, zoom.
      by rewrite RLock_waits by (rewrite Hl; f_equal; by eapply rlock_write).
    + unfold lockof in Hl. by rewrite Ew in Hl.
Qed.

End Steps.

(** * Witnesses: a file of six bytes, blocks of four *)

Module RWSExample.

Definition fe : FileEntry := MkFileEntry 1 4 0 "/m/a" 2 0 false "u" 7 0 false.
Definition after {A} (o : outcome (A * CS MemStore)) (s : CS MemStore) : CS MemStore :=
  match o with Ret (_, s') => s' | _ => s end.

(** Reading starts, block 1 is queued for prefetching, and two bytes of block 0
    are written. *)
Definition op0 : RWBlockOp := MkOp fe 0 1 2 [1; 2] 0.
Definition op1 : RWBlockOp := MkOp fe 1 0 1 [0] 0.
Definition s0 : CS MemStore := rwinit 4 10 (Some (open_chan [])) (Some (open_chan [])) 1 (MkMem {[1 := [9; 8; 7; 6; 5; 4]]} []) 0.
Definition s1 := after (RCache_GetFileBuffer fe true s0) s0.
Definition s2 := after (Prefetch_loop 1 1 1 2 s1) s1.
Definition s3 := after (onw (GetFileBuffer fe true) s2) s2.
Definition s4 := after (WriteBlock fe 1 op0 s3) s3.

Lemma op0_ok : op_ok fe op0.
Proof. by repeat split. Qed.

Lemma op1_ok_rws : op_ok fe op1.
Proof. by repeat split. Qed.

Lemma bs4_rws : 0 < 4 < 2 ^ 32.
Proof. lia. Qed.

Lemma reach4 : rwreachable 4 s4.
Proof.
  exists 4, 10, (Some (open_chan [])), (Some (open_chan [])), 1, (MkMem {[1 := [9; 8; 7; 6; 5; 4]]} []), 0.
  split; [by right|]. split; [by right|]. change (rtc (rwstep 4) s0 s4).
  apply (rtc_l _ _ s1); [by apply (rw_table 4 fe (Some 1)); [|vm_compute]|].
  apply (rtc_l _ _ s2); [by apply (rw_send 4 1 1); [vm_compute|lia|lia|vm_compute]|].
  apply (rtc_l _ _ s3); [by apply (rw_wcache 4 LTau), (ws_open 4 fe (Some 1)); [|vm_compute]|].
  apply rtc_once, (rw_wcache 4 (LWrite 1 1 [1; 2] None)).
  apply (ws_write 4 fe op0 2 None); [done|apply op0_ok|by vm_compute].
Qed.


End RWSExample.
