(* ===== verification/RWCacheTheorems.v ===== *)
(** What reading and writing through both caches guarantees, with witnesses,
    and the behaviours in which the caches depart from a plain file. *)

From stdpp Require Import base gmap list strings.
From Stdlib Require Import ZArith Lia.
From S2P Require Import Prelude GoString Proto Store Buffer Pool View CacheState WCache.
From S2P Require Import WCacheProof WCacheSteps RCache RWCache RWCacheProof RCacheProof.

(** C31: a request is cut into blocks.  For every request whose sizes do not
    overflow, both caches' [Slice]s return without a panic and return the same
    operations: laid end to end they are exactly the request's buffer; the
    [i]-th of them is about the [i]-th block the request touches, stays inside
    that block, and carries the bytes of the buffer for its file offset. *)
Theorem slice_tiles fe buffer offset :
  req_ok fe buffer offset →
  ∃ ops, Slice fe buffer offset = Ret ops ∧ RCache_Slice fe buffer offset = Ret ops ∧
    concat (map rwBuf ops) = buffer ∧
    ∀ i op, ops !! i = Some op →
      op_fe op = fe ∧ Index op = offset / BlockSize fe + Z.of_nat i ∧
      0 ≤ RwOffset op ∧ 0 < RwSize op ∧ RwOffset op + RwSize op ≤ BlockSize fe ∧
      Op_GetFileOffset op = offset + rwPos op ∧
      take (Z.to_nat (RwSize op)) (drop (Z.to_nat (rwPos op)) buffer) = rwBuf op.
Proof.
  intros Hreq. destruct (Slice_tiling _ _ _ Hreq) as (ops & HS & Ht). exists ops.
  pose proof Hreq as (HB & Ho & _). split; [done|].
  split; [by rewrite RCache_Slice_eq by lia|]. split; [by eapply tiling_concat|].
  intros i op Hop. destruct (tiling_lookup _ _ _ _ _ Ht Ho ltac:(lia) i op Hop)
    as ((? & _ & _ & ? & ? & ? & _) & Hi & Hf & Hd). rewrite Z.sub_0_r in Hd. split_and!; try done. lia.
Qed.

Section Theorems.
Context {W : Type} `{ProxyStore W}.
Context (BS : Z).
Hypothesis HBS : 0 < BS < 2 ^ 32.
Implicit Types (s : CS W).

(** The state between two requests when prefetching is switched off: nothing
    of the file is cached for reading and no block is locked. *)
Record quiet s (f : Z) : Prop := {
  qu_winv : winv BS false s;
  qu_rwf : pool_wf BS (rc s);
  qu_pref : chPrefetch s = None;
  qu_rslot : ∀ j, slot (rc s) f j = None;
  qu_rlock : ∀ j, lockof (rc s) f j = None;
  qu_wlock : ∀ j, lockof (wc s) f j = None;
}.

Lemma rcoherent_empty s f : (∀ j, slot (rc s) f j = None) → rcoherent BS s f.
Proof. intros Hn i b. unfold slot_buf. by rewrite Hn. Qed.

(** C3: a read with prefetching off returns the logical file: the count never
    exceeds the buffer or the end of the file, the bytes up to the count are
    those of the logical file (proxy overlaid with the write buffers), the rest
    of the caller's buffer is untouched, and when the last block read is not
    buffered, or no later block is, the read is complete. An error leaves the
    buffer as it was. *)
Theorem rwcache_read s fe buffer offset :
  quiet s (fe_Id fe) → BlockSize fe = BS → req_ok fe buffer offset →
  ∃ r s', RWCache_Read fe buffer offset s = Ret (r, s') ∧
    wc s' = wc s ∧ (∀ g, content (world s') g = content (world s) g) ∧
    match rd_err r with
    | Some _ => is_errno (rd_err r) ∧ rd_buf r = buffer
    | None =>
        Zlen (rd_buf r) = Zlen buffer ∧ 0 ≤ rd_size r ≤ Zlen buffer ∧
        (∀ k, 0 ≤ k < rd_size r →
           live (wview BS s (fe_Id fe)) (offset + k) ∧
           byte_at (rd_buf r) k = abyte (wview BS s (fe_Id fe)) (offset + k)) ∧
        (∀ k, rd_size r ≤ k → byte_at (rd_buf r) k = byte_at buffer k) ∧
        (last_ok BS s (fe_Id fe) (offset + Zlen buffer) → ∀ k, 0 ≤ k < Zlen buffer →
           live (wview BS s (fe_Id fe)) (offset + k) → k < rd_size r)
    end.
Proof.
  intros [Hi Hwf Hp Hs Hrl Hwl] Hfe Hreq.
  pose proof (doRead_spec BS HBS fe buffer offset s Hwf (wi_wf _ _ Hi)
    (rcoherent_empty s _ Hs) Hrl Hwl Hp Hfe Hreq) as Hw.
  apply wp_run in Hw as (r & s' & E & Hwc & _ & Hfiles & Hlen & Hr). exists r, s'.
  split; [exact E|]. split; [done|]. split; [done|].
  destruct (rd_err r); [done|]. destruct Hr as (Hn & Hb & Hrest & Hlive & Hlast).
  split; [done|]. split; [done|]. split; [|done]. intros k Hk. split; [by apply Hlive|by apply Hb].
Qed.

(** Read your writes: after a write through both caches that reports no error
    (synchronous mode, prefetching off), any read of the file returns, up to its
    count, the bytes of the old logical file with the buffer laid over it. *)
Lemma write_then_read s fe buffer offset :
  quiet s (fe_Id fe) → chSync s = None → BlockSize fe = BS → req_ok fe buffer offset →
  ∃ n err s1, RWCache_Write fe buffer offset s = Ret ((n, err), s1) ∧
    (err = None → n = Zlen buffer ∧ ∀ fe' rbuf roff,
      fe_Id fe' = fe_Id fe → BlockSize fe' = BS → req_ok fe' rbuf roff →
      ∃ r s2, RWCache_Read fe' rbuf roff s1 = Ret (r, s2) ∧
        (rd_err r = None → ∀ k, 0 ≤ k < rd_size r →
           byte_at (rd_buf r) k =
           abyte (spec_write (wview BS s (fe_Id fe)) offset buffer) (roff + k))).
Proof.
  intros [Hi Hwf Hp Hs Hrl Hwl] Hch Hfe Hreq.
  pose proof (RWCache_Write_spec BS HBS fe buffer offset s eq_refl Hi Hwf Hrl Hfe Hreq
    (λ j _, Hwl j)) as Hw.
  apply wp_run in Hw as ([n err] & s1 & E & Hi1 & Hwr & _ & Hp1 & Hch1 & Hwf1 & Hl1 & Hs1 & _).
  exists n, err, s1. split; [done|]. intros ->. destruct Hwr as [Hn Hv]. split; [done|].
  intros fe' rbuf roff Hid Hfe' Hreq2. simpl in Hv.
  assert (∀ j, slot (rc s1) (fe_Id fe) j = None) as Hs1'.
  { intros j. destruct (Hs1 (fe_Id fe) j) as [->| ->]; [apply Hs|done]. }
  assert (pending s1 = []) as Hpend by (unfold pending; by rewrite (proj1 Hch1 Hch)).
  rewrite <- Hid in *.
  pose proof (doRead_spec BS HBS fe' rbuf roff s1 Hwf1 (wi_wf _ _ Hi1) (rcoherent_empty s1 _ Hs1')
    ltac:(intros; by rewrite Hl1) ltac:(intros; by eapply no_pending_unlocked)
    ltac:(congruence) Hfe' Hreq2) as Hr.
  apply wp_run in Hr as (r & s2 & Er & _ & _ & _ & _ & Hr). exists r, s2. split; [exact Er|].
  intros Hnone k Hk. rewrite Hnone in Hr. destruct Hr as (_ & Hb & _). rewrite Hb by done.
  assert (0 ≤ roff + k) by (destruct Hreq2 as (_&?&_); lia).
  destruct buffer as [|x buffer]; [by destruct Hreq as (_&_&?&_)|]. by apply Hv.
Qed.

(** The window a write cleans: after [Clean] no block that the write's
    range touches is cached for reading, and every other block of every file
    is as before. *)
Theorem rcache_clean s fe size offset :
  pool_wf BS (rc s) → (∀ j, lockof (rc s) (fe_Id fe) j = None) → BlockSize fe = BS →
  0 ≤ offset → 0 < size → offset mod BS + size + BS < 2 ^ 32 → offset + size + BS < 2 ^ 64 →
  ∃ s', Clean fe size offset s = Ret (None, s') ∧ pool_wf BS (rc s') ∧
    (∀ x, offset ≤ x < offset + size → slot (rc s') (fe_Id fe) (x / BS) = None) ∧
    (∀ g j, g ≠ fe_Id fe ∨ j < offset / BS ∨ (offset + size - 1) / BS < j →
       slot_buf (rc s') g j = slot_buf (rc s) g j).
Proof.
  intros Hwf Hl Hfe Ho Hs Hm1 Hm2. pose proof (Z.mod_pos_bound offset BS ltac:(lia)).
  assert (window_hi BS offset size = (offset + size - 1) / BS + 1) as Hhi.
  { unfold window_hi. replace (offset + size + BS - 1) with (offset + size - 1 + 1 * BS) by lia.
    by rewrite Z.div_add by lia. }
  assert (window_hi BS offset size - window_lo BS offset < 2 ^ 32) as Hwin.
  { rewrite Hhi. unfold window_lo. rewrite (Z.div_mod offset BS) at 1 by lia.
    replace (BS * (offset / BS) + offset mod BS + size - 1) with
      (offset mod BS + size - 1 + offset / BS * BS) by lia.
    rewrite Z.div_add by lia.
    assert ((offset mod BS + size - 1) / BS ≤ offset mod BS + size - 1)
      by (apply Z.div_le_upper_bound; nia). lia. }
  pose proof (Clean_spec BS HBS fe size offset s Hwf Hl Hfe Ho ltac:(lia) Hm2 Hwin) as Hw.
  apply wp_run in Hw as (e & s' & E & -> & p' & -> & Hwf' & _ & Hs' & Hg').
  exists (set_rc p' s). simpl. split_and!; try done.
  - intros x Hx. apply Hg'. rewrite Hhi. unfold window_lo.
    split; [apply Z.div_le_mono; lia|]. apply Z.lt_succ_r, Z.div_le_mono; lia.
  - intros g j Hn. apply Hs'. rewrite Hhi. unfold window_lo. lia.
Qed.

(** C30: prefetching: the blocks of the window that have no buffer are queued,
    each once and locked; the prefetch routines empty the queue without a
    panic, afterwards no block is locked, and every block cached for reading
    holds exactly the proxy's bytes of that block, padded with zeros. *)
Theorem rcache_prefetch s fe fb lo hi :
  rinv BS false s → coherent BS s → Cache (rc s) !! fe_Id fe = Some fb → fb_fe fb = fe →
  BlockSize fe = BS → chPrefetch s = Some (open_chan []) → 0 ≤ lo ≤ hi → hi * BS < 2 ^ 64 →
  ∃ s1 s2, Prefetch_loop (Z.to_nat (hi - lo)) (fe_Id fe) lo hi s = Ret (tt, s1) ∧
    chPrefetch s1 = Some (open_chan (prefetch_op fe <$>
      filter (λ j, slot (rc s) (fe_Id fe) j = None) (seqZ lo (hi - lo)))) ∧
    prefetch_all (length (pqueue s1)) s1 = Ret (tt, s2) ∧
    pqueue s2 = [] ∧ coherent BS s2 ∧ (∀ f i, lockof (rc s2) f i = None) ∧ wc s2 = wc s.
Proof.
  intros Hi Hco Hc Hfb Hfe Hch Hlo Hhi.
  assert (pqueue s = []) as Hq by (unfold pqueue; by rewrite Hch).
  assert (∀ f j, lockof (rc s) f j = None) as Hl.
  { intros f j. destruct (lockof (rc s) f j) as [l|] eqn:E; [|done].
    apply (ri_lock _ _ Hi) in E. rewrite Hq in E. by apply not_elem_of_nil in E. }
  pose proof (wp_Prefetch_loop BS HBS fe (Z.to_nat (hi - lo)) eq_refl s fb lo hi Hi Hc Hfb Hfe
    ltac:(by rewrite Hq) eq_refl Hlo Hhi (λ j _, Hl _ j)) as Hw.
  apply wp_run in Hw as ([] & s1 & E1 & [F1 F2 F3 _ F4 F5 F6]). rewrite Hq in F6. simpl in F6.
  assert (coherent BS s1) as Hco1.
  { intros f i b. rewrite F4. intros Hb. destruct (Hco f i b Hb) as (?&?&?&?).
    unfold holds_block. by rewrite F3. }
  pose proof (prefetch_all_ok BS HBS (length (pqueue s1)) s1 F1 eq_refl) as Hw2.
  apply wp_run in Hw2 as ([] & s2 & E2 & _ & Hco2 & Hq2 & Hwc2 & _ & _ & Hl2).
  exists s1, s2. split_and!; try done; [by apply Hco2|congruence].
Qed.
End Theorems.

(** * Witnesses and concrete behaviours: blocks of four bytes *)

Module RWExample.

Definition fe : FileEntry := MkFileEntry 1 4 0 "/m/a" 2 0 false "u" 7 0 false.
Definition mem (c : bytes) : MemStore := MkMem {[1 := c]} [].

(** The caches as [NewRWCache] builds them, with [pf] the prefetch channel. *)
Definition init (c : bytes) (pf : option (chan RWBlockOp)) : CS MemStore :=
  MkCS (NewPool 4 10) (NewPool 4 10) None pf 1 (mem c) 0.

Definition after {A} (o : outcome (A * CS MemStore)) (s : CS MemStore) : CS MemStore :=
  match o with Ret (_, s') => s' | _ => s end.
Definition result {A} (o : outcome (A * CS MemStore)) : option A :=
  match o with Ret (a, _) => Some a | _ => None end.

Lemma bs4_rw : 0 < 4 < 2 ^ 32.
Proof. lia. Qed.

Lemma winv_new c pf : winv 4 false (init c pf).
Proof.
  constructor; simpl.
  - apply wf_NewPool.
  - apply NoDup_nil_2.
  - by intros ? ?%not_elem_of_nil.
  - intros f i l. unfold lockof. simpl. by rewrite lookup_empty.
  - done.
Qed.

Lemma quiet_init c : quiet 4 (init c None) 1.
Proof.
  constructor; try done.
  - apply winv_new.
  - apply wf_NewPool.
Qed.

Lemma rinv_init c : rinv 4 false (init c (Some (open_chan []))).
Proof.
  constructor; simpl.
  - apply wf_NewPool.
  - intros f i b. unfold slot_buf. simpl. by rewrite slot_NewPool.
  - by intros ? ?%not_elem_of_nil.
  - apply NoDup_nil_2.
  - intros f i l. unfold lockof. simpl. by rewrite lookup_empty.
  - by intros ch [= <-].
Qed.

Lemma req6 : req_ok fe [1; 2; 3; 4; 5; 6] 2.
Proof. unfold req_ok. simpl. repeat split; try lia. discriminate. Qed.

Lemma slice_tiles_witness :
  ∃ ops, Slice fe [1; 2; 3; 4; 5; 6] 2 = Ret ops ∧ length ops = 2%nat ∧
    concat (map rwBuf ops) = [1; 2; 3; 4; 5; 6].
Proof.
  destruct (slice_tiles fe [1; 2; 3; 4; 5; 6] 2 req6) as (ops & E & _ & Hc & _).
  exists ops. split; [exact E|]. vm_compute in E. injection E as <-. split; [reflexivity|exact Hc].
Defined.

Lemma rwcache_read_witness :
  ∃ r s', RWCache_Read fe [1; 2; 3; 4; 5; 6] 2 (init [9; 8; 7; 6; 5] None) = Ret (r, s') ∧
    rd_err r = None ∧ rd_size r = 3.
Proof.
  destruct (rwcache_read 4 bs4_rw (init [9; 8; 7; 6; 5] None) fe [1; 2; 3; 4; 5; 6] 2)
    as (r & s' & E & _).
  - apply quiet_init.
  - reflexivity.
  - exact req6.
  - exists r, s'. split; [exact E|].
    assert (result (RWCache_Read fe [1; 2; 3; 4; 5; 6] 2 (init [9; 8; 7; 6; 5] None)) =
            Some (MkRead 3 None [7; 6; 5; 4; 5; 6])) as E2 by by vm_compute.
    rewrite E in E2. simpl in E2. injection E2 as ->. done.
Defined.

Lemma rcache_clean_witness :
  ∃ s', Clean fe 3 5 (init [9; 8; 7] None) = Ret (None, s') ∧ pool_wf 4 (rc s') ∧
    (∀ x, 5 ≤ x < 5 + 3 → slot (rc s') 1 (x / 4) = None) ∧
    (∀ g j, g ≠ 1 ∨ j < 5 / 4 ∨ (5 + 3 - 1) / 4 < j →
       slot_buf (rc s') g j = slot_buf (rc (init [9; 8; 7] None)) g j).
Proof.
  apply (rcache_clean 4 bs4_rw (init [9; 8; 7] None) fe 3 5); try reflexivity; try lia.
  apply wf_NewPool.
Defined.

(** The state after the read table was made, with prefetching on. *)
Definition st0 := after (RCache_GetFileBuffer fe true (init [1; 2; 3; 4; 5; 6] (Some (open_chan []))))
                        (init [1; 2; 3; 4; 5; 6] (Some (open_chan []))).

Lemma st0_eq : st0 = set_rc (set_cache {[1 := NewFileBuffer fe]} (NewPool 4 10))
                       (init [1; 2; 3; 4; 5; 6] (Some (open_chan []))).
Proof. by vm_compute. Qed.

Lemma st0_ok : rinv 4 false st0 ∧ coherent 4 st0.
Proof.
  rewrite st0_eq.
  assert (∀ g j, slot (set_cache {[1 := NewFileBuffer fe]} (NewPool 4 10)) g j = None) as Hs.
  { intros g j. unfold slot. simpl. destruct (decide (g = 1)) as [->|Hne].
    - rewrite lookup_singleton_eq. apply lookup_empty.
    - by rewrite lookup_singleton_ne. }
  assert (∀ g j, lockof (set_cache {[1 := NewFileBuffer fe]} (NewPool 4 10)) g j = None) as Hl.
  { intros g j. unfold lockof. simpl. destruct (decide (g = 1)) as [->|Hne].
    - rewrite lookup_singleton_eq. apply lookup_empty.
    - by rewrite lookup_singleton_ne. }
  split.
  - apply rinv_ext; [apply rinv_init|..].
    + apply (wf_new_fb 4 (NewPool 4 10) fe); [apply wf_NewPool|done..].
    + intros. rewrite Hs. simpl. by rewrite slot_NewPool.
    + intros. unfold slot_buf. rewrite Hs. simpl. by rewrite slot_NewPool.
    + intros. rewrite Hl. unfold lockof. simpl. by rewrite lookup_empty.
  - intros f i b. unfold slot_buf. simpl. by rewrite Hs.
Qed.

Lemma rcache_prefetch_witness :
  ∃ s1 s2, Prefetch_loop 2 1 0 2 st0 = Ret (tt, s1) ∧
    chPrefetch s1 = Some (open_chan (prefetch_op fe <$> filter (λ j, slot (rc st0) 1 j = None) (seqZ 0 2))) ∧
    prefetch_all (length (pqueue s1)) s1 = Ret (tt, s2) ∧
    pqueue s2 = [] ∧ coherent 4 s2 ∧ (∀ f i, lockof (rc s2) f i = None) ∧ wc s2 = wc st0.
Proof.
  apply (rcache_prefetch 4 bs4_rw st0 fe (NewFileBuffer fe) 0 2); try (apply st0_ok); try reflexivity; try lia.
  all: by vm_compute.
Defined.

(** ** Departures from a plain file *)

Definition hole1 := after (RWCache_Write fe [1; 2] 0 (init [] None)) (init [] None).
Definition hole2 := after (RWCache_Write fe [5] 4 hole1) hole1.

(** A block that is buffered only in part, with a later block buffered too:
    the read of the first block stops at the end of its buffer, although the
    file goes on (its bytes there are a hole). *)
Theorem read_hole_is_short :
  result (RWCache_Read fe [0; 0; 0; 0] 0 hole2) = Some (MkRead 2 None [1; 2; 0; 0]) ∧
  live (wview 4 hole2 1) 3.
Proof.
  split; [by vm_compute|]. right. exists 1.
  assert (∃ b, slot_buf (wc hole2) 1 1 = Some b ∧ Offset b = 0 ∧ Len b = 1) as (b & Hb & HO & HL).
  { assert (match slot_buf (wc hole2) 1 1 with
            | Some b => (Offset b =? 0) && (Len b =? 1) | None => false end = true) as E by by vm_compute.
    destruct (slot_buf (wc hole2) 1 1) as [b|]; [|done].
    apply andb_true_iff in E as [E1%Z.eqb_eq E2%Z.eqb_eq]. by exists b. }
  exists b. split; [exact Hb|]. lia.
Qed.

(** The file has two blocks; a byte of block 1 is written (buffered), a read of
    block 0 prefetches block 1 from the proxy, and the buffer is flushed. *)
Definition stale0 := init [9; 9; 9; 9; 8; 8; 8; 8] (Some (open_chan [])).
Definition stale1 := after (RWCache_Write fe [1] 4 stale0) stale0.
Definition stale2 := after (RWCache_Read fe [0; 0; 0; 0] 0 stale1) stale1.
Definition stale3 := after (PrefetchRead_one stale2) stale2.
Definition stale4 := after (RWCache_Flush fe stale3) stale3.

(** A block prefetched while a write to it is buffered is not dropped when
    the buffer is flushed: the flush succeeds, the proxy has the new byte, and
    the next read returns the old one. *)
Theorem read_after_flush_is_stale :
  result (RWCache_Read fe [0] 4 stale3) = Some (MkRead 1 None [1]) ∧
  result (RWCache_Flush fe stale3) = Some None ∧
  content (world stale4) 1 = [9; 9; 9; 9; 1; 8; 8; 8] ∧
  result (RWCache_Read fe [0] 4 stale4) = Some (MkRead 1 None [8]).
Proof. by vm_compute. Qed.

Definition eof0 := init [9; 9; 9; 9; 7] (Some (open_chan [])).
Definition eof1 := after (RWCache_Read fe [0; 0; 0; 0] 0 eof0) eof0.
Definition eof2 := after (PrefetchRead_one eof1) eof1.

(** A prefetched block is cached as a full block whatever the size of the
    answer: a read of the last block returns bytes past the end of the file. *)
Theorem prefetched_read_passes_eof :
  result (RWCache_Read fe [0; 0; 0; 0] 4 eof1) = None ∧
  result (RWCache_Read fe [0; 0; 0; 0] 4 eof2) = Some (MkRead 4 None [7; 0; 0; 0]) ∧
  result (RWCache_Read fe [3; 3; 3; 3] 4 (init [9; 9; 9; 9; 7] None)) = Some (MkRead 1 None [7; 3; 3; 3]).
Proof. by vm_compute. Qed.

(** An empty write at a block boundary of a file that has been read fails
    the assertion of [Clean]; elsewhere in a block it is accepted. *)
Theorem empty_write_panics :
  RWCache_Write fe [] 4 eof2 = Panic ∧ result (RWCache_Write fe [] 5 eof2) = Some (0, None).
Proof. by vm_compute. Qed.

Definition async0 := set_chSync (Some (open_chan [])) (init [9; 9; 9; 9; 9] None).
Definition closed0 := after (RWCache_CloseAll async0) async0.

(** After [CloseAll] the sync routines' channel is closed, and nothing keeps a
    handle that is still open from being written: a write that fills a block
    sends on the closed channel, and so does closing the caches again.  One that
    fills no block is accepted and stays in the write cache; without the
    asynchronous mode both are. *)
Theorem write_after_close_panics :
  result (RWCache_CloseAll async0) = Some tt ∧
  RWCache_Write fe [1; 2; 3; 4] 0 closed0 = Panic ∧ RWCache_CloseAll closed0 = Panic ∧
  result (RWCache_Write fe [1; 2] 0 closed0) = Some (2, None) ∧
  result (RWCache_Write fe [1; 2; 3; 4] 0 (set_chSync None closed0)) = Some (4, None).
Proof. by vm_compute. Qed.
End RWExample.
