(* ===== verification/PrefetchRead.v ===== *)
(** Reading with prefetching on, as in the default configuration: [doRead]
    queues the next window, the prefetch routines work on the queue while the
    reader goes on, and the reader gets the bytes of the logical file whatever
    the routines have finished by then. *)

From stdpp Require Import base gmap list strings.
From Stdlib Require Import ZArith Lia.
From S2P Require Import Prelude GoString Proto Store Buffer Pool View CacheState WCache.
From S2P Require Import WCacheProof WCacheSteps RCache RWCache RWCacheProof RCacheProof CloseProof RWCacheSteps RWCacheTheorems.

Section Window.
Context {W : Type} `{ProxyIO W}.

(** The first part of [doRead]: the file's table and the prefetch window. *)
Definition doRead_window (fe : FileEntry) (buffer : bytes) (offset : Z) : M (CS W) (option Z) :=
  let! fr := RCache_GetFileBuffer fe true in
  match fr with
  | None => panic
  | Some fidR => TryDoPrefetch fidR (u32 (Zlen buffer)) offset;;; ret (Some fidR)
  end.
End Window.

Section Prefetch.
Context {W : Type} `{ProxyStore W}.
Context (BS : Z).
Hypothesis HBS : 0 < BS < 2 ^ 32.
Implicit Types (s : CS W).

(** Nobody has moved the window yet, or it is not empty. *)
Definition pw_ok (w : PrefetchWindow) : Prop :=
  w = NewPrefetchWindow ∨ 0 ≤ BlkStart w < BlkEnd w ∧ BlkEnd w < 2 ^ 31.

(** The window of the file, that of a new table if it has none. *)
Definition window_of s f : PrefetchWindow :=
  match Cache (rc s) !! f with Some fb => pw fb | None => NewPrefetchWindow end.

(** Between two reads of file [f]: the channel is empty, the routines idle. *)
Record streaming s f : Prop := {
  st_winv : winv BS false s;
  st_rinv : rinv BS false s;
  st_coh : coherent BS s;
  st_ch : chPrefetch s = Some (open_chan []);
  st_wlock : ∀ j, lockof (wc s) f j = None;
  st_pw : pw_ok (window_of s f);
}.

(** A state that differs from [s] in the read cache only. *)
Record read_frame s s' : Prop := {
  rf_wc : wc s' = wc s;
  rf_sync : chSync s' = chSync s;
  rf_ch : is_Some (chPrefetch s');
  rf_files : ∀ g, content (world s') g = content (world s) g;
  rf_inv : rinv BS false s';
  rf_coh : coherent BS s';
}.

Lemma coherent_frame s s' :
  coherent BS s → (∀ f i, slot_buf (rc s') f i = slot_buf (rc s) f i) →
  (∀ g, content (world s') g = content (world s) g) → coherent BS s'.
Proof.
  intros Hco Hsb Hf f i b Hb. rewrite Hsb in Hb. destruct (Hco f i b Hb) as (?&?&?&Hk).
  split_and!; try done. intros k ?. rewrite Hf. by apply Hk.
Qed.

(** The first [k] operations of a queue of file [f]. *)
Lemma prefetch_some f k : ∀ s,
  rinv BS false s → coherent BS s → is_Some (chPrefetch s) → (k ≤ length (pqueue s))%nat →
  is_Some (Cache (rc s) !! f) → Forall (λ op, fe_Id (op_fe op) = f) (pqueue s) →
  wp (prefetch_all k) (λ _ s', read_frame s s' ∧ pqueue s' = drop k (pqueue s) ∧
    is_Some (Cache (rc s') !! f)) s.
Proof.
  induction k as [|k IH]; intros s Hi Hco Hp Hk Hc Hq; simpl.
  { apply wp_ret. split_and!; try done. }
  destruct (pqueue s) as [|op q] eqn:Eq; [simpl in Hk; lia|].
  pose proof (rinv_pqueue_cons BS s op q Hi Eq) as Hch.
  apply Forall_cons in Hq as [Hop Hq].
  apply wp_bind. eapply wp_mono; [|by apply (wp_PrefetchRead_one BS HBS (shut:=false) s op q)].
  clear Hp. intros [] s1 Hp. assert (pqueue s1 = q) as Hq1 by (unfold pqueue; by rewrite (pf_ch _ _ _ _ _ _ Hp)).
  eapply wp_mono; [|apply (IH s1)].
  - intros [] s2 ([F1 F2 Fc F3 F4 F5] & Hq2 & Hc2). split_and!; [|by rewrite Hq2, Hq1|done].
    destruct Hp. constructor; try done; congruence.
  - apply Hp.
  - by eapply coherent_step.
  - rewrite (pf_ch _ _ _ _ _ _ Hp). done.
  - rewrite Hq1. simpl in Hk. lia.
  - rewrite <- Hop. apply Hp.
  - by rewrite Hq1.
Qed.

(** ** Moving the window *)

(** The window never panics and stays in range. *)
Lemma next_window_ok pw lo hi times :
  pw_ok pw → 0 ≤ lo < hi → hi < 2 ^ 31 → 0 < times < 2 ^ 31 → hi + hi * times < 2 ^ 32 →
  next_window pw (MkWin lo hi) times = Ret None ∨
  ∃ w, next_window pw (MkWin lo hi) times = Ret (Some w) ∧ 0 ≤ BlkStart w < BlkEnd w ∧ BlkEnd w < 2 ^ 32.
Proof.
  intros [->|[H1 H2]] Hlo Hhi Ht Hm.
  - destruct (Z.eqb_spec lo 0) as [->|Hne].
    + right. rewrite next_window_first by nia. eexists. split; [done|]. simpl. nia.
    + left. unfold next_window. simpl. rewrite (proj2 (Z.eqb_neq lo 0)) by lia. simpl.
      unfold PW_Cross. simpl. rewrite (proj2 (Z.leb_le 0 lo)) by lia. by rewrite orb_true_r.
  - destruct (PW_Cross (MkWin lo hi) pw) eqn:Ec.
    + right. rewrite next_window_move by done. eexists. split; [done|]. simpl. lia.
    + left. unfold next_window, PW_Size. rewrite (proj2 (Z.leb_le _ _)), u32_small by lia.
      rewrite (proj2 (Z.eqb_neq (_ - _) 0)), andb_false_r, Ec by lia. done.
Qed.

(** Setting the window changes nothing else. *)
Lemma rinv_set_pw s f fb w :
  rinv BS false s → Cache (rc s) !! f = Some fb →
  let s' := set_rc (set_cache (<[f := set_pw w fb]> (Cache (rc s))) (rc s)) s in
  rinv BS false s' ∧ (∀ g j, slot_buf (rc s') g j = slot_buf (rc s) g j) ∧
  (∀ g j, slot (rc s') g j = slot (rc s) g j) ∧ (∀ g j, lockof (rc s') g j = lockof (rc s) g j).
Proof.
  intros Hi Hc. simpl. destruct (wf_set_pw BS (rc s) f fb w (ri_wf _ _ Hi) Hc) as (Hwf & Hs & Hl).
  assert (∀ g j, slot_buf (set_cache (<[f := set_pw w fb]> (Cache (rc s))) (rc s)) g j = slot_buf (rc s) g j)
    as Hsb by (intros; unfold slot_buf; by rewrite Hs).
  split_and!; try done. by apply rinv_ext.
Qed.

(** The state after the first part of a read: nothing but the queue and the
    locks of the queued blocks has changed. *)
Record windowed s f s' : Prop := {
  wd_frame : read_frame s s';
  wd_table : is_Some (Cache (rc s') !! f);
  wd_queue : Forall (λ op, fe_Id (op_fe op) = f) (pqueue s');
  wd_sb : ∀ g j, slot_buf (rc s') g j = slot_buf (rc s) g j;
}.

Lemma wp_table s fe (Q : option Z → CS W → Prop) :
  rinv BS false s → BlockSize fe = BS →
  (∀ p fb, Cache p !! fe_Id fe = Some fb → pw fb = window_of s (fe_Id fe) → rinv BS false (set_rc p s) →
     (∀ g j, slot_buf p g j = slot_buf (rc s) g j) → (∀ g j, lockof p g j = lockof (rc s) g j) →
     Q (Some (fe_Id fe)) (set_rc p s)) →
  wp (RCache_GetFileBuffer fe true) Q s.
Proof.
  intros Hi Hfe HQ. apply wp_zoom. unfold GetFileBuffer. apply wp_bind, wp_gets. unfold window_of in HQ.
  destruct (Cache (rc s) !! fe_Id fe) as [fb|] eqn:E.
  { apply wp_ret. eapply HQ; try done. by rewrite set_rc_id. }
  apply wp_bind, wp_modify, wp_ret. set (p := set_cache _ _).
  assert (∀ g j, slot p g j = slot (rc s) g j) as Hs.
  { intros. unfold p. rewrite slot_set_cache. case_decide; [subst|done]. unfold slot. by rewrite E. }
  assert (∀ g j, slot_buf p g j = slot_buf (rc s) g j) as Hsb by (intros; unfold slot_buf; by rewrite Hs).
  assert (∀ g j, lockof p g j = lockof (rc s) g j) as Hl.
  { intros. unfold p. rewrite lockof_set_cache. case_decide; [subst|done]. unfold lockof. by rewrite E. }
  eapply HQ; [apply lookup_insert_eq|done| |done|done]. apply rinv_ext; try done.
  apply wf_new_fb; try done. apply Hi.
Qed.

Lemma window_u32 offset len :
  0 ≤ offset → 0 < len → offset + len + BS < 2 ^ 64 → window_hi BS offset len < 2 ^ 31 →
  PW_Size (MkWin (window_lo BS offset) (window_hi BS offset len)) =
  Ret (window_hi BS offset len - window_lo BS offset).
Proof.
  intros Ho Hl Hm Hhi. destruct (window_bounds BS HBS offset len Ho Hl Hm) as [Hlo _].
  unfold PW_Size. simpl. rewrite (proj2 (Z.leb_le _ _)) by lia. by rewrite u32_small by lia.
Qed.

Lemma wp_doRead_window fe buffer offset s :
  streaming s (fe_Id fe) → BlockSize fe = BS → req_ok fe buffer offset →
  window_hi BS offset (Zlen buffer) < 2 ^ 31 → 0 < PrefetchTimes s < 2 ^ 31 →
  window_hi BS offset (Zlen buffer) * (PrefetchTimes s + 1) < 2 ^ 32 →
  wp (doRead_window fe buffer offset) (λ r s', r = Some (fe_Id fe) ∧ windowed s (fe_Id fe) s') s.
Proof.
  intros [Hwi Hri Hco Hch Hwl Hpw] Hfe Hreq Hhi Ht Hm. set (f := fe_Id fe) in *.
  destruct Hreq as (_ & Ho & Hne & Hmax & Hsz). rewrite Hfe in *. apply Zlen_pos in Hne.
  pose proof (Z.mod_pos_bound offset BS ltac:(lia)).
  destruct (window_bounds BS HBS offset (Zlen buffer)) as [Hlo _]; [lia..|].
  unfold doRead_window. apply wp_bind, wp_table; [done..|]. fold f.
  intros p1 fb Hc Hpw1 Hi1 Hsb1 Hl1. set (s1 := set_rc p1 s).
  destruct (wf_fb _ _ (ri_wf _ _ Hi1) f fb Hc) as [Hid Hbs].
  apply wp_bind. unfold TryDoPrefetch. apply wp_bind, wp_gets. simpl. rewrite Hch.
  unfold DoPrefetch. apply wp_bind, wp_gets. simpl. rewrite Hch. apply wp_bind, wp_assert; [done|].
  apply wp_bind, wp_onr, (wp_fb_get _ fb); [done|]. rewrite set_rc_id. rewrite u32_small by lia.
  apply wp_bind. eapply wp_lift; [by apply (GetReadWindow_ok BS HBS); lia|].
  apply wp_bind. eapply wp_lift; [by apply window_u32; lia|].
  apply wp_bind, wp_assert; [zbool|]. apply wp_bind, wp_gets. apply wp_bind. rewrite Hpw1. simpl.
  assert (coherent BS s1) as Hco1 by by apply (coherent_frame s).
  destruct (next_window_ok (window_of s f) (window_lo BS offset) (window_hi BS offset (Zlen buffer))
    (PrefetchTimes s)) as [E|(w & E & Hw & Hwe)]; [done|lia|lia|lia|nia|..].
  { eapply wp_lift; [exact E|]. apply wp_ret, wp_ret. split; [done|]. constructor; [|done| |done].
    { by constructor. }
    unfold pqueue. simpl. by rewrite Hch. }
  eapply wp_lift; [exact E|]. destruct (rinv_set_pw s1 f fb w Hi1 Hc) as (Hi2 & Hsb2 & Hs2 & Hl2).
  apply wp_bind, wp_onr. eapply wp_fb_upd; [exact Hc|done|]. fold s1.
  set (s2 := set_rc (set_cache (<[f := set_pw w fb]> (Cache (rc s1))) (rc s1)) s1) in *.
  assert (∀ g j, lockof (rc s2) g j = None) as Hfree.
  { intros g j. rewrite Hl2. destruct (lockof (rc s1) g j) as [l|] eqn:El; [|done].
    apply (ri_lock _ _ Hi1) in El. unfold pqueue in El. simpl in El. rewrite Hch in El.
    by apply not_elem_of_nil in El. }
  assert (pqueue s2 = []) as Hq2 by (unfold pqueue; simpl; by rewrite Hch).
  pose proof (wp_Prefetch_loop BS HBS (fb_fe fb) (Z.to_nat (BlkEnd w - BlkStart w)) eq_refl s2 (set_pw w fb)
    (BlkStart w) (BlkEnd w)) as HL. rewrite Hid in HL.
  eapply wp_mono; [|apply HL]; try done; try lia.
  - intros [] s3 [F1 F2 F3 F4 F5 _ F6]. apply wp_ret. split; [done|]. constructor.
    + constructor; try done; [by rewrite F3|]. apply (coherent_frame s); [done| |by rewrite F3].
      intros. by rewrite F5, Hsb2.
    + destruct (Cache (rc s3) !! f) as [fb3|] eqn:Ec3; [done|exfalso].
      assert (slot (rc s2) f (BlkStart w) = None) as Hn.
      { apply (slot_buf_None BS); [apply Hi2|]. rewrite <- F5. unfold slot_buf, slot. by rewrite Ec3. }
      assert (prefetch_op (fb_fe fb) (BlkStart w) ∈ pqueue s3) as Hin.
      { unfold pqueue. rewrite F6. apply elem_of_app. right. apply list_elem_of_fmap_2, list_elem_of_filter.
        rewrite Hid. split; [done|]. apply elem_of_seqZ. lia. }
      destruct (ri_q _ _ F1 _ Hin) as (_&_&_&_&_&Hlk). simpl in Hlk. rewrite Hid in Hlk.
      unfold lockof in Hlk. by rewrite Ec3 in Hlk.
    + unfold pqueue. rewrite F6, Hq2. simpl. apply Forall_fmap, Forall_true. done.
    + intros. by rewrite F5, Hsb2.
  - apply lookup_insert_eq.
  - unfold pqueue. simpl. by rewrite Hch.
  - nia.
Qed.

(** What a read of [buffer] at [offset] gives its caller: the bytes up to the
    count are those of the logical file (zeros past its end), the rest of the
    buffer is untouched, and nothing that is there is missed when the last block
    is not buffered for writing or no later block is; an error leaves the
    buffer alone. *)
Definition reads s f (buffer : bytes) (offset : Z) (r : ReadResult) : Prop :=
  Zlen (rd_buf r) = Zlen buffer ∧
  match rd_err r with
  | Some _ => is_errno (rd_err r) ∧ rd_buf r = buffer
  | None =>
      0 ≤ rd_size r ≤ Zlen buffer ∧
      (∀ k, 0 ≤ k < rd_size r → byte_at (rd_buf r) k = abyte (wview BS s f) (offset + k)) ∧
      (∀ k, rd_size r ≤ k → byte_at (rd_buf r) k = byte_at buffer k) ∧
      (last_ok BS s f (offset + Zlen buffer) → ∀ k, 0 ≤ k < Zlen buffer →
       live (wview BS s f) (offset + k) → k < rd_size r)
  end.

Lemma read_frame_trans s1 s2 s3 : read_frame s1 s2 → read_frame s2 s3 → read_frame s1 s3.
Proof.
  intros [A1 A2 _ A3 _ _] [B1 B2 Bc B3 B4 B5]. constructor; try done; congruence.
Qed.

Lemma streaming_frame s s' f :
  streaming s f → read_frame s s' → pqueue s' = [] → pw_ok (window_of s' f) → streaming s' f.
Proof.
  intros [Hwi _ _ _ Hwl _] [F1 F2 [q Fc] F3 F4 F5] Hq Hpw.
  constructor; try done.
  - by apply (winv_ext BS s).
  - rewrite (rinv_pqueue BS s' F4), Hq by (by rewrite Fc). done.
  - intros j. by rewrite F1.
Qed.

Lemma wp_finish s s2 fe buffer offset :
  streaming s (fe_Id fe) → read_frame s s2 → is_Some (Cache (rc s2) !! fe_Id fe) →
  BlockSize fe = BS → req_ok fe buffer offset →
  (∀ op, op ∈ pqueue s2 → ¬ offset / BS ≤ Index op ≤ (offset + Zlen buffer - 1) / BS) →
  wp (doRead_finish fe (fe_Id fe) buffer offset) (λ r s3,
    reads s (fe_Id fe) buffer offset r ∧ read_frame s s3 ∧ pqueue s3 = pqueue s2) s2.
Proof.
  intros [Hwi _ _ _ Hwl _] [F1 F2 Fc F3 F4 F5] Hc Hfe Hreq Hfree. set (f := fe_Id fe) in *.
  assert (wview BS s2 f = wview BS s f) as Hv by (unfold wview; by rewrite F1, F3).
  eapply wp_mono; [|apply (doRead_finish_spec BS HBS fe buffer offset s2); [constructor|done|done]]; try done.
  - fold f. intros r s3 [(w3 & -> & Hw3) Hr]. split; [|split; [|done]].
    + unfold reads, read_result, last_ok in *. rewrite F1, Hv in Hr. destruct Hr as [Hl Hr]. split; [done|].
      destruct (rd_err r); [done|]. destruct Hr as (R1 & R2 & R3 & _ & R5). by repeat (split; [done|]).
    + constructor; try done.
      * intros g. simpl. by rewrite Hw3.
      * destruct F4. by constructor.
      * apply (coherent_frame s2); [done..|]. intros g. simpl. apply Hw3.
  - apply F4.
  - rewrite F1. apply Hwi.
  - intros i b Hb. by apply F5.
  - intros j Hj. destruct (lockof (rc s2) f j) as [l|] eqn:El; [|done].
    apply (ri_lock _ _ F4) in El as (op & Ek & Hin)%list_elem_of_fmap.
    unfold opkey in Ek. injection Ek as _ ->. by apply Hfree in Hin.
  - intros j _. by rewrite F1.
Qed.

End Prefetch.

(** * Witness: blocks of four bytes *)

Module PrefetchExample.
Import RWExample.

Definition st6 : CS MemStore := init [1; 2; 3; 4; 5; 6; 7; 8; 9] (Some (open_chan [])).

Lemma streaming6 : streaming 4 st6 1.
Proof.
  constructor; [apply winv_new|apply rinv_init| |reflexivity|intros j; reflexivity|].
  - intros f i b. unfold slot_buf. simpl. by rewrite slot_NewPool.
  - by left.
Qed.

End PrefetchExample.
