(* ===== verification/LruOrder.v ===== *)
(** The order of the LRU lists of rcache.go and wcache.go.  [LruExpire] looks at
    the last buffer of the list alone; it finds what has expired because both
    lists are ordered by [LastUpdateTime], newest first, whatever the routines
    do.  Where [wp] says that an operation returns, the facts here are about
    the operations that did return ([wlp]). *)

From stdpp Require Import base gmap list strings relations sorting.
From Stdlib Require Import ZArith Lia.
From S2P Require Import Prelude GoString Proto Store Buffer Pool View CacheState WCache.
From S2P Require Import WCacheProof WCacheSteps RCache RWCache RWCacheProof RCacheProof CloseProof RWCacheSteps.

(** * Ordered pools *)

(** [LastUpdateTime] of the buffer [bid]. *)
Definition updated (p : Pool) (bid : Z) : Z := from_option LastUpdateTime 0 (bufs p !! bid).

Definition newer (p : Pool) (x y : Z) : Prop := updated p y ≤ updated p x.

(** The buffers with an [elm] are those of the list; the list is ordered, and no
    buffer of it comes from the future. *)
Record lru_ok (t : Z) (p : Pool) : Prop := {
  lo_elm : ∀ bid b, bufs p !! bid = Some b → elm b = true ↔ bid ∈ LruList p;
  lo_sorted : StronglySorted (newer p) (LruList p);
  lo_past : ∀ bid, bid ∈ LruList p → updated p bid ≤ t;
}.

(** The buffer [bid] is in no list. *)
Definition out (p : Pool) (bid : Z) : Prop := ∀ b, bufs p !! bid = Some b → elm b = false.

Lemma lru_ok_later t t' p : t ≤ t' → lru_ok t p → lru_ok t' p.
Proof. intros Ht [He Hs Hp]. constructor; try done. intros bid Hb. specialize (Hp bid Hb). lia. Qed.

Lemma lru_ok_NewPool t n expire : lru_ok t (NewPool n expire).
Proof.
  constructor; simpl; [|by constructor|by intros ? ?%not_elem_of_nil].
  intros bid b Hb%elem_of_list_to_map_2. apply list_elem_of_fmap in Hb as (i & E & _). simplify_eq.
  simpl. split; [done|by intros ?%not_elem_of_nil].
Qed.

(** A list is as ordered after a change elsewhere. *)
Lemma sorted_elsewhere p p' l :
  (∀ x, x ∈ l → updated p' x = updated p x) →
  StronglySorted (newer p) l → StronglySorted (newer p') l.
Proof.
  intros Hu. induction 1 as [|x l Hs IH Hx]; [constructor|]. constructor.
  - apply IH. intros y Hy. apply Hu. set_solver.
  - apply Forall_forall. intros y Hy. unfold newer. rewrite !Hu by set_solver.
    by eapply Forall_forall in Hx.
Qed.

(** [same_lru]: neither a buffer nor the list changed. *)
Definition same_lru (p p' : Pool) : Prop := bufs p' = bufs p ∧ LruList p' = LruList p.

#[export] Instance same_lru_preorder : PreOrder same_lru.
Proof. split; [done|]. intros p1 p2 p3 [? ?] [? ?]. split; congruence. Qed.

Lemma lru_ok_same t p p' : same_lru p p' → lru_ok t p → lru_ok t p'.
Proof.
  intros [Hb Hl] [He Hs Hp].
  assert (∀ x, updated p' x = updated p x) as Hu by (intros x; unfold updated; by rewrite Hb).
  constructor; rewrite ?Hb, ?Hl; try done.
  - by apply (sorted_elsewhere p).
  - intros x. rewrite Hu. apply Hp.
Qed.

Lemma out_same p p' bid : same_lru p p' → out p bid → out p' bid.
Proof. intros [Hb _] Ho b. rewrite Hb. apply Ho. Qed.

Lemma sorted_remove p bid l : StronglySorted (newer p) l → StronglySorted (newer p) (list_remove_id bid l).
Proof.
  unfold list_remove_id. induction 1 as [|x l Hs IH Hx]; [constructor|]. rewrite filter_cons.
  case_decide; [|done]. constructor; [done|]. apply Forall_forall. intros y [_ Hy]%list_elem_of_filter.
  by eapply Forall_forall in Hx.
Qed.

(** A buffer in no list is changed at will. *)
Lemma lru_ok_out t p bid b :
  lru_ok t p → out p bid → elm b = false → is_Some (bufs p !! bid) →
  lru_ok t (set_bufs (<[bid := b]> (bufs p)) p).
Proof.
  intros [He Hs Hp] Ho Hb [b0 Hb0].
  assert (bid ∉ LruList p) as Hni.
  { intros Hin. apply (He _ _ Hb0) in Hin. rewrite (Ho _ Hb0) in Hin. done. }
  assert (∀ x, x ∈ LruList p →
    updated (set_bufs (<[bid := b]> (bufs p)) p) x = updated p x) as Hu.
  { intros x Hx. unfold updated. simpl. rewrite lookup_insert_ne; [done|]. by intros ->. }
  constructor; simpl.
  - intros x c. rewrite lookup_insert. case_decide; [|apply He].
    intros E. simplify_eq. split; [congruence|done].
  - by apply (sorted_elsewhere p).
  - intros x Hx. rewrite Hu by done. by apply Hp.
Qed.

(** A buffer leaves the list. *)
Lemma lru_ok_remove t p bid b :
  lru_ok t p → bufs p !! bid = Some b →
  let p' := set_bufs (<[bid := set_elm false (LastUpdateTime b) b]> (bufs p))
              (set_lru (list_remove_id bid (LruList p)) p) in
  lru_ok t p' ∧ out p' bid.
Proof.
  intros [He Hs Hp] Hb p'.
  assert (∀ x, x ∈ list_remove_id bid (LruList p) → updated p' x = updated p x) as Hu.
  { intros x [_ Hx]%list_remove_id_spec. unfold updated. simpl. by rewrite lookup_insert_ne. }
  split; [constructor; simpl|].
  - intros x c. rewrite lookup_insert, list_remove_id_spec. case_decide; intros E.
    + simplify_eq. simpl. naive_solver.
    + rewrite (He _ _ E). naive_solver.
  - apply (sorted_elsewhere p); [done|]. by apply sorted_remove.
  - intros x Hx. rewrite Hu by done. apply Hp. by apply list_remove_id_spec in Hx as [? _].
  - intros c. simpl. rewrite lookup_insert_eq. intros E. by simplify_eq.
Qed.

(** A buffer moves to the front. *)
Lemma lru_ok_front t p bid b :
  lru_ok t p → bufs p !! bid = Some b →
  lru_ok t (set_bufs (<[bid := set_elm true t b]> (bufs p))
    (set_lru (bid :: list_remove_id bid (LruList p)) p)).
Proof.
  intros [He Hs Hp] Hb. set (p' := set_bufs _ _).
  assert (∀ x, x ∈ list_remove_id bid (LruList p) → updated p' x = updated p x) as Hu.
  { intros x [_ Hx]%list_remove_id_spec. unfold updated. simpl. by rewrite lookup_insert_ne. }
  assert (updated p' bid = t) as Hub by (unfold updated; simpl; by rewrite lookup_insert_eq).
  constructor; simpl.
  - intros x c. rewrite lookup_insert, elem_of_cons, list_remove_id_spec. case_decide; intros E.
    + simplify_eq. simpl. naive_solver.
    + rewrite (He _ _ E). naive_solver.
  - constructor; [apply (sorted_elsewhere p); [done|by apply sorted_remove]|].
    apply Forall_forall. intros x Hx. unfold newer. rewrite Hub, Hu by done.
    apply Hp. by apply list_remove_id_spec in Hx as [? _].
  - intros x [->|Hx]%elem_of_cons; [lia|]. rewrite Hu by done.
    apply Hp. by apply list_remove_id_spec in Hx as [? _].
Qed.

(** Only the last buffer of an ordered list has to be looked at. *)
Lemma lru_ok_last t p d :
  lru_ok t p → (∀ x, last (LruList p) = Some x → d < updated p x) →
  ∀ x, x ∈ LruList p → d < updated p x.
Proof.
  intros [_ Hs _] Hl x Hin. destruct (last (LruList p)) as [y|] eqn:E.
  2:{ apply last_None in E. rewrite E in Hin. by apply not_elem_of_nil in Hin. }
  specialize (Hl y eq_refl). apply last_Some in E as [l E]. rewrite E in Hin, Hs.
  enough (updated p y ≤ updated p x) by lia. clear -Hin Hs.
  apply elem_of_app in Hin as [Hin| ->%list_elem_of_singleton]; [|lia].
  induction l as [|z l IH]; [by apply not_elem_of_nil in Hin|].
  apply StronglySorted_inv in Hs as [Hs Hz].
  apply elem_of_cons in Hin as [->|Hin]; [|by apply IH].
  eapply Forall_forall in Hz; [exact Hz|]. set_solver.
Qed.

(** * What the operations keep *)

(** [hoare P m Q]: when [m] returns from a state with [P], the result satisfies
    [Q]. *)
Definition hoare {S A} (P : S → Prop) (m : M S A) (Q : A → S → Prop) : Prop :=
  ∀ s a s', P s → m s = Ret (a, s') → Q a s'.

Section Hoare.
Context {S : Type}.
Implicit Types (P : S → Prop).

Lemma h_bind {A B} P (m : M S A) R (k : A → M S B) Q :
  hoare P m R → (∀ a, hoare (R a) (k a) Q) → hoare P (bind m k) Q.
Proof.
  intros Hm Hk s b s' HP E. unfold bind in E. destruct (m s) as [[a s1]| |] eqn:E1; [|done..].
  eapply Hk; [by eapply Hm|exact E].
Qed.

Lemma h_ret {A} P (a : A) Q : (∀ s, P s → Q a s) → hoare P (ret a) Q.
Proof. intros HQ s ? ? HP [= <- <-]. by apply HQ. Qed.

Lemma h_panic {A} P Q : hoare P (@panic S A) Q.
Proof. by intros s a s' _ ?. Qed.

Lemma h_block {A} P Q : hoare P (@block S A) Q.
Proof. by intros s a s' _ ?. Qed.

Lemma h_conseq {A} P P' (m : M S A) Q Q' :
  hoare P' m Q' → (∀ s, P s → P' s) → (∀ a s, Q' a s → Q a s) → hoare P m Q.
Proof. intros Hm HP HQ s a s' Hs E. eapply HQ, Hm; [by apply HP|done]. Qed.

(** Reading a value that is known. *)
Lemma h_gets {A B} P (f : S → A) x (k : A → M S B) Q :
  (∀ s, P s → f s = x) → hoare P (k x) Q → hoare P (bind (gets f) k) Q.
Proof. intros Hx Hk s b s' HP E. unfold bind, gets in E. rewrite (Hx s HP) in E. by eapply Hk. Qed.

Lemma h_wp {A} P (m : M S A) Q R s : P s → hoare P m Q → wp m R s → wp m (λ a s', R a s' ∧ Q a s') s.
Proof.
  unfold wp. intros HP Hm. destruct (m s) as [[a s']| |] eqn:E; [|done..]. intros HR. split; [done|].
  by eapply Hm.
Qed.

Lemma h_stays {A} (R : S → S → Prop) P (m : M S A) :
  stays R m → (∀ s s', R s s' → P s → P s') → hoare P m (λ _, P).
Proof. intros Hm HR s a s' HP E. eapply HR; [by eapply Hm|done]. Qed.
End Hoare.

(** ** The pool's operations *)

Ltac same_step := intros ? ? ? E; first
  [unfold buf_get in E; destruct (bufs _ !! _)|unfold fb_get in E; destruct (Cache _ !! _)]; by simplify_eq.

Lemma same_buf_get bid : stays same_lru (buf_get bid).
Proof. same_step. Qed.

Lemma same_fb_get f : stays same_lru (fb_get f).
Proof. same_step. Qed.
#[export] Hint Resolve same_buf_get same_fb_get : stays.

Lemma same_buf_call {A} bid (h : Buffer → outcome A) : stays same_lru (buf_call bid h).
Proof. unfold buf_call. stays_tac. Qed.

Lemma same_fb_upd f h : stays same_lru (fb_upd f h).
Proof. unfold fb_upd. stays_tac. done. Qed.
#[export] Hint Resolve same_buf_call same_fb_upd : stays.

Lemma same_fb_lock f h : stays same_lru (fb_lock f h).
Proof. apply same_fb_upd. Qed.

Lemma same_AttachBuffer f i bid : stays same_lru (AttachBuffer f i bid).
Proof. apply same_fb_upd. Qed.

Lemma same_DetachBuffer f i : stays same_lru (DetachBuffer f i).
Proof. apply same_fb_upd. Qed.

Lemma same_GetBuffer f i : stays same_lru (GetBuffer f i).
Proof. unfold GetBuffer. stays_tac. Qed.

Lemma same_FreeBuffer bid : stays same_lru (FreeBuffer bid).
Proof. unfold FreeBuffer. stays_tac. done. Qed.

Lemma same_GetFileBuffer fe b : stays same_lru (GetFileBuffer fe b).
Proof. unfold GetFileBuffer. stays_tac. done. Qed.

Lemma same_DetachFileBuffer fe : stays same_lru (DetachFileBuffer fe).
Proof. unfold DetachFileBuffer. stays_tac. done. Qed.
#[export] Hint Resolve same_fb_lock same_AttachBuffer same_DetachBuffer same_GetBuffer
  same_FreeBuffer same_GetFileBuffer same_DetachFileBuffer : stays.

Section PoolOps.
Context (t : Z).
Implicit Types (p : Pool).

Definition lru_out (bid : Z) p : Prop := lru_ok t p ∧ out p bid.

(** Changing a buffer that is in no list, by a function that keeps its [elm]. *)
Lemma h_buf_upd bid f :
  (∀ b b', f b = Ret b' → elm b' = elm b) →
  hoare (lru_out bid) (buf_upd bid f) (λ _, lru_out bid).
Proof.
  intros Hf p [] p' [Hok Ho] E. unfold buf_upd, bind, buf_get, lift, modify in E.
  destruct (bufs p !! bid) as [b|] eqn:Hb; [|done]. destruct (f b) as [b'| |] eqn:Hfb; [|done..].
  injection E as <-. assert (elm b' = false) as Hb' by (rewrite (Hf _ _ Hfb); by apply Ho).
  split; [by apply lru_ok_out|]. intros c. simpl. rewrite lookup_insert_eq. congruence.
Qed.

Lemma elm_ReSet b fe blk b' : Buffer_ReSet b fe blk = Ret b' → elm b' = elm b.
Proof. unfold Buffer_ReSet. destruct (elm b) eqn:E; [done|]. intros [= <-]. done. Qed.

Lemma elm_Skip b off b' : Buffer_Skip b off = Ret b' → elm b' = elm b.
Proof. unfold Buffer_Skip. case_match; [|done]. by intros [= <-]. Qed.

Lemma elm_MergeData u b data b' : Buffer_MergeData u b data = Ret b' → elm b' = elm b.
Proof. unfold Buffer_MergeData. case_match; [|done..]. by intros [= <-]. Qed.

Lemma h_RemoveLru bid : hoare (lru_ok t) (RemoveLru bid) (λ _, lru_out bid).
Proof.
  intros p [] p' Hok E. unfold RemoveLru, bind, buf_get in E.
  destruct (bufs p !! bid) as [b|] eqn:Hb; [|done]. destruct (elm b) eqn:He.
  - unfold buf_upd, bind, buf_get, modify, lift in E. simpl in E. rewrite Hb in E.
    injection E as <-. by apply lru_ok_remove.
  - injection E as <-. split; [done|]. intros c Hc. congruence.
Qed.

Lemma h_DoLru bid : hoare (lru_ok t) (DoLru t bid) (λ _, lru_ok t).
Proof.
  intros p [] p' Hok E. unfold DoLru, buf_upd, bind, buf_get, modify, lift in E.
  destruct (bufs p !! bid) as [b|] eqn:Hb; [|done]. simpl in E. rewrite Hb in E. injection E as <-.
  assert ((if elm b then bid :: list_remove_id bid (LruList p) else bid :: LruList p)
    = bid :: list_remove_id bid (LruList p)) as ->.
  { destruct (elm b) eqn:He; [done|]. rewrite list_remove_id_notin; [done|].
    intros Hin. apply (lo_elm _ _ Hok _ _ Hb) in Hin. congruence. }
  by apply lru_ok_front.
Qed.

(** [ReSet] refuses a buffer that is in the list. *)
Lemma h_AllocBuffer fe blk :
  hoare (lru_ok t) (AllocBuffer fe blk)
    (λ r, match r with Some bid => lru_out bid | None => lru_ok t end).
Proof.
  unfold AllocBuffer. intros p r p' Hok E. unfold bind at 1, gets at 1 in E.
  destruct (FreeList p) as [|bid rest]; [injection E as <- <-; done|].
  unfold bind at 1, modify at 1 in E.
  assert (lru_ok t (set_free rest p)) as Hok1 by (by eapply lru_ok_same; [|exact Hok]).
  assert (out (set_free rest p) bid) as Ho.
  { intros b Hb. unfold buf_upd, bind, buf_get, lift in E. rewrite Hb in E. unfold Buffer_ReSet in E.
    by destruct (elm b). }
  unfold bind in E. destruct (buf_upd bid _ _) as [[[] p1]| |] eqn:E1; [|done..].
  injection E as <- <-. eapply (h_buf_upd bid); [|split; [exact Hok1|exact Ho]|exact E1].
  intros b b'. apply elm_ReSet.
Qed.

Lemma h_LruExpire u : hoare (lru_ok t) (LruExpire u) (λ _, lru_ok t).
Proof.
  intros p r p' Hok E. unfold LruExpire, bind, gets in E.
  destruct (last (LruList p)) as [bid|]; [|by injection E as <- <-].
  unfold buf_get in E. destruct (bufs p !! bid) as [b|] eqn:Hb; [|done].
  destruct (elm b) eqn:He; [|done]. simpl in E. case_match; [by injection E as <- <-|].
  unfold buf_upd, bind, buf_get, modify, lift in E. simpl in E. rewrite Hb in E. injection E as <- <-.
  by apply lru_ok_remove.
Qed.
End PoolOps.

(** ** Both caches *)

(** What holds of the two lists between the steps of the routines. *)
Definition lru_times {W} (s : CS W) : Prop := lru_ok (now s) (rc s) ∧ lru_ok (now s) (wc s).

Section Ops.
Context {W : Type} `{ProxyIO W}.
Implicit Types (s : CS W).

(** Neither list changes, nor does a buffer, nor the clock. *)
Definition quiet s s' : Prop :=
  same_lru (rc s) (rc s') ∧ same_lru (wc s) (wc s') ∧ now s' = now s.

#[export] Instance quiet_preorder : PreOrder quiet.
Proof.
  split; [done|]. intros s1 s2 s3 (? & ? & ?) (? & ? & ?).
  split_and!; [by etransitivity|by etransitivity|congruence].
Qed.

Lemma quiet_onr {A} (m : M Pool A) : stays same_lru m → stays quiet (onr m).
Proof. apply stays_zoom. by intros s p Hp. Qed.

Lemma quiet_onw {A} (m : M Pool A) : stays same_lru m → stays quiet (onw m).
Proof. apply stays_zoom. by intros s p Hp. Qed.

Lemma quiet_DirectWrite fe b off : stays quiet (DirectWrite fe b off).
Proof.
  intros s a s' E. unfold DirectWrite in E. destruct (Writer_Write _ _ _ _) as [r w'].
  by injection E as <- <-.
Qed.

Lemma quiet_DirectRead fe b off : stays quiet (DirectRead fe b off).
Proof.
  intros s a s' E. unfold DirectRead in E. destruct (Reader_Read _ _ _ _) as [r w'].
  by injection E as <- <-.
Qed.

Lemma quiet_Assert b : stays quiet (Assert b).
Proof. destruct b; simpl; eauto with stays typeclass_instances. Qed.
#[local] Hint Resolve quiet_onr quiet_onw quiet_DirectWrite quiet_DirectRead quiet_Assert : stays.
#[local] Hint Extern 5 (stays quiet ?m) =>
  match m with SyncIo => unfold SyncIo | modify _ => apply stays_modify end : stays.

Lemma quiet_send_sync bid : stays quiet (send_sync bid).
Proof. unfold send_sync. stays_tac. done. Qed.

Lemma quiet_send_prefetch op : stays quiet (send_prefetch op).
Proof. unfold send_prefetch. stays_tac. done. Qed.

Lemma quiet_release_buffer f i bid : stays quiet (release_buffer f i bid).
Proof. unfold release_buffer. stays_tac. Qed.

Lemma quiet_r_release_buffer f i bid : stays quiet (r_release_buffer f i bid).
Proof. unfold r_release_buffer, RCache_FreeBuffer. stays_tac. Qed.

Lemma quiet_write_buffer fe bid : stays quiet (write_buffer fe bid).
Proof. unfold write_buffer. stays_tac. Qed.

Lemma quiet_SyncIo : stays quiet SyncIo.
Proof. unfold SyncIo. stays_tac. Qed.
#[local] Hint Resolve quiet_send_sync quiet_send_prefetch quiet_release_buffer
  quiet_r_release_buffer quiet_write_buffer quiet_SyncIo : stays.

Lemma quiet_ReadBlock fe fr fw op : stays quiet (ReadBlock fe fr fw op).
Proof. unfold ReadBlock, ReadOp, MergeOp. stays_tac. Qed.

Lemma quiet_Prefetch_loop fuel f a b : stays quiet (Prefetch_loop fuel f a b).
Proof. revert a. induction fuel as [|fuel IH]; intros a; simpl; stays_tac. Qed.

(** The two lists at time [t]; and with the buffer [bid] of the write cache, of
    the read cache, in no list. *)
Definition J (t : Z) s : Prop := now s = t ∧ lru_ok t (rc s) ∧ lru_ok t (wc s).
Definition Jw (t bid : Z) s : Prop := J t s ∧ out (wc s) bid.
Definition Jr (t bid : Z) s : Prop := J t s ∧ out (rc s) bid.

Section At.
Context (t : Z).

Lemma J_quiet s s' : quiet s s' → J t s → J t s'.
Proof. intros (Hr & Hw & Hn) (? & ? & ?). split_and!; [congruence|by eapply lru_ok_same..]. Qed.

Lemma h_quiet {A} (m : M (CS W) A) : stays quiet m → hoare (J t) m (λ _, J t).
Proof. intros Hm. eapply h_stays; [exact Hm|]. apply J_quiet. Qed.

Lemma h_quiet_w {A} bid (m : M (CS W) A) : stays quiet m → hoare (Jw t bid) m (λ _, Jw t bid).
Proof.
  intros Hm. eapply h_stays; [exact Hm|]. intros s s' Hq [HJ Ho].
  split; [by eapply J_quiet|eapply out_same; [apply Hq|done]].
Qed.

Lemma h_quiet_r {A} bid (m : M (CS W) A) : stays quiet m → hoare (Jr t bid) m (λ _, Jr t bid).
Proof.
  intros Hm. eapply h_stays; [exact Hm|]. intros s s' Hq [HJ Ho].
  split; [by eapply J_quiet|eapply out_same; [apply Hq|done]].
Qed.

(** An operation of one pool, from what it does to the pool. *)
Lemma h_onw {A} P (m : M Pool A) Q :
  hoare P m Q → hoare (λ s, J t s ∧ P (wc s)) (onw m) (λ a s, now s = t ∧ lru_ok t (rc s) ∧ Q a (wc s)).
Proof.
  intros Hm s a s' [(Hn & Hr & _) HP] E. unfold onw, zoom in E.
  destruct (m (wc s)) as [[a' p]| |] eqn:E1; [|done..]. injection E as <- <-. simpl.
  split_and!; try done. by eapply Hm.
Qed.

Lemma h_onr {A} P (m : M Pool A) Q :
  hoare P m Q → hoare (λ s, J t s ∧ P (rc s)) (onr m) (λ a s, now s = t ∧ lru_ok t (wc s) ∧ Q a (rc s)).
Proof.
  intros Hm s a s' [(Hn & _ & Hw) HP] E. unfold onr, zoom in E.
  destruct (m (rc s)) as [[a' p]| |] eqn:E1; [|done..]. injection E as <- <-. simpl.
  split_and!; try done. by eapply Hm.
Qed.

Ltac by_onw L := eapply h_conseq; [apply h_onw, L|..]; unfold Jw, J, lru_out; naive_solver.
Ltac by_onr L := eapply h_conseq; [apply h_onr, L|..]; unfold Jr, J, lru_out; naive_solver.

Lemma h_w_RemoveLru bid : hoare (J t) (onw (RemoveLru bid)) (λ _, Jw t bid).
Proof. by_onw (h_RemoveLru t bid). Qed.

Lemma h_r_RemoveLru bid : hoare (J t) (RCache_RemoveLru bid) (λ _, Jr t bid).
Proof. by_onr (h_RemoveLru t bid). Qed.

Lemma h_w_upd bid f :
  (∀ b b', f b = Ret b' → elm b' = elm b) → hoare (Jw t bid) (onw (buf_upd bid f)) (λ _, Jw t bid).
Proof. intros Hf. by_onw (h_buf_upd t bid f Hf). Qed.

Lemma h_r_upd bid f :
  (∀ b b', f b = Ret b' → elm b' = elm b) → hoare (Jr t bid) (onr (buf_upd bid f)) (λ _, Jr t bid).
Proof. intros Hf. by_onr (h_buf_upd t bid f Hf). Qed.

Lemma h_w_AllocBuffer fe blk :
  hoare (J t) (onw (AllocBuffer fe blk)) (λ r, match r with Some bid => Jw t bid | None => J t end).
Proof.
  eapply h_conseq; [apply h_onw, (h_AllocBuffer t fe blk)|..]; [unfold J; naive_solver|].
  intros [bid|]; unfold Jw, J, lru_out; naive_solver.
Qed.

Lemma h_r_AllocBuffer fe blk :
  hoare (J t) (RCache_AllocBuffer fe blk) (λ r, match r with Some bid => Jr t bid | None => J t end).
Proof.
  eapply h_conseq; [apply h_onr, (h_AllocBuffer t fe blk)|..]; [unfold J; naive_solver|].
  intros [bid|]; unfold Jr, J, lru_out; naive_solver.
Qed.

Lemma h_r_DoLru bid : hoare (J t) (RCache_DoLru t bid) (λ _, J t).
Proof. by_onr (h_DoLru t bid). Qed.

Lemma h_do_lru bid : hoare (J t) (do_lru bid) (λ _, J t).
Proof.
  unfold do_lru. apply (h_gets _ _ t); [by intros s (-> & _)|]. by_onw (h_DoLru t bid).
Qed.

Lemma h_w_LruExpire u : hoare (J t) (onw (LruExpire u)) (λ _, J t).
Proof. by_onw (h_LruExpire t u). Qed.

Lemma h_r_LruExpire u : hoare (J t) (RCache_LruExpire u) (λ _, J t).
Proof. by_onr (h_LruExpire t u). Qed.

(** ** The operations of the two caches *)

Lemma h_forget_w {A} bid (m : M (CS W) A) Q : hoare (J t) m Q → hoare (Jw t bid) m Q.
Proof. intros Hm. eapply h_conseq; [exact Hm|by intros s [? _]|done]. Qed.

Lemma h_forget_r {A} bid (m : M (CS W) A) Q : hoare (J t) m Q → hoare (Jr t bid) m Q.
Proof. intros Hm. eapply h_conseq; [exact Hm|by intros s [? _]|done]. Qed.

Lemma h_ret_J {A} (a : A) : hoare (J t) (ret a) (λ _, J t).
Proof. by apply h_ret. Qed.

(** One step: the clock is read, an operation that touches the lists runs, a
    quiet one does, or the last one forgets which buffer was held. *)
Ltac h_last := first
  [ apply h_ret_J | apply h_panic | apply h_block | apply h_do_lru | apply h_w_LruExpire
  | apply h_r_LruExpire | apply h_r_DoLru | assumption ].
Ltac h_op := first
  [ apply h_w_RemoveLru | apply h_r_RemoveLru | apply h_w_AllocBuffer | apply h_r_AllocBuffer
  | (apply h_w_upd || apply h_r_upd);
      first [by intros ? ?; apply elm_MergeData|by intros ? ?; apply elm_ReSet|by intros ? ?; apply elm_Skip]
  | apply h_do_lru | apply h_r_DoLru | apply h_w_LruExpire | apply h_r_LruExpire
  | solve [eauto 2 with lru nocore]
  | apply h_quiet_w; by stays_tac | apply h_quiet_r; by stays_tac | apply h_quiet; by stays_tac
  | apply h_forget_w; apply h_do_lru | apply h_forget_r; apply h_r_DoLru ].
Ltac h_step := match goal with
  | |- hoare _ (match ?x with _ => _ end) _ => destruct x
  | |- hoare _ (bind (gets now) _) _ => apply (h_gets _ _ t); [by unfold Jw, Jr, J; naive_solver|]
  | |- hoare _ (bind _ _) _ => eapply h_bind; [solve [h_op]|intros ?; cbn beta iota]
  | |- hoare _ _ _ => solve [h_last | apply h_forget_w; h_last | apply h_forget_r; h_last
      | solve [eauto 2 with lru nocore] | h_op]
  end.
Ltac h_tac := cbn beta iota; repeat h_step.

Lemma h_fill_buffer bid off data : hoare (Jw t bid) (fill_buffer bid off data) (λ _, Jw t bid).
Proof. unfold fill_buffer. h_tac. Qed.
Create HintDb lru.
#[local] Hint Resolve h_fill_buffer : lru.

Lemma h_WriteOp fe fid op : hoare (J t) (WriteOp fe fid op) (λ _, J t).
Proof. unfold WriteOp. h_tac. Qed.
#[local] Hint Resolve h_WriteOp : lru.

Lemma h_WriteBlock fe fid op : hoare (J t) (WriteBlock fe fid op) (λ _, J t).
Proof. unfold WriteBlock. h_tac. Qed.

Lemma h_FlushBuffer fid idx : hoare (J t) (FlushBuffer fid idx) (λ _, J t).
Proof.
  assert (hoare (J t) (FlushBuffer_body fid idx) (λ _, J t)) as Hb
    by (unfold FlushBuffer_body; h_tac).
  unfold FlushBuffer. h_tac.
Qed.
#[local] Hint Resolve h_FlushBuffer : lru.

Lemma h_SyncWrite_one bid : hoare (J t) (SyncWrite_one bid) (λ _, J t).
Proof.
  assert (hoare (J t) (SyncWrite_begin bid) (λ _, J t)) as Hb by (unfold SyncWrite_begin; h_tac).
  unfold SyncWrite_one, SyncWrite_end. h_tac.
Qed.

Lemma h_ReleaseBuffer fid idx : hoare (J t) (ReleaseBuffer fid idx) (λ _, J t).
Proof.
  assert (hoare (J t) (ReleaseBuffer_body fid idx) (λ _, J t)) as Hb
    by (unfold ReleaseBuffer_body; h_tac).
  unfold ReleaseBuffer. h_tac.
Qed.
#[local] Hint Resolve h_ReleaseBuffer : lru.

Lemma h_PrefetchRead_one : hoare (J t) PrefetchRead_one (λ _, J t).
Proof.
  assert (∀ fid op, hoare (J t) (DoPrefetchRead fid op) (λ _, J t)) as Hb
    by (intros; unfold DoPrefetchRead; h_tac).
  unfold PrefetchRead_one, RCache_GetFileBuffer. h_tac.
Qed.

Lemma h_RWCache_Close fe : hoare (J t) (RWCache_Close fe) (λ _, J t).
Proof.
  assert (∀ order fid e, hoare (J t) (Flush_list fid order e) (λ _, J t)) as Hf
    by (induction order; intros; simpl; h_tac).
  assert (∀ order fid, hoare (J t) (Release_list fid order) (λ _, J t)) as Hr
    by (induction order; intros; simpl; h_tac).
  assert (hoare (J t) (RCache_Release fe) (λ _, J t)) as Hrr
    by (unfold RCache_Release, RCache_GetFileBuffer; h_tac).
  assert (hoare (J t) (RCache_Close fe) (λ _, J t)) as Hrc
    by (unfold RCache_Close, RCache_DetachFileBuffer; h_tac).
  assert (hoare (J t) (WCache_Flush fe) (λ _, J t)) as Hwf by (unfold WCache_Flush; h_tac).
  unfold RWCache_Close, WCache_Close. h_tac.
Qed.

(** The rounds of the expiry routines. *)
Lemma h_CheckExpire_round fuel : hoare (J t) (CheckExpire_round fuel) (λ _, J t).
Proof. induction fuel as [|fuel IH]; simpl; h_tac. Qed.

Lemma h_RCache_CheckExpire_round fuel : hoare (J t) (RCache_CheckExpire_round fuel) (λ _, J t).
Proof. induction fuel as [|fuel IH]; simpl; unfold RCache_GetFileBuffer; h_tac. Qed.
End At.

Lemma lru_times_J s : lru_times s ↔ J (now s) s.
Proof. unfold lru_times, J. tauto. Qed.

(** What a step leaves of the order. *)
Lemma J_step {A} (m : M (CS W) A) s a s' :
  (∀ t, hoare (J t) m (λ _, J t)) → lru_times s → m s = Ret (a, s') → lru_times s'.
Proof.
  intros Hm Hs E. apply lru_times_J in Hs. pose proof (Hm _ _ _ _ Hs E) as HJ.
  destruct HJ as (Hn & Hr & Hw). split; by rewrite Hn.
Qed.
End Ops.

(** ** Every reachable state *)

Section Reach.
Context {W : Type} `{ProxyStore W}.
Context (BS : Z).
Hypothesis HBS : 0 < BS < 2 ^ 32.
Implicit Types (s : CS W).

Lemma lru_times_quiet s s' : quiet s s' → lru_times s → lru_times s'.
Proof. intros Hq Hs%lru_times_J. apply (J_quiet _ _ _ Hq) in Hs as (<- & ? & ?). by split. Qed.

Lemma wstep_times l s s' : wstep BS l s s' → lru_times s → lru_times s'.
Proof.
  intros Hst Hs. destruct Hst as [fe r s s' _ Hr|fe op n e s s' _ _ Hr|f i e s s' Hr
    |r s s' Hr|bid s s' _ Hr|t s Ht].
  - eapply lru_times_quiet; [|exact Hs]. by apply (quiet_onw _ (same_GetFileBuffer fe true) _ _ _ Hr).
  - by eapply J_step; [intros; apply h_WriteBlock|..].
  - by eapply J_step; [intros; apply h_FlushBuffer|..].
  - by eapply J_step; [intros; apply h_w_LruExpire|..].
  - by eapply J_step; [intros; apply h_SyncWrite_one|..].
  - destruct Hs. split; by eapply lru_ok_later.
Qed.

Lemma rwstep_times s s' : rwstep BS s s' → lru_times s → lru_times s'.
Proof.
  intros Hst Hs. destruct Hst as [l s s' Hst|fe r s s' _ Hr|fe op r s s' _ _ _ Hr
    |f w s s' Hr|f i s s' _ _ _ Hr|s s' Hr|f i e s s' Hr|r s s' Hr|fe e s s' _ _ Hr].
  - by eapply wstep_times.
  - eapply lru_times_quiet; [|exact Hs]. by apply (quiet_onr _ (same_GetFileBuffer fe true) _ _ _ Hr).
  - eapply lru_times_quiet; [|exact Hs]. by eapply quiet_ReadBlock.
  - eapply lru_times_quiet; [|exact Hs]. by apply (quiet_onr _ (same_fb_upd _ _) _ _ _ Hr).
  - eapply lru_times_quiet; [|exact Hs]. by eapply quiet_Prefetch_loop.
  - by eapply J_step; [intros; apply h_PrefetchRead_one|..].
  - by eapply J_step; [intros; apply h_ReleaseBuffer|..].
  - by eapply J_step; [intros; apply h_r_LruExpire|..].
  - by eapply J_step; [intros; apply h_RWCache_Close|..].
Qed.

Lemma rwreach_times s : rwreachable BS s → lru_times s.
Proof.
  intros (n & ex & ch & pf & times & w & t & _ & _ & Hr).
  assert (∀ a, rtc (rwstep BS) a s → lru_times a → lru_times s) as Hind.
  { induction 1; [done|]. intros. eauto using rwstep_times. }
  eapply Hind; [exact Hr|]. split; apply lru_ok_NewPool.
Qed.

(** When the last buffer of an ordered list has not expired, none has. *)
Lemma all_fresh t t' d p :
  pool_wf BS p → lru_ok t p →
  (∀ x b, last (LruList p) = Some x → bufs p !! x = Some b → t' - LastUpdateTime b < d) →
  ∀ x, x ∈ LruList p → t' - updated p x < d.
Proof.
  intros Hwf Hok Hl x Hx. enough (t' - d < updated p x) by lia.
  apply (lru_ok_last t p (t' - d) Hok); [|done].
  intros y Hy. destruct (wf_lru_dom _ _ Hwf y) as (f & j & Hs); [by apply last_Some_elem_of|].
  destruct (wf_slot_buf _ _ _ _ _ Hwf Hs) as (b & Hb & _). specialize (Hl _ _ Hy Hb).
  unfold updated. rewrite Hb. simpl. lia.
Qed.

(** What one call of [LruExpire] tells about the whole list. *)
Lemma LruExpire_complete t p :
  pool_wf BS p → lru_ok t p →
  wp (LruExpire t) (λ r p', match r with
    | None => p' = p ∧ ∀ x, x ∈ LruList p → t - updated p x < ExpireTime p * 1000000
    | Some (fe, i) => ∃ x, slot p (fe_Id fe) i = Some x ∧ LruList p = LruList p' ++ [x] ∧
        ExpireTime p * 1000000 ≤ t - updated p x ∧
        ∀ y, y ∈ LruList p → updated p x ≤ updated p y ≤ t
    end) p.
Proof.
  intros Hwf Hok. eapply wp_mono; [|by apply (wp_LruExpire_pool BS)].
  intros [[fe i]|] p' (_ & _ & _ & _ & Hr).
  - destruct Hr as (x & Hl & HL & Hs & b & Hb & Ht). exists x. split; [done|].
    pose proof (wf_lru_nodup _ _ Hwf) as Hnd.
    apply last_Some in Hl as [l El]. rewrite El in Hnd, HL.
    rewrite HL, (list_remove_id_last BS) by done.
    split_and!; [done|unfold updated; by rewrite Hb|].
    intros y Hy. split; [|by apply Hok].
    pose proof (lru_ok_last t p (updated p x - 1) Hok) as Hlast.
    enough (updated p x - 1 < updated p y) by lia. apply Hlast; [|done].
    rewrite El, last_snoc. intros ? [= <-]. lia.
  - destruct Hr as [-> Hr]. split; [done|]. by eapply all_fresh.
Qed.

(** C21: the LRU lists are in order, so their last buffer is the oldest.  Whatever
    the readers, writers, routines and closing files did, both lists are ordered
    by the time of the last use, newest first, and no time is in the future;
    [LruExpire], which looks at the last buffer alone, hands out the block of
    the oldest buffer of all when that has expired, and otherwise none of the
    list has. *)
Theorem lru_ordered s p :
  rwreachable BS s → p = rc s ∨ p = wc s →
  StronglySorted (λ x y, updated p y ≤ updated p x) (LruList p) ∧
  (∀ x, x ∈ LruList p → updated p x ≤ now s) ∧
  match LruExpire (now s) p with
  | Ret (None, p') => p' = p ∧ ∀ x, x ∈ LruList p → now s - updated p x < ExpireTime p * 1000000
  | Ret (Some (fe, i), p') => ∃ x, slot p (fe_Id fe) i = Some x ∧ LruList p = LruList p' ++ [x] ∧
      ExpireTime p * 1000000 ≤ now s - updated p x ∧
      ∀ y, y ∈ LruList p → updated p x ≤ updated p y ≤ now s
  | _ => False
  end.
Proof.
  intros Hr Hp. pose proof (rwreach_inv BS HBS s Hr) as [Hwi Hri].
  pose proof (rwreach_times s Hr) as [Htr Htw].
  assert (pool_wf BS p ∧ lru_ok (now s) p) as [Hwf Hok].
  { destruct Hp as [->| ->]; (split; [|done]); [apply Hri|apply Hwi]. }
  split; [apply Hok|]. split; [apply Hok|].
  pose proof (LruExpire_complete (now s) p Hwf Hok) as Hw. unfold wp in Hw.
  destruct (LruExpire (now s) p) as [[[[fe i]|] p']| |]; done.
Qed.
End Reach.

(** * Witness: two blocks written 5 ms apart, 12 ms later *)

Module LruExample.
Import RWSExample.

Definition op2 : RWBlockOp := MkOp fe 1 0 3 [1; 2; 3] 0.
Definition t4 : CS MemStore := set_now 5000000 s4.
Definition t5 : CS MemStore := after (WriteBlock fe 1 op2 t4) t4.
Definition t6 : CS MemStore := set_now 12000000 t5.

Lemma reach_t6 : rwreachable 4 t6.
Proof.
  destruct reach4 as (n & ex & ch & pf & tm & w & t & Hch & Hpf & Hr).
  exists n, ex, ch, pf, tm, w, t. split_and!; try done.
  eapply rtc_r; [eapply rtc_r; [eapply rtc_r; [exact Hr|]|]|].
  - apply (rw_wcache 4 LTau _ t4), ws_tick. by vm_compute.
  - apply (rw_wcache 4 (LWrite 1 4 [1; 2; 3] None) _ t5).
    apply (ws_write 4 fe op2 3 None); [done|by repeat split|by vm_compute].
  - apply (rw_wcache 4 LTau), ws_tick. by vm_compute.
Qed.

(** The older block has expired, the newer one is left. *)
Lemma lru_ordered_witness :
  length (LruList (wc t6)) = 2%nat ∧
  ∃ p', LruExpire (now t6) (wc t6) = Ret (Some (fe, 0), p') ∧
    ∀ y, y ∈ LruList (wc t6) → 0 ≤ updated (wc t6) y ≤ 12000000.
Proof.
  split; [reflexivity|].
  destruct (lru_ordered 4 bs4_rws t6 (wc t6) reach_t6 (or_intror eq_refl)) as (_ & _ & He).
  destruct (LruExpire (now t6) (wc t6)) as [[[[fe' i]|] p']| |] eqn:E; try (vm_compute in E; congruence).
  assert (fe' = fe ∧ i = 0) as [-> ->] by (vm_compute in E; injection E as <- <- _; split; reflexivity).
  exists p'. split; [reflexivity|]. destruct He as (x & Hs & _ & _ & Hy). intros y Hin.
  specialize (Hy y Hin). assert (updated (wc t6) x = 0) as Hx.
  { vm_compute in Hs. injection Hs as <-. reflexivity. }
  rewrite Hx in Hy. exact Hy.
Defined.
End LruExample.
