(* ===== verification/Locks.v ===== *)
(** The per-block read/write locks of [FileBuffer] (lib/libfs/cache.go) under
    any number of concurrent holders. *)

From stdpp Require Import base gmap list relations.
From Stdlib Require Import ZArith Lia.
From S2P Require Import Prelude GoString Proto Buffer.

(** A held lock: the block, and whether it is held for writing. *)
Abbreviation hold := (Z * bool)%type (only parsing).

Definition readers (blk : Z) (hs : list hold) : nat := length (filter (λ h, h = (blk, false)) hs).
Definition writers (blk : Z) (hs : list hold) : nat := length (filter (λ h, h = (blk, true)) hs).

(** The lock map and the locks the goroutines hold. A goroutine takes a lock
    when its round of the spinning loop succeeds, and gives back one it
    holds. *)
Definition lstate : Type := gmap Z CacheLock * list hold.

Inductive lstep : lstate → lstate → Prop :=
| l_lock blk lm lm' hs :
    LockBuffer blk lm = Ret lm' → lstep (lm, hs) (lm', (blk, true) :: hs)
| l_rlock blk lm lm' hs :
    RLockBuffer blk lm = Ret lm' → lstep (lm, hs) (lm', (blk, false) :: hs)
| l_unlock blk lm lm' hs1 hs2 :
    UnLockBuffer blk lm = Ret lm' →
    lstep (lm, hs1 ++ (blk, true) :: hs2) (lm', hs1 ++ hs2)
| l_runlock blk lm lm' hs1 hs2 :
    RUnLockBuffer blk lm = Ret lm' →
    lstep (lm, hs1 ++ (blk, false) :: hs2) (lm', hs1 ++ hs2).

(** What the map says about a block is what is held. *)
Definition lock_agrees (lm : gmap Z CacheLock) (hs : list hold) (blk : Z) : Prop :=
  match lm !! blk with
  | None => readers blk hs = 0%nat ∧ writers blk hs = 0%nat
  | Some l =>
      (tp l = WriteLock ∧ refer l = 0 ∧ readers blk hs = 0%nat ∧ writers blk hs = 1%nat) ∨
      (tp l = ReadLock ∧ refer l = Z.of_nat (readers blk hs) ∧ (0 < readers blk hs)%nat ∧
       writers blk hs = 0%nat)
  end.

Definition lock_inv (st : lstate) : Prop := ∀ blk, lock_agrees st.1 st.2 blk.

Lemma readers_cons blk h hs :
  readers blk (h :: hs) = ((if decide (h = (blk, false)) then 1 else 0) + readers blk hs)%nat.
Proof. unfold readers. rewrite filter_cons. repeat case_decide; done. Qed.

Lemma writers_cons blk h hs :
  writers blk (h :: hs) = ((if decide (h = (blk, true)) then 1 else 0) + writers blk hs)%nat.
Proof. unfold writers. rewrite filter_cons. repeat case_decide; done. Qed.

Lemma readers_mid blk h hs1 hs2 :
  readers blk (hs1 ++ h :: hs2) =
  ((if decide (h = (blk, false)) then 1 else 0) + readers blk (hs1 ++ hs2))%nat.
Proof.
  unfold readers. rewrite !filter_app, !length_app, filter_cons. repeat case_decide; simpl; done || lia.
Qed.

Lemma writers_mid blk h hs1 hs2 :
  writers blk (hs1 ++ h :: hs2) =
  ((if decide (h = (blk, true)) then 1 else 0) + writers blk (hs1 ++ hs2))%nat.
Proof.
  unfold writers. rewrite !filter_app, !length_app, filter_cons. repeat case_decide; simpl; done || lia.
Qed.

Ltac lock_crush :=
  repeat match goal with
  | |- context [decide ?P] => destruct (decide P)
  | H : context [decide ?P] |- _ => destruct (decide P)
  end; simplify_eq; try lia; try done.

Lemma lstep_inv st st' : lock_inv st → lstep st st' → lock_inv st'.
Proof.
  intros Hi Hst b. destruct Hst as [blk lm lm' hs Hr|blk lm lm' hs Hr|blk lm lm' hs1 hs2 Hr
    |blk lm lm' hs1 hs2 Hr]; pose proof (Hi b) as Hb; unfold lock_agrees in *; simpl in *.
  - unfold LockBuffer in Hr. destruct (lm !! blk) eqn:E; [done|]. injection Hr as <-.
    rewrite readers_cons, writers_cons, lookup_insert. destruct (decide (blk = b)) as [Hd|Hd].
    + subst. rewrite E in Hb. left. simpl. lock_crush.
    + destruct (lm !! b); lock_crush.
  - unfold RLockBuffer in Hr. rewrite readers_cons, writers_cons.
    destruct (lm !! blk) as [v|] eqn:E.
    + destruct (Z.eqb_spec (tp v) WriteLock); [done|]. injection Hr as <-.
      rewrite lookup_insert. destruct (decide (blk = b)) as [Hd|Hd]; [|destruct (lm !! b); lock_crush].
      subst. rewrite E in Hb. destruct Hb as [(?&_)|(?&?&?&?)]; [done|]. right. simpl. lock_crush.
    + injection Hr as <-. rewrite lookup_insert. destruct (decide (blk = b)) as [Hd|Hd]; [|destruct (lm !! b); lock_crush].
      subst. rewrite E in Hb. right. simpl. lock_crush.
  - rewrite readers_mid, writers_mid in Hb. unfold UnLockBuffer in Hr.
    destruct (lm !! blk) as [v|] eqn:E; [|done].
    destruct ((tp v =? WriteLock) && (refer v =? 0)) eqn:E2; [|done]. injection Hr as <-.
    rewrite lookup_delete. destruct (decide (blk = b)) as [Hd|Hd].
    + subst. rewrite E in Hb. apply andb_true_iff in E2 as [E2%Z.eqb_eq _].
      destruct Hb as [(?&?&?&?)|(Ht&_)]; [lock_crush|]. by rewrite E2 in Ht.
    + destruct (lm !! b); lock_crush.
  - rewrite readers_mid, writers_mid in Hb. unfold RUnLockBuffer in Hr.
    destruct (lm !! blk) as [v|] eqn:E; [|done].
    destruct ((tp v =? ReadLock) && (1 <=? refer v)) eqn:E2; [|done].
    apply andb_true_iff in E2 as [E2%Z.eqb_eq E3%Z.leb_le].
    destruct (Z.eqb_spec (refer v - 1) 0) as [E4|E4]; injection Hr as <-.
    + rewrite lookup_delete. destruct (decide (blk = b)) as [Hd|Hd]; [|destruct (lm !! b); lock_crush].
      subst. rewrite E in Hb. destruct Hb as [(Ht&_)|(?&?&?&?)]; [|lock_crush].
      unfold WriteLock, ReadLock in *. lia.
    + rewrite lookup_insert. destruct (decide (blk = b)) as [Hd|Hd]; [|destruct (lm !! b); lock_crush].
      subst. rewrite E in Hb. destruct Hb as [(Ht&_)|(?&?&?&?)]; [unfold WriteLock, ReadLock in *; lia|].
      right. simpl. lock_crush.
Qed.

Lemma lock_inv_init : lock_inv (∅, []).
Proof. intros b. unfold lock_agrees. simpl. by rewrite lookup_empty. Qed.

Lemma lock_inv_reach st : rtc lstep (∅, []) st → lock_inv st.
Proof.
  intros Hr. assert (∀ st0, rtc lstep st0 st → lock_inv st0 → lock_inv st) as Hind.
  { induction 1; [done|]. intros Hi. eauto using lstep_inv. }
  eapply Hind; [exact Hr|apply lock_inv_init].
Qed.

(** C19: mutual exclusion: however goroutines take and give back the locks of
    the blocks, a block held for writing is held by exactly one goroutine and
    by no reader, and the reader count stored for a block is the number of
    goroutines that hold it for reading. *)
Theorem lock_exclusion lm hs blk :
  rtc lstep (∅, []) (lm, hs) →
  (writers blk hs ≤ 1)%nat ∧ ((0 < writers blk hs)%nat → readers blk hs = 0%nat) ∧
  (∀ l, lm !! blk = Some l → tp l = ReadLock → refer l = Z.of_nat (readers blk hs)).
Proof.
  intros Hr%lock_inv_reach. specialize (Hr blk). unfold lock_agrees in Hr. simpl in Hr.
  destruct (lm !! blk) as [l|]; [|split_and!; lia || done].
  destruct Hr as [(Ht&?&?&?)|(?&?&?&?)].
  - split_and!; try lia. intros ? [= <-] Ht'. unfold WriteLock, ReadLock in *. lia.
  - split_and!; try lia. by intros ? [= <-] _.
Qed.

Lemma lock_exclusion_witness :
  (writers 3 [(3%Z, false); (3%Z, false)] ≤ 1)%nat ∧
  ((0 < writers 3 [(3%Z, false); (3%Z, false)])%nat → readers 3 [(3%Z, false); (3%Z, false)] = 0%nat) ∧
  (∀ l, ({[3 := MkLock ReadLock 2]} : gmap Z CacheLock) !! 3 = Some l → tp l = ReadLock →
     refer l = Z.of_nat (readers 3 [(3%Z, false); (3%Z, false)])).
Proof.
  apply (lock_exclusion {[3 := MkLock ReadLock 2]} [(3%Z, false); (3%Z, false)] 3).
  apply rtc_l with ({[3 := MkLock ReadLock 1]}, [(3%Z, false)]).
  - apply l_rlock. reflexivity.
  - apply rtc_once, l_rlock. reflexivity.
Defined.

(** No goroutine that gives back a lock it holds fails an assertion, and
    the only reason to wait is a lock that excludes the one asked for: a writer
    waits for any holder, a reader only for a writer. *)
Theorem lock_no_panic lm hs blk :
  rtc lstep (∅, []) (lm, hs) →
  ((0 < writers blk hs)%nat → ∃ lm', UnLockBuffer blk lm = Ret lm') ∧
  ((0 < readers blk hs)%nat → ∃ lm', RUnLockBuffer blk lm = Ret lm') ∧
  (LockBuffer blk lm = Block ↔ (0 < writers blk hs + readers blk hs)%nat) ∧
  (RLockBuffer blk lm = Block ↔ (0 < writers blk hs)%nat).
Proof.
  intros Hr%lock_inv_reach. specialize (Hr blk). unfold lock_agrees in Hr. simpl in Hr.
  unfold UnLockBuffer, RUnLockBuffer, LockBuffer, RLockBuffer.
  destruct (lm !! blk) as [l|].
  - destruct Hr as [(Ht&Href&?&?)|(Ht&Href&?&?)]; rewrite Ht, Href.
    + split_and!; try lia; [eauto|split; [lia|done]..].
    + unfold WriteLock, ReadLock. rewrite (proj2 (Z.leb_le 1 _)) by lia. simpl.
      split_and!; try lia; [|split; [lia|done]|split; [done|lia]].
      intros _. destruct (_ =? 0); eauto.
  - destruct Hr as [-> ->]. split_and!; try lia; (split; [done|lia]).
Qed.

Lemma lock_no_panic_witness :
  let lm := {[3 := MkLock WriteLock 0]} : gmap Z CacheLock in let hs := [(3%Z, true)] in
  ((0 < writers 3 hs)%nat → ∃ lm', UnLockBuffer 3 lm = Ret lm') ∧
  ((0 < readers 3 hs)%nat → ∃ lm', RUnLockBuffer 3 lm = Ret lm') ∧
  (LockBuffer 3 lm = Block ↔ (0 < writers 3 hs + readers 3 hs)%nat) ∧
  (RLockBuffer 3 lm = Block ↔ (0 < writers 3 hs)%nat).
Proof.
  apply (lock_no_panic {[3 := MkLock WriteLock 0]} [(3%Z, true)] 3).
  apply rtc_once, l_lock. reflexivity.
Defined.
