(* ===== verification/Lru.v ===== *)
(** The bounded LRU map (lib/cache/lru.go) and the dentry cache built on it
    (lib/libfs/dentrycache.go). The elements of the doubly linked list are
    named by numbers, and the key map points to them, as in the Go code; the
    abstract cache is the list of entries, most recently used first. *)

From stdpp Require Import base gmap list strings.
From Stdlib Require Import ZArith Lia.
From S2P Require Import Prelude GoString.

Section Lru.
Context {V : Type}.

Record CacheNode : Type := MkNode { nKey : string; nValue : V; Expiration : Z }.

(** [elems] is the heap of list elements, [next] the next free name. *)
Record LRUCache : Type := MkLRU {
  Capacity : Z;
  dlist : list Z;
  cacheMap : gmap string Z;
  elems : gmap Z CacheNode;
  next : Z;
}.

Definition NewLRUCache (cap : Z) : option LRUCache :=
  if cap <=? 0 then None else Some (MkLRU cap [] ∅ ∅ 0).

Definition LRU_Size (c : LRUCache) : Z := Zlen (dlist c).

Definition MoveToFront (e : Z) (l : list Z) : list Z := e :: filter (λ x, x ≠ e) l.
Definition list_Remove (e : Z) (l : list Z) : list Z := filter (λ x, x ≠ e) l.

(** [d] and [now] in nanoseconds. *)
Definition SetExpire (now : Z) (k : string) (v : V) (d : Z) (c : LRUCache) : LRUCache :=
  let e := if d <=? 0 then 0 else now + d in
  match cacheMap c !! k with
  | Some el =>
      MkLRU (Capacity c) (MoveToFront el (dlist c)) (cacheMap c)
        (<[el := MkNode k v e]> (elems c)) (next c)
  | None =>
      let el := next c in
      let l := el :: dlist c in
      let m := <[k := el]> (cacheMap c) in
      let h := <[el := MkNode k v e]> (elems c) in
      if Capacity c <? Zlen l then
        match last l with
        | None => MkLRU (Capacity c) l m h (next c + 1)
        | Some lastElement =>
            match h !! lastElement with
            | None => MkLRU (Capacity c) l m h (next c + 1)
            | Some node =>
                MkLRU (Capacity c) (list_Remove lastElement l) (delete (nKey node) m) h (next c + 1)
            end
        end
      else MkLRU (Capacity c) l m h (next c + 1)
  end.

Definition LRU_Set (now : Z) (k : string) (v : V) (c : LRUCache) : LRUCache := SetExpire now k v 0 c.

(** An entry is usable when it does not expire or its time has not come. *)
Definition fresh_at (now e : Z) : bool := (e =? 0) || (now <? e).

Definition LRU_Get (now : Z) (k : string) (c : LRUCache) : option V * LRUCache :=
  match cacheMap c !! k with
  | Some el =>
      match elems c !! el with
      | Some node =>
          if fresh_at now (Expiration node)
          then (Some (nValue node),
                MkLRU (Capacity c) (MoveToFront el (dlist c)) (cacheMap c) (elems c) (next c))
          else (None, c)
      | None => (None, c)
      end
  | None => (None, c)
  end.

Definition LRU_Remove (k : string) (c : LRUCache) : bool * LRUCache :=
  match cacheMap c !! k with
  | Some el =>
      match elems c !! el with
      | Some node =>
          (true, MkLRU (Capacity c) (list_Remove el (dlist c)) (delete (nKey node) (cacheMap c))
                   (elems c) (next c))
      | None => (false, c)
      end
  | None => (false, c)
  end.

Definition GetKeys (k : string) (matchFunc : string → string → bool) (c : LRUCache) : list string :=
  filter (λ cacheKey, matchFunc cacheKey k = true) (map_to_list (cacheMap c)).*1.

(** ** The abstract cache *)

(** The entries, most recently used first. *)
Definition entries (c : LRUCache) : list CacheNode := omap (λ e, elems c !! e) (dlist c).

Definition without (k : string) (l : list CacheNode) : list CacheNode := filter (λ n, nKey n ≠ k) l.

(** Set: to the front, dropping the least recently used one when full. *)
Definition aSet (cap : Z) (n : CacheNode) (l : list CacheNode) : list CacheNode :=
  take (Z.to_nat cap) (n :: without (nKey n) l).

Definition aFind (k : string) (l : list CacheNode) : option CacheNode :=
  snd <$> list_find (λ n, nKey n = k) l.

Definition aGet (now : Z) (k : string) (l : list CacheNode) : option V * list CacheNode :=
  match aFind k l with
  | Some n => if fresh_at now (Expiration n) then (Some (nValue n), n :: without k l) else (None, l)
  | None => (None, l)
  end.

(** The invariant: the list has no element twice, the map points exactly to the
    list's elements by their keys, and the capacity is respected. *)
Record lru_wf (c : LRUCache) : Prop := {
  lw_cap : 0 < Capacity c;
  lw_nodup : NoDup (dlist c);
  lw_size : Zlen (dlist c) ≤ Capacity c;
  lw_map : ∀ k e, cacheMap c !! k = Some e ↔
    e ∈ dlist c ∧ ∃ n, elems c !! e = Some n ∧ nKey n = k;
  lw_elem : ∀ e, e ∈ dlist c → is_Some (elems c !! e);
  lw_next : ∀ e, is_Some (elems c !! e) → e < next c;
}.

Lemma entries_cons c e l n :
  elems c !! e = Some n → omap (λ e, elems c !! e) (e :: l) = n :: omap (λ e, elems c !! e) l.
Proof. intros E. simpl. by rewrite E. Qed.

Lemma omap_ext (f g : Z → option CacheNode) (l : list Z) :
  (∀ x, x ∈ l → f x = g x) → omap f l = omap g l.
Proof.
  induction l as [|x l IH]; intros Hx; simpl; [done|].
  rewrite (Hx x) by left. assert (omap f l = omap g l) as E.
  { apply IH. intros y Hy. apply Hx. by right. }
  destruct (g x); [f_equal|]; exact E.
Qed.

(** Removing an element removes the entry of its key. *)
Lemma entries_remove c e n :
  lru_wf c → e ∈ dlist c → elems c !! e = Some n →
  omap (λ e, elems c !! e) (list_Remove e (dlist c)) = without (nKey n) (entries c).
Proof.
  intros Hw He Hn. unfold entries, without, list_Remove.
  assert (∀ x m, x ∈ dlist c → elems c !! x = Some m → nKey m = nKey n → x = e) as Hinj.
  { intros x m Hx Hm Hk.
    assert (cacheMap c !! nKey n = Some x) by (apply (lw_map _ Hw); eauto).
    assert (cacheMap c !! nKey n = Some e) by (apply (lw_map _ Hw); eauto). congruence. }
  pose proof (lw_elem _ Hw) as Hel. revert Hinj Hel. clear He. generalize (dlist c) as l.
  induction l as [|x l IH]; intros Hinj Hel; [done|].
  destruct (Hel x) as [m Hm]; [left|]. rewrite filter_cons. simpl. rewrite Hm. rewrite filter_cons.
  assert (omap (λ e0, elems c !! e0) (filter (λ y, y ≠ e) l) =
          filter (λ n0, nKey n0 ≠ nKey n) (omap (λ e0, elems c !! e0) l)) as IH'.
  { apply IH; [intros y m' Hy; apply Hinj; by right|intros; apply Hel; by right]. }
  destruct (decide (x ≠ e)) as [Hx|Hx].
  - rewrite decide_True.
    + simpl. rewrite Hm. f_equal. exact IH'.
    + intros Hk. apply Hx. eapply Hinj; [left|done|done].
  - apply dec_stable in Hx. subst x. simplify_eq. rewrite decide_False; [exact IH'|tauto].
Qed.

Lemma aFind_spec k (l : list CacheNode) n :
  n ∈ l → nKey n = k → (∀ m, m ∈ l → nKey m = k → m = n) → aFind k l = Some n.
Proof.
  intros Hin Hk Hu. unfold aFind. destruct (list_find_elem_of (λ n, nKey n = k) l n Hin Hk) as [[i m] Hf].
  rewrite Hf. simpl. apply list_find_Some in Hf as (Hl & Hm & _). f_equal.
  apply Hu; [by eapply list_elem_of_lookup_2|done].
Qed.

Lemma aFind_none k (l : list CacheNode) :
  (∀ m, m ∈ l → nKey m ≠ k) → aFind k l = None ∧ without k l = l.
Proof.
  intros Hn. split.
  - unfold aFind. rewrite (proj2 (list_find_None (λ n, nKey n = k) l)); [done|].
    apply Forall_forall. exact Hn.
  - unfold without. induction l as [|m l IH]; [done|].
    rewrite filter_cons, decide_True by (apply Hn; left). rewrite IH; [done|]. intros. apply Hn. by right.
Qed.

Lemma entries_elem c n : n ∈ entries c ↔ ∃ e, e ∈ dlist c ∧ elems c !! e = Some n.
Proof. unfold entries. by rewrite list_elem_of_omap. Qed.

Lemma find_entries c k e n :
  lru_wf c → cacheMap c !! k = Some e → elems c !! e = Some n → aFind k (entries c) = Some n.
Proof.
  intros Hw Hk Hn. apply (lw_map _ Hw) in Hk as Hk'. destruct Hk' as (He & n' & Hn' & Hkey).
  assert (n' = n) as -> by congruence. subst k.
  apply aFind_spec; [apply entries_elem; eauto|done|].
  intros m (x & Hx & Hm)%entries_elem Hmk.
  assert (cacheMap c !! nKey n = Some x) by (apply (lw_map _ Hw); eauto). congruence.
Qed.

Lemma find_entries_none c k :
  lru_wf c → cacheMap c !! k = None → aFind k (entries c) = None ∧ without k (entries c) = entries c.
Proof.
  intros Hw Hk. apply aFind_none. intros m (x & Hx & Hm)%entries_elem <-.
  assert (cacheMap c !! nKey m = Some x) by (apply (lw_map _ Hw); eauto). congruence.
Qed.

Lemma omap_length (h : Z → option CacheNode) (l : list Z) :
  (∀ e, e ∈ l → is_Some (h e)) → length (omap h l) = length l.
Proof.
  induction l as [|x l IH]; intros Hs; [done|]. simpl. destruct (Hs x) as [n ->]; [left|]. simpl.
  f_equal. apply IH. intros. apply Hs. by right.
Qed.

Lemma omap_take (h : Z → option CacheNode) (l : list Z) n :
  (∀ e, e ∈ l → is_Some (h e)) → omap h (take n l) = take n (omap h l).
Proof.
  revert n. induction l as [|x l IH]; intros n Hs; [by destruct n|]. destruct n; [done|].
  simpl. destruct (Hs x) as [m ->]; [left|]. simpl. f_equal. apply IH. intros. apply Hs. by right.
Qed.

Lemma remove_last (l : list Z) x :
  NoDup l → last l = Some x → list_Remove x l = take (length l - 1) l.
Proof.
  intros Hnd Hl. apply last_Some in Hl as [l' ->]. apply NoDup_app in Hnd as (_ & Hx & _).
  unfold list_Remove. rewrite filter_app, length_app. simpl.
  rewrite filter_cons, decide_False, filter_nil, app_nil_r by tauto.
  replace (length l' + 1 - 1)%nat with (length l') by lia. rewrite take_app_length.
  clear -Hx. induction l' as [|y l' IH]; [done|]. rewrite filter_cons, decide_True.
  - rewrite IH; [done|]. intros z Hz. apply Hx. by right.
  - intros ->. apply (Hx x); [left|]. set_solver.
Qed.

Lemma list_Remove_elem x e l : x ∈ list_Remove e l ↔ x ∈ l ∧ x ≠ e.
Proof. unfold list_Remove. rewrite list_elem_of_filter. tauto. Qed.

Lemma MoveToFront_elem x e l : e ∈ l → x ∈ MoveToFront e l ↔ x ∈ l.
Proof.
  intros He. unfold MoveToFront. rewrite elem_of_cons, list_elem_of_filter.
  destruct (decide (x = e)) as [->|]; intuition congruence.
Qed.

Lemma MoveToFront_NoDup e l : NoDup l → NoDup (MoveToFront e l).
Proof.
  intros Hnd. unfold MoveToFront. apply NoDup_cons. split; [|by apply NoDup_filter].
  rewrite list_elem_of_filter. tauto.
Qed.

Lemma MoveToFront_length e l : NoDup l → e ∈ l → length (MoveToFront e l) = length l.
Proof.
  intros Hnd He. apply Permutation_length. apply NoDup_Permutation; [by apply MoveToFront_NoDup|done|].
  intros x. by apply MoveToFront_elem.
Qed.

(** ** Get *)

Lemma LRU_Get_ok now k c :
  lru_wf c → lru_wf (LRU_Get now k c).2 ∧
  (LRU_Get now k c).1 = (aGet now k (entries c)).1 ∧
  entries (LRU_Get now k c).2 = (aGet now k (entries c)).2 ∧
  Capacity (LRU_Get now k c).2 = Capacity c.
Proof.
  intros Hw. unfold LRU_Get, aGet. destruct (cacheMap c !! k) as [e|] eqn:Ek.
  2:{ by destruct (find_entries_none c k Hw Ek) as [-> _]. }
  apply (lw_map _ Hw) in Ek as Ek'. destruct Ek' as (He & n & Hn & Hkey). rewrite Hn.
  rewrite (find_entries c k e n Hw Ek Hn). destruct (fresh_at now (Expiration n)); [|done].
  split; [|split; [done|split; [|done]]].
  - destruct Hw as [H1 H2 H3 H4 H5 H6]. constructor; simpl; try done.
    + by apply MoveToFront_NoDup.
    + unfold Zlen in *. by rewrite MoveToFront_length.
    + intros k' e'. by rewrite MoveToFront_elem.
    + intros e'. rewrite MoveToFront_elem by done. apply H5.
  - unfold entries, MoveToFront. simpl. rewrite Hn. f_equal. rewrite <- Hkey.
    by apply (entries_remove c e n).
Qed.

(** ** Remove *)

Lemma LRU_Remove_ok k c :
  lru_wf c → lru_wf (LRU_Remove k c).2 ∧
  ((LRU_Remove k c).1 = true ↔ is_Some (aFind k (entries c))) ∧
  entries (LRU_Remove k c).2 = without k (entries c) ∧
  Capacity (LRU_Remove k c).2 = Capacity c.
Proof.
  intros Hw. unfold LRU_Remove. destruct (cacheMap c !! k) as [e|] eqn:Ek.
  2:{ destruct (find_entries_none c k Hw Ek) as [-> ->]. split_and!; try done; by intros []. }
  apply (lw_map _ Hw) in Ek as Ek'. destruct Ek' as (He & n & Hn & Hkey). rewrite Hn.
  rewrite (find_entries c k e n Hw Ek Hn). simpl. split; [|split; [split; eauto|split; [|done]]].
  - pose proof Hw as [H1 H2 H3 H4 H5 H6]. constructor; simpl; try done.
    + by apply NoDup_filter.
    + unfold Zlen, list_Remove in *. pose proof (length_filter (λ x, x ≠ e) (dlist c)). lia.
    + intros k' e'. rewrite lookup_delete_Some, H4, list_Remove_elem, Hkey. split.
      * intros (Hne & ? & n' & ? & ?). split_and!; eauto. intros ->. simplify_eq.
      * intros ((? & ?) & n' & Hn' & ?). split_and!; eauto. intros <-.
        assert (cacheMap c !! k = Some e') by (apply H4; eauto). congruence.
    + intros e' [? _]%list_Remove_elem. by apply H5.
  - rewrite <- Hkey. by apply (entries_remove c e n).
Qed.

(** ** Set *)

(** A new element at the front. *)
Lemma push_ok c k v x :
  lru_wf c → cacheMap c !! k = None →
  let n := MkNode k v x in
  let h := <[next c := n]> (elems c) in
  (next c ∉ dlist c) ∧ NoDup (next c :: dlist c) ∧
  omap (λ e, h !! e) (next c :: dlist c) = n :: entries c ∧
  (∀ e, e ∈ next c :: dlist c → is_Some (h !! e)) ∧
  (∀ k' e, <[k := next c]> (cacheMap c) !! k' = Some e ↔
     e ∈ next c :: dlist c ∧ ∃ m, h !! e = Some m ∧ nKey m = k') ∧
  (∀ e, is_Some (h !! e) → e < next c + 1).
Proof.
  intros Hw Hk n h. pose proof Hw as [H1 H2 H3 H4 H5 H6].
  assert (next c ∉ dlist c) as Hn.
  { intros Hin. apply H5, H6 in Hin. lia. }
  split_and!; try done.
  - by apply NoDup_cons.
  - simpl. unfold h. rewrite lookup_insert_eq. f_equal. apply omap_ext. intros x' Hx.
    rewrite lookup_insert_ne; [done|]. intros <-. done.
  - intros e [->|He]%elem_of_cons; unfold h; rewrite ?lookup_insert_eq; [eauto|].
    rewrite lookup_insert_is_Some'. right. by apply H5.
  - intros k' e. unfold h. rewrite !lookup_insert, elem_of_cons.
    destruct (decide (k = k')) as [<-|Hkk]; destruct (decide (next c = e)) as [<-|Hee].
    + split; [|done]. intros _. split; [by left|]. by exists n.
    + split; [by intros [= E]|]. intros [[E|?] (m & Hm & Hmk)]; [congruence|].
      assert (cacheMap c !! k = Some e) by (apply H4; eauto). congruence.
    + split; [|intros [_ (m & [= <-] & Hmk)]; done].
      intros Hc. apply H4 in Hc as [? _]. done.
    + rewrite H4. intuition congruence.
  - intros e. unfold h. rewrite lookup_insert_is_Some'. intros [<-|He]; [lia|]. apply H6 in He. lia.
Qed.

Lemma SetExpire_ok now k v d c :
  lru_wf c → lru_wf (SetExpire now k v d c) ∧
  entries (SetExpire now k v d c) =
    aSet (Capacity c) (MkNode k v (if d <=? 0 then 0 else now + d)) (entries c) ∧
  Capacity (SetExpire now k v d c) = Capacity c.
Proof.
  intros Hw. set (x := if d <=? 0 then 0 else now + d). unfold SetExpire. fold x.
  pose proof Hw as [H1 H2 H3 H4 H5 H6].
  destruct (cacheMap c !! k) as [e|] eqn:Ek.
  - apply H4 in Ek as Ek'. destruct Ek' as (He & n & Hn & Hkey). split_and!; try done.
    + constructor; simpl; try done.
      * by apply MoveToFront_NoDup.
      * unfold Zlen in *. by rewrite MoveToFront_length.
      * intros k' e'. rewrite MoveToFront_elem, H4, lookup_insert by done.
        destruct (decide (e = e')) as [<-|Hne]; [|done]. rewrite Hn. split.
        -- intros (? & m & [= <-] & Hm). split; [done|]. eexists. split; [done|]. simpl. congruence.
        -- intros (? & m & [= <-] & Hm). split; [done|]. exists n. split; [done|]. simpl in Hm. congruence.
      * intros e'. rewrite MoveToFront_elem by done. intros He'. rewrite lookup_insert_is_Some'.
        right. by apply H5.
      * intros e'. rewrite lookup_insert_is_Some'. intros [<-|?]; apply H6; [rewrite Hn; eauto|done].
    + unfold aSet. simpl nKey. rewrite <- Hkey, <- (entries_remove c e n) by done. rewrite take_ge.
      * unfold entries, MoveToFront. simpl. rewrite lookup_insert_eq. f_equal. apply omap_ext.
        intros y [_ Hy]%list_Remove_elem. by rewrite lookup_insert_ne.
      * simpl. rewrite omap_length.
        -- pose proof (MoveToFront_length e (dlist c) H2 He) as Hl. unfold MoveToFront in Hl. simpl in Hl.
           unfold list_Remove. unfold Zlen in H3. lia.
        -- intros y [Hy _]%list_Remove_elem. by apply H5.
  - destruct (push_ok c k v x Hw Ek) as (Hnew & Hnd & Hent & Hsome & Hmap & Hnext).
    set (h := <[next c := MkNode k v x]> (elems c)) in *. set (l := next c :: dlist c) in *.
    destruct (find_entries_none c k Hw Ek) as [_ Hwo].
    assert (Zlen l = Zlen (dlist c) + 1) as Hl by (unfold l, Zlen; simpl; lia).
    unfold aSet. simpl nKey. rewrite Hwo.
    destruct (Z.ltb_spec (Capacity c) (Zlen l)) as [Hfull|Hfull].
    2:{ split; [by constructor|]. split; [|done]. transitivity (omap (λ e, h !! e) l); [done|].
        rewrite Hent, take_ge; [done|]. rewrite <- Hent, omap_length by done. unfold Zlen in *. lia. }
    destruct (last l) as [el|] eqn:Elast.
    2:{ apply last_None in Elast. done. }
    assert (el ∈ l) as Hel by (by apply last_Some_elem_of).
    destruct (Hsome el Hel) as [node Hnode]. rewrite Hnode.
    pose proof (remove_last l el Hnd Elast) as Hrm.
    assert (length l - 1 = Z.to_nat (Capacity c))%nat as Hlen by (unfold Zlen in *; lia).
    split_and!; try done.
    + constructor; simpl; try done.
      * by apply NoDup_filter.
      * rewrite Hrm. unfold Zlen in *. rewrite length_take. lia.
      * intros k' e'. rewrite lookup_delete_Some, Hmap, list_Remove_elem. split.
        -- intros (Hne & ? & m & ? & ?). split_and!; eauto. intros ->. congruence.
        -- intros ((? & Hne) & m & Hm & Hmk). split_and!; eauto. intros E.
           assert (<[k := next c]> (cacheMap c) !! nKey node = Some el) as E1 by (apply Hmap; eauto).
           assert (<[k := next c]> (cacheMap c) !! nKey node = Some e') as E2.
           { apply Hmap. split; [done|]. exists m. split; [done|congruence]. }
           congruence.
      * intros e' [? _]%list_Remove_elem. by apply Hsome.
    + transitivity (omap (λ e, h !! e) (list_Remove el l)); [done|]. rewrite Hrm, omap_take by done. by rewrite Hent, Hlen.
Qed.
End Lru.
Arguments CacheNode V : clear implicits.
Arguments LRUCache V : clear implicits.

(** * The dentry cache *)

Section Dentry.
Context {V : Type}.

(** [dentryCache] is nil when the capacity is not positive. *)
Record DentryCache : Type := MkDentryCache {
  dentryCache : option (LRUCache V);
  expireMs : Z;
}.

Definition NewDentryCache (cacheSize expireTimeMs : Z) : DentryCache :=
  MkDentryCache (NewLRUCache cacheSize) expireTimeMs.

(** [false] is the error "0 Capacity". *)
Definition Dentry_Set (now : Z) (k : string) (v : V) (c : DentryCache) : bool * DentryCache :=
  match dentryCache c with
  | None => (false, c)
  | Some l => (true, MkDentryCache (Some (SetExpire now k v (expireMs c * 1000000) l)) (expireMs c))
  end.

Definition Dentry_Get (now : Z) (k : string) (c : DentryCache) : option V * DentryCache :=
  match dentryCache c with
  | None => (None, c)
  | Some l => let '(v, l') := LRU_Get now k l in (v, MkDentryCache (Some l') (expireMs c))
  end.

Definition Dentry_Remove (k : string) (c : DentryCache) : bool * DentryCache :=
  match dentryCache c with
  | None => (false, c)
  | Some l => let '(b, l') := LRU_Remove k l in (b, MkDentryCache (Some l') (expireMs c))
  end.

Definition Dentry_RemovePrefix (prefix : string) (c : DentryCache) : DentryCache :=
  match dentryCache c with
  | None => c
  | Some l =>
      let rtKeys := GetKeys prefix (λ cacheKey p, HasPrefix cacheKey p) l in
      MkDentryCache (Some (foldl (λ l k, (LRU_Remove k l).2) l rtKeys)) (expireMs c)
  end.

(** The usable value of a key. *)
Definition lookup_at (now : Z) (k : string) (c : DentryCache) : option V :=
  (Dentry_Get now k c).1.

Definition dentry_wf (c : DentryCache) : Prop :=
  match dentryCache c with None => True | Some l => lru_wf l end.

Definition dentries (c : DentryCache) : list (CacheNode V) :=
  match dentryCache c with None => [] | Some l => entries l end.

Lemma lookup_entries now k c :
  dentry_wf c → lookup_at now k c = (aGet now k (dentries c)).1.
Proof.
  unfold dentry_wf, lookup_at, Dentry_Get, dentries. destruct (dentryCache c) as [l|]; [|done].
  intros Hw. destruct (LRU_Get_ok now k l Hw) as (_ & E & _). by destruct (LRU_Get now k l).
Qed.

Lemma aFind_without (k k' : string) (l : list (CacheNode V)) :
  k ≠ k' → aFind k (without k' l) = aFind k l.
Proof.
  intros Hne. induction l as [|n l IH]; [done|]. unfold without. rewrite filter_cons.
  unfold aFind in *. simpl. destruct (decide (nKey n ≠ k')) as [Hk|Hk].
  - simpl. destruct (decide (nKey n = k)); [done|].
    rewrite <- !option_fmap_compose. unfold without in IH.
    destruct (list_find (λ n0, nKey n0 = k) (filter (λ n0, nKey n0 ≠ k') l)) as [[? ?]|],
      (list_find (λ n0, nKey n0 = k) l) as [[? ?]|]; simpl in *; congruence.
  - apply dec_stable in Hk. rewrite decide_False by congruence. rewrite <- option_fmap_compose.
    unfold without in IH. rewrite IH. by destruct (list_find (λ n0, nKey n0 = k) l) as [[? ?]|].
Qed.

Lemma aFind_without_same (k : string) (l : list (CacheNode V)) : aFind k (without k l) = None.
Proof. apply aFind_none. intros m [? _]%list_elem_of_filter. done. Qed.

Lemma removes_ok (ks : list string) : ∀ l : LRUCache V, lru_wf l →
  lru_wf (foldl (λ l k, (LRU_Remove k l).2) l ks) ∧
  entries (foldl (λ l k, (LRU_Remove k l).2) l ks) = filter (λ n, nKey n ∉ ks) (entries l).
Proof.
  induction ks as [|k ks IH]; intros l Hw; simpl.
  - split; [done|]. symmetry. induction (entries l) as [|n ns IHn]; [done|].
    rewrite filter_cons, decide_True by (by intros ?%not_elem_of_nil). by rewrite IHn.
  - destruct (LRU_Remove_ok k l Hw) as (Hw1 & _ & E & _).
    destruct (IH _ Hw1) as [Hw2 E2]. split; [done|]. rewrite E2, E. unfold without.
    rewrite list_filter_filter. apply list_filter_iff. intros n. rewrite not_elem_of_cons. tauto.
Qed.
End Dentry.
Arguments DentryCache V : clear implicits.

(** * Theorems *)

Section Theorems.
Context {V : Type}.

Inductive lru_op : Type :=
| OSet (now : Z) (k : string) (v : V) (d : Z)
| OGet (now : Z) (k : string)
| ORemove (k : string).

(** The answers of a sequence of operations: the value of a [Get]. *)
Fixpoint lru_run (ops : list lru_op) (c : LRUCache V) : list (option V) * LRUCache V :=
  match ops with
  | [] => ([], c)
  | OSet now k v d :: ops' => lru_run ops' (SetExpire now k v d c)
  | OGet now k :: ops' =>
      let '(r, c') := LRU_Get now k c in
      let '(rs, c'') := lru_run ops' c' in (r :: rs, c'')
  | ORemove k :: ops' => lru_run ops' (LRU_Remove k c).2
  end.

Fixpoint abs_run (cap : Z) (ops : list lru_op) (l : list (CacheNode V))
    : list (option V) * list (CacheNode V) :=
  match ops with
  | [] => ([], l)
  | OSet now k v d :: ops' =>
      abs_run cap ops' (aSet cap (MkNode k v (if d <=? 0 then 0 else now + d)) l)
  | OGet now k :: ops' =>
      let '(r, l') := aGet now k l in
      let '(rs, l'') := abs_run cap ops' l' in (r :: rs, l'')
  | ORemove k :: ops' => abs_run cap ops' (without k l)
  end.

Lemma lru_run_ok ops : ∀ c, lru_wf c →
  lru_wf (lru_run ops c).2 ∧ Capacity (lru_run ops c).2 = Capacity c ∧
  (lru_run ops c).1 = (abs_run (Capacity c) ops (entries c)).1 ∧
  entries (lru_run ops c).2 = (abs_run (Capacity c) ops (entries c)).2.
Proof.
  induction ops as [|[now k v d|now k|k] ops IH]; intros c Hw; simpl; [done|..].
  - destruct (SetExpire_ok now k v d c Hw) as (Hw1 & E1 & Ec).
    destruct (IH _ Hw1) as (? & ? & E2 & E3). rewrite Ec, E1 in *. by split_and!.
  - destruct (LRU_Get_ok now k c Hw) as (Hw1 & Er & E1 & Ec).
    destruct (LRU_Get now k c) as [r c1]. destruct (aGet now k (entries c)) as [ra l1].
    simpl in *. subst. destruct (IH _ Hw1) as (? & ? & E2 & E3). rewrite Ec in *.
    destruct (lru_run ops c1), (abs_run (Capacity c) ops (entries c1)). simpl in *.
    split_and!; try done; congruence.
  - destruct (LRU_Remove_ok k c Hw) as (Hw1 & _ & E1 & Ec).
    destruct (IH _ Hw1) as (? & ? & E2 & E3). rewrite Ec, E1 in *. by split_and!.
Qed.

(** C20: the LRU cache (a linked list plus a key map into it) implements a
    bounded list of entries, most recently used first: any sequence of sets,
    gets and removals gives the same answers, a set drops exactly the least
    recently used entry when the cache is full, and the size never exceeds the
    capacity. *)
Theorem lru_refinement (cap : Z) (ops : list lru_op) c :
  NewLRUCache cap = Some c →
  (lru_run ops c).1 = (abs_run cap ops []).1 ∧
  entries (lru_run ops c).2 = (abs_run cap ops []).2 ∧
  LRU_Size (lru_run ops c).2 ≤ cap.
Proof.
  unfold NewLRUCache. destruct (Z.leb_spec cap 0); [done|]. intros [= <-].
  destruct (lru_run_ok ops (MkLRU cap [] ∅ ∅ 0)) as (Hw & Ec & E1 & E2).
  - constructor; simpl; try done; [apply NoDup_nil_2|unfold Zlen; simpl; lia|..].
    + intros k e. rewrite lookup_empty. split; [done|]. by intros [?%not_elem_of_nil _].
    + by intros ? ?%not_elem_of_nil.
    + intros e. rewrite lookup_empty. by intros [].
  - split_and!; try done. unfold LRU_Size. pose proof (lw_size _ Hw) as Hs. by rewrite Ec in Hs.
Qed.

(** A dentry that was just set is found, with its value, until it
    expires. *)
Theorem dentry_set_get (c : DentryCache V) now now' k v :
  dentry_wf c → dentryCache c ≠ None → 0 < expireMs c → 0 ≤ now →
  now' < now + expireMs c * 1000000 →
  lookup_at now' k (Dentry_Set now k v c).2 = Some v ∧ dentry_wf (Dentry_Set now k v c).2.
Proof.
  intros Hw Hne Hx Hn Hnow. unfold Dentry_Set, dentry_wf in *.
  destruct (dentryCache c) as [l|] eqn:El; [|done]. simpl.
  destruct (SetExpire_ok now k v (expireMs c * 1000000) l Hw) as (Hw1 & E1 & Ec).
  split; [|done]. rewrite lookup_entries by done. unfold dentries. simpl. rewrite E1.
  unfold aGet, aSet, aFind. pose proof (lw_cap _ Hw) as Hcap.
  destruct (Z.to_nat (Capacity l)) eqn:Et; [lia|]. simpl. rewrite decide_True by done. simpl.
  rewrite (proj2 (Z.leb_gt _ 0)) by lia. unfold fresh_at. rewrite (proj2 (Z.ltb_lt now' _)) by lia.
  by rewrite orb_true_r.
Qed.

Lemma RemovePrefix_lookup (c : DentryCache V) now k prefix :
  dentry_wf c →
  lookup_at now k (Dentry_RemovePrefix prefix c) =
  (if HasPrefix k prefix then None else lookup_at now k c).
Proof.
  intros Hw. unfold Dentry_RemovePrefix, dentry_wf in *.
  destruct (dentryCache c) as [l|] eqn:El.
  2:{ unfold lookup_at, Dentry_Get. rewrite El. by destruct (HasPrefix k prefix). }
  set (ks := GetKeys prefix (λ cacheKey p, HasPrefix cacheKey p) l).
  destruct (removes_ok ks l Hw) as [Hw1 E1].
  rewrite lookup_entries by done. unfold dentries. simpl. rewrite E1.
  assert (∀ n, n ∈ entries l → nKey n ∈ ks ↔ HasPrefix (nKey n) prefix = true) as Hks.
  { intros n (e & He & Hn)%entries_elem. unfold ks, GetKeys. rewrite list_elem_of_filter. split; [tauto|].
    intros Hp. split; [done|]. apply list_elem_of_fmap. exists (nKey n, e). split; [done|].
    apply elem_of_map_to_list, (lw_map _ Hw). eauto. }
  unfold aGet. rewrite lookup_entries by (unfold dentry_wf; by rewrite El).
  unfold dentries. rewrite El. unfold aGet.
  assert (aFind k (filter (λ n, nKey n ∉ ks) (entries l)) =
    if HasPrefix k prefix then None else aFind k (entries l)) as ->.
  { revert Hks. generalize (entries l) as es. clear. intros es Hks.
    induction es as [|n es IH]; [by destruct (HasPrefix k prefix)|].
    specialize (IH (λ m Hm, Hks m (list_elem_of_further m n es Hm))).
    pose proof (Hks n (list_elem_of_here n es)) as Hn.
    rewrite filter_cons. unfold aFind in *. simpl. destruct (decide (nKey n ∉ ks)) as [Hni|Hni].
    - simpl. destruct (decide (nKey n = k)) as [Hk|Hk]; simpl.
      + subst k. destruct (HasPrefix (nKey n) prefix); [tauto|done].
      + rewrite <- !option_fmap_compose. 
        destruct (list_find (λ n0, nKey n0 = k) (filter (λ n0, nKey n0 ∉ ks) es)) as [[? ?]|],
          (list_find (λ n0, nKey n0 = k) es) as [[? ?]|], (HasPrefix k prefix); simpl in *; congruence.
    - apply dec_stable in Hni. destruct (decide (nKey n = k)) as [Hk|Hk].
      + subst k. apply Hn in Hni. rewrite Hni in *. done.
      + rewrite IH. destruct (HasPrefix k prefix); [done|].
        by destruct (list_find (λ n0, nKey n0 = k) es) as [[? ?]|]. }
  destruct (HasPrefix k prefix); [done|]. destruct (aFind k (entries l)) as [n|]; [|done].
  by destruct (fresh_at now (Expiration n)).
Qed.

Lemma RemovePrefix_wf (c : DentryCache V) prefix :
  dentry_wf c → dentry_wf (Dentry_RemovePrefix prefix c).
Proof.
  unfold Dentry_RemovePrefix, dentry_wf. destruct (dentryCache c) as [l|] eqn:El; [|simpl; by rewrite ?El].
  intros Hw. by apply removes_ok.
Qed.

Lemma Remove_wf (c : DentryCache V) k : dentry_wf c → dentry_wf (Dentry_Remove k c).2.
Proof.
  unfold Dentry_Remove, dentry_wf. destruct (dentryCache c) as [l|] eqn:El; [|simpl; by rewrite ?El].
  intros Hw. destruct (LRU_Remove_ok k l Hw) as (Hw1 & _). by destruct (LRU_Remove k l).
Qed.

Lemma Remove_lookup (c : DentryCache V) now k k' :
  dentry_wf c →
  lookup_at now k (Dentry_Remove k' c).2 = if String.eqb k k' then None else lookup_at now k c.
Proof.
  intros Hw. rewrite !lookup_entries by (try done; by apply Remove_wf).
  unfold Dentry_Remove, dentry_wf, dentries in *. destruct (dentryCache c) as [l|] eqn:El.
  2: { simpl. rewrite ?El. by destruct (String.eqb k k'). }
  destruct (LRU_Remove_ok k' l Hw) as (_ & _ & E & _).
  destruct (LRU_Remove k' l) as [b l']. simpl in *. rewrite E. unfold aGet.
  destruct (String.eqb_spec k k') as [->|Hne].
  - by rewrite aFind_without_same.
  - rewrite aFind_without by done. destruct (aFind k (entries l)); [|done]. by case_match.
Qed.

Lemma Set_wf (c : DentryCache V) now k v : dentry_wf c → dentry_wf (Dentry_Set now k v c).2.
Proof.
  unfold Dentry_Set, dentry_wf. destruct (dentryCache c) as [l|] eqn:El; [|simpl; by rewrite ?El].
  intros Hw. by apply SetExpire_ok.
Qed.

Lemma Get_wf (c : DentryCache V) now k : dentry_wf c → dentry_wf (Dentry_Get now k c).2.
Proof.
  unfold Dentry_Get, dentry_wf. destruct (dentryCache c) as [l|] eqn:El; [|simpl; by rewrite ?El].
  intros Hw. destruct (LRU_Get_ok now k l Hw) as (Hw1 & _). by destruct (LRU_Get now k l).
Qed.

(** [RemovePrefix] (used when a directory is renamed) makes every path with
    the prefix unknown and leaves every other path as it was. *)
Theorem dentry_remove_prefix (c : DentryCache V) now k prefix :
  dentry_wf c →
  lookup_at now k (Dentry_RemovePrefix prefix c) =
  (if HasPrefix k prefix then None else lookup_at now k c).
Proof. apply RemovePrefix_lookup. Qed.
End Theorems.

Section Witnesses.

Lemma lru_refinement_witness :
  let ops := [OSet 0 "a" 1 0; OSet 0 "b" 2 0; OGet 0 "a"; OSet 0 "c" 3 0; OGet 0 "b"; OGet 0 "a"] in
  let c := MkLRU 2 [] ∅ ∅ 0 in
  (lru_run ops c).1 = [Some 1; None; Some 1] ∧ (lru_run ops c).1 = (abs_run 2 ops []).1.
Proof.
  split; [by vm_compute|].
  apply (lru_refinement 2 [OSet 0 "a" 1 0; OSet 0 "b" 2 0; OGet 0 "a"; OSet 0 "c" 3 0;
    OGet 0 "b"; OGet 0 "a"] (MkLRU 2 [] ∅ ∅ 0)). reflexivity.
Defined.

Lemma dentry_wf_new : dentry_wf (NewDentryCache (V := Z) 2 10).
Proof.
  constructor; simpl; try done; [apply NoDup_nil_2|..].
  - intros k e. rewrite lookup_empty. split; [done|]. by intros [?%not_elem_of_nil _].
  - by intros ? ?%not_elem_of_nil.
  - intros e. rewrite lookup_empty. by intros [].
Qed.

Lemma dentry_set_get_witness :
  lookup_at 5 "/m/a" (Dentry_Set 0 "/m/a" 7 (NewDentryCache 2 10)).2 = Some 7 ∧
  dentry_wf (Dentry_Set 0 "/m/a" 7 (NewDentryCache 2 10)).2.
Proof.
  apply (dentry_set_get (NewDentryCache 2 10) 0 5 "/m/a" 7); [apply dentry_wf_new|discriminate|reflexivity|lia|reflexivity].
Defined.

Lemma dentry_remove_prefix_witness :
  lookup_at 5 "/m/a" (Dentry_RemovePrefix "/m" (Dentry_Set 0 "/m/a" 7 (NewDentryCache 2 10)).2) =
  (if HasPrefix "/m/a" "/m" then None
   else lookup_at 5 "/m/a" (Dentry_Set 0 "/m/a" 7 (NewDentryCache 2 10)).2).
Proof.
  apply (dentry_remove_prefix (Dentry_Set 0 "/m/a" 7 (NewDentryCache 2 10)).2 5 "/m/a" "/m").
  apply (SetExpire_ok 0 "/m/a" 7 10000000 (MkLRU 2 [] ∅ ∅ 0)). apply dentry_wf_new.
Defined.
End Witnesses.
