(* ===== verification/FileTable.v ===== *)
(** The table of open files (lib/libfs/filecache.go): handles, the lowest free
    handle, and the reference counts that decide when a file's caches are
    closed. *)

From stdpp Require Import base gmap list strings relations.
From Stdlib Require Import ZArith Lia.
From S2P Require Import Prelude GoString Proto Buffer.

(** * The reference counts *)

Abbreviation fileRefer := (gmap Z Z) (only parsing).

Definition AddRef (Id : Z) (fr : fileRefer) : fileRefer :=
  match fr !! Id with
  | None => <[Id := 1]> fr
  | Some r => <[Id := r + 1]> fr
  end.

Definition DelRef (Id : Z) (fr : fileRefer) : outcome fileRefer :=
  match fr !! Id with
  | Some ref => if 1 <=? ref
                then Ret (if ref =? 1 then delete Id fr else <[Id := ref - 1]> fr)
                else Panic
  | None => Panic
  end.

Definition LastRef (Id : Z) (fr : fileRefer) : outcome bool :=
  match fr !! Id with
  | Some ref => if 1 <=? ref then Ret (ref =? 1) else Panic
  | None => Panic
  end.

(** * The table *)

Record FileCache : Type := MkFileCache {
  fileEntryIndex : Z;
  fileEntryVecSize : Z;
  fileEntryVec : list (option FileEntry);
  refer_ : fileRefer;
}.

Definition NewFileCache (openFileMax : Z) : FileCache :=
  MkFileCache 0 (u32 openFileMax) (replicate (Z.to_nat openFileMax) None) ∅.

(** [fileEntryVec[i]]: an index out of range panics. *)
Definition vec_get (fc : FileCache) (i : Z) : outcome (option FileEntry) :=
  if (0 <=? i) && (i <? Zlen (fileEntryVec fc))
  then Ret (default None (fileEntryVec fc !! Z.to_nat i)) else Panic.

Definition vec_set (fc : FileCache) (i : Z) (e : option FileEntry) : list (option FileEntry) :=
  <[Z.to_nat i := e]> (fileEntryVec fc).

(** The loop of [GetMinEntryIndex] from [next], at most [fuel] rounds. *)
Fixpoint min_from (fuel : nat) (vec : list (option FileEntry)) (size next : Z) : Z :=
  match fuel with
  | O => next
  | S fuel' =>
      if next <? size then
        match default None (vec !! Z.to_nat next) with
        | None => next
        | Some _ => min_from fuel' vec size (next + 1)
        end
      else next
  end.

Definition GetMinEntryIndex (fc : FileCache) : Z :=
  min_from (Z.to_nat (fileEntryVecSize fc - fileEntryIndex fc)) (fileEntryVec fc)
    (fileEntryVecSize fc) (fileEntryIndex fc).

(** [syscall.O_DIRECT] (linux/amd64). *)
Definition O_DIRECT : Z := 0x4000.

(** [NewFile]: the handle, or the error "NewFile fail!". *)
Definition NewFile (now : Z) (fileEntry : FileEntry) (fc : FileCache)
    : outcome (option Z * FileCache) :=
  let direct := 0 <? Z.land (OpenFlag fileEntry) O_DIRECT in
  if fileEntryVecSize fc <=? fileEntryIndex fc then Ret (None, fc)
  else
    match vec_get fc (fileEntryIndex fc) with
    | Ret None =>
        let e := {| fe_Id := fe_Id fileEntry; BlockSize := BlockSize fileEntry;
                    Handle := fileEntryIndex fc; FilePath := FilePath fileEntry;
                    OpenFlag := OpenFlag fileEntry; Mode := Mode fileEntry;
                    DirectIO := direct; Owner := EmptyString; Pid := 0;
                    LastAccessTime := now; fe_closed := false |} in
        let fc1 := MkFileCache (fileEntryIndex fc) (fileEntryVecSize fc)
                     (vec_set fc (fileEntryIndex fc) (Some e))
                     (if direct then refer_ fc else AddRef (fe_Id fileEntry) (refer_ fc)) in
        Ret (Some (fileEntryIndex fc),
             MkFileCache (GetMinEntryIndex fc1) (fileEntryVecSize fc1) (fileEntryVec fc1)
               (refer_ fc1))
    | Ret (Some _) => Panic
    | Panic => Panic
    | Block => Block
    end.

Definition set_access (now : Z) (e : FileEntry) : FileEntry :=
  {| fe_Id := fe_Id e; BlockSize := BlockSize e; Handle := Handle e; FilePath := FilePath e;
     OpenFlag := OpenFlag e; Mode := Mode e; DirectIO := DirectIO e; Owner := Owner e;
     Pid := Pid e; LastAccessTime := now; fe_closed := fe_closed e |}.

Definition GetFileEntry (now handle : Z) (fc : FileCache) : outcome (option FileEntry * FileCache) :=
  if fileEntryVecSize fc <=? handle then Ret (None, fc)
  else
    match vec_get fc handle with
    | Ret None => Ret (None, fc)
    | Ret (Some e) =>
        let e' := set_access now e in
        Ret (Some e', MkFileCache (fileEntryIndex fc) (fileEntryVecSize fc)
                        (vec_set fc handle (Some e')) (refer_ fc))
    | Panic => Panic
    | Block => Block
    end.

(** [CloseFile]: [false] is the error "invalid handle". *)
Definition CloseFile (handle : Z) (fc : FileCache) : outcome (bool * FileCache) :=
  if fileEntryVecSize fc <=? handle then Ret (false, fc)
  else
    match vec_get fc handle with
    | Ret None => Ret (false, fc)
    | Ret (Some e) =>
        match (if DirectIO e then Ret (refer_ fc) else DelRef (fe_Id e) (refer_ fc)) with
        | Ret fr =>
            Ret (true, MkFileCache
                         (if handle <? fileEntryIndex fc then handle else fileEntryIndex fc)
                         (fileEntryVecSize fc) (vec_set fc handle None) fr)
        | Panic => Panic
        | Block => Block
        end
    | Panic => Panic
    | Block => Block
    end.

Definition IsLastRefer (e : FileEntry) (fc : FileCache) : outcome bool :=
  LastRef (fe_Id e) (refer_ fc).

(** * The invariant *)

(** Whether an entry counts as a reference to [id]. *)
Definition refers (id : Z) (e : option FileEntry) : bool :=
  match e with Some e => negb (DirectIO e) && (fe_Id e =? id) | None => false end.

Definition count_refs (id : Z) (vec : list (option FileEntry)) : Z :=
  Zlen (filter (λ e, refers id e = true) vec).

Definition entry_at (fc : FileCache) (h : Z) : option FileEntry :=
  if h <? 0 then None else default None (fileEntryVec fc !! Z.to_nat h).

Record ft_wf (fc : FileCache) : Prop := {
  ft_size : Zlen (fileEntryVec fc) = fileEntryVecSize fc;
  ft_u32 : fileEntryVecSize fc < 2 ^ 32;
  ft_index : 0 ≤ fileEntryIndex fc ≤ fileEntryVecSize fc;
  ft_below : ∀ h, 0 ≤ h < fileEntryIndex fc → is_Some (entry_at fc h);
  ft_free : fileEntryIndex fc < fileEntryVecSize fc → entry_at fc (fileEntryIndex fc) = None;
  ft_handle : ∀ h e, entry_at fc h = Some e → Handle e = h;
  ft_refer : ∀ id, refer_ fc !! id =
    (if count_refs id (fileEntryVec fc) =? 0 then None else Some (count_refs id (fileEntryVec fc)));
}.

Lemma vec_get_ok fc h :
  ft_wf fc → 0 ≤ h < fileEntryVecSize fc → vec_get fc h = Ret (entry_at fc h).
Proof.
  intros Hw Hh. unfold vec_get, entry_at. rewrite (ft_size _ Hw). zbool.
Qed.

Lemma entry_set fc h e h' ix sz fr :
  0 ≤ h < Zlen (fileEntryVec fc) →
  entry_at (MkFileCache ix sz (vec_set fc h e) fr) h' = if h' =? h then e else entry_at fc h'.
Proof.
  intros Hh. unfold entry_at, vec_set, Zlen in *. simpl. destruct (Z.eqb_spec h' h) as [->|Hne].
  - rewrite (proj2 (Z.ltb_ge h 0)) by lia. rewrite list_lookup_insert_eq; [done|lia].
  - destruct (Z.ltb_spec h' 0); [done|]. rewrite list_lookup_insert_ne; [done|lia].
Qed.

Lemma count_set id fc h e :
  0 ≤ h < Zlen (fileEntryVec fc) →
  count_refs id (vec_set fc h e) =
  count_refs id (fileEntryVec fc) + (if refers id e then 1 else 0)
    - (if refers id (entry_at fc h) then 1 else 0).
Proof.
  intros Hh. unfold count_refs, vec_set, entry_at, Zlen in *.
  rewrite (proj2 (Z.ltb_ge h 0)) by lia.
  destruct (lookup_lt_is_Some_2 (fileEntryVec fc) (Z.to_nat h)) as [o Ho]; [lia|]. rewrite Ho. simpl.
  rewrite insert_take_drop by lia. rewrite <- (take_drop_middle (fileEntryVec fc) (Z.to_nat h) o) at 3 by done.
  rewrite !filter_app, !length_app, !filter_cons.
  destruct (refers id e), (refers id o); simpl; lia.
Qed.

Lemma count_nonneg id vec : 0 ≤ count_refs id vec.
Proof. apply Zlen_nonneg. Qed.

(** The loop finds the lowest free handle from [next] on. *)
Lemma min_from_ok fuel vec size : ∀ next,
  0 ≤ next ≤ size → fuel = Z.to_nat (size - next) →
  let r := min_from fuel vec size next in
  next ≤ r ≤ size ∧
  (∀ h, next ≤ h < r → is_Some (default None (vec !! Z.to_nat h))) ∧
  (r < size → default None (vec !! Z.to_nat r) = None).
Proof.
  induction fuel as [|fuel IH]; intros next Hn Hf; simpl.
  - split_and!; [lia..| |lia]. intros. lia.
  - rewrite (proj2 (Z.ltb_lt next size)) by lia.
    destruct (default None (vec !! Z.to_nat next)) as [e|] eqn:E.
    + destruct (IH (next + 1)) as (A & B & C); [lia..|]. split_and!; [lia..| |done].
      intros h Hh. destruct (decide (h = next)) as [->|]; [rewrite E; eauto|]. apply B. lia.
    + split_and!; [lia..| |done]. intros. lia.
Qed.

(** The counts and the map move together. *)
Definition ref_ok (fr : fileRefer) (cnt : Z → Z) : Prop :=
  ∀ id, fr !! id = (if cnt id =? 0 then None else Some (cnt id)).

Lemma AddRef_ok fr cnt cnt' id :
  ref_ok fr cnt → (∀ x, 0 ≤ cnt x) →
  (∀ x, cnt' x = cnt x + (if x =? id then 1 else 0)) → ref_ok (AddRef id fr) cnt'.
Proof.
  intros Hr Hn Hc x. unfold AddRef. rewrite (Hr id), Hc. pose proof (Hn id).
  destruct (Z.eqb_spec (cnt id) 0) as [E|E]; rewrite lookup_insert; destruct (decide (id = x)) as [<-|Hne].
  - rewrite Z.eqb_refl, E. done.
  - rewrite (proj2 (Z.eqb_neq x id)) by done. by rewrite Z.add_0_r.
  - rewrite Z.eqb_refl, (proj2 (Z.eqb_neq (_ + 1) 0)) by lia. done.
  - rewrite (proj2 (Z.eqb_neq x id)) by done. by rewrite Z.add_0_r.
Qed.

Lemma DelRef_ok fr cnt cnt' id :
  ref_ok fr cnt → (∀ x, 0 ≤ cnt x) → 0 < cnt id →
  (∀ x, cnt' x = cnt x - (if x =? id then 1 else 0)) →
  ∃ fr', DelRef id fr = Ret fr' ∧ ref_ok fr' cnt'.
Proof.
  intros Hr Hn Hp Hc. unfold DelRef. rewrite (Hr id), (proj2 (Z.eqb_neq _ 0)), (proj2 (Z.leb_le 1 _)) by lia.
  eexists. split; [done|]. intros x. rewrite Hc.
  destruct (Z.eqb_spec (cnt id) 1) as [E|E].
  - rewrite lookup_delete. destruct (decide (id = x)) as [<-|Hne].
    + rewrite Z.eqb_refl, E. done.
    + rewrite (proj2 (Z.eqb_neq x id)) by done. by rewrite Z.sub_0_r.
  - rewrite lookup_insert. destruct (decide (id = x)) as [<-|Hne].
    + rewrite Z.eqb_refl, (proj2 (Z.eqb_neq (_ - 1) 0)) by lia. done.
    + rewrite (proj2 (Z.eqb_neq x id)) by done. by rewrite Z.sub_0_r.
Qed.

Lemma ft_wf_new n : 0 ≤ n < 2 ^ 32 → ft_wf (NewFileCache n).
Proof.
  intros Hn. unfold NewFileCache. rewrite u32_small by lia.
  assert (∀ h, entry_at (MkFileCache 0 n (replicate (Z.to_nat n) None) ∅) h = None) as He.
  { intros h. unfold entry_at. simpl. destruct (h <? 0); [done|].
    destruct (replicate (Z.to_nat n) None !! Z.to_nat h) as [o|] eqn:E; [|done].
    by apply lookup_replicate in E as [-> _]. }
  constructor; simpl; try done.
  - unfold Zlen. rewrite length_replicate. lia.
  - lia.
  - lia.
  - intros. lia.
  - intros h e. by rewrite He.
  - intros id. rewrite lookup_empty. replace (count_refs id _) with 0; [done|].
    unfold count_refs. clear. induction (Z.to_nat n) as [|m IH]; [done|]. simpl. by rewrite filter_cons.
Qed.

(** The entry that [NewFile] stores. *)
Definition opened (now : Z) (fe : FileEntry) (h : Z) : FileEntry :=
  {| fe_Id := fe_Id fe; BlockSize := BlockSize fe; Handle := h; FilePath := FilePath fe;
     OpenFlag := OpenFlag fe; Mode := Mode fe; DirectIO := 0 <? Z.land (OpenFlag fe) O_DIRECT;
     Owner := EmptyString; Pid := 0; LastAccessTime := now; fe_closed := false |}.

Lemma NewFile_ok now fe fc :
  ft_wf fc → ∃ r fc', NewFile now fe fc = Ret (r, fc') ∧ ft_wf fc' ∧
  match r with
  | None => fc' = fc ∧ (∀ h, 0 ≤ h < fileEntryVecSize fc → is_Some (entry_at fc h))
  | Some h => 0 ≤ h < fileEntryVecSize fc ∧ entry_at fc h = None ∧
      (∀ h', 0 ≤ h' < h → is_Some (entry_at fc h')) ∧
      (∀ h', entry_at fc' h' = if h' =? h then Some (opened now fe h) else entry_at fc h')
  end.
Proof.
  intros Hw. pose proof Hw as [Hsz Hu Hix Hbe Hfr Hha Hre]. unfold NewFile.
  destruct (Z.leb_spec (fileEntryVecSize fc) (fileEntryIndex fc)).
  { exists None, fc. split_and!; try done. intros h Hh. apply Hbe. lia. }
  rewrite vec_get_ok, Hfr by (done || lia). cbv zeta.
  set (h := fileEntryIndex fc) in *. set (direct := 0 <? _). change {| fe_Id := _ |} with (opened now fe h).
  set (fr := if direct then _ else _). set (fc1 := MkFileCache h _ _ fr).
  assert (0 ≤ h < Zlen (fileEntryVec fc)) as Hh by lia.
  assert (∀ h', entry_at fc1 h' = if h' =? h then Some (opened now fe h) else entry_at fc h') as Hent
    by (intros; by apply entry_set).
  destruct (min_from_ok (Z.to_nat (fileEntryVecSize fc1 - fileEntryIndex fc1)) (fileEntryVec fc1)
    (fileEntryVecSize fc1) (fileEntryIndex fc1)) as (M1 & M2 & M3); [simpl; lia|done|].
  fold (GetMinEntryIndex fc1) in M1, M2, M3. set (ix := GetMinEntryIndex fc1) in *. simpl in M1.
  exists (Some h). eexists. split; [done|].
  assert (∀ h', entry_at (MkFileCache ix (fileEntryVecSize fc1) (fileEntryVec fc1) (refer_ fc1)) h' =
    entry_at fc1 h') as He1 by done.
  assert (∀ x, 0 ≤ x → default None (fileEntryVec fc1 !! Z.to_nat x) = entry_at fc1 x) as Hd.
  { intros x Hx. unfold entry_at. by rewrite (proj2 (Z.ltb_ge x 0)) by lia. }
  split.
  - constructor; simpl; rewrite ?He1.
    + unfold vec_set, Zlen in *. by rewrite length_insert.
    + done.
    + lia.
    + intros x Hx. destruct (Z.lt_ge_cases x h) as [Hlt|Hge].
      * rewrite He1, Hent, (proj2 (Z.eqb_neq x h)) by lia. apply Hbe. lia.
      * rewrite He1, <- Hd by lia. apply M2. simpl. lia.
    + intros Hlt. rewrite <- Hd by lia. by apply M3.
    + intros x e. rewrite He1, Hent. destruct (Z.eqb_spec x h) as [->|]; [by intros [= <-]|]. apply Hha.
    + change (ref_ok fr (λ id, count_refs id (vec_set fc h (Some (opened now fe h))))).
      assert (∀ id, count_refs id (vec_set fc h (Some (opened now fe h))) =
        count_refs id (fileEntryVec fc) + (if refers id (Some (opened now fe h)) then 1 else 0)) as Hcnt.
      { intros id. rewrite count_set, Hfr by (done || lia). simpl. lia. }
      unfold fr. destruct direct eqn:Ed.
      * intros id. rewrite Hcnt. simpl. unfold direct in Ed. rewrite Ed. simpl. rewrite Z.add_0_r. apply Hre.
      * eapply AddRef_ok; [exact Hre|intros; apply count_nonneg|]. intros id. rewrite Hcnt. simpl.
        unfold direct in Ed. rewrite Ed. simpl. by rewrite Z.eqb_sym.
  - split; [lia|]. split; [apply Hfr; lia|]. split; [exact Hbe|exact Hent].
Qed.

Lemma CloseFile_ok h fc :
  ft_wf fc → 0 ≤ h → ∃ r fc', CloseFile h fc = Ret (r, fc') ∧ ft_wf fc' ∧
  (r = true ↔ is_Some (entry_at fc h)) ∧
  (∀ h', entry_at fc' h' = if h' =? h then None else entry_at fc h').
Proof.
  intros Hw Hh. pose proof Hw as [Hsz Hu Hix Hbe Hfr Hha Hre]. unfold CloseFile.
  destruct (Z.leb_spec (fileEntryVecSize fc) h).
  { assert (entry_at fc h = None) as Hn.
    { unfold entry_at, Zlen in *. rewrite (proj2 (Z.ltb_ge h 0)) by lia.
      by rewrite lookup_ge_None_2 by lia. }
    exists false, fc. split; [done|]. split; [done|]. split; [rewrite Hn; split; [done|by intros []]|].
    intros h'. by destruct (Z.eqb_spec h' h) as [->|]. }
  rewrite vec_get_ok by (done || lia).
  destruct (entry_at fc h) as [e|] eqn:Ee.
  2:{ exists false, fc. split; [done|]. split; [done|]. split; [split; [done|by intros []]|].
      intros h'. by destruct (Z.eqb_spec h' h) as [->|]. }
  assert (0 ≤ h < Zlen (fileEntryVec fc)) as Hhv by lia.
  assert (∀ id, count_refs id (vec_set fc h None) =
    count_refs id (fileEntryVec fc) - (if refers id (Some e) then 1 else 0)) as Hcnt.
  { intros id. rewrite count_set, Ee by done. simpl. lia. }
  assert (∃ fr, (if DirectIO e then Ret (refer_ fc) else DelRef (fe_Id e) (refer_ fc)) = Ret fr ∧
    ref_ok fr (λ id, count_refs id (vec_set fc h None))) as (fr & -> & Hfr').
  { destruct (DirectIO e) eqn:Ed.
    - exists (refer_ fc). split; [done|]. intros id. rewrite Hcnt. simpl. rewrite Ed. simpl.
      rewrite Z.sub_0_r. apply Hre.
    - eapply DelRef_ok; [exact Hre|intros; apply count_nonneg| |].
      + specialize (Hcnt (fe_Id e)). simpl in Hcnt. rewrite Ed, Z.eqb_refl in Hcnt. simpl in Hcnt.
        pose proof (count_nonneg (fe_Id e) (vec_set fc h None)). simpl. lia.
      + intros id. rewrite Hcnt. simpl. rewrite Ed. simpl. by rewrite Z.eqb_sym. }
  assert (∀ ix h', entry_at (MkFileCache ix (fileEntryVecSize fc) (vec_set fc h None) fr) h' =
    if h' =? h then None else entry_at fc h') as Hent by (intros; by apply entry_set).
  eexists true, _. split; [done|]. split; [|split; [split; eauto|by apply Hent]].
  constructor; simpl; rewrite ?Hent.
  - unfold vec_set, Zlen in *. by rewrite length_insert.
  - done.
  - zbool.
  - intros x Hx. rewrite Hent. rewrite (proj2 (Z.eqb_neq x h)) by zbool. apply Hbe. zbool.
  - intros Hlt. destruct (Z.ltb_spec h (fileEntryIndex fc)); [by rewrite Z.eqb_refl|].
    destruct (fileEntryIndex fc =? h); [done|]. by apply Hfr.
  - intros x e'. rewrite Hent. destruct (x =? h); [done|]. apply Hha.
  - exact Hfr'.
Qed.

(** * Theorems *)

(** Any sequence of opens, lookups and closes. *)
Inductive ftstep : FileCache → FileCache → Prop :=
| ft_open now fe fc r fc' : NewFile now fe fc = Ret (r, fc') → ftstep fc fc'
| ft_get now h fc r fc' : 0 ≤ h → GetFileEntry now h fc = Ret (r, fc') → ftstep fc fc'
| ft_close h fc r fc' : 0 ≤ h → CloseFile h fc = Ret (r, fc') → ftstep fc fc'.

Lemma GetFileEntry_ok now h fc :
  ft_wf fc → 0 ≤ h → ∃ fc', GetFileEntry now h fc = Ret (set_access now <$> entry_at fc h, fc') ∧
  ft_wf fc' ∧ ∀ h', entry_at fc' h' = if h' =? h then set_access now <$> entry_at fc h else entry_at fc h'.
Proof.
  intros Hw Hh. pose proof Hw as [Hsz Hu Hix Hbe Hfr Hha Hre]. unfold GetFileEntry.
  destruct (Z.leb_spec (fileEntryVecSize fc) h).
  { assert (entry_at fc h = None) as Hn.
    { unfold entry_at, Zlen in *. rewrite (proj2 (Z.ltb_ge h 0)) by lia.
      by rewrite lookup_ge_None_2 by lia. }
    rewrite Hn. exists fc. split; [done|]. split; [done|].
    intros h'. by destruct (Z.eqb_spec h' h) as [->|]. }
  rewrite vec_get_ok by (done || lia).
  destruct (entry_at fc h) as [e|] eqn:Ee; simpl.
  2:{ exists fc. split; [done|]. split; [done|]. intros h'. by destruct (Z.eqb_spec h' h) as [->|]. }
  assert (0 ≤ h < Zlen (fileEntryVec fc)) as Hhv by lia.
  eexists. split; [done|].
  assert (∀ h', entry_at (MkFileCache (fileEntryIndex fc) (fileEntryVecSize fc)
    (vec_set fc h (Some (set_access now e))) (refer_ fc)) h' =
    if h' =? h then Some (set_access now e) else entry_at fc h') as Hent by (intros; by apply entry_set).
  split; [|done]. constructor; simpl; rewrite ?Hent; try done.
  - unfold vec_set, Zlen in *. by rewrite length_insert.
  - intros x Hx. rewrite Hent. destruct (x =? h); [eauto|]. by apply Hbe.
  - intros Hlt. destruct (Z.eqb_spec (fileEntryIndex fc) h) as [E|]; [|by apply Hfr].
    rewrite <- E, Hfr in Ee by done. done.
  - intros x e'. rewrite Hent. destruct (Z.eqb_spec x h) as [->|]; [|apply Hha].
    intros [= <-]. simpl. by apply Hha.
  - intros id. rewrite count_set, Ee by done. simpl.
    replace (count_refs id (fileEntryVec fc) + _ - _) with (count_refs id (fileEntryVec fc)) by lia.
    apply Hre.
Qed.

(** Looking an entry up leaves the reference counts alone. *)
Lemma GetFileEntry_refer now h fc r fc' : GetFileEntry now h fc = Ret (r, fc') → refer_ fc' = refer_ fc.
Proof.
  unfold GetFileEntry. destruct (_ <=? _); [by intros [= <- <-]|].
  by destruct (vec_get fc h) as [[e|]| |]; intros [= <- <-].
Qed.

Lemma ftstep_wf fc fc' : ft_wf fc → ftstep fc fc' → ft_wf fc'.
Proof.
  intros Hw Hst. revert Hw. destruct Hst as [now fe fc0 r fc1 E|now h fc0 r fc1 Hh E|h fc0 r fc1 Hh E]; intros Hw.
  - destruct (NewFile_ok now fe fc0 Hw) as (? & ? & E' & ? & _). congruence.
  - destruct (GetFileEntry_ok now h fc0 Hw Hh) as (? & E' & ? & _). congruence.
  - destruct (CloseFile_ok h fc0 Hw Hh) as (? & ? & E' & ? & _). congruence.
Qed.

Lemma ft_reach n fc : 0 ≤ n < 2 ^ 32 → rtc ftstep (NewFileCache n) fc → ft_wf fc.
Proof.
  intros Hn Hr. assert (∀ a, rtc ftstep a fc → ft_wf a → ft_wf fc) as Hind.
  { induction 1; [done|]. intros. eauto using ftstep_wf. }
  eapply Hind; [exact Hr|by apply ft_wf_new].
Qed.

(** Opening a file never panics; it returns the lowest free handle and
    changes no other handle, and it fails exactly when every handle is in
    use. *)
Theorem open_lowest_handle n fc now fe :
  0 ≤ n < 2 ^ 32 → rtc ftstep (NewFileCache n) fc →
  ∃ r fc', NewFile now fe fc = Ret (r, fc') ∧
  match r with
  | None => fc' = fc ∧ ∀ h, 0 ≤ h < fileEntryVecSize fc → is_Some (entry_at fc h)
  | Some h => 0 ≤ h < fileEntryVecSize fc ∧ entry_at fc h = None ∧
      (∀ h', 0 ≤ h' < h → is_Some (entry_at fc h')) ∧
      (∀ h', entry_at fc' h' = if h' =? h then Some (opened now fe h) else entry_at fc h')
  end.
Proof.
  intros Hn Hr%ft_reach; [|done]. destruct (NewFile_ok now fe fc Hr) as (r & fc' & E & _ & Hp).
  by exists r, fc'.
Qed.

(** [IsLastRefer] of an open file that is not in direct mode. *)
Lemma IsLastRefer_ok fc h e :
  ft_wf fc → entry_at fc h = Some e → DirectIO e = false →
  ∃ b, IsLastRefer e fc = Ret b ∧ (b = true ↔ count_refs (fe_Id e) (fileEntryVec fc) = 1).
Proof.
  intros Hr He Hd. unfold IsLastRefer, LastRef. rewrite (ft_refer _ Hr).
  assert (0 < count_refs (fe_Id e) (fileEntryVec fc)) as Hp.
  { unfold entry_at in He. destruct (h <? 0); [done|].
    destruct (fileEntryVec fc !! Z.to_nat h) as [o|] eqn:El; [|done]. simpl in He. subst o.
    unfold count_refs. apply Zlen_pos. intros Hnil.
    assert (Some e ∈ filter (λ e0, refers (fe_Id e) e0 = true) (fileEntryVec fc)) as Hin.
    { apply list_elem_of_filter. split; [simpl; by rewrite Hd, Z.eqb_refl|].
      by eapply list_elem_of_lookup_2. }
    rewrite Hnil in Hin. by apply not_elem_of_nil in Hin. }
  rewrite (proj2 (Z.eqb_neq _ 0)), (proj2 (Z.leb_le 1 _)) by lia.
  eexists. split; [done|]. by rewrite Z.eqb_eq.
Qed.

Module FTExample.
Definition fe : FileEntry := MkFileEntry 5 4 0 "/m/a" 2 0 false "u" 7 0 false.
Definition fc1 : FileCache :=
  match NewFile 1 fe (NewFileCache 2) with Ret (_, fc) => fc | _ => NewFileCache 2 end.

Lemma reach_fc1 : rtc ftstep (NewFileCache 2) fc1.
Proof. apply rtc_once. apply (ft_open 1 fe _ (Some 0)). by vm_compute. Qed.

Lemma open_lowest_handle_witness :
  ∃ r fc', NewFile 2 fe fc1 = Ret (r, fc') ∧
  match r with
  | None => fc' = fc1 ∧ ∀ h, 0 ≤ h < fileEntryVecSize fc1 → is_Some (entry_at fc1 h)
  | Some h => 0 ≤ h < fileEntryVecSize fc1 ∧ entry_at fc1 h = None ∧
      (∀ h', 0 ≤ h' < h → is_Some (entry_at fc1 h')) ∧
      (∀ h', entry_at fc' h' = if h' =? h then Some (opened 2 fe h) else entry_at fc1 h')
  end.
Proof. apply (open_lowest_handle 2 fc1 2 fe); [lia|exact reach_fc1]. Defined.

End FTExample.
