(* ===== verification/Config.v ===== *)
(** Configuration: comment stripping (lib/config/config.go), the typed views of
    the flat key/value configuration (lib/libfs/conf/cfg.go), the FUSE client's
    configuration file (client/conf/fuseconf.go) and the account lookup of
    lib/libfs/mount.go. *)

From stdpp Require Import base gmap strings list.
From Stdlib Require Import Ascii ZArith Lia.
From S2P Require Import Prelude GoString Proto Json ProtoJson.

(** * lib/config/config.go *)

Definition backslash : ascii := "\"%char.
Definition dquote : ascii := ascii_of_nat 34.
Definition newline : ascii := ascii_of_nat 10.
Definition hash : ascii := "#"%char.

(** The loop of [trimCommentsLine] from position [i]: [line] is what is left,
    [quoteCount] the number of quotes seen. *)
Fixpoint trim_from (line : string) (quoteCount : nat) : string :=
  match line with
  | EmptyString => EmptyString
  | String c rest =>
      let plain (_ : unit) :=
        let q := if Ascii.eqb c dquote then S quoteCount else quoteCount in
        if Ascii.eqb c hash && Nat.even q then EmptyString
        else if Ascii.eqb c slash && char_is (first_char rest) slash && Nat.even q
        then EmptyString
        else String c (trim_from rest q) in
      match rest with
      | String d rest' =>
          if Ascii.eqb c backslash && (Ascii.eqb d backslash || Ascii.eqb d dquote)
          then String c (String d (trim_from rest' quoteCount))
          else plain tt
      | EmptyString => plain tt
      end
  end.

Definition trimCommentsLine (line : string) : string := trim_from line 0.

Definition trimComments (data : string) : string :=
  Join (map trimCommentsLine (Split data newline)) newline.

Section Load.
(** [ioutil.ReadFile] and [json.Unmarshal] into a structure of type [C] that
    already holds default values. *)
Context {C : Type}.
Variable ReadFile : string → string + error.
Variable Unmarshal : string → C → C + error.

Definition loadConfigBytes (conf : C) (data : string) : C + error :=
  match Unmarshal (trimComments data) conf with
  | inl c => inl c
  | inr err => inr (ErrWrap "parse failed" err)
  end.

Definition LoadBytes (conf : C) (src : string) : C + error := loadConfigBytes conf src.

Definition LoadConfig (conf : C) (configPath : string) : C + error :=
  match ReadFile configPath with
  | inr err => inr (ErrWrap (String.append configPath " read failed") err)
  | inl data =>
      match loadConfigBytes conf data with
      | inr err => inr (ErrWrap (String.append configPath " load failed") err)
      | inl c => inl c
      end
  end.
End Load.

(** * lib/libfs/consts/consts.go *)

Definition CfgProxyHosts := "proxy_hosts"%string.
Definition CfgPath := "path"%string.
Definition CfgGroupTryTimes := "group_try_times"%string.
Definition CfgClientTimeOutMs := "client_timeout_ms"%string.
Definition CfgPeriodS := "fails_period_s"%string.
Definition CfgLogPath := "log_file"%string.
Definition CfgLogLevel := "log_level"%string.
Definition CfgLogMaxSize := "max_size"%string.
Definition CfgLogBackUp := "back_up"%string.
Definition CfgLogMaxAge := "max_age"%string.
Definition CfgLogCompress := "compress"%string.
Definition CfgStatGap := "stat_gap"%string.
Definition CfgRetryTimes := "retry_times"%string.
Definition CfgRetryGap := "retry_gap"%string.
Definition CfgRetryFactor := "retry_factor"%string.
Definition CfgThirdPartyUidPullType := "uid_pull_type"%string.
Definition UidPullTypeByUrl := "1"%string.
Definition UidPullTypeByConf := "2"%string.
Definition CfgUserId := "user_id"%string.
Definition CfgUserToken := "user_token"%string.
Definition CfgThirdPartyUidPullAccessKey := "uid_pull_access_key"%string.
Definition CfgThirdPartyUidPullUrl := "uid_pull_url"%string.
Definition CfgClientTag := "client_tag"%string.
Definition DefClientTag := "CFA"%string.
Definition CfgAppId := "app_id"%string.
Definition CfgDevId := "dev_id"%string.
Definition CfgPackageName := "package_name"%string.
Definition CfgOpenFileMax := "open_file_max"%string.
Definition CfgLsSize := "ls_size"%string.
Definition CfgDentryCacheSize := "dentry_cache_size"%string.
Definition CfgDentryCacheExpireMs := "dentry_cache_expire_ms"%string.
Definition CfgRwCacheCacheSize := "rw_cache_size"%string.
Definition CfgRwCacheExpireMs := "rw_cache_expire_ms"%string.
Definition CfgRwCacheCheckGap := "rw_cache_check_gap"%string.
Definition CfgRwCacheSyncRoutine := "rw_cache_sync_routine"%string.
Definition CfgRwCachePrefetchRoutine := "rw_cache_prefetch_routine"%string.
Definition CfgRwCachePrefetchTimes := "rw_cache_prefetch_times"%string.
Definition ExportPath := "cfs_export_path"%string.

(** * lib/libfs/conf/cfg.go *)

Abbreviation Config := (gmap string string) (only parsing).

(** [cfg[key]]: the empty string for a missing key. *)
Definition cfg_at (cfg : Config) (key : string) : string := default EmptyString (cfg !! key).

Record UserInfo : Type := MkUserInfo {
  Uid : string;
  Token : string;
}.

Definition BuildUserInfo (cfg : Config) (uid token : string) : UserInfo := MkUserInfo uid token.

Record LogConfig : Type := MkLogConfig {
  LogFile : string;
  LogLevel : string;
  MaxSize : Z;
  MaxBackups : Z;
  MaxAge : Z;
  Compress : bool;
}.

(** [val, err := strconv.ParseInt(s, 10, 32); if err != nil || val == 0]. *)
Definition int_or (s : string) (d : Z) : Z :=
  match ParseInt s 32 with
  | Some v => if v =? 0 then d else v
  | None => d
  end.

Definition string_or (s d : string) : string := if String.eqb s EmptyString then d else s.

Definition BuildLogCfg (cfg : Config) : LogConfig := {|
  LogFile := string_or (cfg_at cfg CfgLogPath) "./client";
  LogLevel := string_or (cfg_at cfg CfgLogLevel) "warn";
  MaxSize := int_or (cfg_at cfg CfgLogMaxSize) 4;
  MaxBackups := int_or (cfg_at cfg CfgLogBackUp) 10;
  MaxAge := int_or (cfg_at cfg CfgLogMaxAge) 10;
  Compress := match ParseBool (cfg_at cfg CfgLogCompress) with
              | Some b => b | None => false end;
|}.

(** [ShouldRetry] is a function field; [None] is nil. *)
Record HttpCfg : Type := MkHttpCfg {
  Hosts : list string;
  TryTimes : Z;
  ClientTimeoutMS : Z;
  MaxFailsPeriodS : Z;
  cfg_ShouldRetry : option (Z → option error → bool);
}.

Definition uint_or_0 (s : string) : Z :=
  match ParseUint s 64 with Some v => v | None => 0 end.

(** [log.Fatal] ends the process: [Panic]. *)
Definition BuildHttpCfg (cfg : Config) : outcome HttpCfg :=
  let hostStr := cfg_at cfg CfgProxyHosts in
  if String.eqb hostStr EmptyString || (length (Split hostStr ",") =? 0)%nat then Panic
  else Ret {|
    Hosts := Split hostStr ",";
    TryTimes := u32 (uint_or_0 (cfg_at cfg CfgGroupTryTimes));
    ClientTimeoutMS := i64 (uint_or_0 (cfg_at cfg CfgClientTimeOutMs));
    MaxFailsPeriodS := i64 (uint_or_0 (cfg_at cfg CfgPeriodS));
    cfg_ShouldRetry := None;
  |}.

(** Durations are nanoseconds in an [int64]. *)
Definition Second : Z := 1000000000.

Record RetryCfg : Type := MkRetryCfg {
  RetryTimes : Z;
  RetryGap : Z;
  RetryFactor : Z;
}.

Definition GetIntValue (cfg : Config) (cfgName : string) (defaultVal : Z) : Z :=
  match ParseInt (cfg_at cfg cfgName) 32 with
  | Some v => v
  | None => defaultVal
  end.

Definition GetStringValue (cfg : Config) (cfgName defaultVal : string) : string :=
  match cfg !! cfgName with Some v => v | None => defaultVal end.

Definition BuildRetryCfg (cfg : Config) : RetryCfg := {|
  RetryTimes := GetIntValue cfg CfgRetryTimes 3;
  RetryGap := i64 (GetIntValue cfg CfgRetryGap 5 * Second);
  RetryFactor := i64 (GetIntValue cfg CfgRetryFactor 10 * Second);
|}.

(** * client/conf/fuseconf.go

    The fields of go-fuse's option structs that the function sets or reads. *)

Record FuseConf : Type := MkFuseConf {
  fc_Cfg : option Config;          (* [None] is Go's nil map *)
  EntryTimeout : Z;
  AttrTimeout : Z;
  NegativeTimeout : Z;
  IgnoreSecurityLabels : bool;
  MntName : string;
  FsName : string;
  EnableLocks : bool;
  AllowOther : bool;
  DirectMount : bool;
  ClientInodes : bool;
  MountPoint : string;
  ReadDirCount : Z;
}.

Definition zero_FuseConf : FuseConf :=
  MkFuseConf None 0 0 0 true EmptyString EmptyString false false false true EmptyString 0.

(** The two adjustments of [proxy_hosts]. *)
Definition norm_host (host : string) : string :=
  let host1 := if HasPrefix host "http://" then host else String.append "http://" host in
  if HasSuffix host1 "/" then str_take (String.length host1 - 1) host1 else host1.

Definition scale_timeout (t : Z) : Z := if t =? 0 then t else i64 (t * Second).

(** [slog.Fatalf] ends the process and an assignment to a nil map panics. *)
Definition LoadFuseCfg (ReadFile : string → string + error)
    (Unmarshal : string → FuseConf → FuseConf + error) (path : string) : outcome FuseConf :=
  match LoadConfig ReadFile Unmarshal zero_FuseConf path with
  | inr _ => Panic
  | inl c =>
      match fc_Cfg c with
      | None => Panic
      | Some cfg =>
          let cfg1 := <[ExportPath := MountPoint c]> cfg in
          let cfg2 := if String.eqb (cfg_at cfg1 CfgClientTag) EmptyString
                      then <[CfgClientTag := DefClientTag]> cfg1 else cfg1 in
          let host := cfg_at cfg2 CfgProxyHosts in
          let host1 := if HasPrefix host "http://" then host
                       else String.append "http://" host in
          let cfg3 := if HasPrefix host "http://" then cfg2
                      else <[CfgProxyHosts := host1]> cfg2 in
          let cfg4 := if HasSuffix host1 "/"
                      then <[CfgProxyHosts := str_take (String.length host1 - 1) host1]> cfg3
                      else cfg3 in
          Ret {| fc_Cfg := Some cfg4;
                 EntryTimeout := scale_timeout (EntryTimeout c);
                 AttrTimeout := scale_timeout (AttrTimeout c);
                 NegativeTimeout := scale_timeout (NegativeTimeout c);
                 IgnoreSecurityLabels := IgnoreSecurityLabels c;
                 MntName := "cfa";
                 FsName := "cfa";
                 EnableLocks := true;
                 AllowOther := true;
                 DirectMount := true;
                 ClientInodes := ClientInodes c;
                 MountPoint := MountPoint c;
                 ReadDirCount := ReadDirCount c |}
      end
  end.

Definition GetPath (c : FuseConf) : string :=
  match fc_Cfg c with Some cfg => cfg_at cfg CfgPath | None => EmptyString end.

(** * Account lookup (lib/libfs/mount.go) and the example account server
      (thirdparty-account-example/accountserver.go) *)

Record FetchResponse : Type := MkFetch {
  Fetch_Code : Z;
  Fetch_Msg : string;
  Fetch_Data : option UserInfo;    (* [*FetchRespData]: uid and token *)
}.

Definition ReqidKey := "X-ReqId"%string.
Definition ReqUid := "X-UserId"%string.
Definition ReqAppid := "X-AppId"%string.
Definition ReqDevid := "X-DevId"%string.
Definition ReqPkgName := "X-PkgName"%string.
Definition ReqClientTag := "X-ClientLabel"%string.
Definition ReqToken := "X-Token"%string.
Definition ReqClientId := "X-ClientId"%string.
Definition ReqTime := "X-Ts"%string.
Definition ReqAccessKey := "X-AccessKey"%string.

Abbreviation Header := (gmap string string) (only parsing).

Definition header_Get (h : Header) (k : string) : string := default EmptyString (h !! k).

(** The structs of lib/proto/thirdparty_proto.go on the wire. *)
Definition FetchRespData_fields : list (field UserInfo) :=
  [fld "uid" dec_str Uid (λ z u, MkUserInfo z (Token u));
   fld "token" dec_str Token (λ z u, MkUserInfo (Uid u) z)]%string.
Definition FetchResponse_fields : list (field FetchResponse) :=
  [fld "code" dec_int Fetch_Code (λ z r, MkFetch z (Fetch_Msg r) (Fetch_Data r));
   fld "msg" dec_str Fetch_Msg (λ z r, MkFetch (Fetch_Code r) z (Fetch_Data r));
   fld "data" (dec_ptr (dec_struct "proto.FetchRespData" FetchRespData_fields) (MkUserInfo EmptyString EmptyString))
     Fetch_Data (λ z r, MkFetch (Fetch_Code r) (Fetch_Msg r) z)]%string.
Definition FetchResponse_json (r : FetchResponse) : json :=
  jobj [("code", jnum (Fetch_Code r)); ("msg", jtext (Fetch_Msg r));
        ("data", match Fetch_Data r with
                 | None => JNull
                 | Some d => jobj [("uid", jtext (Uid d)); ("token", jtext (Token d))]
                 end)]%string.
Definition FetchRequest_body : bytes := print (jobj []).

Definition Decode_Fetch (body : bytes) : FetchResponse * option error :=
  decode_body (dec_struct "proto.FetchResponse" FetchResponse_fields) body (MkFetch 0 EmptyString None).

(** [exchange url header body]: build and send the POST; its error is that of
    [http.NewRequest] or [client.Do], its value the body of the answer (the
    status is not looked at). *)
Definition PullThirdPartyUser (exchange : string → Header → bytes → bytes + error)
    (uuid : string) (cfg : Config) : UserInfo + error :=
  let header : Header :=
    <[ReqAccessKey := cfg_at cfg CfgThirdPartyUidPullAccessKey]>
    (<[ReqClientTag := cfg_at cfg CfgClientTag]>
    (<[ReqidKey := uuid]>
    (<["Content-Type"%string := "application/json"%string]> ∅))) in
  match exchange (cfg_at cfg CfgThirdPartyUidPullUrl) header FetchRequest_body with
  | inr err => inr err
  | inl resp =>
      match Decode_Fetch resp with
      | (_, Some err) => inr err
      | (respBody, None) =>
          if negb (Fetch_Code respBody =? 0)
          then inr (ErrNew "account server return failed code")
          else match Fetch_Data respBody with
               | None => inr (ErrNew "account server return data is nil")
               | Some d => inl (MkUserInfo (Uid d) (Token d))
               end
      end
  end.

Definition getUserInfo (exchange : string → Header → bytes → bytes + error)
    (uuid : string) (cfg : Config) : UserInfo + error :=
  let user := BuildUserInfo cfg "UidNotSet" "TokenNotSet" in
  let pullType := cfg_at cfg CfgThirdPartyUidPullType in
  if String.eqb pullType UidPullTypeByUrl then
    match PullThirdPartyUser exchange uuid cfg with
    | inr err => inr err
    | inl userTmp => inl userTmp
    end
  else if String.eqb pullType UidPullTypeByConf then
    match cfg !! CfgUserId, cfg !! CfgUserToken with
    | Some uid, Some token => inl (BuildUserInfo cfg uid token)
    | _, _ => inr (ErrNew "configured to get user info by conf, but not user_id or user_token in conf file")
    end
  else inl user.

Definition FixedAccessKey := "testAccessKey"%string.
Definition FixedUser := "1234567"%string.
Definition FixedToken := "testToken"%string.

(** The handler of "/thirdparty/api/user/pullaccount". *)
Definition pullaccount (header : Header) : bytes :=
  let respData := MkUserInfo FixedUser FixedToken in
  print (FetchResponse_json
    (if negb (String.eqb (header_Get header ReqAccessKey) FixedAccessKey)
     then MkFetch 1 "invalid access key" None
     else MkFetch 0 "success" (Some respData))).

(** * Properties *)

(** A text without comment: no comment starts outside a string. *)
Definition comment_free (line : string) : Prop := trimCommentsLine line = line.

Lemma trim_from_prefix : ∀ n line q, (String.length line ≤ n)%nat →
  ∃ rest, line = String.append (trim_from line q) rest.
Proof.
  induction n as [|n IH]; intros line q Hn.
  { destruct line; [by exists EmptyString|simpl in Hn; lia]. }
  destruct line as [|c rest]; [by exists EmptyString|]. simpl in Hn.
  assert (∀ q', ∃ r, String c rest = String.append (String c (trim_from rest q')) r) as Hp.
  { intros q'. destruct (IH rest q') as [r Hr]; [lia|]. exists r. simpl. by f_equal. }
  cbn [trim_from].
  destruct rest as [|d rest']; repeat case_match; try done; try by eexists.
  destruct (IH rest' q) as [r Hr]; [simpl in Hn; lia|]. exists r. simpl. by do 2 f_equal.
Qed.

Lemma trim_from_first line q :
  trim_from line q = EmptyString ∨ first_char (trim_from line q) = first_char line.
Proof.
  destruct line as [|c rest]; [by left|]. cbn [trim_from].
  destruct rest as [|d rest']; repeat case_match; simpl; auto.
Qed.

(** The two guards of a line's next character, for the rewriting below. *)
Definition escapes (c : ascii) (rest : string) : bool :=
  Ascii.eqb c backslash &&
  (char_is (first_char rest) backslash || char_is (first_char rest) dquote).
Definition bump (c : ascii) (q : nat) : nat := if Ascii.eqb c dquote then S q else q.
Definition starts_comment (c : ascii) (rest : string) (q : nat) : bool :=
  (Ascii.eqb c hash || (Ascii.eqb c slash && char_is (first_char rest) slash)) &&
  Nat.even (bump c q).

Lemma trim_from_plain c rest q :
  escapes c rest = false →
  trim_from (String c rest) q =
  if starts_comment c rest q then EmptyString else String c (trim_from rest (bump c q)).
Proof.
  unfold escapes, starts_comment. intros E. cbn [trim_from].
  assert (∀ A (b1 b2 b3 b4 : bool) (x y : A),
    (if b1 && b4 then x else if b2 && b3 && b4 then x else y) =
    (if (b1 || (b2 && b3)) && b4 then x else y)) as Hb
    by by intros ? [] [] [] [] ? ?.
  destruct rest as [|d rest']; [|simpl in E; rewrite E]; fold (bump c q); apply Hb.
Qed.

Lemma trim_from_escape c d rest q :
  escapes c (String d rest) = true →
  trim_from (String c (String d rest)) q = String c (String d (trim_from rest q)).
Proof. unfold escapes. simpl. intros E. by rewrite E. Qed.

Lemma escapes_nil c : escapes c EmptyString = false.
Proof. unfold escapes. simpl. apply andb_false_r. Qed.

Lemma trim_from_idem : ∀ n line q, (String.length line ≤ n)%nat →
  trim_from (trim_from line q) q = trim_from line q.
Proof.
  induction n as [|n IH]; intros line q Hn.
  { destruct line; [done|simpl in Hn; lia]. }
  destruct line as [|c rest]; [done|]. simpl in Hn.
  destruct (escapes c rest) eqn:E.
  - destruct rest as [|d rest']; [by rewrite escapes_nil in E|].
    rewrite trim_from_escape by done. rewrite trim_from_escape by done.
    rewrite IH; [done|]. simpl in Hn. lia.
  - rewrite trim_from_plain by done. destruct (starts_comment c rest q) eqn:Ec; [done|].
    assert (∀ d, char_is (first_char (trim_from rest (bump c q))) d = true →
                 char_is (first_char rest) d = true) as Hf.
    { intros d. destruct (trim_from_first rest (bump c q)) as [->| ->]; done. }
    rewrite trim_from_plain.
    + assert (starts_comment c (trim_from rest (bump c q)) q = false) as ->.
      { unfold starts_comment in *. destruct (Nat.even _); [|by rewrite andb_false_r].
        rewrite andb_true_r in *. apply orb_false_iff in Ec as [-> Ec]. simpl.
        apply not_true_is_false. intros [Hc H]%andb_prop. by rewrite Hc, (Hf _ H) in Ec. }
      rewrite IH; [done|]. lia.
    + unfold escapes in *. apply not_true_is_false.
      intros [Hc H]%andb_prop. rewrite Hc in E. simpl in E. apply orb_false_iff in E as [E1 E2].
      apply orb_true_iff in H as [H|H]; apply Hf in H; congruence.
Qed.

(** The number of unescaped quotes of a text, added to [q]. *)
Fixpoint quotes (s : string) (q : nat) : nat :=
  match s with
  | EmptyString => q
  | String c rest =>
      match rest with
      | String d rest' =>
          if Ascii.eqb c backslash && (Ascii.eqb d backslash || Ascii.eqb d dquote)
          then quotes rest' q else quotes rest (bump c q)
      | EmptyString => bump c q
      end
  end.

Lemma quotes_plain c rest q :
  escapes c rest = false → quotes (String c rest) q = quotes rest (bump c q).
Proof.
  unfold escapes. intros E. destruct rest; [done|]. cbn [quotes]. simpl in E. by rewrite E.
Qed.

Lemma first_char_app s t :
  first_char (String.append s t) = match s with EmptyString => first_char t | _ => first_char s end.
Proof. by destruct s. Qed.

Lemma trim_from_app : ∀ n s t q, (String.length s ≤ n)%nat →
  trim_from s q = s →
  char_is (first_char t) backslash = false → char_is (first_char t) dquote = false →
  char_is (last_char s) slash && char_is (first_char t) slash = false →
  trim_from (String.append s t) q = String.append s (trim_from t (quotes s q)).
Proof.
  induction n as [|n IH]; intros s t q Hn Hs Hb Hq Hl.
  { destruct s; [done|simpl in Hn; lia]. }
  destruct s as [|c rest]; [done|]. simpl in Hn.
  assert (String.append (String c rest) t = String c (String.append rest t)) as Ha by done.
  destruct (escapes c rest) eqn:E.
  - destruct rest as [|d rest']; [by rewrite escapes_nil in E|].
    rewrite trim_from_escape in Hs by done. injection Hs as Hs.
    rewrite Ha. change (String.append (String d rest') t) with (String d (String.append rest' t)).
    rewrite trim_from_escape by done.
    rewrite IH; [|simpl in Hn; lia|done..|].
    + unfold escapes in E. simpl in E. cbn [quotes]. by rewrite E.
    + apply not_true_is_false. intros H. apply not_true_iff_false in Hl. apply Hl.
      destruct rest'; [done|]. exact H.
  - rewrite trim_from_plain in Hs by done.
    destruct (starts_comment c rest q) eqn:Ec; [done|]. injection Hs as Hs.
    assert (escapes c (String.append rest t) = false) as E'.
    { unfold escapes in *. rewrite first_char_app. destruct rest; [|done].
      by rewrite Hb, Hq, andb_false_r. }
    rewrite Ha, trim_from_plain, quotes_plain by done.
    assert (starts_comment c (String.append rest t) q = false) as ->.
    { unfold starts_comment in *. rewrite first_char_app. destruct rest; [|done].
      simpl in Hl. destruct (Nat.even _); [|by rewrite andb_false_r].
      rewrite andb_true_r in *. apply orb_false_iff in Ec as [-> _]. exact Hl. }
    rewrite IH; [done|lia|done..|].
    apply not_true_is_false. intros H. apply not_true_iff_false in Hl. apply Hl.
    destruct rest; [done|]. exact H.
Qed.

(** Stripping is idempotent on a whole file: what is left has no comment. *)
Lemma trimComments_idem data : trimComments (trimComments data) = trimComments data.
Proof.
  unfold trimComments at 1 3. unfold trimComments.
  assert (Split (Join (map trimCommentsLine (Split data newline)) newline) newline
          = map trimCommentsLine (Split data newline)) as ->.
  { apply Split_Join.
    - intros H. apply map_eq_nil in H. by apply Split_nonempty in H.
    - apply Forall_map. apply (Forall_impl _ _ _ (Split_pieces data newline)).
      intros l Hl. simpl. destruct (trim_from_prefix _ l 0 ltac:(done)) as [r Hr].
      rewrite Hr in Hl. by apply Split_prefix in Hl. }
  f_equal. rewrite map_map. apply map_ext. intros l. by eapply trim_from_idem.
Qed.

Lemma trimComments_nil_comment s t :
  comment_free s → Nat.even (quotes s 0) = true →
  trimCommentsLine (String.append s (String hash t)) = s ∧
  (char_is (last_char s) slash = false →
   trimCommentsLine (String.append s (String slash (String slash t))) = s).
Proof.
  unfold comment_free, trimCommentsLine. intros Hs Hq. split; [|intros Hl].
  - erewrite trim_from_app by (done || by rewrite andb_false_r).
    rewrite trim_from_plain by done. unfold starts_comment. simpl.
    unfold bump. simpl. by rewrite Hq, str_app_nil_r.
  - erewrite trim_from_app by (done || by rewrite Hl).
    rewrite trim_from_plain by done. unfold starts_comment, bump. simpl.
    by rewrite Hq, str_app_nil_r.
Qed.

Lemma trimComments_in_string s t :
  comment_free s → Nat.even (quotes s 0) = false →
  trimCommentsLine (String.append s (String hash t)) =
  String.append s (String hash (trim_from t (quotes s 0))).
Proof.
  unfold comment_free, trimCommentsLine. intros Hs Hq.
  erewrite trim_from_app by (done || by rewrite andb_false_r).
  rewrite trim_from_plain by done. unfold starts_comment, bump. simpl.
  by rewrite Hq.
Qed.



(** ** Numbers *)

Lemma parse_digits_nonneg s : ∀ acc v, 0 ≤ acc → parse_digits acc s = Some v → 0 ≤ v.
Proof.
  induction s as [|c s IH]; simpl; intros acc v Ha H; [by simplify_eq|].
  destruct (digit_of c) as [d|] eqn:E; [|done].
  apply IH in H; [done|]. unfold digit_of in E. case_match; simplify_eq. zbool.
Qed.

Lemma ParseInt_range s bits v :
  0 < bits → ParseInt s bits = Some v → - 2 ^ (bits - 1) ≤ v < 2 ^ (bits - 1).
Proof.
  intros Hb. unfold ParseInt.
  destruct (match s with EmptyString => _ | String _ _ => _ end) as [neg body].
  destruct body as [|c body]; [done|].
  destruct (parse_digits 0 (String c body)) as [n|] eqn:E; [|done].
  apply parse_digits_nonneg in E; [|lia].
  pose proof (Z.pow_pos_nonneg 2 (bits - 1) ltac:(lia) ltac:(lia)).
  destruct neg; case_match; intros; simplify_eq; zbool.
Qed.

Lemma ParseUint_range s bits v : ParseUint s bits = Some v → 0 ≤ v < 2 ^ bits.
Proof.
  unfold ParseUint. destruct s as [|c s]; [done|].
  destruct (parse_digits 0 (String c s)) as [n|] eqn:E; [|done].
  apply parse_digits_nonneg in E; [|lia]. case_match; intros; simplify_eq. zbool.
Qed.

Lemma GetIntValue_range cfg k d :
  - 2 ^ 31 ≤ d < 2 ^ 31 → - 2 ^ 31 ≤ GetIntValue cfg k d < 2 ^ 31.
Proof.
  intros Hd. unfold GetIntValue. destruct (ParseInt _ 32) eqn:E; [|done].
  by apply (ParseInt_range _ 32) in E.
Qed.

(** ** Hosts *)

Lemma norm_host_cfg (cfg2 : Config) :
  let host := cfg_at cfg2 CfgProxyHosts in
  let host1 := if HasPrefix host "http://" then host else String.append "http://" host in
  let cfg3 := if HasPrefix host "http://" then cfg2 else <[CfgProxyHosts := host1]> cfg2 in
  let cfg4 := if HasSuffix host1 "/"
              then <[CfgProxyHosts := str_take (String.length host1 - 1) host1]> cfg3
              else cfg3 in
  cfg_at cfg4 CfgProxyHosts = norm_host host ∧
  ∀ k, k ≠ CfgProxyHosts → cfg_at cfg4 k = cfg_at cfg2 k.
Proof.
  cbv zeta. unfold norm_host, cfg_at. set (host := default _ (cfg2 !! CfgProxyHosts)).
  destruct (HasPrefix host "http://"); cbv zeta; destruct (HasSuffix _ "/");
    (split; [by rewrite ?lookup_insert_eq|intros k Hk; by rewrite ?lookup_insert_ne]).
Qed.

Lemma str_length_take n s : String.length (str_take n s) = (n `min` String.length s)%nat.
Proof. revert n. induction s as [|c s IH]; intros [|n]; simpl; auto. Qed.

Lemma norm_host_nonempty h : norm_host h ≠ EmptyString.
Proof.
  unfold norm_host.
  set (h1 := if HasPrefix h "http://" then h else String.append "http://" h).
  assert (7 ≤ String.length h1)%nat as Hl.
  { unfold h1. destruct (HasPrefix h "http://") eqn:E.
    - apply HasPrefix_true in E as [r ->]. simpl. lia.
    - simpl. lia. }
  destruct (HasSuffix h1 "/"); [|intros ->; simpl in Hl; lia].
  intros H. apply (f_equal String.length) in H. rewrite str_length_take in H. simpl in H. lia.
Qed.

(** A host given without scheme, with or without a trailing slash, becomes
    the base URL the request paths are appended to. *)
Lemma norm_host_plain h :
  h ≠ EmptyString → HasSuffix h "/" = false → HasPrefix h "http://" = false →
  norm_host h = String.append "http://" h ∧
  norm_host (String.append "http://" h) = String.append "http://" h ∧
  norm_host (String.append "http://" (String.append h "/")) = String.append "http://" h.
Proof.
  intros Hne Hs Hp.
  assert (HasSuffix (String.append "http://" h) "/" = false) as Hs'.
  { apply not_true_is_false. intros H. apply not_true_iff_false in Hs. apply Hs.
    unfold HasSuffix in *. rewrite str_length_app in H. apply andb_prop in H as [_ H].
    destruct h as [|c h]; [done|].
    replace (String.length "http://" + String.length (String c h) - String.length "/")%nat
      with (7 + (String.length (String c h) - 1))%nat in H by (simpl; lia).
    simpl in H. simpl. rewrite Nat.sub_0_r in *. exact H. }
  unfold norm_host. rewrite Hp, !HasPrefix_app, Hs'. split_and!; [done..|].
  rewrite str_app_assoc, HasSuffix_app.
  rewrite !str_length_app. rewrite Nat.add_sub.
  by rewrite <- str_length_app, str_take_app.
Qed.



(** The account lookup against the example account server.  In "by URL"
    mode the client gets the server's user exactly when the configured access
    key is the server's, and an error otherwise; in "by configuration" mode it
    gets the configured pair, or an error when one half is missing; in every
    other mode the placeholder user. *)
Theorem user_info (uuid : string) (cfg : Config) :
  getUserInfo (λ _ h _, inl (pullaccount h)) uuid cfg =
  if String.eqb (cfg_at cfg CfgThirdPartyUidPullType) UidPullTypeByUrl then
    if String.eqb (cfg_at cfg CfgThirdPartyUidPullAccessKey) FixedAccessKey
    then inl (MkUserInfo FixedUser FixedToken)
    else inr (ErrNew "account server return failed code")
  else if String.eqb (cfg_at cfg CfgThirdPartyUidPullType) UidPullTypeByConf then
    match cfg !! CfgUserId, cfg !! CfgUserToken with
    | Some uid, Some token => inl (MkUserInfo uid token)
    | _, _ => inr (ErrNew "configured to get user info by conf, but not user_id or user_token in conf file")
    end
  else inl (MkUserInfo "UidNotSet" "TokenNotSet").
Proof.
  unfold getUserInfo. destruct (String.eqb _ UidPullTypeByUrl); [|done].
  unfold PullThirdPartyUser, pullaccount, header_Get. rewrite lookup_insert_eq.
  cbn [default from_option]. by destruct (String.eqb _ FixedAccessKey).
Qed.
