(* ===== verification/ConfFile.v ===== *)
(** The client's configuration file: [json.Unmarshal] into the [FuseConf] of
    client/conf/fuseconf.go, and what [LoadConfig] makes of a file with
    comments.

    The option structs of go-fuse have no tags: their members are found by
    field name, in any case.  Of the fields the program does not look at, only
    the type of the value matters. *)

From stdpp Require Import base gmap strings list pretty fin_maps.
From Stdlib Require Import ZArith Lia Ascii.
From S2P Require Import Prelude GoString Proto Json JsonProof ProtoJson ProtoJsonProof Config.

(** * Decoding *)

Definition dec_bool (j : json) (old : bool) : dres bool :=
  match j with
  | JNull => (old, None)
  | JBool b => (b, None)
  | _ => (old, type_error j "bool")
  end.

(** [map[string]string]: a value of another type is reported and its key set to
    the empty string. *)
Fixpoint dec_entries (l : list (bytes * json)) (m : gmap string string) : dres (gmap string string) :=
  match l with
  | [] => (m, None)
  | (k, v) :: l' =>
      let '(s, e) := dec_str v EmptyString in
      let '(m', e') := dec_entries l' (<[bytes_str k := s]> m) in
      (m', first_err e e')
  end.

Definition dec_Config (j : json) (old : option (gmap string string)) : dres (option (gmap string string)) :=
  match j with
  | JNull => (None, None)
  | JObj l => let '(m, e) := dec_entries l (default ∅ old) in (Some m, e)
  | _ => (old, type_error j "conf.Config")
  end.

(** A field whose value the program does not use. *)
Definition unused {A T} (tag : string) (dec : json → T → dres T) (zero : T) : field A :=
  Fld tag (λ j a, (a, (dec j zero).2)).

(** [nodefs.Options], with the fields of the embedded [*fuse.Owner]. *)
Definition NodeOpt_fields : list (field FuseConf) :=
  [fld "entrytimeout" dec_int EntryTimeout (λ z c, MkFuseConf (fc_Cfg c) z (AttrTimeout c) (NegativeTimeout c)
     (IgnoreSecurityLabels c) (MntName c) (FsName c) (EnableLocks c) (AllowOther c) (DirectMount c)
     (ClientInodes c) (MountPoint c) (ReadDirCount c));
   fld "attrtimeout" dec_int AttrTimeout (λ z c, MkFuseConf (fc_Cfg c) (EntryTimeout c) z (NegativeTimeout c)
     (IgnoreSecurityLabels c) (MntName c) (FsName c) (EnableLocks c) (AllowOther c) (DirectMount c)
     (ClientInodes c) (MountPoint c) (ReadDirCount c));
   fld "negativetimeout" dec_int NegativeTimeout (λ z c, MkFuseConf (fc_Cfg c) (EntryTimeout c) (AttrTimeout c) z
     (IgnoreSecurityLabels c) (MntName c) (FsName c) (EnableLocks c) (AllowOther c) (DirectMount c)
     (ClientInodes c) (MountPoint c) (ReadDirCount c));
   unused "uid" dec_u32 0; unused "gid" dec_u32 0;
   unused "portableinodes" dec_bool false; unused "debug" dec_bool false;
   unused "lookupknownchildren" dec_bool false]%string.

(** [fuse.MountOptions]. *)
Definition MntOpt_fields : list (field FuseConf) :=
  [fld "allowother" dec_bool AllowOther (λ b c, MkFuseConf (fc_Cfg c) (EntryTimeout c) (AttrTimeout c)
     (NegativeTimeout c) (IgnoreSecurityLabels c) (MntName c) (FsName c) (EnableLocks c) b (DirectMount c)
     (ClientInodes c) (MountPoint c) (ReadDirCount c));
   fld "ignoresecuritylabels" dec_bool IgnoreSecurityLabels (λ b c, MkFuseConf (fc_Cfg c) (EntryTimeout c)
     (AttrTimeout c) (NegativeTimeout c) b (MntName c) (FsName c) (EnableLocks c) (AllowOther c) (DirectMount c)
     (ClientInodes c) (MountPoint c) (ReadDirCount c));
   fld "fsname" dec_str FsName (λ s c, MkFuseConf (fc_Cfg c) (EntryTimeout c) (AttrTimeout c)
     (NegativeTimeout c) (IgnoreSecurityLabels c) (MntName c) s (EnableLocks c) (AllowOther c) (DirectMount c)
     (ClientInodes c) (MountPoint c) (ReadDirCount c));
   fld "name" dec_str MntName (λ s c, MkFuseConf (fc_Cfg c) (EntryTimeout c) (AttrTimeout c)
     (NegativeTimeout c) (IgnoreSecurityLabels c) s (FsName c) (EnableLocks c) (AllowOther c) (DirectMount c)
     (ClientInodes c) (MountPoint c) (ReadDirCount c));
   fld "enablelocks" dec_bool EnableLocks (λ b c, MkFuseConf (fc_Cfg c) (EntryTimeout c) (AttrTimeout c)
     (NegativeTimeout c) (IgnoreSecurityLabels c) (MntName c) (FsName c) b (AllowOther c) (DirectMount c)
     (ClientInodes c) (MountPoint c) (ReadDirCount c));
   fld "directmount" dec_bool DirectMount (λ b c, MkFuseConf (fc_Cfg c) (EntryTimeout c) (AttrTimeout c)
     (NegativeTimeout c) (IgnoreSecurityLabels c) (MntName c) (FsName c) (EnableLocks c) (AllowOther c) b
     (ClientInodes c) (MountPoint c) (ReadDirCount c));
   unused "unixperm" dec_bool false; unused "options" (dec_slice "[]string" dec_str EmptyString) [];
   unused "maxbackground" dec_int 0; unused "maxwrite" dec_int 0; unused "maxreadahead" dec_int 0;
   unused "rememberinodes" dec_bool false; unused "singlethreaded" dec_bool false;
   unused "disablexattrs" dec_bool false; unused "debug" dec_bool false;
   unused "explicitdatacachecontrol" dec_bool false; unused "directmountflags" (dec_uint 64 "uintptr") 0;
   unused "noempty" dec_bool false]%string.

(** [pathfs.PathNodeFsOptions]. *)
Definition PathOpt_fields : list (field FuseConf) :=
  [fld "clientinodes" dec_bool ClientInodes (λ b c, MkFuseConf (fc_Cfg c) (EntryTimeout c) (AttrTimeout c)
     (NegativeTimeout c) (IgnoreSecurityLabels c) (MntName c) (FsName c) (EnableLocks c) (AllowOther c)
     (DirectMount c) b (MountPoint c) (ReadDirCount c));
   unused "debug" dec_bool false]%string.

Definition FuseConf_fields : list (field FuseConf) :=
  [fld "cfa_cfg" dec_Config fc_Cfg (λ m c, MkFuseConf m (EntryTimeout c) (AttrTimeout c)
     (NegativeTimeout c) (IgnoreSecurityLabels c) (MntName c) (FsName c) (EnableLocks c) (AllowOther c)
     (DirectMount c) (ClientInodes c) (MountPoint c) (ReadDirCount c));
   Fld "node_opt" (dec_struct "nodefs.Options" NodeOpt_fields);
   Fld "mnt_opt" (dec_struct "fuse.MountOptions" MntOpt_fields);
   Fld "path_opt" (dec_struct "pathfs.PathNodeFsOptions" PathOpt_fields);
   fld "mnt_point" dec_str MountPoint (λ s c, MkFuseConf (fc_Cfg c) (EntryTimeout c) (AttrTimeout c)
     (NegativeTimeout c) (IgnoreSecurityLabels c) (MntName c) (FsName c) (EnableLocks c) (AllowOther c)
     (DirectMount c) (ClientInodes c) s (ReadDirCount c));
   fld "read_dir_cnt" dec_int ReadDirCount (λ z c, MkFuseConf (fc_Cfg c) (EntryTimeout c) (AttrTimeout c)
     (NegativeTimeout c) (IgnoreSecurityLabels c) (MntName c) (FsName c) (EnableLocks c) (AllowOther c)
     (DirectMount c) (ClientInodes c) (MountPoint c) z)]%string.

(** [json.Unmarshal(data, &fuseCfg)]: the whole input is one value.  A null
    makes the pointer nil, which [LoadFuseCfg] dereferences as it does the nil
    map of an untouched [zero_FuseConf]. *)
Definition Unmarshal (data : string) (c : FuseConf) : FuseConf + error :=
  match parse (str_bytes data) with
  | POk j rest =>
      match skip_ws rest with
      | [] =>
          match dec_struct "conf.FuseConf" FuseConf_fields j c with
          | (c', None) => inl c'
          | (_, Some err) => inr err
          end
      | _ => inr SyntaxError
      end
  | PEof => inr (ErrNew "unexpected end of JSON input")
  | PSyntax | PFuel => inr SyntaxError
  end.

(** * The tree of a configuration *)

Definition FuseConf_json (cfg : gmap string string) (c : FuseConf) : json :=
  jobj [("cfa_cfg", jobj (prod_map id jtext <$> map_to_list cfg));
        ("node_opt", jobj [("EntryTimeout", jnum (EntryTimeout c)); ("AttrTimeout", jnum (AttrTimeout c));
                           ("NegativeTimeout", jnum (NegativeTimeout c))]);
        ("mnt_opt", jobj [("AllowOther", JBool (AllowOther c));
                          ("IgnoreSecurityLabels", JBool (IgnoreSecurityLabels c));
                          ("FsName", jtext (FsName c)); ("Name", jtext (MntName c));
                          ("EnableLocks", JBool (EnableLocks c)); ("DirectMount", JBool (DirectMount c))]);
        ("path_opt", jobj [("ClientInodes", JBool (ClientInodes c))]);
        ("mnt_point", jtext (MountPoint c));
        ("read_dir_cnt", jnum (ReadDirCount c))]%string.

Definition int_ok (z : Z) : bool := (- 2 ^ 63 <=? z) && (z <? 2 ^ 63).

(** Integers of their width and texts in UTF-8. *)
Definition FuseConf_ok (cfg : gmap string string) (c : FuseConf) : bool :=
  forallb (λ kv, str_ok kv.1 && str_ok kv.2) (map_to_list cfg) &&
  int_ok (EntryTimeout c) && int_ok (AttrTimeout c) && int_ok (NegativeTimeout c) &&
  str_ok (FsName c) && str_ok (MntName c) && str_ok (MountPoint c) && int_ok (ReadDirCount c).

Definition with_cfg (cfg : gmap string string) (c : FuseConf) : FuseConf :=
  MkFuseConf (Some cfg) (EntryTimeout c) (AttrTimeout c) (NegativeTimeout c) (IgnoreSecurityLabels c)
    (MntName c) (FsName c) (EnableLocks c) (AllowOther c) (DirectMount c) (ClientInodes c)
    (MountPoint c) (ReadDirCount c).

Lemma ok_FuseConf cfg c : FuseConf_ok cfg c = true → json_ok (FuseConf_json cfg c).
Proof.
  unfold FuseConf_ok. intros H.
  repeat match goal with H : _ && _ = true |- _ => apply andb_true_iff in H as [? ?] end.
  apply ok_jobj. repeat (apply Forall_cons_2; [split; [reflexivity|]|]); try apply Forall_nil_2;
    try by ok_struct.
  - apply ok_jobj. apply Forall_fmap, List.Forall_forall. intros [k v] Hkv.
    rewrite forallb_forall in H. apply H, andb_true_iff in Hkv as [Hk Hv]. simpl in *. split; [done|by apply ok_jtext].
  - ok_struct; constructor.
  - ok_struct; constructor.
  - by apply ok_jtext.
  - apply ok_jnum.
Qed.

(** Reading the entries of a map back, in any order without repetition. *)
Lemma dec_entries_ok l m :
  dec_entries (map (λ kv, (str_bytes kv.1, kv.2)) (prod_map id jtext <$> l)) m =
  (foldl (λ m kv, <[kv.1 := kv.2]> m) m l, None).
Proof.
  revert m. induction l as [|[k v] l IH]; intros m; [done|]. cbn [fmap list_fmap map dec_entries prod_map fst snd id].
  rewrite dec_str_ok, bytes_str_bytes. simpl in IH. by rewrite IH.
Qed.

Lemma foldl_insert (l : list (string * string)) : ∀ m : gmap string string,
  NoDup l.*1 → foldl (λ m kv, <[kv.1 := kv.2]> m) m l = list_to_map l ∪ m.
Proof.
  induction l as [|[k v] l IH]; intros m Hnd; simpl.
  - by rewrite map_empty_union.
  - apply NoDup_cons in Hnd as [Hk Hnd]. rewrite IH by done. simpl.
    rewrite <- insert_union_l. rewrite insert_union_r; [done|]. by apply not_elem_of_list_to_map_1.
Qed.

Lemma dec_Config_ok cfg : dec_Config (jobj (prod_map id jtext <$> map_to_list cfg)) None = (Some cfg, None).
Proof.
  unfold dec_Config, jobj. rewrite dec_entries_ok, foldl_insert by apply NoDup_fst_map_to_list. simpl.
  by rewrite map_union_empty, list_to_map_to_list.
Qed.

Lemma dec_int_okb z old : int_ok z = true → dec_int (jnum z) old = (z, None).
Proof. intros [? ?]%andb_true_iff. apply dec_int_ok. zbool. Qed.

Ltac dec_field :=
  erewrite dec_step; [|reflexivity|cbn [f_set fld];
    first [rewrite dec_int_okb by assumption | rewrite dec_str_ok | rewrite dec_Config_ok
          | cbn [dec_bool] | idtac]; simpl; reflexivity].

Lemma dec_FuseConf_ok cfg c old typ :
  FuseConf_ok cfg c = true → fc_Cfg old = None →
  dec_struct typ FuseConf_fields (FuseConf_json cfg c) old = (with_cfg cfg c, None).
Proof.
  unfold FuseConf_ok. intros H Ho.
  repeat match goal with H : _ && _ = true |- _ => apply andb_true_iff in H as [? ?] end.
  destruct c as [c1 c2 c3 c4 c5 c6 c7 c8 c9 c10 c11 c12 c13],
    old as [o1 o2 o3 o4 o5 o6 o7 o8 o9 o10 o11 o12 o13]. simpl in Ho. subst o1.
  cbn [EntryTimeout AttrTimeout NegativeTimeout FsName MntName MountPoint ReadDirCount] in *.
  unfold dec_struct at 1, FuseConf_json, jobj at 1. cbn [map fst snd].
  erewrite dec_step; [|reflexivity|cbn [f_set fld fc_Cfg]; rewrite dec_Config_ok; reflexivity].
  erewrite dec_step; [|reflexivity|cbn [f_set]; unfold dec_struct, jobj; cbn [map fst snd]; repeat dec_field; reflexivity].
  erewrite dec_step; [|reflexivity|cbn [f_set]; unfold dec_struct, jobj; cbn [map fst snd]; repeat dec_field; reflexivity].
  erewrite dec_step; [|reflexivity|cbn [f_set]; unfold dec_struct, jobj; cbn [map fst snd]; repeat dec_field; reflexivity].
  repeat dec_field. done.
Qed.

(** * Comments and JSON texts *)

Definition chr (b : Z) : ascii := ascii_of_nat (Z.to_nat b).

Lemma chr_eqb b k : 0 ≤ b < 256 → 0 ≤ k < 256 → Ascii.eqb (chr b) (chr k) = (b =? k).
Proof.
  intros Hb Hk. unfold chr. destruct (Z.eqb_spec b k) as [->|Hne]; [apply Ascii.eqb_refl|].
  apply Ascii.eqb_neq. intros E. apply (f_equal nat_of_ascii) in E.
  rewrite !nat_ascii_embedding in E by lia. lia.
Qed.

Lemma bytes_str_app a b : bytes_str (a ++ b) = String.append (bytes_str a) (bytes_str b).
Proof. induction a as [|x a IH]; simpl; [done|]. by rewrite IH. Qed.

Lemma str_append_assoc a b c : String.append (String.append a b) c = String.append a (String.append b c).
Proof. induction a as [|x a IH]; simpl; [done|]. by rewrite IH. Qed.

(** The text [s] goes through the stripping as it is, whatever follows; [p] and
    [p'] tell whether its ends are outside a string. It is part of one line. *)
Definition passes (s : bytes) (p p' : bool) : Prop :=
  Forall (λ b, 32 ≤ b < 256) s ∧
  ∀ t n, Nat.even n = p → ∃ n', Nat.even n' = p' ∧
    trim_from (String.append (bytes_str s) t) n = String.append (bytes_str s) (trim_from t n').

Lemma passes_nil p : passes [] p p.
Proof. split; [by constructor|]. intros t n Hn. by exists n. Qed.

Lemma passes_app a b p q r : passes a p q → passes b q r → passes (a ++ b) p r.
Proof.
  intros [Fa Ha] [Fb Hb]. split; [by apply Forall_app|]. intros t n Hn.
  rewrite bytes_str_app, str_append_assoc.
  destruct (Ha (String.append (bytes_str b) t) n Hn) as (n1 & Hn1 & ->).
  destruct (Hb t n1 Hn1) as (n2 & Hn2 & ->). exists n2. split; [done|]. by rewrite str_append_assoc.
Qed.

(** One character that does not begin a comment. *)
Lemma passes_char b p :
  32 ≤ b < 256 → b ≠ 34 → b ≠ 92 → (p = true → b ≠ 35 ∧ b ≠ 47) → passes [b] p p.
Proof.
  intros Hb H34 H92 Hp. split; [by repeat constructor; lia|]. intros t n Hn. exists n. split; [done|].
  change (String.append (bytes_str [b]) t) with (String (chr b) t).
  change (String.append (bytes_str [b]) (trim_from t n)) with (String (chr b) (trim_from t n)).
  assert (∀ k, 0 ≤ k < 256 → b ≠ k → Ascii.eqb (chr b) (chr k) = false) as Hk.
  { intros k Hk Hne. rewrite chr_eqb by lia. by apply Z.eqb_neq. }
  assert (bump (chr b) n = n) as Hbump.
  { unfold bump. change dquote with (chr 34). by rewrite Hk by lia. }
  rewrite trim_from_plain, Hbump.
  - unfold starts_comment. rewrite Hbump, Hn. destruct p; [|by rewrite andb_false_r].
    destruct Hp as [H35 H47]; [done|]. change hash with (chr 35). change slash with (chr 47).
    by rewrite !Hk by lia.
  - unfold escapes. change backslash with (chr 92). by rewrite Hk by lia.
Qed.

Lemma passes_quote p : passes [34] p (negb p).
Proof.
  split; [by repeat constructor; lia|]. intros t n Hn. exists (S n).
  split; [rewrite Nat.even_succ, <- Nat.negb_even; by rewrite Hn|].
  change (String.append (bytes_str [34]) t) with (String dquote t).
  rewrite trim_from_plain by done. done.
Qed.

(** A backslash and the next character, inside a string. *)
Lemma passes_escape x : 32 ≤ x < 256 → passes [92; x] false false.
Proof.
  intros Hx. destruct (decide (x = 92 ∨ x = 34)) as [H|H].
  - split; [by repeat constructor; lia|]. intros t n Hn. exists n. split; [done|].
    destruct H as [-> | ->].
    + exact (trim_from_escape backslash backslash t n eq_refl).
    + exact (trim_from_escape backslash dquote t n eq_refl).
  - split; [by repeat constructor; lia|]. intros t n Hn.
    destruct (passes_char x false Hx) as [_ Hc]; [tauto..|done|].
    destruct (Hc t n Hn) as (n' & Hn' & E). exists n'. split; [done|].
    change (String.append (bytes_str [92; x]) ?t) with (String backslash (String.append (bytes_str [x]) t)).
    rewrite trim_from_plain.
    + unfold starts_comment. change (bump backslash n) with n. rewrite Hn, andb_false_r. by rewrite E.
    + unfold escapes. simpl. change (ascii_of_nat (Z.to_nat x)) with (chr x).
      change backslash with (chr 92). change dquote with (chr 34). rewrite !chr_eqb by lia.
      apply orb_false_iff. split; apply Z.eqb_neq; tauto.
Qed.

(** The inside of a string: every quote and backslash is escaped. *)
Fixpoint escaped (s : bytes) : bool :=
  match s with
  | [] => true
  | b :: s' =>
      if b =? 92 then match s' with x :: r => in_range 32 255 x && escaped r | [] => false end
      else in_range 32 255 b && negb (b =? 34) && escaped s'
  end.

Lemma escaped_app a : ∀ b, escaped a = true → escaped b = true → escaped (a ++ b) = true.
Proof.
  induction a as [a IH] using (induction_ltof1 _ length); unfold ltof in IH. intros b Ha Hb.
  destruct a as [|x a]; [done|]. cbn [app escaped] in *. destruct (x =? 92).
  - destruct a as [|y a]; [done|]. cbn [app]. apply andb_true_iff in Ha as [-> Ha]. simpl. apply IH; simpl; auto; lia.
  - apply andb_true_iff in Ha as [-> Ha]. simpl. apply IH; simpl; auto; lia.
Qed.

Lemma passes_escaped s : escaped s = true → passes s false false.
Proof.
  induction s as [s IH] using (induction_ltof1 _ length); unfold ltof in IH.
  destruct s as [|b s]; [intros _; apply passes_nil|]. cbn [escaped].
  destruct (Z.eqb_spec b 92) as [->|H92].
  - destruct s as [|x r]; [done|]. intros [Hx%in_range_spec Hr]%andb_true_iff.
    apply (passes_app [92; x] r _ false); [apply passes_escape; lia|]. apply IH; [simpl; lia|done].
  - intros [[Hx%in_range_spec Hq%negb_true_iff%Z.eqb_neq]%andb_true_iff Hr]%andb_true_iff.
    apply (passes_app [b] s _ false); [apply passes_char; lia || done|]. apply IH; [simpl; lia|done].
Qed.

Lemma escaped_high l : forallb (in_range 128 255) l = true → escaped l = true.
Proof.
  induction l as [|b l IH]; [done|]. intros [Hb%in_range_spec Hl]%andb_true_iff. cbn [escaped].
  rewrite (proj2 (Z.eqb_neq b 92)), (proj2 (Z.eqb_neq b 34)), IH by (done || lia).
  by rewrite (proj2 (in_range_spec 32 255 b)) by lia.
Qed.

(** The continuation bytes of a rune. *)
Lemma rune_tail b s n :
  128 ≤ b → rune_len (b :: s) = Some (S n) → forallb (in_range 128 255) (take n s) = true.
Proof.
  assert (∀ x, is_cont x = true → in_range 128 255 x = true) as Hc.
  { intros x [? ?]%in_range_spec. apply in_range_spec. lia. }
  assert (∀ a x, second_ok a x = true → in_range 128 255 x = true) as Hsec.
  { intros a x. unfold second_ok. rewrite in_range_spec. repeat case_match; rewrite ?in_range_spec; try lia.
    all: intros [? ?]%in_range_spec; lia. }
  intros Hb. cbn [rune_len]. rewrite (proj2 (Z.ltb_ge b 128)) by lia.
  destruct s as [|b1 [|b2 [|b3 s]]]; repeat case_match; intros; simplify_eq; try done; simpl;
    repeat match goal with H : _ && _ = true |- _ => apply andb_true_iff in H as [? ?] end;
    rewrite ?andb_true_iff; split_and!; eauto.
Qed.

Lemma escaped_ascii b : 0 ≤ b < 128 → escaped (esc_ascii b) = true.
Proof. apply (all_below 128 (λ b, escaped (esc_ascii b)) eq_refl). Qed.

Lemma escaped_escape s :
  utf8_valid s = true → forallb is_byte s = true → escaped (escape 0 0 s) = true.
Proof.
  induction s as [s IH] using (induction_ltof1 _ length); unfold ltof in IH.
  intros Hv Hb. destruct s as [|b s]; [done|].
  destruct (escape_step b s Hv Hb) as [(Hlt & Hv' & ->)|[(e & t & E & He & Hv' & ->)|
    (n & Hge & Er & Hn & Hv' & ->)]].
  - apply escaped_app; [by apply escaped_ascii|]. apply IH; [simpl; lia|done|].
    by apply andb_true_iff in Hb as [_ ?].
  - rewrite E in *. apply escaped_app; [by destruct He as [-> | ->]|].
    apply IH; [simpl; lia|done|]. by apply (forallb_drop _ 3) in Hb.
  - apply andb_true_iff in Hb as [Hb%is_byte_spec Hs].
    change (b :: take n s ++ escape 0 0 (drop n s)) with ((b :: take n s) ++ escape 0 0 (drop n s)).
    apply escaped_app.
    + apply escaped_high. cbn [forallb]. rewrite (rune_tail b s n) by done.
      by rewrite (proj2 (in_range_spec 128 255 b)) by lia.
    + apply IH; [simpl; rewrite length_drop; lia|done|by apply forallb_drop].
Qed.

Lemma passes_text s : text_ok s = true → passes (quote s) true true.
Proof.
  intros [Hb Hv]%text_okE. unfold quote.
  apply (passes_app [34] (escape 0 0 s ++ [34]) _ false); [apply (passes_quote true)|].
  apply (passes_app _ [34] _ false); [by apply passes_escaped, escaped_escape|apply (passes_quote false)].
Qed.

(** Characters that are nothing special. *)
Definition plain_byte (b : Z) : bool :=
  in_range 32 255 b && negb (b =? 34) && negb (b =? 92) && negb (b =? 35) && negb (b =? 47).

Lemma passes_plain l : forallb plain_byte l = true → passes l true true.
Proof.
  induction l as [|b l IH]; [intros _; apply passes_nil|]. cbn [forallb]. intros [Hb Hl]%andb_true_iff.
  apply (passes_app [b] l _ true); [|by apply IH]. unfold plain_byte in Hb.
  rewrite !andb_true_iff, !negb_true_iff, !Z.eqb_neq, in_range_spec in Hb. apply passes_char; lia.
Qed.

Lemma Itoa_plain z : forallb plain_byte (str_bytes (Itoa z)) = true.
Proof.
  assert (∀ l, forallb is_digit l = true → forallb plain_byte l = true) as Hd.
  { intros l. rewrite !forallb_forall. intros H b Hb%H%in_range_spec.
    pose proof (all_below 256 (λ b, implb (in_range 48 57 b) (plain_byte b)) eq_refl b ltac:(lia)) as Hp. cbv beta in Hp.
    rewrite (proj2 (in_range_spec 48 57 b)) in Hp by lia. done. }
  destruct (Z.ltb_spec z 0) as [Hneg|Hpos].
  - rewrite Itoa_neg, str_bytes_app by done. rewrite forallb_app.
    destruct (Itoa_digits (- z) ltac:(lia)) as (_ & b & l & -> & H & _). by rewrite (Hd _ H).
  - destruct (Itoa_digits z Hpos) as (_ & b & l & -> & H & _). by apply Hd.
Qed.

Lemma passes_commas l : Forall (λ x, passes x true true) l → passes (commas l) true true.
Proof.
  induction 1 as [|x l Hx Hl IH]; [apply passes_nil|]. destruct l as [|y l]; [done|].
  rewrite commas_cons. apply (passes_app x _ _ true); [done|].
  apply (passes_app [44] (commas (y :: l)) _ true); [by apply passes_plain|done].
Qed.

(** No JSON text is damaged: whatever its strings hold, nothing in it is taken
    for a comment. *)
Lemma passes_print j : json_ok j → passes (print j) true true.
Proof.
  induction j as [|b|lit|s|l IH|l IH] using json_ind; inversion 1 as [|b'|z|s' Hs|l' Hl|l' Hl]; subst.
  - by apply passes_plain.
  - destruct b; by apply passes_plain.
  - apply passes_plain, Itoa_plain.
  - by apply passes_text.
  - cbn [print]. apply (passes_app [91] (_ ++ _) _ true); [by apply passes_plain|].
    apply (passes_app _ [93] _ true); [|by apply passes_plain]. apply passes_commas, Forall_map.
    clear -IH Hl. induction Hl as [|? ? Hx]; inversion_clear IH as [|? ? Hj]; constructor; auto.
  - rewrite print_obj. apply (passes_app [123] (_ ++ _) _ true); [by apply passes_plain|].
    apply (passes_app _ [125] _ true); [|by apply passes_plain]. apply passes_commas, Forall_map.
    clear -IH Hl. induction Hl as [|[k v] ? [Hk Hv]]; inversion_clear IH as [|? ? Hj]; constructor; auto.
    cbn [print_member fst snd] in *. apply (passes_app (quote k) (58 :: print v) _ true); [by apply passes_text|].
    apply (passes_app [58] (print v) _ true); [by apply passes_plain|auto].
Qed.

(** * Files with comments *)

(** What ends a line after the text: nothing, or a comment. *)
Definition is_comment (t : string) : bool :=
  match t with
  | EmptyString => true
  | String c r => Ascii.eqb c hash || (Ascii.eqb c slash && char_is (first_char r) slash)
  end.

Lemma comment_trimmed t n : is_comment t = true → Nat.even n = true → trim_from t n = EmptyString.
Proof.
  destruct t as [|c r]; [done|]. cbn [is_comment]. intros Hc Hn.
  assert (c = hash ∨ c = slash) as Hor.
  { apply orb_true_iff in Hc as [->%Ascii.eqb_eq|[->%Ascii.eqb_eq _]%andb_true_iff]; auto. }
  rewrite trim_from_plain by (by destruct Hor as [-> | ->]). unfold starts_comment.
  assert (bump c n = n) as -> by (by destruct Hor as [-> | ->]). by rewrite Hc, Hn.
Qed.

Definition one_line (s : string) : bool := bool_decide (Split s newline = [s]).

Lemma one_line_bytes s : Forall (λ b, 32 ≤ b < 256) s → ∀ t, one_line t = true →
  one_line (String.append (bytes_str s) t) = true.
Proof.
  unfold one_line. intros Hs t Ht%bool_decide_eq_true. apply bool_decide_eq_true.
  induction Hs as [|b s Hb _ IH]; [done|].
  change (String.append (bytes_str (b :: s)) t) with (String (chr b) (String.append (bytes_str s) t)).
  apply Split_cons_ne; [|done]. intros E. apply Ascii.eqb_eq in E.
  change newline with (chr 10) in E. rewrite chr_eqb in E by lia. lia.
Qed.

Lemma str_bytes_str s : Forall (λ b, 32 ≤ b < 256) s → str_bytes (bytes_str s) = s.
Proof.
  induction 1 as [|b s Hb _ IH]; [done|]. simpl. rewrite IH. f_equal.
  rewrite nat_ascii_embedding by lia. lia.
Qed.

(** Empty lines are white space around the text. *)
Lemma Join_after b : ∀ s,
  str_bytes (Join (s :: replicate b EmptyString) newline) = str_bytes s ++ replicate b 10.
Proof.
  induction b as [|b IH]; intros s; [by rewrite app_nil_r|].
  change (Join (s :: replicate (S b) EmptyString) newline) with
    (String.append s (String newline (Join (EmptyString :: replicate b EmptyString) newline))).
  rewrite str_bytes_app. f_equal. cbn [str_bytes]. by rewrite IH.
Qed.

Lemma Join_blank a b s :
  str_bytes (Join (replicate a EmptyString ++ s :: replicate b EmptyString) newline) =
  replicate a 10 ++ str_bytes s ++ replicate b 10.
Proof.
  induction a as [|a IH]; [apply Join_after|].
  assert (∀ l, l ≠ [] → Join (EmptyString :: l) newline = String newline (Join l newline)) as Hc by (by intros []).
  change (replicate (S a) EmptyString ++ s :: replicate b EmptyString) with
    (EmptyString :: (replicate a EmptyString ++ s :: replicate b EmptyString)).
  rewrite Hc by (by destruct a). cbn [str_bytes replicate app]. by rewrite IH.
Qed.

Lemma skip_ws_blank a s : skip_ws (replicate a 10 ++ s) = skip_ws s.
Proof. by induction a. Qed.

Lemma parse_blank a b j :
  json_ok j → parse (replicate a 10 ++ print j ++ replicate b 10) = POk j (replicate b 10).
Proof.
  intros Hj. unfold parse. pose proof (jsize_print j Hj) as Hsz.
  assert (num_end (replicate b 10)) as Hr by (by destruct b).
  rewrite length_app, length_app. set (f := (2 * _ + 2)%nat).
  pose proof (pval_print j Hj f (replicate b 10) Hr ltac:(lia)) as E.
  destruct f as [|f]; [done|]. cbn [pval] in E |- *. by rewrite skip_ws_blank.
Qed.

(** A file: comment lines, the text of a tree, the rest of its line a comment,
    and more comment lines. *)
Definition conf_file (pre : list string) (j : json) (tail : string) (post : list string) : string :=
  Join (pre ++ String.append (bytes_str (print j)) tail :: post) newline.

Lemma map_comments l :
  forallb is_comment l = true → map trimCommentsLine l = replicate (length l) EmptyString.
Proof.
  induction l as [|x l IH]; [done|]. cbn [forallb map length replicate]. intros [Hx Hl]%andb_true_iff.
  rewrite IH by done. f_equal. by apply comment_trimmed.
Qed.

Lemma trim_file pre j tail post :
  json_ok j → forallb is_comment (pre ++ tail :: post) = true → forallb one_line (pre ++ tail :: post) = true →
  str_bytes (trimComments (conf_file pre j tail post)) =
  replicate (length pre) 10 ++ print j ++ replicate (length post) 10.
Proof.
  intros Hj Hc Hl. destruct (passes_print j Hj) as [Hb Ht].
  rewrite forallb_app in Hc, Hl. cbn [forallb] in Hc, Hl. rewrite !andb_true_iff in Hc, Hl.
  destruct Hc as (Hc1 & Hct & Hc2), Hl as (Hl1 & Hlt & Hl2).
  unfold trimComments, conf_file. rewrite Split_Join.
  - rewrite map_app. cbn [map]. rewrite !map_comments by done.
    assert (trimCommentsLine (String.append (bytes_str (print j)) tail) = bytes_str (print j)) as ->.
    { destruct (Ht tail 0%nat eq_refl) as (n & Hn & E). unfold trimCommentsLine. rewrite E.
      by rewrite comment_trimmed, str_app_nil_r. }
    by rewrite Join_blank, str_bytes_str.
  - by destruct pre.
  - assert (∀ l, forallb one_line l = true → Forall (λ p, Split p newline = [p]) l) as Hone.
    { intros l H. apply forallb_Forall in H. eapply Forall_impl; [exact H|]. by intros x ?%bool_decide_eq_true. }
    apply Forall_app. split; [by apply Hone|]. apply Forall_cons. split; [|by apply Hone].
    exact (proj1 (bool_decide_eq_true _) (one_line_bytes _ Hb _ Hlt)).
Qed.


Module ConfExample.

(** A host with a comment sign, a path that looks like a comment, a quote. *)
Definition cfg1 : gmap string string :=
  {[ CfgProxyHosts := "http://10.0.0.1:80/"; CfgPath := "//x#y";
     CfgUserToken := String.append "a" (String dquote "b") ]}%string.
Definition conf1 : FuseConf :=
  MkFuseConf None 10 0 0 true EmptyString EmptyString false true true true "/sdcard/.cubefs" 0.


(** The file client/conf/client.conf, with single quotes for the double ones. *)
Definition quoted (s : string) : string := bytes_str (map (λ b, if b =? 39 then 34 else b) (str_bytes s)).
Definition client_conf : string := quoted
"{
  'cfa_cfg':{
     'log_file':'./client',
     'log_level':'debug',
     'proxy_hosts':'http://PROXY_IP:PROXY_PORT',
     'path':'/',
     'client_timeout_ms':'30000',
     'uid_pull_type':'2',
     'user_id':'1234567',
     'user_token':'testToken',
     'uid_pull_ticket':'5000',
     'uid_pull_access_key':'testAccessKey',
     'uid_pull_url':'http://127.0.0.1:10122/thirdparty/api/user/pullaccount'
   },

  'node_opt':{
 	 'EntryTimeout':10,
 	 'Debug':true
  },

  'mnt_opt':{
 	 'AllowOther':true,
 	 'Debug':true,
 	 'DirectMount': true,
 	 'UnixPerm': true,
 	 'MaxWrite': 262144
  },

  'path_opt':{
 	 'ClientInodes':true,
 	 'Debug':true
  },

  'mnt_point':'/sdcard/Download/.cubefs'
}".

(** The shipped file loads. *)
Lemma client_conf_loads :
  ∃ cfg c, LoadFuseCfg (λ _, inl client_conf) Unmarshal "client.conf" = Ret c ∧ fc_Cfg c = Some cfg ∧
    cfg !! CfgProxyHosts = Some "http://PROXY_IP:PROXY_PORT"%string ∧
    cfg !! CfgThirdPartyUidPullUrl =
      Some "http://127.0.0.1:10122/thirdparty/api/user/pullaccount"%string ∧
    cfg !! ExportPath = Some "/sdcard/Download/.cubefs"%string ∧ EntryTimeout c = 10 * Second.
Proof.
  destruct (LoadFuseCfg (λ _, inl client_conf) Unmarshal "client.conf") as [c| |] eqn:E;
    [|vm_compute in E; discriminate E..].
  vm_compute in E. injection E as <-. eexists _, _. split; [reflexivity|]. split; [reflexivity|].
  vm_compute. by split_and!.
Qed.
End ConfExample.
