(* ===== verification/Expiry.v ===== *)
(** The expiry routines of the two caches: [CheckExpire] of wcache.go and of
    rcache.go, the timed outer loop around the rounds of [WCache] and [RCache],
    and the statistics routine [StatTo] of mount.go, which has the same shape.

    A routine shares its cache with the others, so a run is given as a list of
    turns: what the routine reads of its stop flag, and what the other routines
    do (and how far the clock goes, its own sleep included) before the next
    turn. *)

From stdpp Require Import base gmap list strings.
From Stdlib Require Import ZArith Lia.
From S2P Require Import Prelude GoString Proto Store Buffer Pool View CacheState WCache.
From S2P Require Import WCacheProof WCacheSteps WCacheTheorems RCache RWCache RWCacheProof RCacheProof.
From S2P Require Import CloseProof RWCacheSteps LruOrder Config.

Section Loops.
Context {W : Type} `{ProxyIO W}.

Record Turn : Type := MkTurn {
  seen_Stop : bool;
  others : M (CS W) unit;
}.

(** The outer loop: [false] when the turns run out before the flag is seen,
    [true] when the routine ended (and called [wg.Done]). *)
Fixpoint CheckExpire_loop (round : M (CS W) unit) (CheckGap lastCheckTime : Z)
    (turns : list Turn) : M (CS W) bool :=
  match turns with
  | [] => ret false
  | turn :: turns' =>
      if seen_Stop turn then ret true
      else
        let! t := gets now in
        if t - lastCheckTime <? CheckGap then
          others turn;;;
          CheckExpire_loop round CheckGap lastCheckTime turns'
        else
          round;;;
          let! t' := gets now in
          others turn;;;
          CheckExpire_loop round CheckGap t' turns'
  end.

Definition CheckGap (cfg : Config) : Z :=
  i64 (1000000 * GetIntValue cfg CfgRwCacheCheckGap 300).

Definition WCache_CheckExpire (cfg : Config) (turns : list Turn) : M (CS W) bool :=
  let! lastCheckTime := gets now in
  CheckExpire_loop
    (let! lru := gets (LruList ∘ wc) in CheckExpire_round (S (length lru)))
    (CheckGap cfg) lastCheckTime turns.

Definition RCache_CheckExpire (cfg : Config) (turns : list Turn) : M (CS W) bool :=
  let! lastCheckTime := gets now in
  CheckExpire_loop
    (let! lru := gets (LruList ∘ rc) in RCache_CheckExpire_round (S (length lru)))
    (CheckGap cfg) lastCheckTime turns.
End Loops.
Arguments Turn : clear implicits.

Section Proof.
Context {W : Type} `{ProxyStore W}.
Context (BS : Z).
Hypothesis HBS : 0 < BS < 2 ^ 32.
Implicit Types (s : CS W).

(** ** A round of the read cache *)

(** The oldest buffer of the read cache's LRU list has not expired. *)
Definition rlru_fresh s : Prop := ∀ bid b,
  last (LruList (rc s)) = Some bid → bufs (rc s) !! bid = Some b →
  now s - LastUpdateTime b < ExpireTime (rc s) * 1000000.

(** Buffers at the old end of the LRU list were released; what is still
    cached is as before, and only the read cache's pool changed. *)
Record shed s s' : Prop := {
  sh_inv : rinv BS false s';
  sh_only : ∃ p', s' = set_rc p' s;
  sh_lru : ∃ old, LruList (rc s) = LruList (rc s') ++ old;
  sh_lock : ∀ g j, lockof (rc s') g j = lockof (rc s) g j;
  sh_data : ∀ g j b', slot_buf (rc s') g j = Some b' → ∃ b, slot_buf (rc s) g j = Some b ∧
    Offset b' = Offset b ∧ Len b' = Len b ∧ dataBuf b' = dataBuf b;
  sh_time : ExpireTime (rc s') = ExpireTime (rc s);
}.

Lemma shed_refl s : rinv BS false s → shed s s.
Proof.
  intros Hi. constructor; try done; [exists (rc s); by rewrite set_rc_id|exists []; by rewrite app_nil_r|].
  eauto 10.
Qed.

Lemma shed_trans s1 s2 s3 : shed s1 s2 → shed s2 s3 → shed s1 s3.
Proof.
  intros [_ [p2 E2] [l2 L2] K2 D2 T2] [I3 [p3 E3] [l3 L3] K3 D3 T3]. constructor; try done.
  - exists p3. by subst.
  - exists (l3 ++ l2). by rewrite L2, L3, app_assoc.
  - intros. by rewrite K3.
  - intros g j b3 (b2 & Hb2 & E & E' & E'')%D3. destruct (D2 _ _ _ Hb2) as (b1 & ? & ? & ? & ?).
    exists b1. split_and!; congruence.
  - congruence.
Qed.

Lemma shed_coherent s s' : shed s s' → coherent BS s → coherent BS s'.
Proof.
  intros [_ [p' ->] _ _ Hd _] Hco g j b' (b & Hb & Eo & El & Ed)%Hd.
  destruct (Hco _ _ _ Hb) as (?&?&?&?). unfold holds_block. simpl. rewrite Eo, El, Ed. done.
Qed.

(** A block with a buffer is not waiting to be prefetched, so it is unlocked. *)
Lemma rslot_unlocked s f i bid : rinv BS false s → slot (rc s) f i = Some bid → lockof (rc s) f i = None.
Proof.
  intros Hi Hs. destruct (lockof (rc s) f i) as [l|] eqn:El; [|done].
  apply (ri_lock _ _ Hi) in El. apply list_elem_of_fmap in El as (op & E & Hop).
  destruct (ri_q _ _ Hi op Hop) as (_&_&_&_&Hn&_). injection E as -> ->. congruence.
Qed.

(** One round: the oldest buffer leaves the list and is released. *)
Lemma wp_expire_one s (Q : CS W → Prop) (k : M (CS W) unit) :
  rinv BS false s →
  (rlru_fresh s → Q s) →
  (∀ s', shed s s' → (length (LruList (rc s')) < length (LruList (rc s)))%nat → wp k (λ _, Q) s') →
  wp (let! t := gets now in
      let! e := RCache_LruExpire t in
      match e with
      | None => ret tt
      | Some (fe, blkIdx) =>
          let! fb := RCache_GetFileBuffer fe false in
          match fb with
          | None => k
          | Some fid => ReleaseBuffer fid blkIdx;;; k
          end
      end) (λ _, Q) s.
Proof.
  intros Hi Hfr Hk. pose proof (ri_wf _ _ Hi) as Hwf. apply wp_bind, wp_gets, wp_bind, wp_onr.
  eapply wp_mono; [|by apply (wp_LruExpire_pool BS)]. intros [[fe i]|] p1 (Hwf1 & Hc1 & Ht1 & Hd1 & Hr).
  2:{ destruct Hr as [-> Hr]. rewrite set_rc_id. by apply wp_ret, Hfr. }
  destruct Hr as (bid & Hlast & HL1 & Hs & _).
  pose proof (expire_rinv BS s p1 Hi Hwf1 Hc1 Hd1) as Hi1.
  assert (slot p1 (fe_Id fe) i = Some bid) as Hs1 by (unfold slot; by rewrite Hc1).
  assert (is_Some (Cache p1 !! fe_Id fe)) as [fb Hc] by (unfold slot in Hs1; by destruct (Cache p1 !! _)).
  apply wp_bind, wp_onr. unfold GetFileBuffer. apply wp_bind, wp_gets. simpl. rewrite Hc.
  apply wp_ret. simpl.
  assert (lockof p1 (fe_Id fe) i = None) as Hl1 by (by apply (rslot_unlocked _ _ _ bid Hi1)).
  apply wp_bind, (wp_ReleaseBuffer BS HBS); [done|by eexists|done|]. simpl.
  intros p2 Hrb Hs2 HL2 _. specialize (HL2 _ Hs1).
  pose proof (rshrink_one BS (fe_Id fe) i p1 p2 Hrb Hl1 Hs2) as Hsh.
  apply last_Some in Hlast as [l El]. assert (NoDup (l ++ [bid])) as Hnd by (rewrite <- El; apply Hwf).
  rewrite El, (list_remove_id_last BS) in HL1 by done.
  assert (bid ∉ l) as Hni by (apply NoDup_app in Hnd as (_ & Hx & _); intros Hin; apply (Hx _ Hin); set_solver).
  rewrite HL1, list_remove_id_notin in HL2 by done.
  apply (Hk (set_rc p2 s)); [|simpl; rewrite HL2, El, length_app; simpl; lia].
  constructor; simpl.
  - apply (rinv_shrink BS HBS (set_rc p1 s) (fe_Id fe) (λ j, j = i)); [done..|intros j; lia|by intros ? ->].
  - by exists p2.
  - exists [bid]. by rewrite HL2.
  - intros g j. destruct Hsh as (_&_&_&->&_). unfold lockof. by rewrite Hc1.
  - intros g j b' Hb. apply Hd1. destruct Hsh as (_&_&_&_&Hsh&_).
    destruct (decide (g = fe_Id fe ∧ j = i)) as [[-> ->]|Hn].
    + unfold slot_buf in Hb. by rewrite Hs2 in Hb.
    + by destruct (Hsh g j Hn) as [<- _].
  - destruct Hsh as (_&_&->&_). done.
Qed.

Lemma RCache_CheckExpire_round_ok fuel : ∀ s,
  rinv BS false s → (length (LruList (rc s)) < fuel)%nat →
  wp (RCache_CheckExpire_round fuel) (λ _ s', shed s s' ∧ rlru_fresh s') s.
Proof.
  induction fuel as [|fuel IH]; intros s Hi Hf; [lia|].
  apply (wp_expire_one s (λ s', shed s s' ∧ rlru_fresh s')); [done| |].
  - intros Hfr. split; [by apply shed_refl|done].
  - intros s1 Hsh Hlt. eapply wp_mono; [|apply IH; [apply Hsh|lia]].
    intros _ s2 [Hsh2 Hfr]. split; [by eapply shed_trans|done].
Qed.
(** ** The loops *)

(** No buffer of the LRU list has expired. *)
Definition none_expired t p : Prop := ∀ x, x ∈ LruList p → t - updated p x < ExpireTime p * 1000000.

(** What a routine relies on: both caches are well formed with their LRU lists
    in order, and write buffers live longer than the moment they are put back. *)
Definition expiring s : Prop := rwinv BS false s ∧ lru_times s ∧ 0 < ExpireTime (wc s).

(** What the routines ask of the others between two turns. *)
Definition well_behaved (turn : Turn W) : Prop := ∀ s, expiring s →
  wp (others turn) (λ _ s', expiring s' ∧ now s ≤ now s') s.

(** A round of either cache: it returns, keeps what the routines rely on, and
    leaves the list [fresh]. *)
Definition round_ok (fresh : CS W → Prop) (round : M (CS W) unit) : Prop := ∀ s, expiring s →
  wp round (λ _ s', expiring s' ∧ now s' = now s ∧ fresh s') s.

Lemma wcache_round_ok :
  round_ok (λ s, none_expired (now s) (wc s))
    (let! lru := gets (LruList ∘ wc) in CheckExpire_round (S (length lru))).
Proof.
  intros s ([Hwi Hri] & Ho & Hex). apply wp_bind, wp_gets.
  eapply wp_mono; [|eapply (h_wp (J (now s))); [by apply lru_times_J|apply h_CheckExpire_round|
    apply (CheckExpire_round_ok BS HBS (shut:=false) _ s [] (LruList (wc s))); try done; simpl; lia || set_solver]].
  intros _ s' [(Hwi' & Hfr & _ & Hf) HJ]. destruct Hfr as (Hrc & Hpf & _ & Hn & Ht).
  split_and!; [split; [split|]|done|].
  - done.
  - by eapply rinv_same.
  - rewrite Ht. split; [|done]. apply lru_times_J. by rewrite Hn.
  - unfold none_expired. eapply (all_fresh BS); [apply Hwi'|apply HJ|exact Hf].
Qed.

Lemma rcache_round_ok :
  round_ok (λ s, none_expired (now s) (rc s))
    (let! lru := gets (LruList ∘ rc) in RCache_CheckExpire_round (S (length lru))).
Proof.
  intros s ([Hwi Hri] & Ho & Hex). apply wp_bind, wp_gets.
  eapply wp_mono; [|eapply (h_wp (J (now s))); [by apply lru_times_J|apply h_RCache_CheckExpire_round|
    apply (RCache_CheckExpire_round_ok _ s); [done|simpl; lia]]].
  intros _ s' [[Hsh Hf] HJ]. destruct (sh_only _ _ Hsh) as [p' ->].
  split_and!; [split; [split|]|done|].
  - by apply (winv_ext BS s).
  - apply Hsh.
  - split; [|done]. by apply lru_times_J.
  - unfold none_expired. eapply (all_fresh BS); [apply Hsh|apply HJ|exact Hf].
Qed.

(** The loop returns, and has ended exactly when it saw the flag. *)
Lemma loop_runs fresh round gap turns : ∀ last s,
  round_ok fresh round → Forall well_behaved turns → expiring s → last ≤ now s →
  wp (CheckExpire_loop round gap last turns)
    (λ b s', b = existsb seen_Stop turns ∧ expiring s') s.
Proof.
  induction turns as [|t turns IH]; intros last s Hr Ht Hi Hl; [by apply wp_ret|].
  apply Forall_cons in Ht as [Ht Hts]. simpl. destruct (seen_Stop t); [by apply wp_ret|].
  apply wp_bind, wp_gets. case_match.
  - apply wp_bind. eapply wp_mono; [|by apply Ht]. intros _ s1 [Hi1 Hn1]. apply IH; try done. lia.
  - apply wp_bind. eapply wp_mono; [|by apply Hr]. intros _ s1 (Hi1 & Hn1 & _).
    apply wp_bind, wp_gets, wp_bind. eapply wp_mono; [|by apply Ht]. intros _ s2 [Hi2 Hn2].
    by apply IH.
Qed.

(** Sleeping for [d] nanoseconds, undisturbed. *)
Definition sleeps (d : Z) : Turn W := MkTurn false (modify (λ s, set_now (now s + d) s)).
Definition runs : Turn W := MkTurn false (ret tt).
Definition stops : Turn W := MkTurn true (ret tt).

Lemma loop_cleans fresh round gap d turns : ∀ last s,
  round_ok fresh round → Forall well_behaved turns → existsb seen_Stop turns = false →
  gap ≤ d → 0 ≤ d → expiring s → last ≤ now s →
  wp (CheckExpire_loop round gap last (turns ++ [sleeps d; runs; stops]))
    (λ b s', b = true ∧ expiring s' ∧ fresh s') s.
Proof.
  induction turns as [|t turns IH]; intros last s Hr Ht Hst Hd Hd0 Hi Hl; simpl.
  - assert (∀ l s1, expiring s1 → l + d ≤ now s1 →
      wp (CheckExpire_loop round gap l [runs; stops]) (λ b s', b = true ∧ expiring s' ∧ fresh s') s1) as Hrun.
    { intros l s1 Hi1 Hl1. simpl. apply wp_bind, wp_gets. rewrite (proj2 (Z.ltb_ge _ _)) by lia.
      apply wp_bind. eapply wp_mono; [|by apply Hr]. intros _ s2 (Hi2 & _ & Hf2).
      apply wp_bind, wp_gets, wp_bind, wp_ret. by apply wp_ret. }
    assert (∀ s1, expiring s1 → expiring (set_now (now s1 + d) s1)) as Htick.
    { intros s1 ([Hwi Hri] & [? ?] & Hex).
      split; [split; [by apply (winv_ext BS s1)|by apply (rinv_same BS s1)]|split; [|done]].
      split; (eapply lru_ok_later; [|done]); simpl; lia. }
    apply wp_bind, wp_gets. case_match.
    + apply wp_bind, wp_modify. apply Hrun; [by apply Htick|simpl; lia].
    + apply wp_bind. eapply wp_mono; [|by apply Hr]. intros _ s1 (Hi1 & Hn1 & _).
      apply wp_bind, wp_gets, wp_bind, wp_modify. apply Hrun; [by apply Htick|simpl; lia].
  - apply Forall_cons in Ht as [Ht Hts]. simpl in Hst. apply orb_false_iff in Hst as [Ht0 Hst].
    rewrite Ht0. apply wp_bind, wp_gets. case_match.
    + apply wp_bind. eapply wp_mono; [|by apply Ht]. intros _ s1 [Hi1 Hn1]. apply IH; try done. lia.
    + apply wp_bind. eapply wp_mono; [|by apply Hr]. intros _ s1 (Hi1 & Hn1 & _).
      apply wp_bind, wp_gets, wp_bind. eapply wp_mono; [|by apply Ht]. intros _ s2 [Hi2 Hn2].
      by apply IH.
Qed.

(** C33: the expiry routines do their work and end.  Whatever the other
    routines did before, once a routine has slept for its check period and
    runs, no buffer of its LRU list has expired, though it looks at one end of
    the list only; and it returns when it sees the stop flag. Neither
    routine panics, waits for a block's lock, or breaks the caches. *)
Theorem check_expire_cleans cfg turns d s :
  expiring s → Forall well_behaved turns → existsb seen_Stop turns = false →
  CheckGap cfg ≤ d → 0 ≤ d →
  (∃ s', WCache_CheckExpire cfg (turns ++ [sleeps d; runs; stops]) s = Ret (true, s') ∧
     expiring s' ∧ none_expired (now s') (wc s')) ∧
  (∃ s', RCache_CheckExpire cfg (turns ++ [sleeps d; runs; stops]) s = Ret (true, s') ∧
     expiring s' ∧ none_expired (now s') (rc s')).
Proof.
  intros Hi Ht Hst Hd Hd0. unfold WCache_CheckExpire, RCache_CheckExpire. split.
  - pose proof (loop_cleans _ _ (CheckGap cfg) d turns (now s) s wcache_round_ok Ht Hst Hd Hd0 Hi ltac:(lia)) as Hw.
    apply wp_run in Hw as (b & s' & E & -> & Hi' & Hf). by exists s'.
  - pose proof (loop_cleans _ _ (CheckGap cfg) d turns (now s) s rcache_round_ok Ht Hst Hd Hd0 Hi ltac:(lia)) as Hw.
    apply wp_run in Hw as (b & s' & E & -> & Hi' & Hf). by exists s'.
Qed.

(** A round of the read cache's expiry ends: it releases buffers from the
    old end of the LRU list until none that is left has expired, takes no
    lock that is held, leaves the blocks waiting to be prefetched locked, and
    every block still cached holds the bytes it held. *)
Theorem rcache_expire_terminates s :
  rwreachable BS s →
  ∃ s', RCache_CheckExpire_round (S (length (LruList (rc s)))) s = Ret (tt, s') ∧
    shed s s' ∧ none_expired (now s') (rc s') ∧ (coherent BS s → coherent BS s').
Proof.
  intros Hr. pose proof (rwreach_inv BS HBS s Hr) as [_ Hri]. pose proof (rwreach_times BS s Hr) as Ho.
  pose proof (RCache_CheckExpire_round_ok (S (length (LruList (rc s)))) s Hri ltac:(lia)) as Hw.
  eapply (h_wp (J (now s))) in Hw; [|by apply lru_times_J|apply h_RCache_CheckExpire_round].
  apply wp_run in Hw as ([] & s' & E & [Hsh Hf] & HJ). exists s'. split_and!; try done.
  - unfold none_expired. eapply (all_fresh BS); [apply Hsh|apply HJ|exact Hf].
  - by apply shed_coherent.
Qed.
End Proof.

(** * Witnesses: the state of [RWSExample], with block 1 prefetched *)

Module ExpiryExample.
Import RWSExample.

Definition s5 : CS MemStore := after (PrefetchRead_one s4) s4.
Definition s6 : CS MemStore := set_now 20000000 s5.

Lemma reach5 : rwreachable 4 s5.
Proof.
  destruct reach4 as (n & ex & ch & pf & tm & w & t & Hch & Hpf & Hr).
  exists n, ex, ch, pf, tm, w, t. split_and!; try done.
  eapply rtc_r; [exact Hr|]. by apply rw_prefetch; vm_compute.
Qed.

Lemma reach6 : rwreachable 4 s6.
Proof.
  destruct reach5 as (n & ex & ch & pf & tm & w & t & Hch & Hpf & Hr).
  exists n, ex, ch, pf, tm, w, t. split_and!; try done.
  eapply rtc_r; [exact Hr|]. apply (rw_wcache 4 LTau), ws_tick. by vm_compute.
Qed.

(** The prefetched block is released 20 ms later, with an expiry of 10 ms. *)
Lemma rcache_expire_terminates_witness :
  LruList (rc s6) ≠ [] ∧
  ∃ s', RCache_CheckExpire_round (S (length (LruList (rc s6)))) s6 = Ret (tt, s') ∧
    shed 4 s6 s' ∧ LruList (rc s') = [].
Proof.
  split; [by vm_compute|].
  destruct (rcache_expire_terminates 4 bs4_rws s6 reach6) as (s' & E & Hsh & _).
  exists s'. split; [exact E|]. split; [exact Hsh|]. vm_compute in E. injection E as <-. reflexivity.
Defined.

Definition tick : Turn MemStore := sleeps 100000000.

Lemma tick_ok : well_behaved 4 tick.
Proof.
  intros s ([Hwi Hri] & [? ?] & Hex). apply wp_modify. simpl. split; [|lia].
  split; [split; [by apply (winv_ext 4 s)|by apply (rinv_same 4 s)]|split; [|done]].
  split; (eapply lru_ok_later; [|done]); simpl; lia.
Qed.

(** Three turns of 100 ms and the default period of 300 ms: both routines have
    emptied their LRU lists when they end. *)
Lemma check_expire_cleans_witness :
  LruList (wc s5) ≠ [] ∧ LruList (rc s5) ≠ [] ∧
  (∃ s', WCache_CheckExpire ∅ ([tick; tick; tick] ++ [sleeps 300000000; runs; stops]) s5 = Ret (true, s') ∧
    expiring 4 s' ∧ LruList (wc s') = []) ∧
  (∃ s', RCache_CheckExpire ∅ ([tick; tick; tick] ++ [sleeps 300000000; runs; stops]) s5 = Ret (true, s') ∧
    expiring 4 s' ∧ LruList (rc s') = []).
Proof.
  split; [by vm_compute|]. split; [by vm_compute|].
  destruct (check_expire_cleans 4 bs4_rws ∅ [tick; tick; tick] 300000000 s5)
    as [(s1 & E1 & H1 & _) (s2 & E2 & H2 & _)].
  - split; [exact (rwreach_inv 4 bs4_rws s5 reach5)|]. split; [exact (rwreach_times 4 s5 reach5)|by vm_compute].
  - do 3 (apply Forall_cons; split; [exact tick_ok|]). apply Forall_nil. exact I.
  - reflexivity.
  - by vm_compute.
  - lia.
  - split; [exists s1|exists s2]; (split; [eassumption|]); (split; [eassumption|]).
    + vm_compute in E1. injection E1 as <-. reflexivity.
    + vm_compute in E2. injection E2 as <-. reflexivity.
Defined.
End ExpiryExample.
