(* ===== verification/Fields.v ===== *)
(** The fields of log entries: the constructors of lib/log/logger.go, which
    forward to zap's (vendor/go.uber.org/zap/field.go, array.go and error.go),
    and what zap hands to an encoder for a field ([Field.AddTo] of zapcore).

    A [Field] is a union: small values travel in the [int64] member and are
    converted back when the entry is written. *)

From stdpp Require Import base gmap strings list.
From Stdlib Require Import ZArith Lia.
From S2P Require Import Prelude GoString Proto.

(** Signed integers of [w] bits. *)
Definition sint (w z : Z) : Z := (z + 2 ^ (w - 1)) mod 2 ^ w - 2 ^ (w - 1).

Lemma sint_small w z : 0 < w → - 2 ^ (w - 1) ≤ z < 2 ^ (w - 1) → sint w z = z.
Proof.
  intros Hw Hz. unfold sint. rewrite Z.mod_small; [lia|].
  replace (2 ^ w) with (2 * 2 ^ (w - 1)); [lia|]. rewrite <- Z.pow_succ_r by lia. f_equal. lia.
Qed.

(** * Values *)

(** [time.Time]: the instant in nanoseconds of the epoch and its location
    ([Location] never returns nil). *)
Record Time : Type := MkTime { UnixNano : Z; Location : string }.

(** A scalar of a log entry; a float is its bits. *)
Inductive scalar : Type :=
| SBool (b : bool)
| SFloat64 (bits : Z)
| SFloat32 (bits : Z)
| SInt (n : Z)
| SInt64 (n : Z)
| SInt32 (n : Z)
| SInt16 (n : Z)
| SInt8 (n : Z)
| SUint (n : Z)
| SUint64 (n : Z)
| SUint32 (n : Z)
| SUint16 (n : Z)
| SUint8 (n : Z)
| SString (s : string)
| STime (t : Time)
| SDuration (d : Z).

(** What an encoder is asked to add or to append ([item]), and a value of
    [interface{}] by its dynamic type ([any]). An [ObjectMarshaler] is what its
    method adds and the error it returns, an [ArrayMarshaler] likewise;
    [AStringer] is a [fmt.Stringer]: its text, or what its method panics with;
    [AOther] stands for the types that zap leaves to reflection, with the error
    of the encoder. *)
Inductive item : Type :=
| IBool (b : bool)
| IBinary (b : bytes)
| IByteString (b : bytes)
| IDuration (d : Z)
| IFloat64 (bits : Z)
| IFloat32 (bits : Z)
| IInt (n : Z)
| IInt64 (n : Z)
| IInt32 (n : Z)
| IInt16 (n : Z)
| IInt8 (n : Z)
| IUint (n : Z)
| IUint64 (n : Z)
| IUint32 (n : Z)
| IUint16 (n : Z)
| IUint8 (n : Z)
| IString (s : string)
| ITime (t : Time)
| IReflected (v : any)
| INamespace
| IArray (l : list item)
| IObject (l : list (string * item))
with any : Type :=
| ANil
| AObject (added : list (string * item)) (err : option string)
| AArray (appended : list item) (err : option string)
| AScalar (s : scalar)
| APtr (p : option scalar)
| ABools (l : list bool)
| AFloat64s (l : list Z)
| AFloat32s (l : list Z)
| AInts (l : list Z)
| AInt64s (l : list Z)
| AInt32s (l : list Z)
| AInt16s (l : list Z)
| AInt8s (l : list Z)
| AUints (l : list Z)
| AUint64s (l : list Z)
| AUint32s (l : list Z)
| AUint16s (l : list Z)
| ABytes (b : bytes)
| AStrings (l : list string)
| ATimes (l : list Time)
| ADurations (l : list Z)
| AError (e : error)
| AErrors (l : list (option error))
| AStringer (s : string + string)
| AOther (v : string) (err : option string).

Definition ObjectMarshaler : Type := list (string * item) * option string.
Definition ArrayMarshaler : Type := list item * option string.

(** * zapcore/field.go *)

Inductive FieldType : Type :=
| UnknownType | ArrayMarshalerType | ObjectMarshalerType | BinaryType | BoolType
| ByteStringType | Complex128Type | Complex64Type | DurationType | Float64Type | Float32Type
| Int64Type | Int32Type | Int16Type | Int8Type | StringType | TimeType | TimeFullType
| Uint64Type | Uint32Type | Uint16Type | Uint8Type | UintptrType | ReflectType | NamespaceType
| StringerType | ErrorType | SkipType.

(** The [Interface] of a field: [Dyn ANil] is nil, [Loc] the [*time.Location]
    that goes with a time. *)
Inductive iface : Type :=
| Dyn (v : any)
| Loc (l : string).

(** [f_Integer] is an [int64]. *)
Record Field : Type := MkField {
  f_Key : string;
  f_Type : FieldType;
  f_Integer : Z;
  f_String : string;
  f_Interface : iface;
}.

Definition no_field (key : string) (t : FieldType) : Field :=
  MkField key t 0 EmptyString (Dyn ANil).
Definition int_field (key : string) (t : FieldType) (n : Z) : Field :=
  MkField key t n EmptyString (Dyn ANil).
Definition any_field (key : string) (t : FieldType) (v : any) : Field :=
  MkField key t 0 EmptyString (Dyn v).

(** [if err != nil { enc.AddString(fmt.Sprintf("%sError", f.Key), err.Error()) }] *)
Definition add_error (key : string) (err : option string) : list (string * item) :=
  match err with Some e => [(String.append key "Error", IString e)] | None => [] end.

(** [encodeError]: the errors of this program are neither groups of errors nor
    formatters. *)
Definition encodeError (key : string) (err : error) : list (string * item) :=
  [(key, IString (error_Error err))].

(** [encodeStringer]: a panic of the method is recovered. *)
Definition encodeStringer (key : string) (s : string + string) : list (string * item) :=
  match s with
  | inl s => [(key, IString s)]
  | inr v => add_error key (Some (String.append "PANIC=" v))
  end.

(** [AddTo]: the calls to the encoder; a wrong type of the [Interface], or an
    unknown [Type], panics. The program has no complex numbers and no
    [uintptr]. *)
Definition AddTo (f : Field) : outcome (list (string * item)) :=
  let k := f_Key f in
  let n := f_Integer f in
  let add (i : item) := Ret [(k, i)] in
  match f_Type f, f_Interface f with
  | ArrayMarshalerType, Dyn (AArray l e) => Ret ((k, IArray l) :: add_error k e)
  | ObjectMarshalerType, Dyn (AObject l e) => Ret ((k, IObject l) :: add_error k e)
  | BinaryType, Dyn (ABytes b) => add (IBinary b)
  | BoolType, _ => add (IBool (n =? 1))
  | ByteStringType, Dyn (ABytes b) => add (IByteString b)
  | DurationType, _ => add (IDuration n)
  | Float64Type, _ => add (IFloat64 (u64 n))
  | Float32Type, _ => add (IFloat32 (u32 n))
  | Int64Type, _ => add (IInt64 n)
  | Int32Type, _ => add (IInt32 (sint 32 n))
  | Int16Type, _ => add (IInt16 (sint 16 n))
  | Int8Type, _ => add (IInt8 (sint 8 n))
  | StringType, _ => add (IString (f_String f))
  | TimeType, Loc l => add (ITime (MkTime n l))
  | TimeType, Dyn ANil => add (ITime (MkTime n "Local"))
  | TimeFullType, Dyn (AScalar (STime t)) => add (ITime t)
  | Uint64Type, _ => add (IUint64 (u64 n))
  | Uint32Type, _ => add (IUint32 (u32 n))
  | Uint16Type, _ => add (IUint16 (u16 n))
  | Uint8Type, _ => add (IUint8 (u8 n))
  | ReflectType, Dyn v =>
      Ret ((k, IReflected v) :: add_error k (match v with AOther _ e => e | _ => None end))
  | NamespaceType, _ => add INamespace
  | StringerType, Dyn (AStringer s) => Ret (encodeStringer k s)
  | ErrorType, Dyn (AError e) => Ret (encodeError k e)
  | SkipType, _ => Ret []
  | _, _ => Panic
  end.

(** [addFields]. *)
Fixpoint addFields (fields : list Field) : outcome (list (string * item)) :=
  match fields with
  | [] => Ret []
  | f :: rest =>
      match AddTo f, addFields rest with
      | Ret l, Ret r => Ret (l ++ r)
      | Ret _, o => o
      | o, _ => o
      end
  end.

(** * zap's constructors *)

Module Zap.

Definition Skip : Field := no_field EmptyString SkipType.
Definition Reflect (key : string) (val : any) : Field := any_field key ReflectType val.
Definition nilField (key : string) : Field := Reflect key ANil.
Definition Binary (key : string) (val : bytes) : Field := any_field key BinaryType (ABytes val).
Definition Bool (key : string) (val : bool) : Field :=
  int_field key BoolType (if val then 1 else 0).
Definition ByteString (key : string) (val : bytes) : Field :=
  any_field key ByteStringType (ABytes val).
Definition Float64 (key : string) (val : Z) : Field := int_field key Float64Type (i64 val).
Definition Float32 (key : string) (val : Z) : Field := int_field key Float32Type (i64 val).
Definition Int64 (key : string) (val : Z) : Field := int_field key Int64Type val.
Definition Int (key : string) (val : Z) : Field := Int64 key (i64 val).
Definition Int32 (key : string) (val : Z) : Field := int_field key Int32Type (i64 val).
Definition Int16 (key : string) (val : Z) : Field := int_field key Int16Type (i64 val).
Definition Int8 (key : string) (val : Z) : Field := int_field key Int8Type (i64 val).
Definition Uint32 (key : string) (val : Z) : Field := int_field key Uint32Type (i64 val).
Definition Uint16 (key : string) (val : Z) : Field := int_field key Uint16Type (i64 val).
Definition Uint8 (key : string) (val : Z) : Field := int_field key Uint8Type (i64 val).
Definition Uint64 (key : string) (val : Z) : Field := int_field key Uint64Type (i64 val).
Definition Uint (key : string) (val : Z) : Field := Uint64 key (u64 val).
Definition String_ (key : string) (val : string) : Field :=
  MkField key StringType 0 val (Dyn ANil).
Definition Namespace (key : string) : Field := no_field key NamespaceType.
Definition Stringer (key : string) (val : string + string) : Field :=
  any_field key StringerType (AStringer val).

(** [_minTimeInt64] and [_maxTimeInt64]. *)
Definition Time_ (key : string) (val : Time) : Field :=
  if (UnixNano val <? - 2 ^ 63) || (2 ^ 63 - 1 <? UnixNano val)
  then any_field key TimeFullType (AScalar (STime val))
  else MkField key TimeType (UnixNano val) EmptyString (Loc (Location val)).

(** [stack] is what [takeStacktrace] returns. *)
Definition Stack (stack : string) (key : string) : Field := String_ key stack.
Definition Duration (key : string) (val : Z) : Field := int_field key DurationType val.
Definition Object (key : string) (val : ObjectMarshaler) : Field :=
  any_field key ObjectMarshalerType (AObject val.1 val.2).
Definition Array (key : string) (val : ArrayMarshaler) : Field :=
  any_field key ArrayMarshalerType (AArray val.1 val.2).

(** [NamedError]: a nil error is no field. *)
Definition NamedError (key : string) (err : option error) : Field :=
  match err with None => Skip | Some e => any_field key ErrorType (AError e) end.
Definition Error (err : option error) : Field := NamedError "error" err.

(** The types of array.go and error.go with their [MarshalLogArray]. *)
Definition marshal {A} (append : A → item) (l : list A) : ArrayMarshaler :=
  (append <$> l, None).
Definition errArray (errs : list (option error)) : ArrayMarshaler :=
  (IObject ∘ encodeError "error" <$> omap id errs, None).

Definition Bools (key : string) (bs : list bool) : Field := Array key (marshal IBool bs).
Definition ByteStrings (key : string) (bss : list bytes) : Field :=
  Array key (marshal IByteString bss).
Definition Durations (key : string) (ds : list Z) : Field := Array key (marshal IDuration ds).
Definition Float64s (key : string) (nums : list Z) : Field := Array key (marshal IFloat64 nums).
Definition Float32s (key : string) (nums : list Z) : Field := Array key (marshal IFloat32 nums).
Definition Ints (key : string) (nums : list Z) : Field := Array key (marshal IInt nums).
Definition Int64s (key : string) (nums : list Z) : Field := Array key (marshal IInt64 nums).
Definition Int32s (key : string) (nums : list Z) : Field := Array key (marshal IInt32 nums).
Definition Int16s (key : string) (nums : list Z) : Field := Array key (marshal IInt16 nums).
Definition Int8s (key : string) (nums : list Z) : Field := Array key (marshal IInt8 nums).
Definition Uints (key : string) (nums : list Z) : Field := Array key (marshal IUint nums).
Definition Uint64s (key : string) (nums : list Z) : Field := Array key (marshal IUint64 nums).
Definition Uint32s (key : string) (nums : list Z) : Field := Array key (marshal IUint32 nums).
Definition Uint16s (key : string) (nums : list Z) : Field := Array key (marshal IUint16 nums).
Definition Uint8s (key : string) (nums : list Z) : Field := Array key (marshal IUint8 nums).
Definition Strings (key : string) (ss : list string) : Field := Array key (marshal IString ss).
Definition Times (key : string) (ts : list Time) : Field := Array key (marshal ITime ts).
Definition Errors (key : string) (errs : list (option error)) : Field := Array key (errArray errs).

(** [Any]: the cases of its type switch for one scalar, and for a value. *)
Definition Scalar (key : string) (s : scalar) : Field :=
  match s with
  | SBool val => Bool key val
  | SFloat64 val => Float64 key val
  | SFloat32 val => Float32 key val
  | SInt val => Int key val
  | SInt64 val => Int64 key val
  | SInt32 val => Int32 key val
  | SInt16 val => Int16 key val
  | SInt8 val => Int8 key val
  | SUint val => Uint key val
  | SUint64 val => Uint64 key val
  | SUint32 val => Uint32 key val
  | SUint16 val => Uint16 key val
  | SUint8 val => Uint8 key val
  | SString val => String_ key val
  | STime val => Time_ key val
  | SDuration val => Duration key val
  end.

Definition Any (key : string) (value : any) : Field :=
  match value with
  | AObject added err => Object key (added, err)
  | AArray appended err => Array key (appended, err)
  | AScalar val => Scalar key val
  | APtr (Some val) => Scalar key val
  | APtr None => nilField key
  | ABools val => Bools key val
  | AFloat64s val => Float64s key val
  | AFloat32s val => Float32s key val
  | AInts val => Ints key val
  | AInt64s val => Int64s key val
  | AInt32s val => Int32s key val
  | AInt16s val => Int16s key val
  | AInt8s val => Int8s key val
  | AUints val => Uints key val
  | AUint64s val => Uint64s key val
  | AUint32s val => Uint32s key val
  | AUint16s val => Uint16s key val
  | ABytes val => Binary key val
  | AStrings val => Strings key val
  | ATimes val => Times key val
  | ADurations val => Durations key val
  | AError val => NamedError key (Some val)
  | AErrors val => Errors key val
  | AStringer val => Stringer key val
  | ANil | AOther _ _ => Reflect key value
  end.
End Zap.

(** * lib/log/logger.go *)

Module Log.
Definition Any (key : string) (value : any) : Field := Zap.Any key value.
Definition Array (key : string) (val : ArrayMarshaler) : Field := Zap.Array key val.
Definition Binary (key : string) (val : bytes) : Field := Zap.Binary key val.
Definition Bool (key : string) (val : bool) : Field := Zap.Bool key val.
Definition Bools (key : string) (bs : list bool) : Field := Zap.Bools key bs.
Definition ByteString (key : string) (val : bytes) : Field := Zap.ByteString key val.
Definition ByteStrings (key : string) (val : list bytes) : Field := Zap.ByteStrings key val.
Definition Duration (key : string) (val : Z) : Field := Zap.Duration key val.
Definition Durations (key : string) (ds : list Z) : Field := Zap.Durations key ds.
Definition Error (err : option error) : Field := Zap.Error err.
Definition NamedError (key : string) (err : option error) : Field := Zap.NamedError key err.
Definition Namespace (key : string) : Field := Zap.Namespace key.
Definition Errors (key : string) (errs : list (option error)) : Field := Zap.Errors key errs.
Definition Float64 (key : string) (val : Z) : Field := Zap.Float64 key val.
Definition Float64s (key : string) (vals : list Z) : Field := Zap.Float64s key vals.
Definition Float32 (key : string) (val : Z) : Field := Zap.Float32 key val.
Definition Float32s (key : string) (vals : list Z) : Field := Zap.Float32s key vals.
Definition Int (key : string) (val : Z) : Field := Zap.Int key val.
Definition Ints (key : string) (vals : list Z) : Field := Zap.Ints key vals.
Definition Int64 (key : string) (val : Z) : Field := Zap.Int64 key val.
Definition Int64s (key : string) (vals : list Z) : Field := Zap.Int64s key vals.
Definition Int32 (key : string) (val : Z) : Field := Zap.Int32 key val.
Definition Int32s (key : string) (vals : list Z) : Field := Zap.Int32s key vals.
Definition Int16 (key : string) (val : Z) : Field := Zap.Int16 key val.
Definition Int16s (key : string) (vals : list Z) : Field := Zap.Int16s key vals.
Definition Int8 (key : string) (val : Z) : Field := Zap.Int8 key val.
Definition Int8s (key : string) (vals : list Z) : Field := Zap.Int8s key vals.
Definition Uint (key : string) (val : Z) : Field := Zap.Uint key val.
Definition Uints (key : string) (vals : list Z) : Field := Zap.Uints key vals.
Definition Uint64 (key : string) (val : Z) : Field := Zap.Uint64 key val.
Definition Uint64s (key : string) (vals : list Z) : Field := Zap.Uint64s key vals.
Definition Uint32 (key : string) (val : Z) : Field := Zap.Uint32 key val.
Definition Uint32s (key : string) (vals : list Z) : Field := Zap.Uint32s key vals.
Definition Uint16 (key : string) (val : Z) : Field := Zap.Uint16 key val.
Definition Uint16s (key : string) (vals : list Z) : Field := Zap.Uint16s key vals.
Definition Uint8 (key : string) (val : Z) : Field := Zap.Uint8 key val.
Definition Uint8s (key : string) (vals : list Z) : Field := Zap.Uint8s key vals.
Definition String_ (key : string) (val : string) : Field := Zap.String_ key val.
Definition Strings (key : string) (ss : list string) : Field := Zap.Strings key ss.
Definition Time_ (key : string) (val : Time) : Field := Zap.Time_ key val.
Definition Times (key : string) (ts : list Time) : Field := Zap.Times key ts.
Definition Stack (stack : string) (key : string) : Field := Zap.Stack stack key.
Definition Object (key : string) (val : ObjectMarshaler) : Field := Zap.Object key val.
End Log.

(** * What a field puts into an entry *)

(** The range of a scalar's type. *)
Definition scalar_ok (s : scalar) : bool :=
  match s with
  | SBool _ | SString _ | STime _ => true
  | SFloat64 n | SUint n | SUint64 n => (0 <=? n) && (n <? 2 ^ 64)
  | SFloat32 n | SUint32 n => (0 <=? n) && (n <? 2 ^ 32)
  | SUint16 n => (0 <=? n) && (n <? 2 ^ 16)
  | SUint8 n => (0 <=? n) && (n <? 2 ^ 8)
  | SInt n | SInt64 n | SDuration n => (- 2 ^ 63 <=? n) && (n <? 2 ^ 63)
  | SInt32 n => (- 2 ^ 31 <=? n) && (n <? 2 ^ 31)
  | SInt16 n => (- 2 ^ 15 <=? n) && (n <? 2 ^ 15)
  | SInt8 n => (- 2 ^ 7 <=? n) && (n <? 2 ^ 7)
  end.

Definition any_ok (v : any) : bool :=
  match v with AScalar s | APtr (Some s) => scalar_ok s | _ => true end.

(** The value as an encoder gets it: an [int] or a [uint] at 64 bits. *)
Definition scalar_item (s : scalar) : item :=
  match s with
  | SBool b => IBool b
  | SFloat64 n => IFloat64 n
  | SFloat32 n => IFloat32 n
  | SInt n | SInt64 n => IInt64 n
  | SInt32 n => IInt32 n
  | SInt16 n => IInt16 n
  | SInt8 n => IInt8 n
  | SUint n | SUint64 n => IUint64 n
  | SUint32 n => IUint32 n
  | SUint16 n => IUint16 n
  | SUint8 n => IUint8 n
  | SString s => IString s
  | STime t => ITime t
  | SDuration d => IDuration d
  end.

Definition error_object (e : error) : item := IObject [("error"%string, IString (error_Error e))].

(** What an entry says of a value under the name [key]. *)
Definition entry_of (key : string) (v : any) : list (string * item) :=
  match v with
  | AObject l err => (key, IObject l) :: add_error key err
  | AArray l err => (key, IArray l) :: add_error key err
  | AScalar s | APtr (Some s) => [(key, scalar_item s)]
  | ANil | APtr None => [(key, IReflected ANil)]
  | ABools l => [(key, IArray (IBool <$> l))]
  | AFloat64s l => [(key, IArray (IFloat64 <$> l))]
  | AFloat32s l => [(key, IArray (IFloat32 <$> l))]
  | AInts l => [(key, IArray (IInt <$> l))]
  | AInt64s l => [(key, IArray (IInt64 <$> l))]
  | AInt32s l => [(key, IArray (IInt32 <$> l))]
  | AInt16s l => [(key, IArray (IInt16 <$> l))]
  | AInt8s l => [(key, IArray (IInt8 <$> l))]
  | AUints l => [(key, IArray (IUint <$> l))]
  | AUint64s l => [(key, IArray (IUint64 <$> l))]
  | AUint32s l => [(key, IArray (IUint32 <$> l))]
  | AUint16s l => [(key, IArray (IUint16 <$> l))]
  | ABytes b => [(key, IBinary b)]
  | AStrings l => [(key, IArray (IString <$> l))]
  | ATimes l => [(key, IArray (ITime <$> l))]
  | ADurations l => [(key, IArray (IDuration <$> l))]
  | AError e => [(key, IString (error_Error e))]
  | AErrors l => [(key, IArray (error_object <$> omap id l))]
  | AStringer (inl s) => [(key, IString s)]
  | AStringer (inr p) => [(String.append key "Error", IString (String.append "PANIC=" p))]
  | AOther _ err => (key, IReflected v) :: add_error key err
  end.

Lemma sint_i64 w z : 0 < w ≤ 64 → - 2 ^ (w - 1) ≤ z < 2 ^ (w - 1) → sint w (i64 z) = z.
Proof.
  intros Hw Hz. assert (2 ^ (w - 1) ≤ 2 ^ 63) by (apply Z.pow_le_mono_r; lia).
  rewrite i64_small by lia. apply sint_small; lia.
Qed.

Lemma u_i64 m z : (m | 2 ^ 64) → 0 ≤ z < m → i64 z mod m = z.
Proof.
  intros [k Hk] Hz. unfold i64. rewrite (Z.mod_eq (z + 2 ^ 63)) by lia.
  set (q := (z + 2 ^ 63) / 2 ^ 64). replace (z + 2 ^ 63 - 2 ^ 64 * q - 2 ^ 63) with (z + (- q * k) * m).
  - rewrite Z_mod_plus_full. by apply Z.mod_small.
  - rewrite Hk. lia.
Qed.

Lemma int_ok lo hi n : (lo <=? n) && (n <? hi) = true → lo ≤ n < hi.
Proof. rewrite andb_true_iff, Z.leb_le, Z.ltb_lt. done. Qed.

(** A scalar survives the [int64] of its field. *)
Lemma scalar_logged key s :
  scalar_ok s = true → AddTo (Zap.Scalar key s) = Ret [(key, scalar_item s)].
Proof.
  destruct s; simpl; try intros Hn%int_ok; try done.
  - by destruct b.
  - unfold AddTo, u64. simpl. rewrite u_i64; [done|by exists 1|done].
  - unfold AddTo, u32. simpl. rewrite u_i64; [done|by exists (2 ^ 32)|done].
  - unfold AddTo. simpl. by rewrite i64_small.
  - unfold AddTo. simpl. by rewrite (sint_i64 32) by lia.
  - unfold AddTo. simpl. by rewrite (sint_i64 16) by lia.
  - unfold AddTo. simpl. by rewrite (sint_i64 8) by lia.
  - unfold AddTo. simpl. unfold u64. rewrite (Z.mod_small n), u_i64; [done|by exists 1|done..].
  - unfold AddTo, u64. simpl. rewrite u_i64; [done|by exists 1|done].
  - unfold AddTo, u32. simpl. rewrite u_i64; [done|by exists (2 ^ 32)|done].
  - unfold AddTo, u16. simpl. rewrite u_i64; [done|by exists (2 ^ 48)|done].
  - unfold AddTo, u8. simpl. rewrite u_i64; [done|by exists (2 ^ 56)|done].
  - intros _. unfold Zap.Time_. destruct t as [n l]. simpl. by case_match.
Qed.

(** What is logged is what was given: for every value of the types that zap
    knows, [Any] makes a field that is written under its key with exactly that
    value; a nil error in a list is left out, a method that panics is reported,
    and so is an encoder that fails. *)
Theorem any_logged key v : any_ok v = true → AddTo (Log.Any key v) = Ret (entry_of key v).
Proof.
  destruct v as [| | |s|[s|]| | | | | | | | | | | | | | | | | |l|[s|p]|]; intros Hok; try done;
    by apply scalar_logged.
Qed.

(** The typed constructors are the cases of [Any], but for [uint8] slices and
    byte strings, which [Any] takes for binary data. *)
Lemma typed_is_any key :
  (∀ b, Log.Bool key b = Log.Any key (AScalar (SBool b))) ∧
  (∀ n, Log.Int key n = Log.Any key (AScalar (SInt n))) ∧
  (∀ n, Log.Int32 key n = Log.Any key (AScalar (SInt32 n))) ∧
  (∀ n, Log.Uint32 key n = Log.Any key (AScalar (SUint32 n))) ∧
  (∀ n, Log.Uint64 key n = Log.Any key (AScalar (SUint64 n))) ∧
  (∀ s, Log.String_ key s = Log.Any key (AScalar (SString s))) ∧
  (∀ t, Log.Time_ key t = Log.Any key (AScalar (STime t))) ∧
  (∀ d, Log.Duration key d = Log.Any key (AScalar (SDuration d))) ∧
  (∀ e, Log.NamedError key (Some e) = Log.Any key (AError e)) ∧
  (∀ l, Log.Strings key l = Log.Any key (AStrings l)) ∧
  (∀ b, Log.Binary key b = Log.Any key (ABytes b)) ∧
  (∀ b, AddTo (Log.Uint8s key b) = Ret [(key, IArray (IUint8 <$> b))]).
Proof. done. Qed.

Lemma addFields_app fs gs l r :
  addFields fs = Ret l → addFields gs = Ret r → addFields (fs ++ gs) = Ret (l ++ r).
Proof.
  revert l. induction fs as [|f fs IH]; intros l Hf Hg; simpl in *; [by simplify_eq|].
  destruct (AddTo f) as [lf| |]; [|done..]. destruct (addFields fs) as [lr| |]; [|done..].
  simplify_eq. by rewrite (IH lr), app_assoc.
Qed.

(** A nil error is no field, but a nil [err] that is logged with [Any], as the
    code does it, is written as null. *)
Lemma nil_error_logged key :
  AddTo (Log.Error None) = Ret [] ∧ AddTo (Log.Any key ANil) = Ret [(key, IReflected ANil)].
Proof. done. Qed.
