(* ===== verification/Logging.v ===== *)
(** Loggers and request ids: lib/log/logger.go, client/log/fuselog.go,
    lib/libfs/util/logger.go and util.go, over the parts of zap they use
    ([AtomicLevel], [Logger.With], the level check of [zapcore.Core]).

    A zap level is a cell that a logger's core and every logger derived from it
    point to; the cells are the state of this file's monad. *)

From stdpp Require Import base gmap strings list relations.
From Stdlib Require Import ZArith Lia Ascii.
From S2P Require Import Prelude GoString Proto Json JsonProof Config Fields.

(** * Levels *)

(** Zap's levels: debug -1, info 0, warn 1, error 2, dpanic 3, panic 4, fatal 5. *)
Definition strToLevel (strLevel : string) : Z :=
  let s := ToLower strLevel in
  if String.eqb s "debug" then -1
  else if String.eqb s "info" then 0
  else if String.eqb s "warn" then 1
  else if String.eqb s "error" then 2
  else if String.eqb s "dpanic" then 3
  else if String.eqb s "panic" then 4
  else if String.eqb s "fatal" then 5
  else 0.

(** An [AtomicLevel] is a pointer to a cell, nil in a zero value. *)
Abbreviation ML := (M (list Z)).

Definition NewAtomicLevel : ML nat := λ cells, Ret (length cells, cells ++ [0]).

Definition SetLevel (lvl : option nat) (l : Z) : ML unit :=
  match lvl with
  | None => panic
  | Some i => modify (<[i := l]>)
  end.

Definition Level (lvl : option nat) : ML Z :=
  match lvl with
  | None => panic
  | Some i => gets (λ cells, default 0 (cells !! i))
  end.

(** * lib/log/logger.go *)

(** [lumberjack.Logger]: the file a logger writes to. *)
Record Hook : Type := MkHook {
  Filename : string;
  hk_MaxSize : Z;
  hk_MaxBackups : Z;
  hk_MaxAge : Z;
  LocalTime : bool;
  hk_Compress : bool;
}.

(** The keys of [zapcore.EncoderConfig]; an empty key leaves its item out. *)
Record EncoderConfig : Type := MkEnc {
  TimeKey : string;
  LevelKey : string;
  NameKey : string;
  CallerKey : string;
  MessageKey : string;
  StacktraceKey : string;
}.

(** A [zap.Logger]: the cell its core asks, what it encodes with, where it
    writes ([None] is the standard output) and the fields added so far. *)
Record ZapLogger : Type := MkZap {
  core_level : nat;
  core_enc : EncoderConfig;
  core_out : option Hook;
  fields : list Field;
}.

Record Logger : Type := MkLogger {
  zl : ZapLogger;
  AtomicLevel : option nat;
  hook : option Hook;
}.

Definition new_hook (cfg : LogConfig) : Hook :=
  MkHook (LogFile cfg) (MaxSize cfg) (MaxBackups cfg) (MaxAge cfg) true (Compress cfg).

Definition encoderConfig : EncoderConfig :=
  MkEnc "time" "level" "logger" "file" "msg" "stacktrace".

Definition auditEncoderConfig : EncoderConfig :=
  MkEnc "time" EmptyString "logger" EmptyString EmptyString EmptyString.

Definition NewStdLogger (cfg : LogConfig) : ML Logger :=
  let! atomicLevel := NewAtomicLevel in
  SetLevel (Some atomicLevel) (strToLevel (LogLevel cfg)) ;;;
  ret (MkLogger (MkZap atomicLevel encoderConfig None []) (Some atomicLevel) None).

Definition NewLogger (cfg : LogConfig) : ML Logger :=
  let h := new_hook cfg in
  let! atomicLevel := NewAtomicLevel in
  SetLevel (Some atomicLevel) (strToLevel (LogLevel cfg)) ;;;
  ret (MkLogger (MkZap atomicLevel encoderConfig (Some h) []) (Some atomicLevel) (Some h)).

Definition NewAuditLogger (cfg : LogConfig) : ML Logger :=
  let h := new_hook cfg in
  let! atomicLevel := NewAtomicLevel in
  SetLevel (Some atomicLevel) 0 ;;;
  ret (MkLogger (MkZap atomicLevel auditEncoderConfig (Some h) []) (Some atomicLevel) (Some h)).

Definition SetStrLevel (log : Logger) (strLevel : string) : ML unit :=
  SetLevel (AtomicLevel log) (strToLevel strLevel).

(** [zap.Logger.With] keeps the core's level cell. *)
Definition zap_With (z : ZapLogger) (fs : list Field) : ZapLogger :=
  MkZap (core_level z) (core_enc z) (core_out z) (fields z ++ fs).

(** The [AtomicLevel] and the hook of the new logger are zero values. *)
Definition Logger_With (log : Logger) (fs : list Field) : Logger :=
  MkLogger (zap_With (zl log) fs) None None.

(** [Close]: the file that is closed, and the error of [Sync], which waits for
    what zap still buffers. *)
Definition Logger_Close (Sync : ZapLogger → option error) (log : Logger) : option Hook * option error :=
  (hook log, Sync (zl log)).

(** Whether an entry of level [lvl] is written. *)
Definition Enabled (log : Logger) (lvl : Z) : ML bool :=
  let! level := Level (Some (core_level (zl log))) in
  ret (level <=? lvl).

(** * client/log/fuselog.go *)

Definition DefaultLogger : ML Logger :=
  NewLogger (MkLogConfig "./cfa-fuse.log" "debug" 256 10 10 false).

(** * lib/libfs/util/logger.go *)

Definition SUB_REQ_ID := "sub-id"%string.

Record ClientLogger : Type := MkClientLogger {
  cl_Logger : Logger;
  ReqId : string;
  subId : string;
}.

(** [binary.LittleEndian.PutUint32] and [PutUint64]: [n] bytes of [v]. *)
Fixpoint put_le (n : nat) (v : Z) : bytes :=
  match n with
  | O => []
  | S n' => v mod 256 :: put_le n' (v / 256)
  end.

(** [base64.URLEncoding]: the standard alphabet with two letters changed. *)
Definition url_letter (c : Z) : Z :=
  if c =? 43 then 45 else if c =? 47 then 95 else c.

Definition defaultGenReqId (pid now : Z) : string :=
  bytes_str (map url_letter (b64_encode (put_le 4 pid ++ put_le 8 now))).

Definition util_NewLogger (logCfg : LogConfig) (pid now : Z) : ML ClientLogger :=
  let! logger := NewLogger logCfg in
  ret (MkClientLogger logger (defaultGenReqId pid now) EmptyString).

Definition CloneLoggerAssignReqId (log : ClientLogger) (reqId : string) : ClientLogger :=
  MkClientLogger (Logger_With (cl_Logger log) [Log.String_ ReqidKey reqId]) reqId EmptyString.

Definition CloneLogger (log : ClientLogger) (pid now : Z) : ClientLogger :=
  let reqId := defaultGenReqId pid now in
  MkClientLogger (Logger_With (cl_Logger log) [Log.String_ ReqidKey reqId]) reqId EmptyString.

Definition GenSubLogger (log : ClientLogger) (pid now : Z) : ClientLogger :=
  let reqId := defaultGenReqId pid now in
  MkClientLogger (Logger_With (cl_Logger log) [Log.String_ SUB_REQ_ID reqId]) (ReqId log) reqId.

Definition GetReqId (c : ClientLogger) : string :=
  if negb (String.eqb (subId c) EmptyString) then subId c else ReqId c.

(** * lib/libfs/util/util.go *)

(** [Hostname] is what [os.Hostname] returns. *)
Definition GetHostName (Hostname : string + error) : outcome string :=
  match Hostname with inl host => Ret host | inr _ => Panic end.

(** An address of an interface: of an [*net.IPNet] its text, whether it is a
    loopback address, and whether it has a four-byte form. *)
Inductive net_addr : Type :=
| IPNet (ip : string) (loopback to4 : bool)
| OtherAddr.

Definition usable_ip (a : net_addr) : option string :=
  match a with
  | IPNet ip false true => Some ip
  | _ => None
  end.

Definition GetIp (addrs : list net_addr + error) : outcome string :=
  match addrs with
  | inr _ => Panic
  | inl netAddr =>
      match omap usable_ip netAddr with
      | [] => Panic
      | ip :: _ => Ret ip
      end
  end.

(** * Request ids *)

Lemma put_le_bytes n : ∀ v, forallb is_byte (put_le n v) = true.
Proof.
  induction n as [|n IH]; intros v; [done|]. simpl. rewrite IH, andb_true_r.
  unfold is_byte. pose proof (Z.mod_pos_bound v 256 ltac:(lia)). zbool.
Qed.

Lemma put_le_inj n : ∀ v v',
  0 ≤ v < 256 ^ Z.of_nat n → 0 ≤ v' < 256 ^ Z.of_nat n → put_le n v = put_le n v' → v = v'.
Proof.
  induction n as [|n IH]; intros v v' Hv Hv'; [simpl in *; lia|].
  rewrite Nat2Z.inj_succ, Z.pow_succ_r in Hv, Hv' by lia. simpl. intros [= Hm Hd].
  apply IH in Hd; [|split; [apply Z.div_pos; lia|apply Z.div_lt_upper_bound; lia]..].
  pose proof (Z.div_mod v 256 ltac:(lia)). pose proof (Z.div_mod v' 256 ltac:(lia)). congruence.
Qed.

Lemma put_le_length n v : length (put_le n v) = n.
Proof. revert v. induction n as [|n IH]; intros v; simpl; [done|]. by rewrite IH. Qed.

(** The letters that the URL alphabet adds are not in the standard one. *)
Lemma b64_letters s :
  forallb is_byte s = true → Forall (λ c, c ≠ 45 ∧ c ≠ 95 ∧ 0 ≤ c < 256) (b64_encode s).
Proof.
  assert (∀ n, 0 ≤ n < 64 → enc6 n ≠ 45 ∧ enc6 n ≠ 95 ∧ 0 ≤ enc6 n < 256) as He.
  { intros n Hn. unfold enc6. repeat case_match; lia. }
  induction s as [|a|a b|a b c r IH] using three_ind; [done|..]; cbn [forallb b64_encode];
    rewrite ?andb_true_iff, ?is_byte_spec; intros Hb;
    repeat (apply Forall_cons; split); try apply Forall_nil; try done;
    try (apply He; Z.div_mod_to_equations; lia); try lia.
  apply IH. tauto.
Qed.

Lemma url_letter_inj l : ∀ l',
  Forall (λ c, c ≠ 45 ∧ c ≠ 95 ∧ 0 ≤ c < 256) l → Forall (λ c, c ≠ 45 ∧ c ≠ 95 ∧ 0 ≤ c < 256) l' →
  bytes_str (map url_letter l) = bytes_str (map url_letter l') → l = l'.
Proof.
  induction l as [|c l IH]; intros [|c' l'] Hl Hl'; simpl; try done.
  apply Forall_cons in Hl as [Hc Hl]. apply Forall_cons in Hl' as [Hc' Hl'].
  intros [= Ea E]. f_equal; [|by apply IH].
  assert (∀ x, (x ≠ 45 ∧ x ≠ 95 ∧ 0 ≤ x < 256) → 0 ≤ url_letter x < 256) as Hr
    by (intros x ?; unfold url_letter; repeat case_match; lia).
  assert (url_letter c = url_letter c') as Eu.
  { apply Z2Nat.inj; [by apply Hr..|].
    rewrite <- (nat_ascii_embedding (Z.to_nat (url_letter c))), Ea, nat_ascii_embedding; [done|..].
    - pose proof (Hr c' Hc'). lia.
    - pose proof (Hr c Hc). lia. }
  revert Eu. unfold url_letter.
  destruct (Z.eqb_spec c 43), (Z.eqb_spec c' 43); try lia; destruct (Z.eqb_spec c 47), (Z.eqb_spec c' 47); lia.
Qed.

Lemma defaultGenReqId_inj pid pid' t t' :
  0 ≤ pid < 2 ^ 32 → 0 ≤ pid' < 2 ^ 32 → 0 ≤ t < 2 ^ 64 → 0 ≤ t' < 2 ^ 64 →
  defaultGenReqId pid t = defaultGenReqId pid' t' → pid = pid' ∧ t = t'.
Proof.
  intros Hp Hp' Ht Ht' E. unfold defaultGenReqId in E.
  assert (∀ p x, forallb is_byte (put_le 4 p ++ put_le 8 x) = true) as Hb.
  { intros. by rewrite forallb_app, !put_le_bytes. }
  apply url_letter_inj in E; [|by apply b64_letters..].
  apply (f_equal b64_decode) in E. rewrite !b64_roundtrip in E by done.
  apply Some_inj, app_inj_1 in E as [E1 E2]; [|by rewrite !put_le_length].
  split; [by apply (put_le_inj 4)|by apply (put_le_inj 8)].
Qed.

Lemma defaultGenReqId_nonempty pid t : defaultGenReqId pid t ≠ EmptyString.
Proof. done. Qed.

(** Request ids identify requests.  What the header of a request carries is
    determined by the process and the nanosecond at which the request's logger
    was made, for clones and for sub-loggers alike: two requests have the same
    id only if they came from the same process at the same instant. *)
Theorem reqid_unique log log' pid pid' t t' (sub sub' : bool) :
  0 ≤ pid < 2 ^ 32 → 0 ≤ pid' < 2 ^ 32 → 0 ≤ t < 2 ^ 64 → 0 ≤ t' < 2 ^ 64 →
  GetReqId ((if sub then GenSubLogger else CloneLogger) log pid t) =
  GetReqId ((if sub' then GenSubLogger else CloneLogger) log' pid' t') ↔
  pid = pid' ∧ t = t'.
Proof.
  intros Hp Hp' Ht Ht'.
  assert (∀ b lg p x, GetReqId ((if b : bool then GenSubLogger else CloneLogger) lg p x) = defaultGenReqId p x)
    as Hid by (by intros []).
  rewrite !Hid. split; [by apply defaultGenReqId_inj|]. by intros [-> ->].
Qed.

(** * Levels of derived loggers *)

(** The loggers that [With], [CloneLogger] and [GenSubLogger] make. *)
Definition derives : relation Logger := λ log log', ∃ fs, log' = Logger_With log fs.

Lemma derived_core log log' : rtc derives log log' → core_level (zl log') = core_level (zl log).
Proof. induction 1 as [|x y z [fs ->] _ IH]; [done|]. by rewrite IH. Qed.

Lemma derived_level log log' :
  rtc derives log log' → log' = log ∨ AtomicLevel log' = None.
Proof.
  intros Hr. apply rtc_inv_r in Hr as [->|(y & _ & fs & ->)]; [by left|by right].
Qed.

(** A new logger has a cell of its own. *)
Lemma NewLogger_fresh cfg cells log cells' :
  NewLogger cfg cells = Ret (log, cells') →
  core_level (zl log) = length cells ∧ AtomicLevel log = Some (length cells) ∧
  cells' = cells ++ [strToLevel (LogLevel cfg)].
Proof.
  unfold NewLogger, bind, NewAtomicLevel, SetLevel, modify, ret. intros [= <- <-].
  split_and!; [done..|]. rewrite <- (Nat.add_0_r (length cells)) at 1. by rewrite insert_app_r.
Qed.

(** The level of a logger is the level of all its descendants.  Setting the
    level by name on the logger that [NewLogger] made lets the entries of each
    logger derived from it through exactly from that level on, and changes no
    other logger; setting it on a derived logger panics. *)
Theorem log_level_shared cfg cells log cells1 level log' lvl :
  NewLogger cfg cells = Ret (log, cells1) → rtc derives log log' →
  ∃ cells2, SetStrLevel log level cells1 = Ret (tt, cells2) ∧
    Enabled log' lvl cells1 = Ret (strToLevel (LogLevel cfg) <=? lvl, cells1) ∧
    Enabled log' lvl cells2 = Ret (strToLevel level <=? lvl, cells2) ∧
    (∀ other, (core_level (zl other) < length cells)%nat →
       ∃ b, Enabled other lvl cells = Ret (b, cells) ∧ Enabled other lvl cells2 = Ret (b, cells2)) ∧
    (log' ≠ log → SetStrLevel log' level cells2 = Panic).
Proof.
  intros Hn Hd. destruct (NewLogger_fresh _ _ _ _ Hn) as (Hc & Ha & ->).
  pose proof (derived_core _ _ Hd) as Hcore. unfold SetStrLevel. rewrite Ha.
  exists (cells ++ [strToLevel level]).
  assert (∀ x, Enabled log' lvl (cells ++ [x]) = Ret (x <=? lvl, cells ++ [x])) as He.
  { intros x. unfold Enabled, Level, gets, bind, ret. by rewrite Hcore, Hc, list_lookup_middle. }
  split_and!; [|apply He..| |].
  - simpl. unfold modify. rewrite <- (Nat.add_0_r (length cells)). by rewrite insert_app_r.
  - intros other Ho. unfold Enabled, Level, gets, bind, ret. rewrite lookup_app_l by done. eauto.
  - intros Hne. destruct (derived_level _ _ Hd) as [-> | ->]; done.
Qed.

(** ** What a derived logger writes and closes *)

(** Each entry of a request's logger carries the id that the request sends to
    the proxy, after what its parent's entries carry. *)
Lemma logged_reqid log pid t (sub : bool) l :
  addFields (fields (zl (cl_Logger log))) = Ret l →
  let c := (if sub then GenSubLogger else CloneLogger) log pid t in
  addFields (fields (zl (cl_Logger c))) =
    Ret (l ++ [(if sub then SUB_REQ_ID else ReqidKey, IString (GetReqId c))]).
Proof. intros Hl. by destruct sub; apply addFields_app. Qed.

(** Closing a derived logger closes no file: only the logger that [NewLogger]
    made has one. *)
Lemma derived_close log log' Sync :
  rtc derives log log' → log' ≠ log → (Logger_Close Sync log').1 = None.
Proof.
  intros Hr Hne. apply rtc_inv_r in Hr as [->|(y & _ & fs & ->)]; [done|]. reflexivity.
Qed.

Module LoggingExample.
Definition cfg1 : LogConfig := MkLogConfig "a.log" "warn" 100 3 7 false.

Lemma reqid_unique_witness :
  GetReqId (CloneLogger (MkClientLogger (MkLogger (MkZap 0 encoderConfig None []) None None) "r" "") 7 1000) ≠
  GetReqId (GenSubLogger (MkClientLogger (MkLogger (MkZap 0 encoderConfig None []) None None) "r" "") 7 1001).
Proof.
  intros H. apply (reqid_unique _ _ 7 7 1000 1001 false true) in H; lia.
Defined.

(** A debug entry of a request's logger appears after the level was lowered. *)
Lemma log_level_shared_witness :
  ∃ log cells1 cells2, NewLogger cfg1 [0] = Ret (log, cells1) ∧
    SetStrLevel log "Debug" cells1 = Ret (tt, cells2) ∧
    Enabled (Logger_With log [Log.String_ "X-ReqId" "r"]) (-1) cells1 = Ret (false, cells1) ∧
    Enabled (Logger_With log [Log.String_ "X-ReqId" "r"]) (-1) cells2 = Ret (true, cells2) ∧
    SetStrLevel (Logger_With log [Log.String_ "X-ReqId" "r"]) "Debug" cells2 = Panic.
Proof.
  destruct (NewLogger cfg1 [0]) as [[log cells1]| |] eqn:E; try discriminate E.
  destruct (log_level_shared cfg1 [0] log cells1 "Debug" (Logger_With log [Log.String_ "X-ReqId" "r"]) (-1) E)
    as (cells2 & H1 & H2 & H3 & _ & H5).
  - apply rtc_once. eexists. reflexivity.
  - exists log, cells1, cells2. split_and!; [reflexivity|exact H1|exact H2|exact H3|].
    apply H5. vm_compute in E. injection E as <- _. discriminate.
Defined.
End LoggingExample.
