(* ===== verification/Http.v ===== *)
(** The HTTP client (lib/libfs/http): host selection (selector.go), request
    headers (transport.go) and the request loop with its redirects (http.go).

    Go's [net/http] and [net/url] are parameters ([HttpEnv]); the state [HState]
    is the client object, everything behind it ([W]: clock, random source,
    network, servers) and a log of what the client did with the outside world. *)

From stdpp Require Import base gmap strings list.
From Stdlib Require Import ZArith Lia Permutation.
From S2P Require Import Prelude GoString Proto Config Json ProtoJson.

(** * selector.go *)

Record host : Type := MkHost {
  raw : string;
  lastFailedTime : Z;
}.

(** A [*host]: an entry of the selector's list or a host made by a redirect. *)
Inductive hostref : Type :=
| HIdx (i : nat)
| HNew (h : host).

Record selector : Type := MkSelector {
  tryTimes : Z;
  failRetryInterval : Z;
  hosts : list host;
  defaultHost : hostref;
}.

Definition StatusPermanentRedirect : Z := 308.
Definition MAX_REDIRECT_TIMES : Z := 10.

Record HttpReq : Type := MkHttpReq {
  hr_method : string;
  hr_url : string;
  hr_header : Header;
  hr_body : bytes;
}.

Record HttpResp : Type := MkHttpResp {
  StatusCode : Z;
  Location : string;
  RespBody : bytes;
}.

(** [client_Do] is [http.Client.Do]; [url_Parse] and [ref_Parse base loc] are
    [url.Parse] and [URL.Parse] with the scheme and the host of the result;
    [RequestURI] its path and query.  [now] reads the clock in milliseconds. *)
Class HttpEnv (W : Type) : Type := {
  client_Do : HttpReq → W → (option HttpResp * option error) * W;
  now : W → Z;
  rand_Intn : Z → W → nat * W;
  url_Parse : string → (string * string) + error;
  ref_Parse : string → string → (string * string) + error;
}.

(** What the client does with the outside world. *)
Inductive event : Type :=
| Sent (r : HttpReq)
| Slept (d : Z).

(** transport.go: the connection limits and the dialer's times (in nanoseconds)
    beside what [RoundTrip] puts into the headers. *)
Record Transport : Type := MkTransport {
  tr_user : UserInfo;
  tr_clientID : string;
  tr_cfg : Config;
  MaxConnsPerHost : Z;
  MaxIdleConnsPerHost : Z;
  dial_Timeout : Z;
  dial_KeepAlive : Z;
}.

Definition newTransport (user : UserInfo) (clientID : string) (cfaCfg : Config) : Transport :=
  MkTransport user clientID cfaCfg 128 128 (30 * Second) (30 * Second).

(** [hc_tr] and [hc_Timeout] are the fields of the [http.Client]. *)
Record HttpClient : Type := MkHttpClient {
  hc_cfg : HttpCfg;
  hc_tr : Transport;
  hc_Timeout : Z;
  hc_sel : selector;
  ClientId : string;
}.

Definition hc_user (c : HttpClient) : UserInfo := tr_user (hc_tr c).
Definition hc_clientID (c : HttpClient) : string := tr_clientID (hc_tr c).
Definition hc_config (c : HttpClient) : Config := tr_cfg (hc_tr c).

Record HState (W : Type) : Type := MkHState {
  hs_client : HttpClient;
  hs_world : W;
  hs_log : list event;
}.
Arguments MkHState {W} _ _ _.
Arguments hs_client {W} _.
Arguments hs_world {W} _.
Arguments hs_log {W} _.

Definition set_sel (s : selector) (c : HttpClient) : HttpClient :=
  MkHttpClient (hc_cfg c) (hc_tr c) (hc_Timeout c) s (ClientId c).

(** Retry on timeout only *)
Definition ShouldRetry (code : Z) (err : option error) : bool :=
  match err with
  | Some (ErrUrl _ _ true _) => true
  | None => false
  | Some e =>
      if Contains (error_Error e) "use of closed network connection" then true
      else Contains (error_Error e) "connection reset by peer"
  end.

Section Http.
Context {W : Type} `{HttpEnv W}.
Abbreviation HM := (M (HState W)).

Definition put_world (w : W) : HM unit :=
  modify (λ s, MkHState (hs_client s) w (hs_log s)).
Definition put_client (c : HttpClient) : HM unit :=
  modify (λ s, MkHState c (hs_world s) (hs_log s)).
Definition log_event (e : event) : HM unit :=
  modify (λ s, MkHState (hs_client s) (hs_world s) (hs_log s ++ [e])).

(** [log.Panic] on an empty list or a host that does not parse. *)
Definition add_scheme (h : string) : string :=
  if HasPrefix h "http" then h else String.append "http://" h.

Fixpoint parse_hosts (hs : list string) : outcome (list host) :=
  match hs with
  | [] => Ret []
  | h :: t =>
      match url_Parse (add_scheme h) with
      | inr _ => Panic
      | inl _ => match parse_hosts t with
                 | Ret l => Ret (MkHost (add_scheme h) 0 :: l)
                 | o => o
                 end
      end
  end.

Definition SetHosts (s : selector) (hs : list string) : outcome selector :=
  match hs with
  | [] => Panic
  | _ => match parse_hosts hs with
         | Ret l => Ret (MkSelector (tryTimes s) (failRetryInterval s) l (defaultHost s))
         | Panic => Panic
         | Block => Block
         end
  end.

Definition newSelector (hs : list string) (tries interval : Z) : outcome selector :=
  let interval := if interval =? 0 then 1 else interval in
  let tries := if (length hs =? 0)%nat && (tries =? 0) then 2 else tries in
  match SetHosts (MkSelector tries interval [] (HIdx 0)) hs with
  | Ret s => match hosts s with
             | [] => Panic
             | _ => Ret (MkSelector (tryTimes s) (failRetryInterval s) (hosts s) (HIdx 0))
             end
  | o => o
  end.

Definition GetTryTimes (s : selector) : Z :=
  if negb (tryTimes s =? 0) then tryTimes s else Zlen (hosts s).

(** The host a pointer designates. *)
Definition deref (s : selector) (r : hostref) : host :=
  match r with
  | HIdx i => nth i (hosts s) (MkHost EmptyString 0)
  | HNew h => h
  end.

Definition selector_update (s : selector) (r : hostref) : selector :=
  MkSelector (tryTimes s) (failRetryInterval s) (hosts s) r.

(** [h.SetFail]: a host of the list is shared with the selector. *)
Definition SetFail (r : hostref) : HM hostref :=
  let! s := get in
  let t := now (hs_world s) `div` 1000 in
  match r with
  | HNew h => ret (HNew (MkHost (raw h) t))
  | HIdx i =>
      let sel := hc_sel (hs_client s) in
      put_client (set_sel (MkSelector (tryTimes sel) (failRetryInterval sel)
        (alter (λ h, MkHost (raw h) t) i (hosts sel)) (defaultHost sel)) (hs_client s)) ;;;
      ret r
  end.

Definition IsPunished (h : host) (interval t : Z) : bool :=
  negb (lastFailedTime h =? 0) && (t - lastFailedTime h <? interval).

(** [ss[i] = ss[0]; return ss[1:], s], with [i] the random index. *)
Definition randomShrink (ss : list nat) (i : nat) : outcome (list nat * nat) :=
  match ss with
  | [] => Panic
  | [x] => Ret ([], x)
  | x :: _ => match ss !! i with
              | Some s => Ret (tail (<[i := x]> ss), s)
              | None => Panic
              end
  end.

(** [retrySelector.Get]: [retryHosts] is the argument and the first result.
    [make([]*host, 0, len(s.hosts)-1)] panics on an empty host list. *)
Definition retry_Get (retryHosts : list nat) : HM (list nat * option hostref) :=
  let! s := get in
  let sel := hc_sel (hs_client s) in
  let t := now (hs_world s) `div` 1000 in
  (if (length retryHosts =? 0)%nat && (length (hosts sel) =? 0)%nat then panic else ret tt) ;;;
  let rh := match retryHosts with
            | [] => filter (λ i, IsPunished (deref sel (HIdx i)) (failRetryInterval sel) t = false)
                           (seq 0 (length (hosts sel)))
            | _ => retryHosts
            end in
  match rh with
  | [] => ret ([], None)
  | _ =>
      let '(i, w') := if (length rh =? 1)%nat then (0%nat, hs_world s)
                      else rand_Intn (Zlen rh) (hs_world s) in
      put_world w' ;;;
      let! p := lift (randomShrink rh i) in
      ret (p.1, Some (HIdx p.2))
  end.

(** * http.go *)

(** [RetryReader] over a [bytes.Reader]: [ReadAt] at the reader's own offset;
    the flag is [io.EOF]. *)
Record RetryReader : Type := MkRetryReader {
  rr_Reader : bytes;
  rr_Offset : Z;
}.

Definition RetryReader_Read (p : RetryReader) (n : Z) : (bytes * bool) * RetryReader :=
  let got := take (Z.to_nat n) (drop (Z.to_nat (rr_Offset p)) (rr_Reader p)) in
  (got, Zlen got <? n, MkRetryReader (rr_Reader p) (rr_Offset p + Zlen got)).

(** A [bytes.Reader] has nothing to close. *)
Definition RetryReader_Close (p : RetryReader) : option error := None.

(** What the transport sends: it reads until EOF, [chunk] bytes at a time. *)
Fixpoint drain (fuel : nat) (chunk : Z) (p : RetryReader) : bytes :=
  match fuel with
  | O => []
  | S fuel' =>
      let '((got, eof), p') := RetryReader_Read p chunk in
      if eof then got else got ++ drain fuel' chunk p'
  end.

Definition body_chunk : Z := 32 * 1024.

Definition read_body (body : bytes) : bytes :=
  drain (S (length body)) body_chunk (MkRetryReader body 0).

(** [Transport.RoundTrip]: the headers it sets on every request. *)
Definition RoundTrip_header (c : HttpClient) (t : Z) (h : Header) : Header :=
  <[ReqTime := Itoa t]>
  (<[ReqClientId := hc_clientID c]>
  (<[ReqClientTag := cfg_at (hc_config c) CfgClientTag]>
  (<[ReqPkgName := cfg_at (hc_config c) CfgPackageName]>
  (<[ReqDevid := cfg_at (hc_config c) CfgDevId]>
  (<[ReqAppid := cfg_at (hc_config c) CfgAppId]>
  (<[ReqToken := Token (hc_user c)]>
  (<[ReqUid := Uid (hc_user c)]>
  (<["accept"%string := "application/json"%string]>
  (<["Content-Type"%string := "application/json"%string]> h))))))))).

(** [p.client.Do(req)]. *)
Definition do_request (req : HttpReq) : HM (option HttpResp * option error) :=
  let! s := get in
  let req' := MkHttpReq (hr_method req) (hr_url req)
                (RoundTrip_header (hs_client s) (now (hs_world s)) (hr_header req))
                (read_body (hr_body req)) in
  log_event (Sent req') ;;;
  let '(r, w') := client_Do req' (hs_world s) in
  put_world w' ;;;
  ret r.

Definition ErrIllegalParam : error := ErrNew "param is illegal".
Definition ErrRetryNeeded : error := ErrNew "req need retry".
Definition ErrAbnormalRespCode : error := ErrNew "abnormal resp code".

(** [p.ShouldRetry]. *)
Definition cli_ShouldRetry (c : HttpClient) (code : Z) (err : option error) : bool :=
  match cfg_ShouldRetry (hc_cfg c) with Some f => f code err | None => false end.

(** The deferred function: [h.raw] of a nil host panics. *)
Definition deferred (replaceHost : bool) (h : option hostref) : HM unit :=
  if replaceHost then
    match h with
    | None => panic
    | Some r => modify (λ s, MkHState
                  (set_sel (selector_update (hc_sel (hs_client s)) r) (hs_client s))
                  (hs_world s) (hs_log s))
    end
  else ret tt.

(** The loop of [doCtxWithHostRet]; [err] of the previous turn is always nil
    at its head.  Running out of fuel is [Block]. *)
Fixpoint doCtx_loop (fuel : nat) (req : HttpReq) (retryTimes redirectTime : Z)
    (h : hostref) (rs : list nat) (retryIdx redirectIdx : Z) (replaceHost : bool)
    : HM (option HttpResp * option error) :=
  match fuel with
  | O => block
  | S fuel' =>
      let! r := do_request req in
      match r with
      | (None, None) =>
          deferred replaceHost (Some h) ;;;
          ret (None, Some (ErrNew "http resp is nil, please check proto"))
      | (resp, Some err) => deferred replaceHost (Some h) ;;; ret (resp, Some err)
      | (Some resp, None) =>
          let code := StatusCode resp in
          if 400 <=? code then
            deferred replaceHost (Some h) ;;; ret (None, Some ErrAbnormalRespCode)
          else if code =? StatusPermanentRedirect then
            match ref_Parse (hr_url req) (Location resp) with
            | inr err => deferred replaceHost (Some h) ;;; ret (None, Some err)
            | inl (scheme, hst) =>
                let h' := HNew (MkHost (String.append scheme (String.append "://" hst)) 0) in
                if redirectTime <=? redirectIdx + 1 then
                  deferred replaceHost (Some h') ;;;
                  ret (None, Some (ErrNew (String.append "stopped after  "
                                     (String.append (Itoa redirectTime) " redirects"))))
                else doCtx_loop fuel' req retryTimes redirectTime h' rs retryIdx
                       (redirectIdx + 1) true
            end
          else
            let! s := get in
            if cli_ShouldRetry (hs_client s) code None then
              SetFail h ;;;
              let! g := retry_Get rs in
              match g with
              | (rs', Some h') =>
                  if retryIdx =? retryTimes - 1 then
                    deferred replaceHost (Some h') ;;; ret (None, None)
                  else doCtx_loop fuel' req retryTimes redirectTime h' rs' retryIdx
                         redirectIdx true
              | (_, None) => deferred replaceHost None ;;; ret (None, None)
              end
            else deferred replaceHost (Some h) ;;; ret (Some resp, None)
      end
  end.

Definition getRedirectTimes : Z := MAX_REDIRECT_TIMES.

(** [selector.Get]: the default host, which [newSelector] set, and the retry
    hosts of a fresh [retrySelector]. *)
Definition selector_Get (s : selector) : hostref * list nat := (defaultHost s, []).

Definition doCtxWithHostRet (fuel : nat) (req : HttpReq) : HM (option HttpResp * option error) :=
  let! s := get in
  let sel := hc_sel (hs_client s) in
  let '(h, rs) := selector_Get sel in
  doCtx_loop fuel req (GetTryTimes sel) getRedirectTimes h rs 0 0 false.

(** [http.NewRequest] fails on a URL that does not parse. *)
Definition newRequest (method urlStr : string) (body : bytes) : HttpReq + error :=
  match url_Parse urlStr with
  | inr err => inr err
  | inl _ => inl (MkHttpReq method urlStr ∅ body)
  end.

(** [result] is the response structure decoded into, returned with the
    error. *)
Definition DoPostWithJson (fuel : nat) (reqId api_uri : string) (params : Request)
    (result : Response) : HM (Response * option error) :=
  match Marshal params with
  | inr _ => ret (result, Some ErrIllegalParam)
  | inl msg =>
      match newRequest "POST" api_uri msg with
      | inr err => ret (result, Some err)
      | inl req =>
          let req := MkHttpReq (hr_method req) (hr_url req)
                       (<[ReqidKey := reqId]> (hr_header req)) (hr_body req) in
          let! r := doCtxWithHostRet fuel req in
          match r with
          | (_, Some err) => ret (result, Some err)
          | (None, None) => panic
          | (Some resp, None) => ret (Decode (RespBody resp) result)
          end
      end
  end.

(** [NewHttpClient] and [UpdateHosts]. *)
Definition NewHttpClient (cfg : HttpCfg) (user : UserInfo) (clientID : string)
    (cfaCfg : Config) : outcome HttpClient :=
  let cfg := MkHttpCfg (Hosts cfg) (TryTimes cfg) (ClientTimeoutMS cfg) (MaxFailsPeriodS cfg)
               (match cfg_ShouldRetry cfg with None => Some ShouldRetry | f => f end) in
  match newSelector (Hosts cfg) (TryTimes cfg) (MaxFailsPeriodS cfg) with
  | Ret sel => Ret (MkHttpClient cfg (newTransport user clientID cfaCfg)
                      (i64 (ClientTimeoutMS cfg * 1000000)) sel clientID)
  | Panic => Panic
  | Block => Block
  end.

Definition UpdateHosts (c : HttpClient) (hs : string) : outcome HttpClient :=
  match newSelector [hs] (TryTimes (hc_cfg c)) (-1) with
  | Ret sel =>
      Ret (MkHttpClient
             (MkHttpCfg [hs] (TryTimes (hc_cfg c)) (ClientTimeoutMS (hc_cfg c))
                (MaxFailsPeriodS (hc_cfg c)) (cfg_ShouldRetry (hc_cfg c)))
             (hc_tr c) (hc_Timeout c) sel (ClientId c))
  | Panic => Panic
  | Block => Block
  end.

(** * Properties *)

(** The body is sent whole on every attempt: each starts a fresh reader. *)
Lemma drain_all chunk data : 0 < chunk → ∀ fuel off, 0 ≤ off ≤ Zlen data →
  (Z.to_nat (Zlen data - off) < fuel)%nat →
  drain fuel chunk (MkRetryReader data off) = drop (Z.to_nat off) data.
Proof.
  intros Hc. induction fuel as [|fuel IH]; intros off Ho Hf; [lia|].
  cbn [drain RetryReader_Read rr_Offset rr_Reader]. set (rest := drop (Z.to_nat off) data).
  assert (Zlen rest = Zlen data - off) as Hr by (apply Zlen_drop; lia).
  destruct (Z.ltb_spec (Zlen (take (Z.to_nat chunk) rest)) chunk) as [Hlt|Hge].
  - apply take_ge. unfold Zlen in *. rewrite length_take in Hlt. lia.
  - assert (chunk ≤ Zlen rest) by (unfold Zlen in *; rewrite length_take in Hge; lia).
    rewrite Zlen_take in * by lia. rewrite IH by lia.
    replace (drop (Z.to_nat (off + chunk)) data) with (drop (Z.to_nat chunk) rest).
    + apply take_drop.
    + unfold rest. rewrite drop_drop. f_equal. lia.
Qed.

Lemma read_body_id data : read_body data = data.
Proof.
  unfold read_body. pose proof (Zlen_nonneg data).
  rewrite drain_all; [done|done|lia|unfold Zlen; lia].
Qed.

(** A sequence of exchanges with the outside world. *)
Definition answer : Type := option HttpResp * option error.

Inductive exchanges : list (HttpReq * answer) → W → W → Prop :=
| ex_nil w : exchanges [] w w
| ex_cons q a w w1 w' xs :
    client_Do q w = (a, w1) → exchanges xs w1 w' → exchanges ((q, a) :: xs) w w'.

Lemma exchanges_app xs ys w w1 w' :
  exchanges xs w w1 → exchanges ys w1 w' → exchanges (xs ++ ys) w w'.
Proof. induction 1; [done|]. intros. simpl. econstructor; eauto. Qed.

(** [q] is [req] with the transport's headers. *)
Definition same_request (req q : HttpReq) : Prop :=
  hr_method q = hr_method req ∧ hr_url q = hr_url req ∧ hr_body q = hr_body req ∧
  header_Get (hr_header q) ReqidKey = header_Get (hr_header req) ReqidKey.

Definition is_redirect (a : answer) : Prop :=
  ∃ resp, a = (Some resp, None) ∧ StatusCode resp = StatusPermanentRedirect.

(** The part of the client object a request never changes. *)
Definition client_fixed (c c' : HttpClient) : Prop :=
  hc_cfg c' = hc_cfg c ∧ hc_user c' = hc_user c ∧ hc_clientID c' = hc_clientID c ∧
  hc_config c' = hc_config c ∧ hosts (hc_sel c') = hosts (hc_sel c) ∧
  tryTimes (hc_sel c') = tryTimes (hc_sel c).

(** The client was built with the default retry predicate. *)
Definition default_retry (c : HttpClient) : Prop := cfg_ShouldRetry (hc_cfg c) = Some ShouldRetry.

(** One call of [doCtxWithHostRet]: between 1 and [n] exchanges of the same
    request, every one but the last answered by a redirect; no error exactly
    when the last answer has a status below 400 that is not a redirect, and
    then that answer is returned. *)
Definition call_post (n : Z) (req : HttpReq) (s : HState W) (r : answer) (s' : HState W) : Prop :=
  ∃ xs q a,
    exchanges (xs ++ [(q, a)]) (hs_world s) (hs_world s') ∧
    hs_log s' = hs_log s ++ map (λ x, Sent x.1) (xs ++ [(q, a)]) ∧
    Zlen (xs ++ [(q, a)]) ≤ n ∧
    Forall (λ x, same_request req x.1) (xs ++ [(q, a)]) ∧
    Forall (λ x, is_redirect x.2) xs ∧
    client_fixed (hs_client s) (hs_client s') ∧
    (r.2 = None ↔ ∃ resp, a = (Some resp, None) ∧ StatusCode resp < 400 ∧
                   StatusCode resp ≠ StatusPermanentRedirect) ∧
    (r.2 = None → r = a).

Lemma client_fixed_refl c : client_fixed c c.
Proof. by split_and!. Qed.

Lemma client_fixed_trans c1 c2 c3 :
  client_fixed c1 c2 → client_fixed c2 c3 → client_fixed c1 c3.
Proof. unfold client_fixed. intros (?&?&?&?&?&?) (?&?&?&?&?&?). split_and!; congruence. Qed.

Lemma wp_do_request req Q s :
  (∀ q a w', client_Do q (hs_world s) = (a, w') → same_request req q →
     Q a (MkHState (hs_client s) w' (hs_log s ++ [Sent q]))) →
  wp (do_request req) Q s.
Proof.
  intros HQ. unfold do_request. wp_steps. unfold log_event. wp_steps.
  destruct (client_Do _ (hs_world s)) as [a w'] eqn:E. unfold put_world. wp_steps.
  eapply HQ; [exact E|]. unfold same_request. simpl. rewrite read_body_id.
  split_and!; try done. unfold RoundTrip_header, header_Get.
  by rewrite !lookup_insert_ne by done.
Qed.

Lemma wp_deferred b r Q (s : HState W) :
  (∀ c, client_fixed (hs_client s) c → Q tt (MkHState c (hs_world s) (hs_log s))) →
  wp (deferred b (Some r)) Q s.
Proof.
  intros HQ. unfold deferred. destruct b; wp_steps.
  - apply HQ. by split_and!.
  - destruct s. apply HQ, client_fixed_refl.
Qed.

(** The last exchange of a call. *)
Lemma call_post_last n req s q a w' c r :
  1 ≤ n → client_Do q (hs_world s) = (a, w') → same_request req q →
  client_fixed (hs_client s) c →
  (r.2 = None ↔ ∃ resp, a = (Some resp, None) ∧ StatusCode resp < 400 ∧
                 StatusCode resp ≠ StatusPermanentRedirect) →
  (r.2 = None → r = a) →
  call_post n req s r (MkHState c w' (hs_log s ++ [Sent q])).
Proof.
  intros Hn E Hq Hc Hr Hr'. exists [], q, a. split_and!; simpl; try done.
  - econstructor; [done|constructor].
  - by constructor.
Qed.

(** A redirect before a call. *)
Lemma call_post_redirect n req s q resp w' r s' :
  client_Do q (hs_world s) = ((Some resp, None), w') →
  StatusCode resp = StatusPermanentRedirect → same_request req q →
  call_post (n - 1) req (MkHState (hs_client s) w' (hs_log s ++ [Sent q])) r s' →
  call_post n req s r s'.
Proof.
  intros E Hc Hq (xs & q' & a & Hx & Hl & Hn & Hs & Hr & Hf & Hres).
  exists ((q, (Some resp, None)) :: xs), q', a. split_and!; try done; simpl.
  - by econstructor.
  - rewrite Hl. simpl. by rewrite <- app_assoc.
  - unfold Zlen in *. simpl. lia.
  - by constructor.
  - constructor; [by eexists|done].
  - apply Hres.
  - apply Hres.
Qed.

Lemma doCtx_loop_spec req retryTimes redirectTime : ∀ fuel s h rs retryIdx redirectIdx b,
  default_retry (hs_client s) → redirectIdx < redirectTime →
  redirectTime - redirectIdx ≤ Z.of_nat fuel →
  wp (doCtx_loop fuel req retryTimes redirectTime h rs retryIdx redirectIdx b)
     (call_post (redirectTime - redirectIdx) req s) s.
Proof.
  induction fuel as [|fuel IH]; intros s h rs retryIdx redirectIdx b Hd Hlt Hf; [lia|].
  cbn [doCtx_loop]. wp_step. apply wp_do_request. intros q a w' E Hq.
  destruct a as [resp [err|]].
  - (* the error of [client.Do] *)
    assert (wp (deferred b (Some h) ;;; ret (resp, Some err))
      (call_post (redirectTime - redirectIdx) req s)
      (MkHState (hs_client s) w' (hs_log s ++ [Sent q]))) as Hw.
    { wp_step. apply wp_deferred. intros c Hc. wp_steps.
      apply (call_post_last _ _ _ _ (resp, Some err)); try done; [lia|].
      split; [done|]. by intros (? & ? & _). }
    by destruct resp.
  - destruct resp as [resp|].
    2: { wp_step. apply wp_deferred. intros c Hc. wp_steps.
         apply (call_post_last _ _ _ _ (None, None)); try done; [lia|].
         split; [done|]. by intros (? & ? & _). }
    destruct (Z.leb_spec 400 (StatusCode resp)).
    { wp_step. apply wp_deferred. intros c Hc. wp_steps.
      apply (call_post_last _ _ _ _ (Some resp, None)); try done; [lia|].
      split; [done|]. intros (? & ? & ? & _). simplify_eq. lia. }
    destruct (Z.eqb_spec (StatusCode resp) StatusPermanentRedirect) as [Hr|Hr].
    + assert (∀ r c, r.2 ≠ None → client_fixed (hs_client s) c →
        call_post (redirectTime - redirectIdx) req s r
          (MkHState c w' (hs_log s ++ [Sent q]))) as Hfail.
      { intros r c Hr2 Hc. apply (call_post_last _ _ _ _ (Some resp, None)); try done; [lia|].
        split; [done|]. intros (? & ? & _ & ?). by simplify_eq. }
      destruct (ref_Parse _ _) as [[scheme hst]|err].
      2: { wp_step. apply wp_deferred. intros c Hc. wp_steps. by apply Hfail. }
      destruct (Z.leb_spec redirectTime (redirectIdx + 1)).
      { wp_step. apply wp_deferred. intros c Hc. wp_steps. by apply Hfail. }
      eapply wp_mono; [|apply IH; [done|lia|lia]]. intros r s' Hp.
      eapply call_post_redirect; try done.
      by replace (redirectTime - redirectIdx - 1) with (redirectTime - (redirectIdx + 1)) by lia.
    + wp_steps. unfold cli_ShouldRetry. simpl. rewrite Hd. simpl.
      wp_step. apply wp_deferred. intros c Hc. wp_steps.
      apply (call_post_last _ _ _ _ (Some resp, None)); try done; [lia|].
      split; [|done]. intros _. by exists resp.
Qed.

Lemma doCtxWithHostRet_spec fuel req s :
  default_retry (hs_client s) → MAX_REDIRECT_TIMES ≤ Z.of_nat fuel →
  wp (doCtxWithHostRet fuel req) (call_post MAX_REDIRECT_TIMES req s) s.
Proof.
  intros Hd Hf. unfold doCtxWithHostRet. wp_steps.
  by apply (doCtx_loop_spec req (GetTryTimes (hc_sel (hs_client s))) MAX_REDIRECT_TIMES).
Qed.

(** One POST: either nothing was sent and an error is returned, or one call
    was made; success means that the last answer decoded without error. *)
Definition post_req (reqId url : string) (msg : bytes) : HttpReq :=
  MkHttpReq "POST" url (<[ReqidKey := reqId]> ∅) msg.

Definition post_post (reqId url : string) (params : Request) (result : Response)
    (s : HState W) (x : Response * option error) (s' : HState W) : Prop :=
  (s' = s ∧ x.1 = result ∧ x.2 ≠ None) ∨
  (∃ msg r, Marshal params = inl msg ∧
     call_post MAX_REDIRECT_TIMES (post_req reqId url msg) s r s' ∧
     match r with
     | (_, Some e) => x = (result, Some e)
     | (Some resp, None) => x = Decode (RespBody resp) result
     | (None, None) => False
     end).

Lemma DoPostWithJson_spec fuel reqId url params result s :
  default_retry (hs_client s) → MAX_REDIRECT_TIMES ≤ Z.of_nat fuel →
  wp (DoPostWithJson fuel reqId url params result) (post_post reqId url params result s) s.
Proof.
  intros Hd Hf. unfold DoPostWithJson.
  destruct (Marshal params) as [msg|e] eqn:Em; [|wp_steps; by left].
  unfold newRequest. destruct (url_Parse url) as [u|e]; [|wp_steps; by left]. simpl.
  wp_step. eapply wp_mono; [|by apply (doCtxWithHostRet_spec fuel (post_req reqId url msg))].
  intros [resp e] s' Hc. destruct e as [e|].
  - destruct resp; wp_steps; right; eexists _, _; (split_and!; [done|exact Hc|done]).
  - destruct resp as [resp|].
    + wp_steps. right. eexists _, _. split_and!; [done|exact Hc|done].
    + exfalso. destruct Hc as (xs & q & a & _ & _ & _ & _ & _ & _ & H1 & H2).
      destruct (proj1 H1 eq_refl) as (resp & -> & _). by specialize (H2 eq_refl).
Qed.

(** ** Host selection *)

Lemma randomShrink_ok ss i :
  ss ≠ [] → (i < length ss)%nat →
  ∃ ss' x, randomShrink ss i = Ret (ss', x) ∧ (x :: ss') ≡ₚ ss.
Proof.
  intros Hne Hi. destruct ss as [|x [|y l]]; [done|by exists [], x|].
  unfold randomShrink. destruct ((x :: y :: l) !! i) as [z|] eqn:E;
    [|apply lookup_ge_None in E; lia].
  eexists _, z. split; [done|]. destruct i as [|i]; simpl in *; simplify_eq; [done|].
  change (match i with 0%nat => x :: l | S j => y :: <[j:=x]> l end) with (<[i:=x]> (y :: l)).
  apply list_elem_of_split_length in E as (k1 & k2 & Hk & Hlen). rewrite Hk.
  rewrite insert_app_r_alt by lia. replace (i - length k1)%nat with 0%nat by lia. simpl.
  rewrite <- Permutation_middle. rewrite perm_swap. by rewrite <- Permutation_middle.
Qed.

Definition selector_ok (s : selector) : Prop :=
  hosts s ≠ [] ∧ Forall (λ h, HasPrefix (raw h) "http" = true ∧ lastFailedTime h = 0) (hosts s) ∧
  defaultHost s = HIdx 0 ∧ failRetryInterval s ≠ 0.

Lemma add_scheme_http h : HasPrefix (add_scheme h) "http" = true.
Proof.
  unfold add_scheme. destruct (HasPrefix h "http") eqn:E; [done|].
  change (String.append "http://" h) with (String.append "http" (String.append "://" h)).
  apply HasPrefix_app.
Qed.

Lemma parse_hosts_ok hs l :
  parse_hosts hs = Ret l →
  map raw l = map add_scheme hs ∧
  Forall (λ h, HasPrefix (raw h) "http" = true ∧ lastFailedTime h = 0) l.
Proof.
  revert l. induction hs as [|h hs IH]; simpl; intros l E; [by simplify_eq|].
  destruct (url_Parse _); [|done]. destruct (parse_hosts hs) as [l'| |]; simplify_eq.
  destruct (IH l' eq_refl) as [Hm Hf]. split; [simpl; by f_equal|].
  constructor; [split; [apply add_scheme_http|done]|done].
Qed.

Lemma newSelector_ok hs tries interval s :
  newSelector hs tries interval = Ret s →
  selector_ok s ∧ map raw (hosts s) = map add_scheme hs ∧ tryTimes s = tries.
Proof.
  unfold newSelector, SetHosts. destruct hs as [|h hs]; [done|].
  destruct (parse_hosts (h :: hs)) as [l| |] eqn:E; [|done..].
  apply parse_hosts_ok in E as [Hm Hf]. destruct l as [|x l]; [done|].
  simpl. intros Hs. injection Hs as <-. split; [split_and!|by split]; simpl; try done.
  zbool.
Qed.

Lemma NewHttpClient_ok cfg user cid cc c :
  NewHttpClient cfg user cid cc = Ret c →
  selector_ok (hc_sel c) ∧ map raw (hosts (hc_sel c)) = map add_scheme (Hosts cfg) ∧
  Hosts (hc_cfg c) = Hosts cfg ∧ Hosts cfg ≠ [] ∧
  (cfg_ShouldRetry cfg = None → default_retry c).
Proof.
  unfold NewHttpClient.
  destruct (newSelector _ _ _) as [sel| |] eqn:E; intros; simplify_eq/=.
  apply newSelector_ok in E as (Ho & Hm & _). split_and!; try done.
  - intros Hh. rewrite Hh in Hm. destruct Ho as [Ho _]. by destruct (hosts sel).
  - unfold default_retry. simpl. by intros ->.
Qed.

(** C16: one POST of a client built without a retry predicate of its own always
    returns, after at most ten exchanges, all of them the same request (same
    URL, same request id, the whole body again), each but the last answered by
    a redirect.  It succeeds only with the decoded body of an answer whose
    status is below 400 and not 308, and then the response is what that body
    decodes to; the client's configuration and host list are unchanged. *)
Theorem http_post cfg user cid cc c w l reqId url params result fuel :
  NewHttpClient cfg user cid cc = Ret c → cfg_ShouldRetry cfg = None → (10 ≤ fuel)%nat →
  ∃ r e s',
    DoPostWithJson fuel reqId url params result (MkHState c w l) = Ret ((r, e), s') ∧
    ∃ xs : list (HttpReq * answer),
      exchanges xs w (hs_world s') ∧
      hs_log s' = l ++ map (λ x, Sent x.1) xs ∧ (length xs ≤ 10)%nat ∧
      Forall (λ x, hr_url x.1 = url ∧ Marshal params = inl (hr_body x.1) ∧
                   header_Get (hr_header x.1) ReqidKey = reqId) xs ∧
      (∀ pre y, xs = pre ++ [y] → Forall (λ x, is_redirect x.2) pre) ∧
      client_fixed c (hs_client s') ∧
      (e = None → ∃ pre q resp, xs = pre ++ [(q, (Some resp, None))] ∧
         StatusCode resp < 400 ∧ StatusCode resp ≠ StatusPermanentRedirect ∧
         Decode (RespBody resp) result = (r, None)).
Proof.
  intros Hnew Hcfg Hf. apply NewHttpClient_ok in Hnew as (_ & _ & _ & _ & Hd).
  pose proof (DoPostWithJson_spec fuel reqId url params result (MkHState c w l) (Hd Hcfg)
                ltac:(unfold MAX_REDIRECT_TIMES; lia)) as Hwp.
  apply wp_run in Hwp as ([r e] & s' & Hrun & Hp). exists r, e, s'. split; [done|].
  destruct Hp as [(-> & _ & He)|(msg & a & Hm & Hc & Hx)].
  { exists []. split_and!; simpl; try done.
    - constructor.
    - by rewrite app_nil_r.
    - lia.
    - by destruct pre. }
  destruct Hc as (xs & q & an & Hex & Hl & Hn & Hs & Hr & Hfix & H1 & H2).
  exists (xs ++ [(q, an)]). split_and!; try done.
  - unfold Zlen, MAX_REDIRECT_TIMES in Hn. lia.
  - eapply Forall_impl; [exact Hs|]. intros x (_ & -> & -> & ->). simpl. split_and!; try done.
  - intros pre y Hy. apply app_inj_tail in Hy as [<- _]. done.
  - intros ->. destruct a as [[resp|] [er|]]; try done.
    destruct (proj1 H1 eq_refl) as (resp' & Ha & Hlt & Hne).
    specialize (H2 eq_refl). simplify_eq. exists xs, q, resp'. by split_and!.
Qed.

Lemma wp_retry_Get rh s Q :
  (∀ n w, 0 < n → (Z.of_nat (rand_Intn n w).1 < n)%Z) →
  hosts (hc_sel (hs_client s)) ≠ [] →
  let sel := hc_sel (hs_client s) in
  let t := now (hs_world s) `div` 1000 in
  let avail := match rh with
    | [] => filter (λ i, IsPunished (deref sel (HIdx i)) (failRetryInterval sel) t = false)
                   (seq 0 (length (hosts sel)))
    | _ => rh end in
  (avail = [] → Q ([], None) s) →
  (∀ i rh' w', (i :: rh') ≡ₚ avail →
     Q (rh', Some (HIdx i)) (MkHState (hs_client s) w' (hs_log s))) →
  wp (retry_Get rh) Q s.
Proof.
  intros Hrand Hne sel t avail Hnone Hsome. unfold retry_Get. wp_steps.
  rewrite (proj2 (Nat.eqb_neq (length (hosts _)) 0)), andb_false_r
    by (intros E%length_zero_iff_nil; done).
  wp_steps. fold sel t. fold avail. clearbody avail.
  destruct avail as [|x l]; [wp_steps; by apply Hnone|].
  set (av := x :: l) in *. assert (av ≠ []) as Hav by done. clearbody av.
  assert (0 < Zlen av) as Hpos by by apply Zlen_pos.
  destruct (if (length av =? 1)%nat then _ else _) as [i w'] eqn:Ei.
  assert (i < length av)%nat as Hi.
  { destruct (Nat.eqb_spec (length av) 1); simplify_eq; [unfold Zlen in Hpos; lia|].
    pose proof (Hrand (Zlen av) (hs_world s) Hpos) as Hr. rewrite Ei in Hr. simpl in Hr.
    unfold Zlen in *. lia. }
  unfold put_world. wp_steps.
  destruct (randomShrink_ok av i) as (rh' & y & E & Hp); [done..|].
  eapply wp_lift; [exact E|]. wp_steps. simpl. by apply Hsome.
Qed.

(** Picking the next host to retry.  With a non-empty host list it never
    panics and changes neither the client nor the log; a fresh round starts
    from the hosts that are not punished, and a host handed out leaves the
    round, so no host is handed out twice in it; [nil] is returned only when
    every host is punished. *)
Theorem retry_selector (rh : list nat) (s : HState W) :
  (∀ n w, 0 < n → Z.of_nat (rand_Intn n w).1 < n) →
  hosts (hc_sel (hs_client s)) ≠ [] → NoDup rh →
  let sel := hc_sel (hs_client s) in
  let t := now (hs_world s) `div` 1000 in
  ∃ rh' o w', retry_Get rh s = Ret ((rh', o), MkHState (hs_client s) w' (hs_log s)) ∧
    match o with
    | Some (HIdx i) =>
        ¬ (i ∈ rh') ∧ NoDup rh' ∧
        (rh ≠ [] → (i :: rh') ≡ₚ rh) ∧
        (rh = [] → (i < length (hosts sel))%nat ∧
           IsPunished (deref sel (HIdx i)) (failRetryInterval sel) t = false)
    | Some (HNew _) => False
    | None => rh = [] ∧ ∀ i, (i < length (hosts sel))%nat →
                IsPunished (deref sel (HIdx i)) (failRetryInterval sel) t = true
    end.
Proof.
  intros Hrand Hne Hnd sel t.
  set (Q := λ (x : list nat * option hostref) (s' : HState W), ∃ rh' o w',
    x = (rh', o) ∧ s' = MkHState (hs_client s) w' (hs_log s) ∧
    match o with
    | Some (HIdx i) => ¬ (i ∈ rh') ∧ NoDup rh' ∧ (rh ≠ [] → (i :: rh') ≡ₚ rh) ∧
        (rh = [] → (i < length (hosts sel))%nat ∧
           IsPunished (deref sel (HIdx i)) (failRetryInterval sel) t = false)
    | Some (HNew _) => False
    | None => rh = [] ∧ ∀ i, (i < length (hosts sel))%nat →
                IsPunished (deref sel (HIdx i)) (failRetryInterval sel) t = true
    end).
  assert (wp (retry_Get rh) Q s) as Hwp.
  { apply wp_retry_Get; [done..| |]; fold sel t.
    - intros Ha. exists [], None, (hs_world s). split; [done|split; [by destruct s|]].
      destruct rh; [|done]. split; [done|]. intros i Hi.
      destruct (IsPunished _ _ _) eqn:Ep; [done|].
      assert (i ∈ filter (λ i, IsPunished (deref sel (HIdx i)) (failRetryInterval sel) t = false)
                (seq 0 (length (hosts sel)))) as Hin
        by (apply list_elem_of_filter; split; [done|apply elem_of_seq; lia]).
      rewrite Ha in Hin. by apply not_elem_of_nil in Hin.
    - intros i rh' w' Hp. exists rh', (Some (HIdx i)), w'. split; [done|split; [done|]].
      assert (NoDup (i :: rh')) as Hnd'.
      { rewrite Hp. destruct rh; [|done]. apply NoDup_filter, NoDup_seq. }
      apply NoDup_cons in Hnd' as [Hi Hnd']. split_and!; [done..| |].
      + by destruct rh.
      + intros ->. assert (i ∈ i :: rh') as Hin by left. rewrite Hp in Hin.
        apply list_elem_of_filter in Hin as [? Hin]. apply elem_of_seq in Hin.
        split; [lia|done]. }
  apply wp_run in Hwp as (x & s' & Hrun & rh' & o & w' & -> & -> & Ho).
  by exists rh', o, w'.
Qed.

End Http.

(** * A scripted network *)

Module HttpExample.

(** The world is the list of answers to come; a clock that stands at 100 s. *)
#[export] Instance script_env : HttpEnv (list answer) := {
  client_Do q w := match w with
                   | a :: w' => (a, w')
                   | [] => ((None, Some (ErrNew "connection refused")), [])
                   end;
  now _ := 100000;
  rand_Intn n w := (0%nat, w);
  url_Parse u := inl ("http", u)%string;
  ref_Parse b u := inl ("http", u)%string;
}.

Definition cfg1 : HttpCfg := MkHttpCfg ["a"; "b"]%string 0 0 0 None.
Definition client1 : HttpClient :=
  match NewHttpClient (W := list answer) cfg1 (MkUserInfo "u" "t") "id" ∅ with
  | Ret c => c
  | _ => MkHttpClient cfg1 (newTransport (MkUserInfo "u" "t") "id" ∅) 0 (MkSelector 0 0 [] (HIdx 0)) "id"
  end.

(** One redirect, then an answer. *)
Definition script1 : list answer :=
  [(Some (MkHttpResp 308 "c" []), None);
   (Some (MkHttpResp 200 EmptyString (print (Response_json (zero_of (InoData zero_InoInfo))))), None)].

Lemma http_post_witness :
  ∃ r s', DoPostWithJson 10 "rid" "http://a/x" (StatRequest "/") StatResponse
            (MkHState client1 script1 []) = Ret ((r, None), s') ∧ Code r = 0 ∧
          length (hs_log s') = 2%nat.
Proof.
  destruct (http_post cfg1 (MkUserInfo "u" "t") "id" ∅ client1 script1 [] "rid" "http://a/x"
    (StatRequest "/") StatResponse 10) as (r & e & s' & Hrun & _);
    [vm_compute; reflexivity|reflexivity|lia|].
  vm_compute in Hrun. injection Hrun as <- <- <-.
  eexists _, _. split; [vm_compute; reflexivity|]. split; reflexivity.
Defined.

Lemma retry_selector_witness :
  ∃ rh' w', retry_Get [] (MkHState client1 script1 []) =
            Ret ((rh', Some (HIdx 0)), MkHState client1 w' []) ∧ 0%nat ∉ rh'.
Proof.
  destruct (retry_selector [] (MkHState client1 script1 [])) as (rh' & o & w' & Hrun & Ho);
    [simpl; intros; lia|done|constructor|].
  vm_compute in Hrun. injection Hrun as <- <- <-.
  eexists _, _. split; [vm_compute; reflexivity|]. apply Ho.
Defined.

(** The redirect's target is never contacted: both requests of the exchange
    above go to the URL of the first one. *)
Lemma redirect_same_url :
  ∃ r s', DoPostWithJson 10 "rid" "http://a/x" (StatRequest "/") StatResponse
            (MkHState client1 script1 []) = Ret ((r, None), s') ∧
    map (λ e, match e with Sent q => hr_url q | Slept _ => EmptyString end) (hs_log s')
    = ["http://a/x"; "http://a/x"]%string ∧
    defaultHost (hc_sel (hs_client s')) = HNew (MkHost "http://c" 0).
Proof. eexists _, _. split; [vm_compute; reflexivity|]. split; reflexivity. Qed.

(** [UpdateHosts] with a two-host configuration keeps one host whose address
    is the unsplit string. *)
Lemma update_hosts_unsplit :
  ∃ c, UpdateHosts (W := list answer) client1 "http://a,http://b" = Ret c ∧
    map raw (hosts (hc_sel c)) = ["http://a,http://b"]%string ∧
    Hosts (hc_cfg c) = ["http://a,http://b"]%string.
Proof. eexists. split; [vm_compute; reflexivity|]. split; reflexivity. Qed.
End HttpExample.
