(* ===== verification/ProxyClient.v ===== *)
(** The proxy client (lib/libfs/api/proxyclient.go): the retry loop around one
    POST and one method per proxy call; and the discharge of the caches'
    storage contract ([ProxyStore]) by the whole HTTP stack from a contract on
    single exchanges. *)

From stdpp Require Import base gmap strings list.
From Stdlib Require Import ZArith Lia.
From S2P Require Import Prelude GoString Proto Config Json JsonProof JsonCut ProtoJson ProtoJsonProof Http Store.

(** The client: how it talks HTTP, and how it retries. *)
Definition ProxyClient : Type := HttpClient * RetryCfg.

Definition NewProxyClient (io : HttpClient) (retryCfg : RetryCfg) : ProxyClient := (io, retryCfg).

Definition GetIoClient (c : ProxyClient) : HttpClient := c.1.

Definition toStatErrno (err : option error) (code : Z) : option error :=
  match err with
  | Some e => Some e
  | None => if code =? 0 then None else Some (ErrErrno code)
  end.

Definition retry (err : option error) (code : Z) : bool :=
  match err with
  | None => false
  | Some e =>
      if Contains (error_Error e) "connection refused" then true
      else if Contains (error_Error e) "use of closed network connection" then true
      else if Contains (error_Error e) "EOF" then true
      else if Contains (error_Error e) "connection reset by peer" then true
      else match e with
           | ErrUrl _ _ timeout temporary => timeout || temporary
           | _ => false
           end
  end.

(** An error of the decoder that is retried has left the result alone. *)
Lemma Decode_retry b r r' e :
  Decode b r = (r', Some e) → retry (Some e) (Code r') = true → r' = r.
Proof.
  intros E Hr. eapply Decode_unchanged; [exact E|]. destruct (unretried (Some e)) eqn:Hq; [|done].
  destruct e as [|m| |]; try discriminate Hq. cbn [unretried] in Hq. apply negb_true_iff in Hq.
  rewrite !orb_false_iff in Hq. destruct Hq as [[[H1 H2] H3] H4]. unfold retry in Hr. cbn [error_Error] in Hr.
  by rewrite H1, H2, H3, H4 in Hr.
Qed.

(** The struct a proxy call decodes its answer into, by its URL. *)
Definition result_of (uri : string) : Response :=
  if String.eqb uri UrlReaddir || String.eqb uri UrlReaddirEx then zero_of (DentrysData [])
  else if String.eqb uri UrlOpen then OpenResponse
  else if String.eqb uri UrlRead || String.eqb uri UrlGetxattr then zero_of (BytesData [])
  else if String.eqb uri UrlListxattr then ListxattrResponse
  else if String.eqb uri UrlStat then StatResponse
  else if String.eqb uri UrlStatfs then StatfsResponse
  else zero_Response.

(** Fuel of one POST: the redirect limit. *)
Definition post_fuel : nat := 10.

Section Client.
Context {W : Type} `{HttpEnv W}.
Abbreviation HM := (M (HState W)).

(** The retry configuration and the request id of the caller's logger. *)
Variable rc : RetryCfg.
Variable reqId : string.

(** [c.IoCli.Hosts[0] + api_uri]: an empty host list panics. *)
Definition target (api_uri : string) : HM string :=
  let! s := get in
  match Hosts (hc_cfg (hs_client s)) with
  | [] => panic
  | h :: _ => ret (String.append h api_uri)
  end.

(** Attempts [i], ..., [RetryTimes]; [n] of them are left. *)
Fixpoint try_loop (n : nat) (i : Z) (api_uri : string) (params : Request)
    (result : Response) (err : option error) : HM (Response * option error) :=
  match n with
  | O => ret (result, err)
  | S n' =>
      let! url := target api_uri in
      let! x := DoPostWithJson post_fuel reqId url params result in
      let '(result', err') := x in
      if negb (retry err' (Code result')) then ret (result', err')
      else
        log_event (Slept (i64 (i64 (i * RetryFactor rc) + RetryGap rc))) ;;;
        try_loop n' (i + 1) api_uri params result' err'
  end.

Definition tryReqProxy (api_uri : string) (params : Request) (result : Response)
    : HM (Response * option error) :=
  try_loop (Z.to_nat (RetryTimes rc + 1)) 0 api_uri params result None.

(** * The proxy calls *)

Definition ProxyClient_Unlink (path : string) : HM (Response * option error) :=
  tryReqProxy UrlUnlink (UnlinkRequest path) UnlinkResponse.

Definition ProxyClient_Link (path dstpath : string) : HM (Response * option error) :=
  tryReqProxy UrlLink (LinkRequest path dstpath) LinkResponse.

Definition ProxyClient_SymLink (path dstpath : string) : HM (Response * option error) :=
  tryReqProxy UrlSymLink (SymlinkRequest path dstpath) SymlinkResponse.

Definition ProxyClient_MkDir (path : string) (mode : Z) : HM (Response * option error) :=
  tryReqProxy UrlMkdir (MkdirRequest path mode) MkdirResponse.

Definition ProxyClient_ReadDir (path : string) : HM (Response * option error) :=
  tryReqProxy UrlReaddir (ReaddirRequest path) ReaddirResponse.

Definition ProxyClient_ReadDirEx (path startKey : string) (count : Z) : HM (Response * option error) :=
  tryReqProxy UrlReaddirEx (ReaddirExRequest path startKey count) ReaddirExResponse.

Definition ProxyClient_RmDir (path : string) : HM (Response * option error) :=
  tryReqProxy UrlRmdir (RmdirRequest path) RmdirResponse.

Definition ProxyClient_RmDirTree (path : string) : HM (Response * option error) :=
  tryReqProxy UrlRmdirtree (RmdirTreeRequest path) RmdirTreeResponse.

Definition ProxyClient_Open (path : string) (flag mode : Z) : HM (Response * option error) :=
  tryReqProxy UrlOpen (OpenRequest path flag mode) OpenResponse.

Definition ProxyClient_Read (id offset length : Z) : HM (Response * option error) :=
  tryReqProxy UrlRead (ReadRequest id offset length) ReadResponse.

Definition ProxyClient_Write (id : Z) (buffer : bytes) (offset : Z) : HM (Response * option error) :=
  tryReqProxy UrlWrite (WriteRequest id offset (u64 (Zlen buffer)) buffer) WriteResponse.

Definition ProxyClient_Truncate (path : string) (length : Z) : HM (Response * option error) :=
  tryReqProxy UrlTruncate (TruncateRequest path length) TruncateResponse.

Definition ProxyClient_SetXattr (path : string) (flag : Z) (name : string) (value : bytes) : HM (Response * option error) :=
  tryReqProxy UrlSetxattr (SetxattrRequest path flag name value) SetxattrResponse.

Definition ProxyClient_GetXattr (path name : string) : HM (Response * option error) :=
  tryReqProxy UrlGetxattr (GetxattrRequest path name) GetxattrResponse.

Definition ProxyClient_ListXAttr (path : string) : HM (Response * option error) :=
  tryReqProxy UrlListxattr (GetxattrRequest path EmptyString) ListxattrResponse.

Definition ProxyClient_RmXAttr (path name : string) : HM (Response * option error) :=
  tryReqProxy UrlRemovexattr (RemovexattrRequest path name) RemovexattrResponse.

Definition ProxyClient_Chmod (path : string) (mode : Z) : HM (Response * option error) :=
  tryReqProxy UrlSetattr (SetAttrRequest path
    (MkSetAttr SetAclFlagChangeMode 0 0 0 0 mode EmptyString EmptyString)) SetAttrResponse.

Definition ProxyClient_Chown (path : string) (uid gid : Z) : HM (Response * option error) :=
  tryReqProxy UrlSetattr (SetAttrRequest path
    (MkSetAttr (Z.lor SetAclFlagChangeUid SetAclFlagChangeGid) uid gid 0 0 0 EmptyString EmptyString)) SetAttrResponse.

Definition ProxyClient_ChownEx (path owner group : string) : HM (Response * option error) :=
  tryReqProxy UrlSetattr (SetAttrRequest path
    (MkSetAttr (Z.lor SetAclFlagChangeOwner SetAclFlagChangeGroup) 0 0 0 0 0 owner group)) SetAttrResponse.

Definition ProxyClient_Rename (path dstPath : string) : HM (Response * option error) :=
  tryReqProxy UrlRename (RenameRequest path dstPath) RenameResponse.

Definition ProxyClient_Stat (path : string) : HM (Response * option error) :=
  tryReqProxy UrlStat (StatRequest path) StatResponse.

Definition ProxyClient_StatFs (path : string) : HM (Response * option error) :=
  tryReqProxy UrlStatfs (StatfsRequest path) StatfsResponse.

Definition ProxyClient_Utime (path : string) (utime atime : Z) : HM (Response * option error) :=
  tryReqProxy UrlSetattr (SetAttrRequest path
    (MkSetAttr (Z.lor SetAclFlagChangeATime SetAclFlagChangeMTime) 0 0 utime atime 0 EmptyString EmptyString)) SetAttrResponse.

Definition ProxyClient_Fsync (id : Z) : HM (Response * option error) :=
  tryReqProxy UrlFsync (FsyncRequest id) FsyncResponse.

(** * The retry loop, for any description of single exchanges

    [T w w'] holds across any number of exchanges of the request, [G w r w']
    when the last of them was answered with the response [r]. *)
Section Attempts.
Variables (api_uri base : string) (params : Request) (result0 : Response).
Variable T : W → W → Prop.
Variable G : W → Response → W → Prop.

Definition wire (q : HttpReq) : Prop :=
  hr_url q = String.append base api_uri ∧ Marshal params = inl (hr_body q).

Hypothesis T_refl : ∀ w, T w w.
Hypothesis T_trans : ∀ w1 w2 w3, T w1 w2 → T w2 w3 → T w1 w3.
Hypothesis T_step : ∀ q a w w', wire q → client_Do q w = (a, w') → T w w'.
Hypothesis G_step : ∀ q resp r w w', wire q → client_Do q w = ((Some resp, None), w') →
  StatusCode resp < 400 → StatusCode resp ≠ StatusPermanentRedirect →
  Decode (RespBody resp) result0 = (r, None) → G w r w'.
Hypothesis G_pre : ∀ w1 w2 r w3, T w1 w2 → G w2 r w3 → G w1 r w3.
Lemma exchanges_T xs w w' : Forall (λ x, wire x.1) xs → exchanges xs w w' → T w w'.
Proof.
  intros Hf Hx. induction Hx as [|q a w w1 w' xs E Hx IH]; [done|].
  inversion_clear Hf. eapply T_trans; [by eapply T_step|auto].
Qed.

Lemma exchanges_snoc xs q a w w' :
  exchanges (xs ++ [(q, a)]) w w' → ∃ w1, exchanges xs w w1 ∧ client_Do q w1 = (a, w').
Proof.
  revert w. induction xs as [|[q0 a0] xs IH]; simpl; intros w Hx; inversion Hx as [|?? ? w1]; subst.
  - exists w. split; [constructor|]. match goal with H : exchanges [] _ _ |- _ => by inversion H; subst end.
  - match goal with H : exchanges (xs ++ _) _ _ |- _ => destruct (IH _ H) as (w2 & ? & ?) end.
    exists w2. split; [by econstructor|done].
Qed.

Lemma post_TG s x s' :
  post_post reqId (String.append base api_uri) params result0 s x s' →
  T (hs_world s) (hs_world s') ∧ (x.2 = None → G (hs_world s) x.1 (hs_world s')) ∧
  (retry x.2 (Code x.1) = true → x.1 = result0) ∧
  client_fixed (hs_client s) (hs_client s').
Proof.
  intros [(-> & H1 & H2)|(msg & r & Hm & Hc & Hx)].
  { split_and!; auto using client_fixed_refl. by intros ?. }
  destruct Hc as (xs & q & a & Hex & _ & _ & Hs & _ & Hfix & Hok & Hra).
  assert (Forall (λ x, wire x.1) (xs ++ [(q, a)])) as Hw.
  { eapply Forall_impl; [exact Hs|]. intros y (_ & Hu & Hb & _). split; [done|].
    rewrite Hb. exact Hm. }
  assert (T (hs_world s) (hs_world s')) as HT by by eapply exchanges_T.
  apply Forall_app in Hw as [Hw Hq]. apply Forall_inv in Hq. simpl in Hq.
  apply exchanges_snoc in Hex as (w1 & Hex & E).
  split_and!; [done| | |done].
  - intros Hn. destruct r as [[resp|] [er|]]; try done; simplify_eq/=.
    destruct (proj1 Hok eq_refl) as (resp' & -> & Hlt & Hne). specialize (Hra eq_refl).
    simplify_eq. destruct (Decode (RespBody resp') result0) as [r e] eqn:Ed.
    simplify_eq/=. eapply G_pre; [by eapply exchanges_T|]. by apply (G_step q resp').
  - destruct r as [[resp|] [er|]]; simplify_eq/=; try done.
    destruct (Decode (RespBody resp) result0) as [r [e|]] eqn:Ed; simpl; [|done].
    intros. by eapply Decode_retry.
Qed.

Lemma try_loop_TG hs : ∀ n i result err s,
  default_retry (hs_client s) → Hosts (hc_cfg (hs_client s)) = base :: hs →
  result = result0 → (n = O → err ≠ None) →
  wp (try_loop n i api_uri params result err)
     (λ x s', T (hs_world s) (hs_world s') ∧ client_fixed (hs_client s) (hs_client s') ∧
              (x.2 = None → G (hs_world s) x.1 (hs_world s'))) s.
Proof.
  induction n as [|n IH]; intros i result err s Hd Hh -> Hn.
  { simpl. wp_steps. split_and!; auto using client_fixed_refl. by intros ?%Hn. }
  cbn [try_loop]. wp_step. unfold target. wp_steps. rewrite Hh. wp_steps.
  eapply wp_mono; [|apply DoPostWithJson_spec; [done|unfold MAX_REDIRECT_TIMES, post_fuel; lia]].
  intros [r e] s1 Hp. destruct (post_TG _ _ _ Hp) as (HT & HG & Hr & Hf). simpl in *.
  destruct (retry e (Code r)) eqn:Er; simpl; [|wp_steps; done].
  wp_step. unfold log_event. wp_steps.
  eapply wp_mono; [|apply IH]; simpl.
  - intros x s' (HT' & Hf' & HG'). split_and!; [by eapply T_trans|by eapply client_fixed_trans|].
    intros Hx. eapply G_pre; [done|]. auto.
  - unfold default_retry. destruct Hf as (-> & _). done.
  - by destruct Hf as (-> & _).
  - auto.
  - intros _ ->. done.
Qed.

Lemma tryReqProxy_TG hs s :
  default_retry (hs_client s) → Hosts (hc_cfg (hs_client s)) = base :: hs →
  0 ≤ RetryTimes rc →
  wp (tryReqProxy api_uri params result0)
     (λ x s', T (hs_world s) (hs_world s') ∧ client_fixed (hs_client s) (hs_client s') ∧
              (x.2 = None → G (hs_world s) x.1 (hs_world s'))) s.
Proof.
  intros Hd Hh Hr. unfold tryReqProxy. eapply try_loop_TG; try done. lia.
Qed.
End Attempts.

(** ** Bounds *)

Definition is_sent (e : event) : bool := match e with Sent _ => true | Slept _ => false end.
Definition sents (l : list event) : nat := length (List.filter is_sent l).
Definition sleeps (l : list event) : nat := length (List.filter (λ e, negb (is_sent e)) l).

(** The events of a call: at most [n] POSTs of at most ten exchanges each, all
    to the same URL, with a pause after each failed POST. *)
Definition call_events (url : string) (n : nat) (evs : list event) : Prop :=
  (sents evs ≤ 10 * n)%nat ∧ (sleeps evs ≤ n)%nat ∧
  Forall (λ e, match e with Sent q => hr_url q = url | Slept _ => True end) evs.

Lemma call_events_app url n m evs evs' :
  call_events url n evs → call_events url m evs' → call_events url (n + m) (evs ++ evs').
Proof.
  intros (H1 & H2 & H3) (H4 & H5 & H6). unfold call_events, sents, sleeps in *.
  rewrite !List.filter_app, !length_app. split_and!; [lia|lia|by apply Forall_app].
Qed.

Lemma sents_map {A} (f : A → HttpReq) l : sents (map (λ x, Sent (f x)) l) = length l.
Proof. unfold sents. induction l; simpl; auto. Qed.

Lemma sleeps_map {A} (f : A → HttpReq) l : sleeps (map (λ x, Sent (f x)) l) = 0%nat.
Proof. unfold sleeps. induction l; simpl; auto. Qed.

Lemma post_events url params result s x s' :
  post_post reqId url params result s x s' →
  client_fixed (hs_client s) (hs_client s') ∧
  ∃ evs, hs_log s' = hs_log s ++ evs ∧ (sents evs ≤ 10)%nat ∧ sleeps evs = 0%nat ∧
         Forall (λ e, match e with Sent q => hr_url q = url | Slept _ => True end) evs.
Proof.
  intros [(-> & _ & _)|(msg & r & _ & (xs & q & a & _ & Hl & Hn & Hs & _ & Hf & _) & _)].
  - split; [apply client_fixed_refl|]. exists []. rewrite app_nil_r. split_and!; try done; cbn; lia.
  - split; [done|]. eexists. split; [exact Hl|].
    rewrite (sents_map (λ x, x.1)), (sleeps_map (λ x, x.1)). split_and!; [|done|].
    + unfold Zlen, MAX_REDIRECT_TIMES in Hn. lia.
    + apply Forall_map. eapply Forall_impl; [exact Hs|]. intros y (_ & Hu & _). exact Hu.
Qed.

Lemma try_loop_events api_uri params base hs : ∀ n i result err s,
  default_retry (hs_client s) → Hosts (hc_cfg (hs_client s)) = base :: hs →
  wp (try_loop n i api_uri params result err)
     (λ x s', client_fixed (hs_client s) (hs_client s') ∧
        ∃ evs, hs_log s' = hs_log s ++ evs ∧ call_events (String.append base api_uri) n evs) s.
Proof.
  induction n as [|n IH]; intros i result err s Hd Hh.
  { simpl. wp_steps. split; [apply client_fixed_refl|]. exists [].
    rewrite app_nil_r. unfold call_events. split_and!; try done; cbn; lia. }
  cbn [try_loop]. wp_step. unfold target. wp_steps. rewrite Hh. wp_steps.
  eapply wp_mono; [|apply DoPostWithJson_spec; [done|unfold MAX_REDIRECT_TIMES, post_fuel; lia]].
  intros [r e] s1 Hp. apply post_events in Hp as (Hf & evs & Hl & H1 & H2 & H3).
  destruct (retry e (Code r)); simpl.
  2: { wp_steps. split; [done|]. exists evs. split; [done|]. split_and!; [lia|lia|done]. }
  wp_step. unfold log_event. wp_steps.
  set (d := i64 (i64 (i * RetryFactor rc) + RetryGap rc)).
  eapply wp_mono; [|apply IH]; simpl.
  - intros x s' (Hf' & evs' & Hl' & Hev). split; [by eapply client_fixed_trans|].
    exists ((evs ++ [Slept d]) ++ evs'). rewrite Hl', Hl. split; [by rewrite !app_assoc|].
    apply (call_events_app _ 1); [|done].
    unfold call_events, sents, sleeps in *. rewrite !List.filter_app, !length_app. simpl.
    split_and!; [lia|lia|]. apply Forall_app. split; [done|by constructor].
  - unfold default_retry. destruct Hf as (-> & _). done.
  - by destruct Hf as (-> & _).
Qed.


(** C17: an answer that is cut short is never mistaken for another one.  Whatever
    strict prefix of the JSON text of a response arrives, decoding it reports
    an error that the client retries, and nothing of it is stored. *)
Theorem cut_answer_retried (r result : Response) (p : bytes) :
  Response_ok r = true → cutof p (print (Response_json r)) →
  ∃ e, Decode p result = (result, Some e) ∧ retry (Some e) (Code result) = true.
Proof.
  intros Hr Hp. destruct (Decode_cut r result p Hr Hp) as (e & E & He). exists e. split; [done|].
  unfold retry. rewrite He. by repeat case_match.
Qed.

(** With a negative [retry_times] a call reports success without a request. *)
Lemma negative_retry_succeeds api_uri params result s :
  RetryTimes rc < 0 → tryReqProxy api_uri params result s = Ret ((result, None), s).
Proof. intros Hr. unfold tryReqProxy. by replace (Z.to_nat _) with 0%nat by lia. Qed.

End Client.

(** * The storage contract of the whole stack *)

(** What one exchange does to the proxy's files: a read changes nothing and,
    answered with code 0, returns the bytes of the range; a write leaves the
    range torn whatever the answer (it may be lost, repeated or half done) and
    is done once it is answered with code 0; other files are never touched. *)
Class WireStore (W : Type) `{HttpEnv W} (base : string) : Type := {
  wire_content : W → Z → bytes;
  wire_read_frame : ∀ id off len q a w w',
    wire UrlRead base (ReadRequest id off len) q → client_Do q w = (a, w') →
    ∀ id', wire_content w' id' = wire_content w id';
  wire_read_ok : ∀ id off len q resp r w w',
    0 ≤ off → 0 ≤ len →
    wire UrlRead base (ReadRequest id off len) q →
    client_Do q w = ((Some resp, None), w') →
    StatusCode resp < 400 → StatusCode resp ≠ StatusPermanentRedirect →
    Decode (RespBody resp) ReadResponse = (r, None) → Code r = 0 →
    resp_Bytes r = take (Z.to_nat len) (drop (Z.to_nat off) (wire_content w id));
  wire_write_frame : ∀ id off data q a w w',
    forallb is_byte data = true → wire UrlWrite base (WriteRequest id off (u64 (Zlen data)) data) q →
    client_Do q w = (a, w') → ∀ id', id' ≠ id → wire_content w' id' = wire_content w id';
  wire_write_torn : ∀ id off data q a w w',
    0 ≤ off → forallb is_byte data = true → wire UrlWrite base (WriteRequest id off (u64 (Zlen data)) data) q →
    client_Do q w = (a, w') →
    torn (wire_content w id) off data (wire_content w' id) ∧
    (data = [] → wire_content w' id = wire_content w id);
  wire_write_ok : ∀ id off data q resp r w w',
    0 ≤ off → forallb is_byte data = true → wire UrlWrite base (WriteRequest id off (u64 (Zlen data)) data) q →
    client_Do q w = ((Some resp, None), w') →
    StatusCode resp < 400 → StatusCode resp ≠ StatusPermanentRedirect →
    Decode (RespBody resp) WriteResponse = (r, None) → Code r = 0 →
    written (wire_content w id) off data (wire_content w' id);
}.

(** Torn writes compose, and a write that is done hides the torn ones of the
    same range before it: this is what makes retrying a write sound. *)
Lemma torn_trans c1 c2 c3 off data :
  torn c1 off data c2 → torn c2 off data c3 → torn c1 off data c3.
Proof.
  intros [Hl1 Hb1] [Hl2 Hb2]. split; [lia|]. intros i Hi. rewrite Hb2, Hb1; auto.
Qed.

Lemma torn_written c1 c2 c3 off data :
  torn c1 off data c2 → (data = [] → c2 = c1) → written c2 off data c3 →
  written c1 off data c3.
Proof.
  intros [Hl Hb] He. destruct (decide (data = [])) as [->|Hne]; [by rewrite He|].
  intros [Hl' Hb']. pose proof (Zlen_pos data Hne).
  rewrite (proj2 (Z.eqb_neq (Zlen data) 0)) in Hl' by lia.
  split; [rewrite (proj2 (Z.eqb_neq (Zlen data) 0)) by lia; lia|]. intros i. rewrite Hb'. zbool; apply Hb; lia.
Qed.

Section Stack.
Context {W : Type} `{HttpEnv W}.
Variable base : string.
Context `{!WireStore W base}.
Variables (rc : RetryCfg) (reqId : string).
Hypothesis Hrc : 0 ≤ RetryTimes rc.

(** A client that talks to [base]. *)
Definition client_of (c : HttpClient) : Prop :=
  default_retry c ∧ ∃ hs, Hosts (hc_cfg c) = base :: hs.

Lemma client_of_fixed c c' : client_of c → client_fixed c c' → client_of c'.
Proof.
  intros [Hd [hs Hh]] (E & _). unfold client_of, default_retry. rewrite E. eauto.
Qed.

Lemma ProxyClient_Write_spec id data off s :
  client_of (hs_client s) → 0 ≤ off → forallb is_byte data = true →
  wp (ProxyClient_Write rc reqId id data off)
     (λ x s', client_of (hs_client s') ∧
        (∀ id', id' ≠ id → wire_content (hs_world s') id' = wire_content (hs_world s) id') ∧
        (if resp_failed x.2 x.1
         then torn (wire_content (hs_world s) id) off data (wire_content (hs_world s') id)
         else written (wire_content (hs_world s) id) off data (wire_content (hs_world s') id))) s.
Proof.
  intros Hc Ho Hby. destruct (Hc) as [Hd [hs Hh]]. unfold ProxyClient_Write.
  set (T := λ w w', torn (wire_content w id) off data (wire_content w' id) ∧
    (data = [] → wire_content w' id = wire_content w id) ∧
    (∀ id', id' ≠ id → wire_content w' id' = wire_content w id')).
  set (G := λ w r w', Code r = 0 → written (wire_content w id) off data (wire_content w' id)).
  eapply wp_mono;
    [|eapply (tryReqProxy_TG rc reqId UrlWrite base _ _ T G); try done].
  - intros [r e] s' ((Ht & _ & Hfr) & Hf & HG). simpl in *.
    split_and!; [by eapply client_of_fixed|done|].
    destruct e as [e|]; simpl; [done|]. destruct (Z.eqb_spec (Code r) 0); simpl; [|done].
    by apply HG.
  - intros w. split_and!; try done. apply torn_refl, Zlen_nonneg.
  - intros w1 w2 w3 (A1 & A2 & A3) (B1 & B2 & B3). split_and!.
    + by eapply torn_trans.
    + intros He. by rewrite B2, A2.
    + intros id' Hne. by rewrite B3, A3.
  - intros q a w w' Hq E. destruct (wire_write_torn id off data q a w w' Ho Hby Hq E).
    split_and!; try done. by eapply wire_write_frame.
  - intros q resp r w w' Hq E Hlt Hne Hdec Hc0. by eapply (wire_write_ok id off data q resp r).
  - intros w1 w2 r w3 (A1 & A2 & A3) HG Hc0. eapply torn_written; try done. by apply HG.
Qed.

Lemma ProxyClient_Write_frame id data off s :
  client_of (hs_client s) → forallb is_byte data = true →
  wp (ProxyClient_Write rc reqId id data off)
     (λ x s', ∀ id', id' ≠ id → wire_content (hs_world s') id' = wire_content (hs_world s) id') s.
Proof.
  intros [Hd [hs Hh]] Hby. unfold ProxyClient_Write.
  set (T := λ w w', ∀ id', id' ≠ id → wire_content w' id' = wire_content w id').
  eapply wp_mono; [|eapply (tryReqProxy_TG rc reqId UrlWrite base _ _ T (λ _ _ _, True)); try done].
  - by intros x s' (Ht & _).
  - intros w1 w2 w3 A B id' Hne. by rewrite B, A.
  - intros q a w w' Hq E id' Hne. by eapply wire_write_frame.
Qed.

Lemma ProxyClient_Read_spec id off len s :
  client_of (hs_client s) →
  wp (ProxyClient_Read rc reqId id off len)
     (λ x s', client_of (hs_client s') ∧
        (∀ id', wire_content (hs_world s') id' = wire_content (hs_world s) id') ∧
        (resp_failed x.2 x.1 = false → 0 ≤ off → 0 ≤ len →
         resp_Bytes x.1 = take (Z.to_nat len) (drop (Z.to_nat off) (wire_content (hs_world s) id)))) s.
Proof.
  intros Hc. destruct (Hc) as [Hd [hs Hh]]. unfold ProxyClient_Read.
  set (T := λ w w', ∀ id', wire_content w' id' = wire_content w id').
  set (G := λ w r (w' : W), Code r = 0 → 0 ≤ off → 0 ≤ len →
    resp_Bytes r = take (Z.to_nat len) (drop (Z.to_nat off) (wire_content w id))).
  eapply wp_mono; [|eapply (tryReqProxy_TG rc reqId UrlRead base _ _ T G); try done].
  - intros [r e] s' (Ht & Hf & HG). simpl in *.
    split_and!; [by eapply client_of_fixed|done|].
    destruct e as [e|]; simpl; [done|]. destruct (Z.eqb_spec (Code r) 0); simpl; [|done].
    intros. by apply HG.
  - intros w1 w2 w3 A B id'. by rewrite B, A.
  - intros q a w w' Hq E id'. by eapply wire_read_frame.
  - intros q resp r w w' Hq E Hlt Hne Hdec Hc0 Ho Hl. by eapply (wire_read_ok id off len q resp r).
  - intros w1 w2 r w3 A HG Hc0 Ho Hl. rewrite HG by done. by rewrite A.
Qed.
(** The mutable part of a client that talks to [base]. *)
Variable c : HttpClient.
Hypothesis Hc : client_of c.

Record NetState : Type := MkNet {
  ns_sel : selector;
  ns_world : W;
  ns_log : list event;
}.

Definition to_H (n : NetState) : HState W :=
  MkHState (set_sel (ns_sel n) c) (ns_world n) (ns_log n).
Definition of_H (s : HState W) : NetState :=
  MkNet (hc_sel (hs_client s)) (hs_world s) (hs_log s).

(** A call as a total function: the [_] branch is never taken, by the two
    lemmas above. *)
Definition run_call (m : M (HState W) (Response * option error)) (n : NetState)
    : (Response * option error) * NetState :=
  match m (to_H n) with
  | Ret (x, s') => (x, of_H s')
  | _ => ((zero_Response, Some (ErrNew "panic")), n)
  end.

(** A [[]byte] holds bytes; the model's lists could hold other numbers, which
    are refused. *)
Definition byte_data (req : Request) : bool :=
  match req with
  | WriteRequest _ _ _ data | SetxattrRequest _ _ _ data => forallb is_byte data
  | _ => true
  end.

(** A method of the client: the call of its URL with its response struct. *)
Definition run_req (uri : string) (req : Request) (n : NetState) : (Response * option error) * NetState :=
  if byte_data req then run_call (tryReqProxy rc reqId uri req (result_of uri)) n
  else ((zero_Response, Some (ErrNew "not a byte")), n).

Definition http_io : ProxyIO NetState := {|
  proxy_Read id off len := run_req UrlRead (ReadRequest id off len);
  proxy_Write id data off := run_req UrlWrite (WriteRequest id off (u64 (Zlen data)) data);
|}.

Lemma client_of_to n : client_of (hs_client (to_H n)).
Proof. exact Hc. Qed.

Lemma http_read id off len n :
  @proxy_Read _ http_io id off len n = run_call (ProxyClient_Read rc reqId id off len) n.
Proof. done. Qed.

Lemma http_write id data off n :
  @proxy_Write _ http_io id data off n =
  if forallb is_byte data then run_call (ProxyClient_Write rc reqId id data off) n
  else ((zero_Response, Some (ErrNew "not a byte")), n).
Proof. done. Qed.

(** The caches' storage contract, discharged by the HTTP stack. *)
Definition http_store : @ProxyStore NetState http_io.
Proof.
  refine {| content := λ n id, wire_content (ns_world n) id |}.
  - intros id off len n r n' Ho Hl E Hr. rewrite http_read in E. unfold run_call in E.
    pose proof (ProxyClient_Read_spec id off len (to_H n) (client_of_to n)) as Hw.
    apply wp_run in Hw as (x & s' & Hrun & _ & _ & Hok). rewrite Hrun in E. simplify_eq.
    apply Hok; try done. simpl. by rewrite Hr.
  - intros id off len n x n' E id'. rewrite http_read in E. unfold run_call in E.
    pose proof (ProxyClient_Read_spec id off len (to_H n) (client_of_to n)) as Hw.
    apply wp_run in Hw as (y & s' & Hrun & _ & Hfr & _). rewrite Hrun in E. simplify_eq.
    apply Hfr.
  - intros id data off n r n' Ho E Hr. rewrite http_write in E. destruct (forallb is_byte data) eqn:Hby; [|done].
    unfold run_call in E.
    pose proof (ProxyClient_Write_spec id data off (to_H n) (client_of_to n) Ho Hby) as Hw.
    apply wp_run in Hw as (x & s' & Hrun & _ & _ & Hok). rewrite Hrun in E. simplify_eq.
    simpl in Hok. by rewrite Hr in Hok.
  - intros id data off n r e n' Ho E Hr. rewrite http_write in E. destruct (forallb is_byte data) eqn:Hby.
    2: { simplify_eq. apply torn_refl, Zlen_nonneg. }
    unfold run_call in E.
    pose proof (ProxyClient_Write_spec id data off (to_H n) (client_of_to n) Ho Hby) as Hw.
    apply wp_run in Hw as (x & s' & Hrun & _ & _ & Hok). rewrite Hrun in E. simplify_eq.
    assert (resp_failed e r = true) as Hf.
    { destruct e; [done|]. destruct Hr as [Hr|Hr]; [done|]. simpl. zbool. }
    simpl in Hok. by rewrite Hf in Hok.
  - intros id data off n x n' E id' Hne. rewrite http_write in E. destruct (forallb is_byte data) eqn:Hby; [|by simplify_eq].
    unfold run_call in E.
    pose proof (ProxyClient_Write_frame id data off (to_H n) (client_of_to n) Hby) as Hw.
    apply wp_run in Hw as (y & s' & Hrun & Hfr). rewrite Hrun in E. simplify_eq.
    by apply Hfr.
Defined.
End Stack.

(** C29: a write through the retrying client.  It returns; if it reports success
    the file holds exactly the data at the offset, however often the request
    was lost, repeated or half done on the way; if it reports failure only
    bytes of the range may have changed; other files are never touched. *)
Theorem proxy_write {W} `{HttpEnv W} base `{!WireStore W base} rc reqId
    (id : Z) (data : bytes) (off : Z) (s : HState W) :
  0 ≤ RetryTimes rc → client_of base (hs_client s) → 0 ≤ off → forallb is_byte data = true →
  ∃ r e s', ProxyClient_Write rc reqId id data off s = Ret ((r, e), s') ∧
    client_of base (hs_client s') ∧
    (∀ id', id' ≠ id → wire_content (hs_world s') id' = wire_content (hs_world s) id') ∧
    (if resp_failed e r
     then torn (wire_content (hs_world s) id) off data (wire_content (hs_world s') id)
     else written (wire_content (hs_world s) id) off data (wire_content (hs_world s') id)).
Proof.
  intros Hrc Hc Ho Hby.
  pose proof (ProxyClient_Write_spec base rc reqId Hrc id data off s Hc Ho Hby) as Hw.
  apply wp_run in Hw as ([r e] & s' & Hrun & Hp). by exists r, e, s'.
Qed.

(** * A file server behind an unreliable network *)

Module ProxyExample.

(** The fate of each coming exchange: delivered; the request or the answer is
    lost; the last byte of the answer is lost; redirected. *)
Inductive fate : Type := FOk | FDrop | FLost | FEof | FRedirect.

Record Net : Type := MkNetwork {
  net_files : gmap Z bytes;
  net_fates : list fate;
}.

Definition net_content (n : Net) (id : Z) : bytes := default [] (net_files n !! id).

(** The server reads the members it knows, in any order. *)
Fixpoint member (k : string) (l : list (bytes * json)) : option json :=
  match l with
  | [] => None
  | (k', v) :: l' => if bool_decide (k' = str_bytes k) then Some v else member k l'
  end.
Definition num_member (k : string) (l : list (bytes * json)) : option Z :=
  match member k l with Some (JNum lit) => ParseUint (bytes_str lit) 64 | _ => None end.

Definition refusal : Response := MkResponse 5 "refused" NoData.

(** Its answer to a request body and its files afterwards. *)
Definition serve (body : bytes) (n : Net) : Response * gmap Z bytes :=
  match parse body with
  | POk (JObj l) _ =>
      match num_member "id" l, num_member "off" l, num_member "len" l with
      | Some id, Some off, Some len =>
          match member "data" l with
          | None =>
              let got := take (Z.to_nat len) (drop (Z.to_nat off) (net_content n id)) in
              if forallb is_byte got then (zero_of (BytesData got), net_files n) else (refusal, net_files n)
          | Some j =>
              match dec_bytes j [] with
              | (data, None) => (zero_of NoData, <[id := splice (net_content n id) off data]> (net_files n))
              | (_, Some _) => (refusal, net_files n)
              end
          end
      | _, _, _ => (refusal, net_files n)
      end
  | _ => (refusal, net_files n)
  end.

Definition reset : error := ErrNew "connection reset by peer".
Definition body_of (r : Response) : bytes := print (Response_json r).

#[export] Instance net_env : HttpEnv Net := {
  client_Do q n :=
    let '(r, fs) := serve (hr_body q) n in
    let rest := tail (net_fates n) in
    match net_fates n with
    | [] | FOk :: _ => ((Some (MkHttpResp 200 EmptyString (body_of r)), None), MkNetwork fs rest)
    | FDrop :: _ => ((None, Some reset), MkNetwork (net_files n) rest)
    | FLost :: _ => ((None, Some reset), MkNetwork fs rest)
    | FEof :: _ => ((Some (MkHttpResp 200 EmptyString (removelast (body_of r))), None), MkNetwork fs rest)
    | FRedirect :: _ => ((Some (MkHttpResp 308 "http://b" []), None), MkNetwork (net_files n) rest)
    end;
  now _ := 0;
  rand_Intn _ n := (0%nat, n);
  url_Parse u := inl ("http", u)%string;
  ref_Parse b u := inl ("http", u)%string;
}.

Lemma net_do_files q n a n' :
  client_Do q n = (a, n') →
  (net_files n' = net_files n ∨ net_files n' = (serve (hr_body q) n).2) ∧
  (∀ resp, a = (Some resp, None) → StatusCode resp ≠ StatusPermanentRedirect →
     RespBody resp = removelast (body_of (serve (hr_body q) n).1) ∨
     (RespBody resp = body_of (serve (hr_body q) n).1 ∧ net_files n' = (serve (hr_body q) n).2)).
Proof.
  simpl. destruct (serve (hr_body q) n) as [b fs]. intros E.
  destruct (net_fates n) as [|[]]; simplify_eq/=; split; auto; intros resp Hr Hs;
    simplify_eq/=; auto.
Qed.

(** The body of an answer: whole, or without its last byte. *)
Lemma removelast_cut r : cutof (removelast (body_of r)) (body_of r).
Proof.
  assert (body_of r ≠ []) as Hne by done. exists [List.last (body_of r) 0]. split; [done|].
  by apply app_removelast_last.
Qed.

Lemma decode_answer r old b r' :
  Response_ok r = true → Data_kind (Data old) = Data_kind (Data r) →
  b = removelast (body_of r) ∨ b = body_of r → Decode b old = (r', None) → b = body_of r ∧ r' = r.
Proof.
  intros Hr Hk [-> | ->] E.
  - destruct (Decode_cut r old _ Hr (removelast_cut r)) as (e & E' & _). rewrite E' in E. discriminate E.
  - pose proof (Decode_ok r old [] Hr Hk I) as E'. rewrite app_nil_r in E'. unfold body_of in *.
    rewrite E' in E. by injection E as <-.
Qed.

(** The server's view of the two requests. *)
Lemma serve_read id off len n :
  let s := serve (print (Request_json (ReadRequest id off len))) n in
  s.2 = net_files n ∧
  (s.1 = refusal ∨
   s.1 = zero_of (BytesData (take (Z.to_nat len) (drop (Z.to_nat off) (net_content n id)))) ∧
   Response_ok s.1 = true).
Proof.
  unfold serve. pose proof (parse_print _ [] (ok_Request (ReadRequest id off len) eq_refl) I) as Ep.
  rewrite app_nil_r in Ep. rewrite Ep. unfold Request_json, jobj. cbn [map fst snd].
  match goal with |- context [num_member "id" ?l] => set (t := l) end.
  change (num_member "id" t) with (ParseUint (bytes_str (str_bytes (Itoa id))) 64).
  change (num_member "off" t) with (ParseUint (bytes_str (str_bytes (Itoa off))) 64).
  change (num_member "len" t) with (ParseUint (bytes_str (str_bytes (Itoa len))) 64).
  change (member "data" t) with (@None json). rewrite !bytes_str_bytes.
  destruct (ParseUint (Itoa id) 64) as [z1|] eqn:E1; [|by split; [|left]].
  destruct (ParseUint (Itoa off) 64) as [z2|] eqn:E2; [|by split; [|left]].
  destruct (ParseUint (Itoa len) 64) as [z3|] eqn:E3; [|by split; [|left]].
  apply ParseUint_Itoa_inv in E1 as [-> _], E2 as [-> _], E3 as [-> _].
  destruct (forallb is_byte _) eqn:Hb; [|by split; [|left]]. split; [done|right]. split; [done|exact Hb].
Qed.

Lemma serve_write id off len data n : forallb is_byte data = true →
  let s := serve (print (Request_json (WriteRequest id off len data))) n in
  (s.1 = refusal ∧ s.2 = net_files n) ∨
  (s.1 = zero_of NoData ∧ s.2 = <[id := splice (net_content n id) off data]> (net_files n)).
Proof.
  intros Hb. unfold serve. pose proof (parse_print _ [] (ok_Request (WriteRequest id off len data) Hb) I) as Ep.
  rewrite app_nil_r in Ep. rewrite Ep. unfold Request_json, jobj. cbn [map fst snd].
  match goal with |- context [num_member "id" ?l] => set (t := l) end.
  change (num_member "id" t) with (ParseUint (bytes_str (str_bytes (Itoa id))) 64).
  change (num_member "off" t) with (ParseUint (bytes_str (str_bytes (Itoa off))) 64).
  change (num_member "len" t) with (ParseUint (bytes_str (str_bytes (Itoa len))) 64).
  change (member "data" t) with (Some (jbytes data)). rewrite !bytes_str_bytes.
  destruct (ParseUint (Itoa id) 64) as [z1|] eqn:E1; [|by left].
  destruct (ParseUint (Itoa off) 64) as [z2|] eqn:E2; [|by left].
  destruct (ParseUint (Itoa len) 64) as [z3|] eqn:E3; [|by left].
  apply ParseUint_Itoa_inv in E1 as [-> _], E2 as [-> _].
  rewrite dec_bytes_ok by done. by right.
Qed.

Lemma splice_nil c off : splice c off [] = c.
Proof. done. Qed.

Lemma written_torn c off data c' : 0 ≤ off → written c off data c' → torn c off data c'.
Proof.
  intros Ho [Hl Hb]. pose proof (Zlen_nonneg data). pose proof (Zlen_nonneg c). split.
  - rewrite Hl. zbool.
  - intros i Hi. rewrite Hb. zbool.
Qed.

#[export] Instance net_store : WireStore Net "http://a".
Proof.
  assert (∀ r q, Marshal r = inl (hr_body q) → hr_body q = print (Request_json r)) as Hm.
  { intros r q E. unfold Marshal in E. congruence. }
  refine {| wire_content := net_content |}.
  - intros id off len q a w w' [_ Hq%Hm] E id'.
    apply net_do_files in E as [E _]. rewrite Hq in E. unfold net_content.
    destruct (serve_read id off len w) as [Hs _]. rewrite Hs in E. by destruct E as [-> | ->].
  - intros id off len q resp r w w' Ho Hl [_ Hq%Hm] E Hlt Hne Hd Hr.
    apply net_do_files in E as [_ E]. rewrite Hq in E. specialize (E resp eq_refl Hne).
    destruct (serve_read id off len w) as [_ Hs].
    destruct (serve (print (Request_json (ReadRequest id off len))) w) as [ans fs]. cbn [fst snd] in *.
    destruct Hs as [->|[-> Hok]].
    + assert (RespBody resp = removelast (body_of refusal) ∨ RespBody resp = body_of refusal) as Hb by tauto.
      destruct Hb as [Hb|Hb]; rewrite Hb in Hd; vm_compute in Hd;
        [discriminate Hd|]. apply (f_equal (λ x, Code x.1)) in Hd. cbn in Hd. lia.
    + destruct (decode_answer _ ReadResponse (RespBody resp) r Hok eq_refl ltac:(tauto) Hd) as [_ ->]. done.
  - intros id off data q a w w' Hby [_ Hq%Hm] E id' Hne.
    apply net_do_files in E as [E _]. rewrite Hq in E. unfold net_content.
    destruct (serve_write id off (u64 (Zlen data)) data w Hby) as [[_ Hs]|[_ Hs]]; rewrite Hs in E;
      destruct E as [-> | ->]; try done. by rewrite lookup_insert_ne.
  - intros id off data q a w w' Ho Hby [_ Hq%Hm] E.
    apply net_do_files in E as [E _]. rewrite Hq in E.
    assert (net_files w' = net_files w ∨
      net_files w' = <[id := splice (net_content w id) off data]> (net_files w)) as E'.
    { destruct (serve_write id off (u64 (Zlen data)) data w Hby) as [[_ Hs]|[_ Hs]]; rewrite Hs in E; tauto. }
    unfold net_content at 2 3.
    destruct E' as [-> | ->]; [split; [apply torn_refl, Zlen_nonneg|done]|].
    rewrite lookup_insert_eq. simpl. split; [|intros ->; apply splice_nil].
    by apply written_torn, splice_written.
  - intros id off data q resp r w w' Ho Hby [_ Hq%Hm] E Hlt Hne Hd Hr.
    apply net_do_files in E as [_ E]. rewrite Hq in E. specialize (E resp eq_refl Hne).
    pose proof (serve_write id off (u64 (Zlen data)) data w Hby) as Hs.
    destruct (serve (print (Request_json (WriteRequest id off (u64 (Zlen data)) data))) w) as [ans fs]. cbn [fst snd] in *.
    destruct Hs as [[-> ->]|[-> ->]].
    + destruct (decode_answer refusal WriteResponse (RespBody resp) r eq_refl eq_refl ltac:(tauto) Hd) as [_ ->]. done.
    + destruct E as [E|[E Hf]].
      * rewrite E in Hd. vm_compute in Hd. discriminate Hd.
      * unfold net_content at 2. rewrite Hf, lookup_insert_eq. by apply splice_written.
Defined.

Definition cfg2 : HttpCfg := MkHttpCfg ["http://a"]%string 0 0 0 None.
Definition client2 : HttpClient :=
  match NewHttpClient (W := Net) cfg2 (MkUserInfo "u" "t") "id" ∅ with
  | Ret c => c
  | _ => MkHttpClient cfg2 (newTransport (MkUserInfo "u" "t") "id" ∅) 0 (MkSelector 0 0 [] (HIdx 0)) "id"
  end.
Definition rc3 : RetryCfg := MkRetryCfg 3 (5 * Second) (10 * Second).

(** File 7 holds "abcd"; a redirect, an answer that is lost after the write
    took effect, and a request that is lost. *)
Definition net1 : Net :=
  MkNetwork {[ 7 := [97; 98; 99; 100] ]} [FRedirect; FLost; FDrop; FEof; FOk].

Lemma client2_of : client_of "http://a" client2.
Proof. split; [reflexivity|by exists []]. Qed.

(** Half an answer. *)
Lemma cut_answer_retried_witness :
  ∃ e, Decode (take 12 (print (Response_json (zero_of (BytesData [1; 2]))))) ReadResponse =
       (ReadResponse, Some e) ∧ retry (Some e) 0 = true.
Proof.
  destruct (cut_answer_retried (zero_of (BytesData [1; 2])) ReadResponse
    (take 12 (print (Response_json (zero_of (BytesData [1; 2])))))) as (e & E & Hr);
    [vm_compute; reflexivity
    |exists (drop 12 (print (Response_json (zero_of (BytesData [1; 2]))))); split; [discriminate|by rewrite take_drop]|].
  exists e. split; [exact E|exact Hr].
Defined.

Definition succeeded {S} (o : outcome ((Response * option error) * S)) : bool :=
  match o with Ret ((r, e), _) => negb (resp_failed e r) | _ => false end.

Lemma proxy_write_witness :
  ∃ r e s', ProxyClient_Write rc3 "rid" 7 [120; 121] 3 (MkHState client2 net1 []) = Ret ((r, e), s') ∧
    resp_failed e r = false ∧
    written [97; 98; 99; 100] 3 [120; 121] (net_content (hs_world s') 7).
Proof.
  assert (succeeded (ProxyClient_Write rc3 "rid" 7 [120; 121] 3 (MkHState client2 net1 [])) = true) as Hs
    by (vm_compute; reflexivity).
  destruct (proxy_write "http://a" rc3 "rid" 7 [120; 121] 3 (MkHState client2 net1 []))
    as (r & e & s' & Hrun & _ & _ & Hw);
    [vm_compute; discriminate|exact client2_of|lia|reflexivity|].
  exists r, e, s'. rewrite Hrun in Hs. apply negb_true_iff in Hs. rewrite Hs in Hw.
  split; [exact Hrun|]. split; [exact Hs|exact Hw].
Defined.

End ProxyExample.
