(* ===== verification/Mount.v ===== *)
(** The mount object (lib/libfs): mounting and the access check (mount.go), and
    the operations on files (file.go), attributes (stat.go, attr.go, acl.go),
    links (link.go), removal (rm.go), renaming (rename.go) and directories
    (dir.go, but for the listing, which Dir.v models).

    The operations run in the state monad over [Mnt], which holds the mount's
    own fields, the file table, the dentry cache and the read/write caches
    with the proxy behind them. The proxy is the interface [ProxyApi]. *)

From stdpp Require Import base gmap strings list.
From Stdlib Require Import ZArith Lia.
From S2P Require Import Prelude GoString Proto Config Store Buffer Pool View CacheState WCache.
From S2P Require Import RCache RWCache Lru FileTable.

(** * The proxy calls as an interface

    [api_call uri request] is [tryReqProxy]; each method of the proxy client
    is one request. *)
Class ProxyApi (W : Type) : Type := {
  api_call : string → Request → W → (Response * option error) * W;
}.

(** [ProxyClient.Read] and [ProxyClient.Write], for the caches. *)
#[export] Instance api_io {W} `{ProxyApi W} : ProxyIO W := {
  proxy_Read id offset length := api_call UrlRead (ReadRequest id offset length);
  proxy_Write id buffer offset :=
    api_call UrlWrite (WriteRequest id offset (u64 (Zlen buffer)) buffer);
}.

(** * State *)

Definition MountStuNew : Z := 0.
Definition MountStuMounted : Z := 1.
Definition MountStuDel : Z := 2.

(** [rwCache] tells whether the mount has the read/write caches (a non-nil
    [rwCache]); [stopped] whether the channel [stop] is closed. *)
Record Mnt (W : Type) : Type := MkMnt {
  Path : string;
  MountStu : Z;
  MountMode : Z;
  LsSize : Z;
  logLevel : Z;
  rwCache : bool;
  fileCache : FileCache;
  dentries_ : DentryCache Dentry;
  caches : CS W;
  stopped : bool;
}.
Arguments MkMnt {W} _ _ _ _ _ _ _ _ _ _.
Arguments Path {W} _.
Arguments MountStu {W} _.
Arguments MountMode {W} _.
Arguments LsSize {W} _.
Arguments logLevel {W} _.
Arguments rwCache {W} _.
Arguments fileCache {W} _.
Arguments dentries_ {W} _.
Arguments caches {W} _.
Arguments stopped {W} _.

Abbreviation EACCES := (Some (ErrErrno E_POSIX_EACCES)).
Abbreviation EPERM := (Some (ErrErrno E_POSIX_EPERM)).
Abbreviation EBADF := (Some (ErrErrno E_POSIX_EBADF)).
Abbreviation EIO := (Some (ErrErrno E_POSIX_EIO)).

Section Mount.
Context {W : Type} `{ProxyApi W}.
Abbreviation MM := (M (Mnt W)) (only parsing).

Definition set_stu (z mode : Z) (m : Mnt W) : Mnt W :=
  MkMnt (Path m) z mode (LsSize m) (logLevel m) (rwCache m) (fileCache m) (dentries_ m)
    (caches m) (stopped m).
Definition set_level (z : Z) (m : Mnt W) : Mnt W :=
  MkMnt (Path m) (MountStu m) (MountMode m) (LsSize m) z (rwCache m) (fileCache m)
    (dentries_ m) (caches m) (stopped m).
Definition set_files (f : FileCache) (m : Mnt W) : Mnt W :=
  MkMnt (Path m) (MountStu m) (MountMode m) (LsSize m) (logLevel m) (rwCache m) f
    (dentries_ m) (caches m) (stopped m).
Definition set_dentries (d : DentryCache Dentry) (m : Mnt W) : Mnt W :=
  MkMnt (Path m) (MountStu m) (MountMode m) (LsSize m) (logLevel m) (rwCache m) (fileCache m)
    d (caches m) (stopped m).
Definition set_caches (c : CS W) (m : Mnt W) : Mnt W :=
  MkMnt (Path m) (MountStu m) (MountMode m) (LsSize m) (logLevel m) (rwCache m) (fileCache m)
    (dentries_ m) c (stopped m).
Definition set_stopped (m : Mnt W) : Mnt W :=
  MkMnt (Path m) (MountStu m) (MountMode m) (LsSize m) (logLevel m) (rwCache m) (fileCache m)
    (dentries_ m) (caches m) true.

(** A proxy call, an operation of the caches, of the file table. *)
Definition call (uri : string) (req : Request) : MM (Response * option error) := λ m,
  let '(r, w') := api_call uri req (world (caches m)) in
  Ret (r, set_caches (set_world w' (caches m)) m).

Definition onc {A} (op : M (CS W) A) : MM A := zoom caches set_caches op.
Definition onf {A} (op : FileCache → outcome (A * FileCache)) : MM A :=
  zoom fileCache set_files op.

(** [mount.dentryCache.Remove], [RemovePrefix], [Set] and [Get]. *)
Definition forget (path : string) : MM unit :=
  modify (λ m, set_dentries (Dentry_Remove path (dentries_ m)).2 m).
Definition forget_prefix (prefix : string) : MM unit :=
  modify (λ m, set_dentries (Dentry_RemovePrefix prefix (dentries_ m)) m).
Definition remember (path : string) (d : Dentry) : MM unit :=
  modify (λ m, set_dentries (Dentry_Set (now (caches m)) path d (dentries_ m)).2 m).
Definition recall (path : string) : MM (option Dentry) := λ m,
  let '(v, d) := Dentry_Get (now (caches m)) path (dentries_ m) in
  Ret (v, set_dentries d m).

(** [mount.dentryCache.Remove(path[:strings.LastIndex(path, "/")])] *)
Definition forget_parent (path : string) : MM unit :=
  let! p := lift (str_slice_to path (LastIndex path slash)) in forget p.

(** [mount.fileCache.GetFileEntry(uint32(fd))]; [None] is its error. *)
Definition file_entry (fd : Z) : MM (option FileEntry) :=
  let! t := gets (λ m, now (caches m)) in onf (GetFileEntry t (u32 fd)).

(** * mount.go *)

(** The path test [NewMount] and [checkMount] share. *)
Definition bad_path (path : string) : bool :=
  let l := String.length path in
  (l =? 0)%nat || negb (char_is (first_char path) slash) ||
  (char_is (last_char path) slash && (1 <? l)%nat).

Definition checkMount (m : Mnt W) (path : string) (perm : Z) : option error :=
  if negb (MountStu m =? MountStuMounted) then EPERM
  else if (perm =? 0) || negb (Z.land perm (MountMode m) =? perm) then EPERM
  else if bad_path path then EPERM
  else if negb (HasPrefix path (Path m)) then EACCES
  else None.

(** [if mount.checkMount(path, perm, log) != nil { return fail }] *)
Definition guarded {A} (path : string) (perm : Z) (fail : A) (k : MM A) : MM A :=
  let! m := get in
  match checkMount m path perm with
  | Some _ => ret fail
  | None => k
  end.

(** The most common body: one call; on failure [toErr], else the cleanup. *)
Definition call_then (uri : string) (req : Request) (k : MM unit) : MM (option error) :=
  let! r := call uri req in
  let '(resp, err) := r in
  if resp_failed err resp then ret (toErr err (Code resp))
  else k ;;; ret None.

(** Zap levels: debug -1 .. panic 4. *)
Definition SetLogLevel (flag : Z) : MM unit :=
  let! m := get in
  if flag <? 0 then
    if -1 <? logLevel m then modify (set_level (logLevel m - 1)) else ret tt
  else if logLevel m <? 4 then modify (set_level (logLevel m + 1)) else ret tt.

(** [close(mount.stop)] of a closed channel panics. *)
Definition DelMount : MM unit :=
  let! m := get in
  (if rwCache m then onc RWCache_CloseAll else ret tt) ;;;
  modify (λ m, set_stu MountStuDel (MountMode m) m) ;;;
  Assert (negb (stopped m)) ;;;
  modify set_stopped.

(** * stat.go *)

(** [fs.FileMode]: the type bits are [ModeDir] (31), [ModeSymlink] (27),
    [ModeDevice] (26), [ModeNamedPipe] (25), [ModeSocket] (24),
    [ModeCharDevice] (21) and [ModeIrregular] (19). *)
Definition ModeDir : Z := Z.shiftl 1 31.
Definition ModeSymlink : Z := Z.shiftl 1 27.
Definition ModeDevice : Z := Z.shiftl 1 26.
Definition ModeNamedPipe : Z := Z.shiftl 1 25.
Definition ModeSocket : Z := Z.shiftl 1 24.
Definition ModeCharDevice : Z := Z.shiftl 1 21.
Definition ModeIrregular : Z := Z.shiftl 1 19.
Definition ModeType : Z :=
  Z.lor ModeDir (Z.lor ModeSymlink (Z.lor ModeNamedPipe (Z.lor ModeSocket
    (Z.lor ModeDevice (Z.lor ModeCharDevice ModeIrregular))))).

Definition item_name (path : string) : string :=
  if String.eqb "/" path then "/"
  else List.last (Split path slash) EmptyString.

Definition item_type (mode : Z) : Z :=
  if negb (Z.land mode ModeDir =? 0) then DentryTypeDir
  else if Z.land mode ModeType =? 0 then DentryTypeFile
  else DentryTypeLink.

Definition doStat (path : string) : MM (Dentry + option error) :=
  let! r := call UrlStat (StatRequest path) in
  let '(resp, err) := r in
  if resp_failed err resp then ret (inr (toErr err (Code resp)))
  else
    let data := resp_Ino resp in
    ret (inl (MkDentry (item_name path) (Info_Inode data) (item_type (Info_Mode data))
                (Some data))).

Definition UseRWCache (m : Mnt W) (fe : FileEntry) : bool := negb (DirectIO fe) && rwCache m.

Definition GetSimpleFileEntry (d : Dentry) : option FileEntry :=
  if negb (Dentry_Type d =? DentryTypeFile) then None
  else Some (MkFileEntry (Dentry_Inode d) DefaultBlockSize 0 EmptyString 0 0 false
               EmptyString 0 0 false).

Definition set_size (i : InoInfo) (size : Z) : InoInfo :=
  MkInoInfo (Info_Inode i) (Info_Mode i) (Info_Nlink i) size (Info_Uid i) (Info_Gid i)
    (Info_MTime i) (Info_CTime i) (Info_ATime i) (Info_Target i) (Info_Owner i) (Info_Group i).

(** [if dentry.Info.Size < CacheSize { dentry.Info.Size = CacheSize }] *)
Definition raise_size (d : Dentry) (size : Z) : Dentry :=
  match Dentry_Info d with
  | None => d
  | Some i => if Info_Size i <? size
              then MkDentry (Dentry_Name d) (Dentry_Inode d) (Dentry_Type d) (Some (set_size i size))
              else d
  end.

(** The block "stat cache size" of [Stat]. *)
Definition add_cache_size (path : string) (d0 : Dentry) : MM (Dentry + option error) :=
  let! m := get in
  match rwCache m, GetSimpleFileEntry d0 with
  | true, Some fe =>
      let! c := onc (StatSize fe) in
      match c with
      | (_, Some _) => doStat path
      | (CacheSize, None) => ret (inl (raise_size d0 CacheSize))
      end
  | _, _ => ret (inl d0)
  end.

(** The result of [Stat] and [Fstat]: the dentry, or the error. *)
Definition Stat (path : string) : MM (Dentry + option error) :=
  guarded path MountModeRead (inr EACCES)
    (let! hit := recall path in
     match hit with
     | Some d => ret (inl d)
     | None =>
         let! r := doStat path in
         match r with
         | inr err => ret (inr err)
         | inl d0 =>
             let! r' := add_cache_size path d0 in
             match r' with
             | inr err => ret (inr err)
             | inl d => remember path d ;;; ret (inl d)
             end
         end
     end).

Definition Fstat (fd : Z) : MM (Dentry + option error) :=
  let! e := file_entry fd in
  match e with
  | None => ret (inr EBADF)
  | Some entry =>
      guarded (FilePath entry) MountModeRead (inr EACCES)
        (let! hit := recall (FilePath entry) in
         match hit with
         | Some d => ret (inl d)
         | None =>
             let! m := get in
             let! CacheSize :=
               (if rwCache m
                then let! c := onc (StatSize entry) in ret c.1
                else ret 0) in
             let! r := doStat (FilePath entry) in
             match r with
             | inr err => ret (inr err)
             | inl d0 =>
                 let d := raise_size d0 CacheSize in
                 remember (FilePath entry) d ;;; ret (inl d)
             end
         end)
  end.

Record StatfsT : Type := MkStatfs {
  sf_BlockSize : Z;
  sf_Blocks : Z;
  sf_Files : Z;
  sf_Folders : Z;
  sf_Fbytes : Z;
  sf_Fubytes : Z;
  sf_Rfiles : Z;
  sf_Rfolders : Z;
  sf_Rbytes : Z;
  sf_Rubytes : Z;
}.

(** [stat] (not nil) is filled on success. *)
Definition Statfs (path : string) (stat : StatfsT) : MM (StatfsT * option error) :=
  guarded path MountModeRead (stat, EACCES)
    (let! r := call UrlStatfs (StatfsRequest path) in
     let '(resp, err) := r in
     if resp_failed err resp then ret (stat, toErr err (Code resp))
     else
       let d := resp_Statfs resp in
       let blkSize := 4 * 1024 in
       ret (MkStatfs (u32 blkSize) (u32 (SI_Fbytes d `div` blkSize)) (SI_Files d) (SI_Folders d)
              (SI_Fbytes d) (SI_Fubytes d) (SI_Rfiles d) (SI_Rfolders d) (SI_Rbytes d)
              (SI_Rubytes d), None)).

(** [Mount]: the status stays [Mounted] when the final [Stat] fails. *)
Definition Mount : MM (option error) :=
  let! m := get in
  if negb (MountStu m =? MountStuNew) then ret EPERM
  else
    modify (set_stu MountStuMounted
      (Z.lor MountModeRead (Z.lor MountModeWrite MountModeDel))) ;;;
    let! r := Stat (Path m) in
    match r with
    | inr err => ret err
    | inl _ => ret None
    end.

(** * file.go *)

Definition InvalidHandle : Z := -1.
(** [os.O_CREATE] and [os.O_TRUNC] on linux. *)
Definition O_CREATE : Z := 0x40.
Definition O_TRUNC : Z := 0x200.

Definition has (flags bit : Z) : bool := 0 <? Z.land flags bit.

Definition open_perm (flags : Z) : Z :=
  let perm := if has flags O_WRONLY then MountModeWrite
              else if has flags O_RDWR then Z.lor MountModeRead MountModeWrite
              else MountModeRead in
  if has flags (Z.lor O_CREATE O_TRUNC) then Z.lor perm MountModeWrite else perm.

Definition Open (path : string) (flags mode : Z) : MM (Z * option error) :=
  guarded path (open_perm flags) (InvalidHandle, EACCES)
    (let mode := if negb (Z.land mode S_IFMT =? S_IFLNK)
                 then Z.lor (Z.land mode SysPerm) S_IFREG else mode in
     let flag := if has flags O_CREATE then OpenFlagCreate else OpenFlagOpen in
     let! r := call UrlOpen (OpenRequest path flag mode) in
     let '(resp, err) := r in
     if resp_failed err resp then ret (InvalidHandle, toErr err (Code resp))
     else
       let fileEntry := MkFileEntry (resp_Id resp) DefaultBlockSize (-1) path flags mode false
                          EmptyString 0 0 false in
       let! t := gets (λ m, now (caches m)) in
       let! h := onf (NewFile t fileEntry) in
       match h with
       | None => ret (InvalidHandle, EBADF)
       | Some fd =>
           let! e := file_entry fd in
           Assert (match e with Some _ => true | None => false end) ;;;
           forget_parent path ;;;
           ret (fd, None)
       end).

Definition Close (fd : Z) : MM (option error) :=
  let! e := file_entry fd in
  match e with
  | None => ret EBADF
  | Some fdEntry =>
      let! m := get in
      let! err :=
        (if UseRWCache m fdEntry then
           let! last := lift (IsLastRefer fdEntry (fileCache m)) in
           if last then onc (RWCache_Close fdEntry) else onc (RWCache_Flush fdEntry)
         else ret None) in
      match err with
      | Some _ => ret EBADF
      | None =>
          let! ok := onf (CloseFile (u32 fd)) in
          ret (if ok then None else EBADF)
      end
  end.

(** [err = ToErrno(err)] of an error that is not nil. *)
Definition to_errno (err : option error) : option error :=
  match err with Some _ => Some (ErrErrno (ToErrno err)) | None => None end.

Definition max_io : Z := 512 * 1024 * 1024.

(** [rd_buf] is the caller's buffer afterwards. *)
Definition Read (fd : Z) (buffer : bytes) (offset : Z) : MM ReadResult :=
  if max_io <? Zlen buffer then ret (MkRead 0 EIO buffer)
  else
    let! e := file_entry fd in
    match e with
    | None => ret (MkRead 0 (to_errno (Some (ErrNew "GetFileEntry invalid handle"))) buffer)
    | Some fdEntry =>
        if Z.land (OpenFlag fdEntry) O_WRONLY =? O_WRONLY then ret (MkRead 0 EPERM buffer)
        else
          let! m := get in
          let! r := (if UseRWCache m fdEntry then onc (RWCache_Read fdEntry buffer offset)
                     else onc (DirectRead fdEntry buffer offset)) in
          ret (MkRead (rd_size r) (to_errno (rd_err r)) (rd_buf r))
    end.

Definition Write (fd : Z) (buffer : bytes) (offset : Z) : MM (Z * option error) :=
  if max_io <? Zlen buffer then ret (0, EIO)
  else
    let! e := file_entry fd in
    match e with
    | None => ret (0, EBADF)
    | Some fdEntry =>
        if Z.land (OpenFlag fdEntry) (Z.lor O_RDWR O_WRONLY) =? 0 then ret (InvalidHandle, EPERM)
        else
          let! m := get in
          let! r := (if UseRWCache m fdEntry then onc (RWCache_Write fdEntry buffer offset)
                     else onc (DirectWrite fdEntry buffer offset)) in
          forget (FilePath fdEntry) ;;;
          ret (r.1, to_errno r.2)
    end.

Definition Utime (path : string) (utime atime : Z) : MM (option error) :=
  guarded path MountModeWrite EACCES
    (call_then UrlSetattr
       (SetAttrRequest path (MkSetAttr (Z.lor SetAclFlagChangeATime SetAclFlagChangeMTime)
          0 0 utime atime 0 EmptyString EmptyString))
       (forget path)).

(** The flush before a truncation: [inr] is an early return. *)
Definition pre_truncate (path : string) : MM (unit + option error) :=
  let! m := get in
  if rwCache m then
    let! r := doStat path in
    match r with
    | inr err => ret (inr err)
    | inl dEntry =>
        match GetSimpleFileEntry dEntry with
        | None => ret (inl tt)
        | Some fe =>
            let! err := onc (RWCache_Flush fe) in
            match err with
            | Some _ => ret (inr err)
            | None =>
                let! err := onc (RWCache_Release fe) in
                match err with
                | Some _ => ret (inr err)
                | None => ret (inl tt)
                end
            end
        end
    end
  else ret (inl tt).

Definition Truncate (path : string) (length : Z) : MM (option error) :=
  guarded path MountModeWrite EACCES
    (let! p := pre_truncate path in
     match p with
     | inr err => ret err
     | inl _ => call_then UrlTruncate (TruncateRequest path length) (forget path)
     end).

(** The error of [rwCache.Flush] is overwritten by that of the call. *)
Definition Flush (fd : Z) : MM (option error) :=
  let! e := file_entry fd in
  match e with
  | None => ret EBADF
  | Some fdEntry =>
      let! m := get in
      let! _ := (if UseRWCache m fdEntry then onc (RWCache_Flush fdEntry) else ret None) in
      call_then UrlFsync (FsyncRequest (fe_Id fdEntry)) (ret tt)
  end.

Definition Fsync (fd datasync : Z) : MM (option error) := Flush fd.

(** The entry of a handle opened for writing. *)
Definition writable (fdEntry : FileEntry) : bool :=
  negb (Z.land (OpenFlag fdEntry) (Z.lor O_RDWR O_WRONLY) =? 0).
Definition readable (fdEntry : FileEntry) : bool :=
  negb (Z.land (OpenFlag fdEntry) O_WRONLY =? O_WRONLY).

Definition Ftruncate (fd size : Z) : MM (option error) :=
  let! e := file_entry fd in
  match e with
  | None => ret EBADF
  | Some fdEntry =>
      if negb (writable fdEntry) then ret EPERM else Truncate (FilePath fdEntry) size
  end.

(** * attr.go *)

Definition Setxattr (path key : string) (value : bytes) (flag : Z) : MM (option error) :=
  guarded path MountModeWrite EACCES
    (call_then UrlSetxattr (SetxattrRequest path flag key value) (forget path)).

Definition Getxattr (path key : string) : MM (bytes * option error) :=
  guarded path MountModeRead ([], EACCES)
    (let! r := call UrlGetxattr (GetxattrRequest path key) in
     let '(resp, err) := r in
     ret (resp_Bytes resp, if resp_failed err resp then toErr err (Code resp) else None)).

Definition Listxattr (path : string) : MM (list string * option error) :=
  guarded path MountModeRead ([], EACCES)
    (let! r := call UrlListxattr (GetxattrRequest path EmptyString) in
     let '(resp, err) := r in
     if resp_failed err resp then ret ([], toErr err (Code resp))
     else ret (resp_Names resp, None)).

Definition Removexattr (path key : string) : MM (option error) :=
  guarded path MountModeWrite EACCES
    (call_then UrlRemovexattr (RemovexattrRequest path key) (forget path)).

Definition Fsetxattr (fd : Z) (key : string) (value : bytes) (flag : Z) : MM (option error) :=
  let! e := file_entry fd in
  match e with
  | None => ret EBADF
  | Some fdEntry =>
      if negb (writable fdEntry) then ret EPERM
      else Setxattr (FilePath fdEntry) key value (u32 flag)
  end.

Definition Fgetxattr (fd : Z) (key : string) : MM (bytes * option error) :=
  let! e := file_entry fd in
  match e with
  | None => ret ([], EBADF)
  | Some fdEntry =>
      if negb (readable fdEntry) then ret ([], EPERM) else Getxattr (FilePath fdEntry) key
  end.

Definition Flistxattr (fd : Z) : MM (list string * option error) :=
  let! e := file_entry fd in
  match e with
  | None => ret ([], EBADF)
  | Some fdEntry =>
      if negb (readable fdEntry) then ret ([], EPERM) else Listxattr (FilePath fdEntry)
  end.

Definition Fremovexattr (fd : Z) (key : string) : MM (option error) :=
  let! e := file_entry fd in
  match e with
  | None => ret EBADF
  | Some fdEntry =>
      if negb (writable fdEntry) then ret EPERM else Removexattr (FilePath fdEntry) key
  end.

(** * acl.go *)

Definition chmod_req (path : string) (mode : Z) : Request :=
  SetAttrRequest path (MkSetAttr SetAclFlagChangeMode 0 0 0 0 mode EmptyString EmptyString).

Definition Fchmod (fd mode : Z) : MM (option error) :=
  let! e := file_entry fd in
  match e with
  | None => ret EBADF
  | Some fdEntry =>
      guarded (FilePath fdEntry) MountModeWrite EACCES
        (call_then UrlSetattr (chmod_req (FilePath fdEntry) mode) (forget (FilePath fdEntry)))
  end.

Definition Chmod (path : string) (mode : Z) : MM (option error) :=
  guarded path MountModeWrite EACCES
    (call_then UrlSetattr (chmod_req path (Z.land mode SysPerm)) (forget path)).

Definition Chown (path : string) (uid gid : Z) : MM (option error) :=
  guarded path MountModeWrite EACCES
    (call_then UrlSetattr
       (SetAttrRequest path (MkSetAttr (Z.lor SetAclFlagChangeUid SetAclFlagChangeGid)
          uid gid 0 0 0 EmptyString EmptyString))
       (forget path)).

Definition ChownEx (path owner group : string) : MM (option error) :=
  guarded path MountModeWrite EACCES
    (call_then UrlSetattr
       (SetAttrRequest path (MkSetAttr (Z.lor SetAclFlagChangeOwner SetAclFlagChangeGroup)
          0 0 0 0 0 owner group))
       (forget path)).

(** * link.go, rm.go, rename.go *)

Definition Readlink (path : string) : MM (string * option error) :=
  guarded path MountModeRead (EmptyString, EACCES)
    (let! r := call UrlStat (StatRequest path) in
     let '(resp, err) := r in
     if resp_failed err resp then ret (EmptyString, toErr err (Code resp))
     else ret (Info_Target (resp_Ino resp), None)).

Definition Link (path linkPath : string) : MM (option error) :=
  guarded path MountModeWrite EACCES
    (call_then UrlLink (LinkRequest path linkPath) (forget path)).

Definition Symlink (path linkPath : string) : MM (option error) :=
  guarded path MountModeWrite EACCES
    (call_then UrlSymLink (SymlinkRequest path linkPath) (ret tt)).

Definition Rmdir (path : string) : MM (option error) :=
  guarded path MountModeDel EACCES
    (call_then UrlRmdir (RmdirRequest path) (forget path)).

Definition RmDirTree (path : string) : MM (option error) :=
  guarded path MountModeDel EACCES
    (call_then UrlRmdirtree (RmdirTreeRequest path) (forget_prefix path)).

Definition UnLink (path : string) : MM (option error) :=
  guarded path MountModeDel EACCES
    (call_then UrlUnlink (UnlinkRequest path) (forget path)).

Definition Rename (srcpath dstpath : string) : MM (option error) :=
  guarded srcpath MountModeWrite EACCES
    (let! r := call UrlRename (RenameRequest srcpath dstpath) in
     let '(resp, err) := r in
     match err with
     | Some _ => ret (to_errno err)
     | None =>
         if negb (Code resp =? 0) then ret (toErr err (Code resp))
         else forget_prefix srcpath ;;; forget_prefix dstpath ;;; ret None
     end).

(** * dir.go *)

Definition Mkdir (path : string) (mode : Z) : MM (option error) :=
  guarded path MountModeWrite EACCES
    (call_then UrlMkdir (MkdirRequest path (Z.lor (Z.land mode SysPerm) S_IFDIR))
       (forget_parent path)).

Definition join_dir (baseDir subDir : string) : string :=
  if String.eqb baseDir "/" then String.append baseDir subDir
  else String.append baseDir (String.append "/" subDir).

Fixpoint MkdirAll_loop (path baseDir : string) (mode : Z) (subDirVec : list string)
    : MM (option error) :=
  match subDirVec with
  | [] => ret None
  | subDir :: rest =>
      if (0 <? String.length subDir)%nat then
        let baseDir := join_dir baseDir subDir in
        let! r := call UrlMkdir (MkdirRequest baseDir mode) in
        let '(resp, err) := r in
        match err with
        | Some _ => ret err
        | None =>
            if Code resp =? E_POSIX_EEXIST then MkdirAll_loop path baseDir mode rest
            else if negb (Code resp =? 0) then ret (Some (ErrErrno (Code resp)))
            else forget_parent path ;;; MkdirAll_loop path baseDir mode rest
        end
      else MkdirAll_loop path baseDir mode rest
  end.

Definition MkdirAll (path : string) (mode : Z) : MM (option error) :=
  guarded path MountModeWrite EACCES
    (let! m := get in
     MkdirAll_loop path (Path m) (Z.lor (Z.land mode SysPerm) S_IFDIR)
       (Split (str_drop (String.length (Path m)) path) slash)).

Definition Mknod (path : string) (mode dev : Z) : MM (option error) :=
  guarded path MountModeWrite EACCES
    (if ((Z.land mode S_IFIFO =? 0) && (Z.land mode S_IFSOCK =? 0)) || negb (dev =? 0)
     then ret (Some (ErrErrno E_POSIX_ENOTSUP))
     else
       let mode :=
         if negb (Z.land mode S_IFIFO =? 0)
         then Z.lor (Z.land mode SysPerm) (Z.land mode S_IFIFO)
         else if negb (Z.land mode S_IFSOCK =? 0)
         then Z.lor (Z.land mode SysPerm) (Z.land mode S_IFSOCK)
         else mode in
       call_then UrlOpen (OpenRequest path OpenFlagCreate mode) (forget_parent path)).
End Mount.
