(* ===== verification/MountProof.v ===== *)
(** What the mount object guarantees: the access check, the dentry cache after
    an operation, handles, and file contents through the caches. *)

From stdpp Require Import base gmap strings list.
From Stdlib Require Import ZArith Lia.
From S2P Require Import Prelude GoString Proto Config Store Buffer Pool View CacheState WCache.
From S2P Require Import WCacheProof WCacheSteps RCache RWCache RWCacheProof RCacheProof.
From S2P Require Import RWCacheTheorems Lru FileTable Mount.

(** * The operations that name a path *)

Inductive pathop : Type :=
| OpUtime (path : string) (utime atime : Z)
| OpTruncate (path : string) (length : Z)
| OpSetxattr (path key : string) (value : bytes) (flag : Z)
| OpRemovexattr (path key : string)
| OpChmod (path : string) (mode : Z)
| OpChown (path : string) (uid gid : Z)
| OpChownEx (path owner group : string)
| OpLink (path linkPath : string)
| OpSymlink (path linkPath : string)
| OpRmdir (path : string)
| OpRmDirTree (path : string)
| OpUnLink (path : string)
| OpRename (srcpath dstpath : string)
| OpMkdir (path : string) (mode : Z)
| OpMkdirAll (path : string) (mode : Z)
| OpMknod (path : string) (mode dev : Z).

Definition op_path (op : pathop) : string :=
  match op with
  | OpUtime p _ _ | OpTruncate p _ | OpSetxattr p _ _ _ | OpRemovexattr p _ | OpChmod p _
  | OpChown p _ _ | OpChownEx p _ _ | OpLink p _ | OpSymlink p _ | OpRmdir p | OpRmDirTree p
  | OpUnLink p | OpRename p _ | OpMkdir p _ | OpMkdirAll p _ | OpMknod p _ _ => p
  end.

Definition op_perm (op : pathop) : Z :=
  match op with
  | OpRmdir _ | OpRmDirTree _ | OpUnLink _ => MountModeDel
  | _ => MountModeWrite
  end.

(** The cached paths a successful operation makes unknown. *)
Definition invalidates (op : pathop) (key : string) : bool :=
  match op with
  | OpSymlink _ _ | OpMkdirAll _ _ => false
  | OpRmDirTree p => HasPrefix key p
  | OpRename p q => HasPrefix key p || HasPrefix key q
  | OpMkdir p _ | OpMknod p _ _ => String.eqb key (str_take (Z.to_nat (LastIndex p slash)) p)
  | _ => String.eqb key (op_path op)
  end.

Section Ops.
Context {W : Type} `{ProxyApi W}.
Implicit Types (m : Mnt W).

Definition run_op (op : pathop) : M (Mnt W) (option error) :=
  match op with
  | OpUtime p u a => Utime p u a
  | OpTruncate p n => Truncate p n
  | OpSetxattr p k v f => Setxattr p k v f
  | OpRemovexattr p k => Removexattr p k
  | OpChmod p mo => Chmod p mo
  | OpChown p u g => Chown p u g
  | OpChownEx p o g => ChownEx p o g
  | OpLink p q => Link p q
  | OpSymlink p q => Symlink p q
  | OpRmdir p => Rmdir p
  | OpRmDirTree p => RmDirTree p
  | OpUnLink p => UnLink p
  | OpRename p q => Rename p q
  | OpMkdir p mo => Mkdir p mo
  | OpMkdirAll p mo => MkdirAll p mo
  | OpMknod p mo d => Mknod p mo d
  end.

Lemma guarded_denied {A} path perm (fail : A) k m :
  checkMount m path perm ≠ None → guarded path perm fail k m = Ret (fail, m).
Proof. intros Hc. unfold guarded, bind, get. by destruct (checkMount m path perm). Qed.

Lemma guarded_ok {A} path perm (fail : A) k m :
  checkMount m path perm = None → guarded path perm fail k m = k m.
Proof. intros Hc. unfold guarded, bind, get. by rewrite Hc. Qed.

Lemma bad_path_ok path :
  bad_path path = false ↔
  (∃ r, path = String slash r) ∧
  (path = "/"%string ∨ char_is (last_char path) slash = false).
Proof.
  unfold bad_path. destruct path as [|c r]; simpl; [split; [done|by intros [[? ?] _]]|].
  destruct (Ascii.eqb_spec c slash) as [->|Hc]; simpl.
  2: { split; [done|]. intros [[? Hx] _]. congruence. }
  destruct r as [|d r]; [by split; eauto|].
  rewrite andb_true_r. split; [intros ->; eauto|]. by intros [_ [?|?]].
Qed.

(** What the check accepts. *)
Lemma checkMount_ok m path perm :
  checkMount m path perm = None ↔
  MountStu m = MountStuMounted ∧ perm ≠ 0 ∧ Z.land perm (MountMode m) = perm ∧
  (∃ r, path = String slash r) ∧
  (path = "/"%string ∨ char_is (last_char path) slash = false) ∧
  (∃ r, path = String.append (Path m) r).
Proof.
  unfold checkMount. rewrite <- HasPrefix_true. pose proof (bad_path_ok path) as Hb.
  destruct (Z.eqb_spec (MountStu m) MountStuMounted); simpl; [|naive_solver].
  destruct (Z.eqb_spec perm 0); simpl; [naive_solver|].
  destruct (Z.eqb_spec (Z.land perm (MountMode m)) perm); simpl; [|naive_solver].
  destruct (bad_path path); [|destruct (HasPrefix path (Path m)); simpl; naive_solver].
  split; [done|]. intros (_&_&_&?&?&_). by assert (true = false) by tauto.
Qed.


(** ** Proxy calls and the dentry cache *)

Lemma wp_call uri req Q m :
  (∀ resp err w', api_call uri req (world (caches m)) = ((resp, err), w') →
     Q (resp, err) (set_caches (set_world w' (caches m)) m)) →
  wp (call uri req) Q m.
Proof.
  intros HQ. unfold wp, call. destruct (api_call uri req (world (caches m))) as [[resp err] w'] eqn:E.
  by apply HQ.
Qed.

Lemma forget_parent_ok path r m :
  path = String slash r →
  forget_parent path m =
  Ret (tt, set_dentries (Dentry_Remove (str_take (Z.to_nat (LastIndex path slash)) path) (dentries_ m)).2 m).
Proof.
  intros ->. unfold forget_parent, str_slice_to.
  assert (0 ≤ LastIndex (String slash r) slash) as Hge.
  { cbn [LastIndex]. rewrite Ascii.eqb_refl. zbool. }
  destruct (LastIndex_bounds (String slash r) slash) as [Hb|[? _]]; [|done].
  rewrite (proj2 (Z.leb_le 0 _)), (proj2 (Z.leb_le _ (Z.of_nat _))) by lia. done.
Qed.

(** The mount after an operation: only the world and the dentry cache differ. *)
Definition same_but m m' : Prop :=
  Path m' = Path m ∧ MountStu m' = MountStu m ∧ MountMode m' = MountMode m ∧
  fileCache m' = fileCache m ∧ rc (caches m') = rc (caches m) ∧ wc (caches m') = wc (caches m) ∧
  (dentry_wf (dentries_ m) → dentry_wf (dentries_ m')).

Lemma same_but_refl m : same_but m m.
Proof. by split_and!. Qed.

Lemma same_but_trans m1 m2 m3 : same_but m1 m2 → same_but m2 m3 → same_but m1 m3.
Proof.
  intros (?&?&?&?&?&?&?) (?&?&?&?&?&?&?). split_and!; try congruence. auto.
Qed.

Lemma same_but_world w m : same_but m (set_caches (set_world w (caches m)) m).
Proof. by split_and!. Qed.

(** The common body: failure leaves the dentry cache alone and is an errno,
    success runs the cleanup. *)
Lemma wp_call_then uri req k (P : Mnt W → Prop) m :
  (∀ m1, same_but m m1 → dentries_ m1 = dentries_ m → wp k (λ _ m', same_but m1 m' ∧ P m') m1) →
  wp (call_then uri req k)
     (λ err m', same_but m m' ∧
        match err with
        | None => P m'
        | Some _ => is_errno err ∧ dentries_ m' = dentries_ m
        end) m.
Proof.
  intros Hk. unfold call_then. wp_step. apply wp_call. intros resp err w' E.
  destruct (resp_failed err resp) eqn:Ef.
  - wp_steps. split; [apply same_but_world|].
    destruct (toErr_errno err resp Ef) as [c Hc]. rewrite Hc. split; [by eexists|done].
  - wp_step. eapply wp_mono; [|apply Hk; [apply same_but_world|done]].
    intros [] m' [Hs HP]. wp_steps. split; [|done].
    eapply same_but_trans; [apply same_but_world|done].
Qed.

Lemma wp_forget path m :
  wp (forget path) (λ _ m', same_but m m' ∧
    dentries_ m' = (Dentry_Remove path (dentries_ m)).2) m.
Proof. unfold forget. wp_steps. split; [|done]. split_and!; try done. simpl. apply Remove_wf. Qed.

Lemma wp_forget_prefix path m :
  wp (forget_prefix path) (λ _ m', same_but m m' ∧
    dentries_ m' = Dentry_RemovePrefix path (dentries_ m)) m.
Proof.
  unfold forget_prefix. wp_steps. split; [|done]. split_and!; try done. simpl. apply RemovePrefix_wf.
Qed.

Lemma wp_forget_parent path r m :
  path = String slash r →
  wp (forget_parent path) (λ _ m', same_but m m' ∧
    dentries_ m' =
      (Dentry_Remove (str_take (Z.to_nat (LastIndex path slash)) path) (dentries_ m)).2) m.
Proof.
  intros Hp. unfold wp. rewrite (forget_parent_ok path r m Hp). split; [|done].
  split_and!; try done. simpl. apply Remove_wf.
Qed.

(** The paths an operation invalidates are unknown afterwards. *)
Definition unknown (op : pathop) (d : DentryCache Dentry) : Prop :=
  ∀ key t, invalidates op key = true → lookup_at t key d = None.

Lemma wp_guarded {A} path perm (fail : A) k Q m :
  checkMount m path perm = None → wp k Q m → wp (guarded path perm fail k) Q m.
Proof. intros Hc Hk. unfold wp. by rewrite guarded_ok. Qed.

Lemma unknown_forget op m m1 m' :
  (∀ key, invalidates op key = String.eqb key (op_path op)) →
  dentries_ m1 = dentries_ m → dentry_wf (dentries_ m) →
  dentries_ m' = (Dentry_Remove (op_path op) (dentries_ m1)).2 → unknown op (dentries_ m').
Proof.
  intros Hi Hd Hw -> key t Hk. rewrite Remove_lookup by congruence.
  rewrite Hi in Hk. by rewrite Hk.
Qed.

Lemma MkdirAll_loop_ok path r mode l : ∀ base m,
  path = String slash r →
  wp (MkdirAll_loop path base mode l) (λ _ m', same_but m m') m.
Proof.
  induction l as [|sub l IH]; intros base m Hp; simpl.
  { wp_steps. apply same_but_refl. }
  destruct (0 <? String.length sub)%nat; [|by apply IH].
  wp_step. apply wp_call. intros resp err w' E. destruct err as [err|].
  { wp_steps. apply same_but_world. }
  destruct (Code resp =? E_POSIX_EEXIST); [|destruct (negb _)].
  - eapply wp_mono; [|by apply IH]. intros ? m' Hs.
    exact (same_but_trans _ _ _ (same_but_world w' m) Hs).
  - wp_steps. apply same_but_world.
  - wp_step. eapply wp_mono; [|by apply (wp_forget_parent path r)]. intros [] m1 [Hs1 _].
    eapply wp_mono; [|by apply IH]. intros ? m' Hs.
    exact (same_but_trans _ _ _ (same_but_world w' m) (same_but_trans _ _ _ Hs1 Hs)).
Qed.

Definition is_MkdirAll (op : pathop) : bool := match op with OpMkdirAll _ _ => true | _ => false end.
Definition is_Truncate (op : pathop) : bool := match op with OpTruncate _ _ => true | _ => false end.

(** What an operation on a path does to the mount. *)
Definition op_post (op : pathop) m (err : option error) m' : Prop :=
  same_but m m' ∧
  (is_MkdirAll op = false →
   match err with
   | None => dentry_wf (dentries_ m) → unknown op (dentries_ m')
   | Some _ => is_errno err ∧ dentries_ m' = dentries_ m
   end).

(** The eleven operations that clean exactly their path. *)
Lemma wp_simple_op op uri req m :
  (∀ key, invalidates op key = String.eqb key (op_path op)) →
  wp (call_then uri req (forget (op_path op))) (op_post op m) m.
Proof.
  intros Hi. eapply wp_mono; [|apply (wp_call_then uri req _ (λ m',
    dentry_wf (dentries_ m) → unknown op (dentries_ m')))].
  - intros err m' [Hs Hr]. split; [done|]. intros _. done.
  - intros m1 Hs Hd. eapply wp_mono; [|apply wp_forget]. intros _ m' [Hs' Hd'].
    split; [done|]. intros Hw. by eapply unknown_forget.
Qed.

Lemma wp_parent_op op uri req r m :
  op_path op = String slash r →
  (∀ key, invalidates op key =
     String.eqb key (str_take (Z.to_nat (LastIndex (op_path op) slash)) (op_path op))) →
  wp (call_then uri req (forget_parent (op_path op))) (op_post op m) m.
Proof.
  intros Hp Hi. eapply wp_mono; [|apply (wp_call_then uri req _ (λ m',
    dentry_wf (dentries_ m) → unknown op (dentries_ m')))].
  - intros err m' [Hs Hr]. split; [done|]. intros _. done.
  - intros m1 Hs Hd. eapply wp_mono; [|by apply (wp_forget_parent (op_path op) r)]. intros _ m' [Hs' Hd'].
    split; [done|]. intros Hw key t Hk. rewrite Hd', Remove_lookup by congruence.
    rewrite Hi in Hk. by rewrite Hk.
Qed.

Lemma wp_rename src dst m :
  wp (let! r := call UrlRename (RenameRequest src dst) in
      let '(resp, err) := r in
      match err with
      | Some _ => ret (to_errno err)
      | None =>
          if negb (Code resp =? 0) then ret (toErr err (Code resp))
          else forget_prefix src ;;; forget_prefix dst ;;; ret None
      end) (op_post (OpRename src dst) m) m.
Proof.
  wp_step. apply wp_call. intros resp err w' E. destruct err as [err|].
  { wp_steps. split; [apply same_but_world|]. intros _. simpl. split; [by eexists|done]. }
  destruct (Z.eqb_spec (Code resp) 0) as [Hc|Hc]; simpl.
  - wp_step. eapply wp_mono; [|apply wp_forget_prefix]. intros [] m1 [Hs1 Hd1].
    wp_step. eapply wp_mono; [|apply wp_forget_prefix]. intros [] m2 [Hs2 Hd2]. wp_steps.
    split; [exact (same_but_trans _ _ _ (same_but_world w' m) (same_but_trans _ _ _ Hs1 Hs2))|].
    intros _ Hw key t Hk. simpl in *. rewrite Hd2, Hd1.
    rewrite RemovePrefix_lookup, RemovePrefix_lookup by (try done; by apply RemovePrefix_wf).
    apply orb_prop in Hk as [-> | ->]; [by destruct (HasPrefix key dst)|done].
  - wp_steps. split; [apply same_but_world|]. intros _.
    destruct (toErr_errno None resp) as [c Hc']; [simpl; zbool|]. rewrite Hc'. split; [by eexists|done].
Qed.

Lemma run_op_ok op m :
  checkMount m (op_path op) (op_perm op) = None →
  is_Truncate op = false ∨ rwCache m = false →
  wp (run_op op) (op_post op m) m.
Proof.
  intros Hc Ht. pose proof (proj1 (checkMount_ok _ _ _) Hc) as (_&_&_&[r Hp]&_).
  destruct op; apply wp_guarded; try exact Hc; clear Hc;
    try match goal with |- wp _ (op_post ?o _) _ => by apply (wp_simple_op o) end.
  all: try by apply wp_rename.
  - (* Truncate *) destruct Ht as [?|Ht]; [done|]. unfold pre_truncate. wp_steps. rewrite Ht. wp_steps.
    by apply (wp_simple_op (OpTruncate path length)).
  - (* Symlink *) eapply wp_mono; [|apply (wp_call_then _ _ _ (λ _, True))].
    + intros err m' [Hs Hr]. split; [done|]. intros _. destruct err; [done|]. by intros _ key t.
    + intros m1 _ _. wp_steps. split; [apply same_but_refl|done].
  - (* RmDirTree *) eapply wp_mono; [|apply (wp_call_then _ _ _ (λ m',
      dentry_wf (dentries_ m) → unknown (OpRmDirTree path) (dentries_ m')))].
    + intros err m' [Hs Hr]. split; [done|]. intros _. done.
    + intros m1 Hs Hd. eapply wp_mono; [|apply wp_forget_prefix]. intros _ m' [Hs' Hd'].
      split; [done|]. intros Hw key t Hk. rewrite Hd', RemovePrefix_lookup by congruence.
      simpl in Hk. by rewrite Hk.
  - (* Mkdir *) by apply (wp_parent_op (OpMkdir path mode) _ _ r).
  - (* MkdirAll *) wp_steps. eapply wp_mono; [|by apply (MkdirAll_loop_ok path r)].
    intros err m' Hs. split; done.
  - (* Mknod *) destruct (_ || _).
    + wp_steps. split; [apply same_but_refl|]. intros _. split; [by eexists|done].
    + by apply (wp_parent_op (OpMknod path mode dev) _ _ r).
Qed.


(** * Handles *)

Lemma wp_run_pair {S A B} (k : M S (A * B)) Q (s : S) :
  wp k (λ x s', Q x.1 x.2 s') s → ∃ a b s', k s = Ret ((a, b), s') ∧ Q a b s'.
Proof. intros ([a b] & s' & E & HQ)%wp_run. by exists a, b, s'. Qed.

Lemma wp_file_entry fd Q m :
  ft_wf (fileCache m) → 0 ≤ fd < 2 ^ 32 →
  (∀ fc', ft_wf fc' →
     (∀ h, entry_at fc' h = if h =? fd then set_access (now (caches m)) <$> entry_at (fileCache m) fd
                            else entry_at (fileCache m) h) →
     Q (set_access (now (caches m)) <$> entry_at (fileCache m) fd) (set_files fc' m)) →
  wp (file_entry fd) Q m.
Proof.
  intros Hw Hfd HQ. unfold file_entry. wp_steps. unfold onf. wp_steps.
  rewrite u32_small by done.
  destruct (GetFileEntry_ok (now (caches m)) fd (fileCache m) Hw ltac:(lia)) as (fc' & E & Hw' & He).
  unfold wp. rewrite E. by apply HQ.
Qed.

(** The handles other than [fd] are those of before. *)
Definition handles_but (fd : Z) m m' : Prop :=
  ∀ h, h ≠ fd → entry_at (fileCache m') h = entry_at (fileCache m) h.

(** C24: opening a file.  The call always returns.  On success the handle is
    the lowest free one, its entry holds the path, the flags, the proxy's file
    id and the block size of 1 MiB, and no other handle changes; on failure
    the error is an errno, the result is the invalid handle and the table is
    unchanged. *)
Theorem mount_open path flags mode m :
  ft_wf (fileCache m) →
  ∃ fd err m', Open path flags mode m = Ret ((fd, err), m') ∧ ft_wf (fileCache m') ∧
    match err with
    | Some _ => fd = InvalidHandle ∧ is_errno err ∧ fileCache m' = fileCache m
    | None =>
        checkMount m path (open_perm flags) = None ∧
        entry_at (fileCache m) fd = None ∧ 0 ≤ fd < fileEntryVecSize (fileCache m) ∧
        (∀ h, 0 ≤ h < fd → is_Some (entry_at (fileCache m) h)) ∧
        handles_but fd m m' ∧
        ∃ e resp w', entry_at (fileCache m') fd = Some e ∧
          api_call UrlOpen (OpenRequest path
            (if has flags O_CREATE then OpenFlagCreate else OpenFlagOpen)
            (if negb (Z.land mode S_IFMT =? S_IFLNK) then Z.lor (Z.land mode SysPerm) S_IFREG
             else mode)) (world (caches m)) = ((resp, None), w') ∧
          Code resp = 0 ∧ fe_Id e = resp_Id resp ∧ FilePath e = path ∧ OpenFlag e = flags ∧
          Handle e = fd ∧ BlockSize e = DefaultBlockSize ∧ DirectIO e = has flags O_DIRECT
    end.
Proof.
  intros Hw. unfold Open. destruct (checkMount m path (open_perm flags)) eqn:Hc.
  { rewrite guarded_denied by congruence. exists InvalidHandle, EACCES, m. split; [done|].
    split; [done|]. split_and!; [done|by eexists|done]. }
  rewrite guarded_ok by done.
  pose proof (proj1 (checkMount_ok _ _ _) Hc) as (_&_&_&[r Hp]&_).
  apply wp_run_pair. wp_step. apply wp_call. intros resp err w' E.
  destruct (resp_failed err resp) eqn:Ef.
  { wp_steps. split; [done|]. destruct (toErr_errno err resp Ef) as [c Hc']. simpl. rewrite Hc'.
    split_and!; [done|by eexists|done]. }
  destruct err as [err|]; [done|]. simpl in Ef. apply negb_false_iff, Z.eqb_eq in Ef.
  wp_steps. unfold onf. wp_steps.
  set (fe := MkFileEntry _ _ _ _ _ _ _ _ _ _ _). set (t := now _).
  destruct (NewFile_ok t fe (fileCache m) Hw) as (h & fc' & En & Hw' & Hh).
  unfold wp. simpl. rewrite En. destruct h as [fd|].
  2: { destruct Hh as [-> _]. simpl. split; [done|]. split_and!; [done|by eexists|done]. }
  destruct Hh as (Hfd & Hfree & Hlow & Hent).
  set (m1 := set_files fc' _). pose proof (ft_u32 _ Hw).
  enough (wp (let! e := file_entry fd in
              Assert (match e with Some _ => true | None => false end) ;;;
              forget_parent path ;;; ret (fd, @None error))
    (λ x m', ft_wf (fileCache m') ∧ x = (fd, None) ∧
       ∀ h, entry_at (fileCache m') h =
            if h =? fd then Some (set_access t (opened t fe fd)) else entry_at (fileCache m) h) m1) as Hgo.
  { unfold wp in Hgo. destruct (bind _ _ m1) as [[x m']| |]; [|done..].
    destruct Hgo as (Hw2 & -> & He). simpl. split; [done|]. split_and!; try done; try lia.
    - intros h Hne. rewrite He. by rewrite (proj2 (Z.eqb_neq h fd)).
    - eexists _, resp, w'. rewrite He, Z.eqb_refl. split; [done|]. by split_and!. }
  wp_step. apply wp_file_entry; [done|lia|]. intros fc2 Hw2 He2. subst m1. simpl in *.
  assert (entry_at fc' fd = Some (opened t fe fd)) as Hfd' by (rewrite Hent; by rewrite Z.eqb_refl).
  rewrite Hfd'. simpl. wp_steps.
  eapply wp_mono; [|by apply (wp_forget_parent path r)]. intros [] m2 [Hs _]. wp_steps.
  destruct Hs as (_&_&_&Hf&_). rewrite Hf. simpl. split; [done|]. split; [done|].
  intros h. rewrite He2. rewrite Hfd'. destruct (Z.eqb_spec h fd); [done|].
  rewrite Hent. by rewrite (proj2 (Z.eqb_neq h fd)).
Qed.

Lemma set_files_id m : set_files (fileCache m) m = m.
Proof. by destruct m. Qed.

Lemma file_entry_none fd m :
  ft_wf (fileCache m) → 0 ≤ fd < 2 ^ 32 → entry_at (fileCache m) fd = None →
  file_entry fd m = Ret (None, m).
Proof.
  intros Hw Hfd He. unfold file_entry, bind, gets, onf, zoom. rewrite u32_small by done.
  assert (GetFileEntry (now (caches m)) fd (fileCache m) = Ret (None, fileCache m)) as ->.
  { unfold GetFileEntry. destruct (Z.leb_spec (fileEntryVecSize (fileCache m)) fd); [done|].
    rewrite vec_get_ok by (done || lia). by rewrite He. }
  by rewrite set_files_id.
Qed.

(** The operations that take a handle, with results forgotten but the error. *)
Inductive handleop : Type :=
| HClose | HFlush | HFsync (datasync : Z) | HFtruncate (size : Z) | HFstat | HFchmod (mode : Z)
| HFsetxattr (key : string) (value : bytes) (flag : Z) | HFgetxattr (key : string) | HFlistxattr
| HFremovexattr (key : string) | HRead (buffer : bytes) (offset : Z)
| HWrite (buffer : bytes) (offset : Z).

Definition err_of {A} (r : A + option error) : option error :=
  match r with inl _ => None | inr e => e end.

Definition run_handle (fd : Z) (op : handleop) : M (Mnt W) (option error) :=
  match op with
  | HClose => Close fd
  | HFlush => Flush fd
  | HFsync d => Fsync fd d
  | HFtruncate n => Ftruncate fd n
  | HFstat => let! r := Fstat fd in ret (err_of r)
  | HFchmod mo => Fchmod fd mo
  | HFsetxattr k v f => Fsetxattr fd k v f
  | HFgetxattr k => let! r := Fgetxattr fd k in ret r.2
  | HFlistxattr => let! r := Flistxattr fd in ret r.2
  | HFremovexattr k => Fremovexattr fd k
  | HRead b off => let! r := Read fd b off in ret (rd_err r)
  | HWrite b off => let! r := Write fd b off in ret r.2
  end.

(** The error for a handle that is not open, and for one opened in the wrong
    mode. *)
Definition bad_handle_error (op : handleop) : option error :=
  match op with
  | HRead b _ => if max_io <? Zlen b then EIO else Some (ErrErrno E_UTIL_FAULT)
  | HWrite b _ => if max_io <? Zlen b then EIO else EBADF
  | _ => EBADF
  end.

(** Operations that need a handle opened for writing, or for reading. *)
Definition needs_write (op : handleop) : bool :=
  match op with
  | HFtruncate _ | HFsetxattr _ _ _ | HFremovexattr _ => true
  | HWrite b _ => Zlen b <=? max_io
  | _ => false
  end.
Definition needs_read (op : handleop) : bool :=
  match op with
  | HFgetxattr _ | HFlistxattr => true
  | HRead b _ => Zlen b <=? max_io
  | _ => false
  end.

(** C27: handles are checked.  Every operation on a handle that is not open
    fails without a proxy call and leaves the mount as it was (the error is
    EBADF, but for [Read], which answers with the generic fault code); an
    operation on an open handle whose mode does not allow it fails with EPERM
    and changes nothing but the entry's access time. *)
Theorem mount_handles fd (op : handleop) m :
  ft_wf (fileCache m) → 0 ≤ fd < 2 ^ 32 →
  match entry_at (fileCache m) fd with
  | None => run_handle fd op m = Ret (bad_handle_error op, m)
  | Some e =>
      (needs_write op && negb (writable e)) || (needs_read op && negb (readable e)) = true →
      ∃ fc', run_handle fd op m = Ret (EPERM, set_files fc' m) ∧
        ∀ h, h ≠ fd → entry_at fc' h = entry_at (fileCache m) h
  end.
Proof.
  intros Hw Hfd. destruct (entry_at (fileCache m) fd) as [e|] eqn:Ee.
  - intros Hmode.
    assert (wp (file_entry fd) (λ x m', x = Some (set_access (now (caches m)) e) ∧
      ∃ fc', m' = set_files fc' m ∧ ∀ h, h ≠ fd → entry_at fc' h = entry_at (fileCache m) h) m) as Hf.
    { apply wp_file_entry; [done..|]. intros fc' _ He. rewrite Ee. split; [done|].
      exists fc'. split; [done|]. intros h Hne. rewrite He. by rewrite (proj2 (Z.eqb_neq h fd)). }
    apply wp_run in Hf as (x & m' & Ef & -> & fc' & -> & Hoth). exists fc'. split; [|done].
    destruct op; simpl in Hmode; try done;
      unfold run_handle, Ftruncate, Fsetxattr, Fremovexattr, Fgetxattr, Flistxattr, Read, Write, bind;
      rewrite ?orb_false_r in Hmode; try (rewrite Ef; simpl;
      unfold writable, readable in *; simpl; rewrite Hmode; reflexivity).
    + apply andb_prop in Hmode as [Hl Hmode]. rewrite Z.leb_antisym in Hl.
      rewrite (proj1 (negb_true_iff _) Hl), Ef. simpl. unfold readable in Hmode.
      rewrite negb_involutive in Hmode. by rewrite Hmode.
    + apply andb_prop in Hmode as [Hl Hmode]. rewrite Z.leb_antisym in Hl.
      rewrite (proj1 (negb_true_iff _) Hl), Ef. simpl. unfold writable in Hmode.
      rewrite negb_involutive in Hmode. by rewrite Hmode.
  - pose proof (file_entry_none fd m Hw Hfd Ee) as Ef.
    destruct op; unfold run_handle, Close, Fsync, Flush, Ftruncate, Fstat, Fchmod, Fsetxattr,
      Fgetxattr, Flistxattr, Fremovexattr, Read, Write, bind; simpl;
      try (rewrite Ef; reflexivity); destruct (max_io <? Zlen _); try done; rewrite Ef; reflexivity.
Qed.

(** * Life cycle *)

(** Invert [ret _ _ = Ret _]. *)
Ltac ret_eq :=
  let Hr := fresh in unfold ret, bind, remember, modify; intros Hr; injection Hr as <- <-; simpl; try done.

Lemma doStat_frame path m r m' :
  doStat path m = Ret (r, m') →
  MountStu m' = MountStu m ∧ MountMode m' = MountMode m ∧ rwCache m' = rwCache m.
Proof.
  unfold doStat, bind, call. destruct (api_call _ _ _) as [[resp err] w'].
  destruct (resp_failed err resp); ret_eq.
Qed.

Lemma add_cache_size_frame path d m x m' :
  add_cache_size path d m = Ret (x, m') → MountStu m' = MountStu m ∧ MountMode m' = MountMode m.
Proof.
  unfold add_cache_size. unfold bind at 1, get.
  destruct (rwCache m), (GetSimpleFileEntry d) as [fe|]; try ret_eq.
  unfold bind, onc, zoom. destruct (StatSize fe (caches m)) as [[[n [e|]] c]| |]; [| |done..].
  - intros Hd. apply doStat_frame in Hd. simpl in Hd. tauto.
  - ret_eq.
Qed.

Lemma Stat_frame path m r m' :
  Stat path m = Ret (r, m') → MountStu m' = MountStu m ∧ MountMode m' = MountMode m.
Proof.
  unfold Stat. destruct (checkMount m path MountModeRead) eqn:Hc;
    [rewrite guarded_denied by congruence; ret_eq|].
  rewrite guarded_ok by done. unfold bind at 1. unfold recall at 1.
  destruct (Dentry_Get _ _ _) as [[d|] dc]; [ret_eq|].
  set (m0 := set_dentries dc m). unfold bind at 1.
  destruct (doStat path m0) as [[[d|e] m1]| |] eqn:E1; [|ret_eq; apply doStat_frame in E1; simpl in E1; tauto|done..].
  apply doStat_frame in E1 as (E1 & E2 & _). unfold m0 in *. simpl in E1, E2.
  rewrite <- E1, <- E2. clear E1 E2. unfold bind at 1.
  destruct (add_cache_size path d m1) as [[x m2]| |] eqn:E2; [|done..].
  apply add_cache_size_frame in E2 as [<- <-]. destruct x; ret_eq.
Qed.

(** Mounting.  [Mount] succeeds only on a new mount, and from then on the
    mount has all three permissions; calling it again, or after [DelMount], is
    refused without effect; and after [DelMount] every operation on a path is
    refused without effect. *)
Theorem mount_lifecycle m (op : pathop) :
  (MountStu m ≠ MountStuNew → Mount m = Ret (EPERM, m)) ∧
  (∀ err m', Mount m = Ret (err, m') → MountStu m = MountStuNew →
     MountStu m' = MountStuMounted ∧ MountMode m' = 7) ∧
  (∀ m', DelMount m = Ret (tt, m') →
     MountStu m' = MountStuDel ∧ Mount m' = Ret (EPERM, m') ∧
     run_op op m' = Ret (EACCES, m')).
Proof.
  split_and!.
  - intros Hs. unfold Mount, bind, get. by rewrite (proj2 (Z.eqb_neq _ _) Hs).
  - intros err m' E Hs. unfold Mount, bind, get in E. rewrite Hs in E. simpl in E.
    destruct (Stat (Path m) _) as [[r m1]| |] eqn:Es; [|done..].
    assert (m1 = m') as -> by (destruct r; unfold ret in E; by simplify_eq/=).
    apply (Stat_frame (Path m)) in Es as [-> ->]. done.
  - intros m' E. unfold DelMount, bind, get in E.
    assert (MountStu m' = MountStuDel) as Hd.
    { destruct (if rwCache m then _ else _) as [[[] m1]| |]; [|done..].
      unfold Assert, ret, panic, modify in E.
      destruct (negb (stopped m)); [by injection E as <-|discriminate E]. }
    split; [done|]. split.
    + unfold Mount, bind, get. by rewrite Hd.
    + assert (checkMount m' (op_path op) (op_perm op) ≠ None) as Hc.
      { unfold checkMount. by rewrite Hd. }
      destruct op; by apply guarded_denied.
Qed.
End Ops.

(** * File contents *)

Section Contents.
Context {W : Type} `{ProxyApi W} `{!ProxyStore W}.
Implicit Types (m : Mnt W).
Abbreviation BS := DefaultBlockSize.

Lemma BS_ok : 0 < BS < 2 ^ 32.
Proof. unfold DefaultBlockSize. lia. Qed.

(** The sizes the mount accepts never overflow the caches' arithmetic. *)
Lemma mount_req_ok e buffer offset :
  BlockSize e = BS → buffer ≠ [] → Zlen buffer ≤ max_io → 0 ≤ offset → offset + 2 ^ 30 < 2 ^ 64 →
  req_ok e buffer offset.
Proof.
  intros Hb Hne Hl Ho Hm. unfold req_ok. rewrite Hb. pose proof BS_ok.
  unfold max_io, DefaultBlockSize in *.
  pose proof (Z.mod_pos_bound offset (1 * 1024 * 1024) ltac:(lia)). split_and!; try done; lia.
Qed.

(** A handle's entry, looked up. *)
Lemma file_entry_some fd e m :
  ft_wf (fileCache m) → 0 ≤ fd < 2 ^ 32 → entry_at (fileCache m) fd = Some e →
  ∃ fc', file_entry fd m = Ret (Some (set_access (now (caches m)) e), set_files fc' m) ∧
    ft_wf fc' ∧ entry_at fc' fd = Some (set_access (now (caches m)) e).
Proof.
  intros Hw Hfd He.
  assert (wp (file_entry fd) (λ x m', x = Some (set_access (now (caches m)) e) ∧
    ∃ fc', m' = set_files fc' m ∧ ft_wf fc' ∧ entry_at fc' fd = Some (set_access (now (caches m)) e)) m)
    as Hf.
  { apply wp_file_entry; [done..|]. intros fc' Hw' Hent. rewrite He. split; [done|].
    exists fc'. split_and!; [done..|]. by rewrite Hent, Z.eqb_refl, He. }
  apply wp_run in Hf as (x & m' & E & -> & fc' & -> & ? & ?). by exists fc'.
Qed.


End Contents.

(** * A server, for witnesses *)

Module MountExample.

(** The files, the outcome of coming writes, and the paths' file ids. *)
Record Srv : Type := MkSrv {
  srv_mem : MemStore;
  srv_names : gmap string Z;
}.

Definition srv_ok (d : RespData) : Response * option error := (MkResponse 0 EmptyString d, None).

#[export] Instance srv_api : ProxyApi Srv := {
  api_call uri req s :=
    match req with
    | ReadRequest id off len =>
        let '(r, m) := proxy_Read id off len (srv_mem s) in (r, MkSrv m (srv_names s))
    | WriteRequest id off _ data =>
        let '(r, m) := proxy_Write id data off (srv_mem s) in (r, MkSrv m (srv_names s))
    | StatRequest path =>
        match srv_names s !! path with
        | Some id => (srv_ok (InoData (MkInoInfo id 420 1 (Zlen (mem_content (srv_mem s) id))
                        0 0 0 0 0 EmptyString EmptyString EmptyString)), s)
        | None => ((MkResponse 1003 "no entry" NoData, None), s)
        end
    | OpenRequest path _ _ => (srv_ok (IdData (default 0 (srv_names s !! path))), s)
    | _ => (srv_ok NoData, s)
    end;
}.

#[export] Instance srv_store : ProxyStore Srv.
Proof.
  refine {| content := λ s, mem_content (srv_mem s) |}.
  - intros id off len w r w' ?? E Hc. simpl in E. by simplify_eq/=.
  - intros id off len w x w' E id'. simpl in E. by simplify_eq/=.
  - intros id data off w r w' Ho E Hc. unfold proxy_Write in E.
    destruct (mem_io.(proxy_Write) id data off (srv_mem w)) as [[r0 e0] m0] eqn:Em.
    assert (api_io.(proxy_Write) id data off w = ((r0, e0), MkSrv m0 (srv_names w))) as E'
      by (simpl in Em |- *; by rewrite Em).
    simpl in E, E'. rewrite E in E'. simplify_eq/=.
    exact (mem_store.(store_write_ok) id data off _ _ _ Ho Em Hc).
  - intros id data off w r e w' Ho E Hc.
    destruct (mem_io.(proxy_Write) id data off (srv_mem w)) as [[r0 e0] m0] eqn:Em.
    assert (api_io.(proxy_Write) id data off w = ((r0, e0), MkSrv m0 (srv_names w))) as E'
      by (simpl in Em |- *; by rewrite Em).
    rewrite E in E'. simplify_eq/=.
    exact (mem_store.(store_write_fail) id data off _ _ _ _ Ho Em Hc).
  - intros id data off w x w' E id' Hne.
    destruct (mem_io.(proxy_Write) id data off (srv_mem w)) as [x0 m0] eqn:Em.
    assert (api_io.(proxy_Write) id data off w = (x0, MkSrv m0 (srv_names w))) as E'
      by (simpl in Em |- *; by rewrite Em).
    rewrite E in E'. simplify_eq/=.
    exact (mem_store.(store_write_frame) id data off _ _ _ Em id' Hne).
Defined.

(** File 5, "/m/a", opened for reading and writing as handle 0. *)
Definition fileA : FileEntry :=
  MkFileEntry 5 DefaultBlockSize (-1) "/m/a" 2 0 false EmptyString 0 0 false.
Definition table1 : FileCache :=
  match NewFile 0 fileA (NewFileCache 2) with Ret (_, fc) => fc | _ => NewFileCache 2 end.
Definition srv1 (script : list (option Z)) : Srv :=
  MkSrv (MkMem {[5 := [1; 2; 3]]} script) {[ "/m/a"%string := 5 ]}.
Definition mnt1 (script : list (option Z)) : Mnt Srv :=
  MkMnt "/m" MountStuMounted 7 2000 0 true table1 (NewDentryCache 10 500)
    (MkCS (NewPool 4 10) (NewPool 4 10) None None 1 (srv1 script) 0) false.

Lemma table1_wf : ft_wf table1.
Proof.
  destruct (NewFile_ok 0 fileA (NewFileCache 2)) as (r & fc & E & Hw & _).
  - apply ft_wf_new. lia.
  - unfold table1. by rewrite E.
Qed.

Lemma winv1 script : winv DefaultBlockSize false (caches (mnt1 script)).
Proof.
  constructor; simpl.
  - apply wf_NewPool.
  - apply NoDup_nil_2.
  - by intros ? ?%not_elem_of_nil.
  - intros f i l. unfold lockof. simpl. by rewrite lookup_empty.
  - done.
Qed.

Lemma quiet1 script : quiet DefaultBlockSize (caches (mnt1 script)) 5.
Proof.
  constructor; try done.
  - apply winv1.
  - apply wf_NewPool.
Qed.

Lemma dentries1_wf script : dentry_wf (dentries_ (mnt1 script)).
Proof.
  constructor; simpl; try done.
  - constructor.
  - intros k e. rewrite lookup_empty. split; [done|]. by intros [?%not_elem_of_nil _].
  - by intros e ?%not_elem_of_nil.
  - intros e. rewrite lookup_empty. by intros [].
Qed.


Lemma mount_open_witness :
  ∃ m', Open "/m/a" 2 0 (mnt1 []) = Ret ((1, None), m') ∧ ft_wf (fileCache m').
Proof.
  destruct (mount_open "/m/a" 2 0 (mnt1 [])) as (fd & err & m' & E & Hw & _); [exact table1_wf|].
  vm_compute in E. injection E as <- <- <-.
  eexists. split; [vm_compute; reflexivity|exact Hw].
Defined.

Lemma mount_handles_witness :
  Read 1 [0] 0 (mnt1 []) = Ret (MkRead 0 (Some (ErrErrno E_UTIL_FAULT)) [0], mnt1 []) ∧
  run_handle 1 (HRead [0] 0) (mnt1 []) = Ret (Some (ErrErrno E_UTIL_FAULT), mnt1 []).
Proof.
  split; [vm_compute; reflexivity|].
  apply (mount_handles 1 (HRead [0] 0) (mnt1 [])); [exact table1_wf|lia].
Defined.



(** The same mount with blocks of four bytes, and a proxy that rejects the next
    write with code 1005. *)
Definition mnt4 : Mnt Srv :=
  set_files (match NewFile 0 (MkFileEntry 5 4 (-1) "/m/a" 2 0 false EmptyString 0 0 false)
                     (NewFileCache 2) with Ret (_, fc) => fc | _ => NewFileCache 2 end)
    (mnt1 [Some 1005]).

(** [Flush] reports success although writing the buffered data back failed. *)
Lemma flush_error_lost :
  ∃ n m1 m2, Write 0 [7; 8] 1 mnt4 = Ret ((n, None), m1) ∧
    Flush 0 m1 = Ret (None, m2) ∧ mem_content (srv_mem (world (caches m2))) 5 = [1; 2; 3].
Proof.
  destruct (Write 0 [7; 8] 1 mnt4) as [[[n err] m1]| |] eqn:E1;
    [|vm_compute in E1; discriminate E1..].
  assert (err = None) as ->.
  { assert (match Write 0 [7; 8] 1 mnt4 with
            | Ret ((_, e), _) => match e with None => true | _ => false end | _ => false end = true) as Hx
      by (vm_compute; reflexivity).
    rewrite E1 in Hx. by destruct err. }
  assert (match Write 0 [7; 8] 1 mnt4 with
          | Ret (_, m1) => match Flush 0 m1 with
              | Ret (None, m2) => bool_decide (mem_content (srv_mem (world (caches m2))) 5 = [1; 2; 3])
              | _ => false end | _ => false end = true) as Hx by (vm_compute; reflexivity).
  rewrite E1 in Hx. destruct (Flush 0 m1) as [[[e|] m2]| |] eqn:E2; try discriminate Hx.
  apply bool_decide_eq_true in Hx. by exists n, m1, m2.
Qed.
End MountExample.
