(* ===== verification/MountClose.v ===== *)
(** Giving resources back: closing a handle, truncating a file and shutting the
    mount down, with both caches in any state that no request has locked. *)

From stdpp Require Import base gmap strings list.
From Stdlib Require Import ZArith Lia.
From S2P Require Import Prelude GoString Proto Config Store Buffer Pool View CacheState WCache.
From S2P Require Import WCacheProof WCacheSteps RCache RWCache RWCacheProof RCacheProof CloseProof.
From S2P Require Import RWCacheTheorems Lru FileTable Mount MountProof.

Section Closing.
Context {W : Type} `{ProxyApi W} `{!ProxyStore W}.
Implicit Types (m : Mnt W) (s : CS W).
Abbreviation BS := DefaultBlockSize.

Lemma wp_onc {A} (k : M (CS W) A) Q m :
  wp k (λ x c, Q x (set_caches c m)) (caches m) → wp (onc k) Q m.
Proof. apply wp_zoom. Qed.

Lemma wp_onc_if {A} (b : bool) (k1 k2 : M (CS W) A) Q m :
  wp (if b then k1 else k2) (λ x c, Q x (set_caches c m)) (caches m) →
  wp (if b then onc k1 else onc k2) Q m.
Proof. destruct b; apply wp_onc. Qed.

Lemma wp_onf {A} (op : FileCache → outcome (A * FileCache)) Q m :
  match op (fileCache m) with
  | Ret (a, fc) => Q a (set_files fc m)
  | _ => False
  end → wp (onf op) Q m.
Proof. apply wp_zoom. Qed.

(** No request holds a lock of the write cache, or of the file's read blocks. *)
Definition idle s (f : Z) : Prop :=
  (∀ g j, lockof (wc s) g j = None) ∧ (∀ j, lockof (rc s) f j = None).

(** What giving up a reference of the file does to the caches. *)
Definition handed_over s f (last : bool) (err : option error) s' : Prop :=
  rwinv BS false s' ∧ (∀ g, g ≠ f → wview BS s' g ≡ wview BS s g) ∧
  match err with
  | Some _ => is_errno err
  | None => of_bytes (content (world s') f) ≡ wview BS s f ∧
      (∀ j, slot_buf (wc s') f j = None) ∧
      (last = true → Cache (wc s') !! f = None ∧ Cache (rc s') !! f = None)
  end.

Lemma wp_hand_over fe (last : bool) s :
  rwinv BS false s → idle s (fe_Id fe) →
  wp (if last then RWCache_Close fe else RWCache_Flush fe)
     (λ e s', handed_over s (fe_Id fe) last e s') s.
Proof.
  intros Hi [Hwl Hrl]. destruct last.
  - eapply wp_mono; [|by apply (RWCache_Close_spec BS BS_ok (shut:=false))].
    intros e s' (Hi' & _ & _ & Hcr & _ & Ho & Hok). split; [done|]. split; [done|].
    destruct e; [done|]. destruct Hok as [Hcw Hcont]. split_and!; try done.
    intros j. unfold slot_buf, slot. by rewrite Hcw.
  - eapply wp_mono; [|apply (WCache_Flush_spec BS BS_ok (shut:=false)); [apply Hi|done]].
    intros e s' ((Hwi & Hf & Ho & _ & _ & Hok & Her) & _).
    split; [split; [done|by eapply rinv_frame; [apply Hi|]]|]. split; [done|].
    destruct e; [by apply Her|]. by destruct (Hok eq_refl) as (_ & ? & ?).
Qed.

(** What closing and writing through a handle do to the mount. *)
Lemma Close_ok m fd e :
  ft_wf (fileCache m) → 0 ≤ fd < 2 ^ 32 → entry_at (fileCache m) fd = Some e →
  DirectIO e = false → rwCache m = true → rwinv BS false (caches m) → idle (caches m) (fe_Id e) →
  ∃ err m', Close fd m = Ret (err, m') ∧ ft_wf (fileCache m') ∧ rwinv BS false (caches m') ∧
    (∀ g, g ≠ fe_Id e → wview BS (caches m') g ≡ wview BS (caches m) g) ∧
    handles_but fd m m' ∧
    match err with
    | None => entry_at (fileCache m') fd = None ∧
        of_bytes (content (world (caches m')) (fe_Id e)) ≡ wview BS (caches m) (fe_Id e) ∧
        (∀ j, slot_buf (wc (caches m')) (fe_Id e) j = None) ∧
        (count_refs (fe_Id e) (fileEntryVec (fileCache m)) = 1 →
           Cache (wc (caches m')) !! fe_Id e = None ∧ Cache (rc (caches m')) !! fe_Id e = None)
    | Some _ => err = EBADF ∧ is_Some (entry_at (fileCache m') fd)
    end.
Proof.
  intros Hw Hfd He Hd Hrw Hi Hidle. set (f := fe_Id e) in *.
  destruct (GetFileEntry_ok (now (caches m)) fd (fileCache m) Hw ltac:(lia)) as (fc1 & Ef & Hw1 & Hent).
  pose proof (GetFileEntry_refer _ _ _ _ _ Ef) as Hrf. rewrite He in Ef, Hent. simpl in Ef, Hent.
  set (e1 := set_access (now (caches m)) e) in *.
  destruct (IsLastRefer_ok (fileCache m) fd e Hw He Hd) as (last & El & Hlast).
  assert (IsLastRefer e1 fc1 = Ret last) as El1.
  { rewrite <- El. unfold IsLastRefer. by rewrite Hrf. }
  apply wp_run. unfold Close.
  apply wp_bind. unfold file_entry. apply wp_bind, wp_gets, wp_onf. rewrite u32_small, Ef by done.
  apply wp_bind, wp_get. unfold UseRWCache. simpl. rewrite Hd, Hrw. simpl.
  apply wp_bind, wp_bind. eapply wp_lift; [exact El1|].
  apply wp_onc_if. eapply wp_mono; [|by apply (wp_hand_over e1)].
  intros err s' (Hi' & Ho & Herr). destruct err as [x|].
  - apply wp_ret. simpl. split_and!; try done.
    + intros h Hne. simpl. by rewrite Hent, (proj2 (Z.eqb_neq h fd)) by done.
    + rewrite Hent, Z.eqb_refl. eauto.
  - destruct (CloseFile_ok fd fc1 Hw1 ltac:(lia)) as (r & fc2 & Ec & Hw2 & Hr & Hent2).
    rewrite Hent, Z.eqb_refl in Hr. assert (r = true) as -> by (apply Hr; eauto).
    apply wp_bind, wp_onf. simpl. rewrite Ec. apply wp_ret.
    destruct Herr as (Hcont & Hslots & Hgone). simpl. split_and!; try done.
    + intros h Hne. simpl. by rewrite Hent2, Hent, (proj2 (Z.eqb_neq h fd)) by done.
    + by rewrite Hent2, Z.eqb_refl.
    + intros Hc. apply Hgone. by apply Hlast.
Qed.

Lemma Write_ok m fd e buffer offset :
  ft_wf (fileCache m) → 0 ≤ fd < 2 ^ 32 → entry_at (fileCache m) fd = Some e →
  writable e = true → DirectIO e = false → BlockSize e = BS → rwCache m = true →
  rwinv BS false (caches m) → idle (caches m) (fe_Id e) →
  buffer ≠ [] → Zlen buffer ≤ max_io → 0 ≤ offset → offset + 2 ^ 30 < 2 ^ 64 →
  ∃ n err m', Write fd buffer offset m = Ret ((n, err), m') ∧ ft_wf (fileCache m') ∧
    entry_at (fileCache m') fd = Some (set_access (now (caches m)) e) ∧ rwCache m' = true ∧
    rwinv BS false (caches m') ∧ (chSync (caches m) = None → pending (caches m') = []) ∧
    (∀ j, lockof (rc (caches m')) (fe_Id e) j = None) ∧
    (∀ g, g ≠ fe_Id e → wview BS (caches m') g ≡ wview BS (caches m) g) ∧
    (err = None → n = Zlen buffer ∧
       wview BS (caches m') (fe_Id e) ≡ spec_write (wview BS (caches m) (fe_Id e)) offset buffer).
Proof.
  intros Hw Hfd He Hwr Hd Hbs Hrw Hi [Hwl Hrl] Hne Hl Ho Hm.
  destruct (file_entry_some fd e m Hw Hfd He) as (fc1 & Ef & Hw1 & He1).
  set (e1 := set_access (now (caches m)) e) in *.
  apply wp_run_pair. unfold Write. rewrite (proj2 (Z.ltb_ge max_io (Zlen buffer))) by lia.
  apply wp_bind. unfold wp at 1. rewrite Ef. unfold writable in Hwr. apply negb_true_iff in Hwr.
  change (OpenFlag e1) with (OpenFlag e). rewrite Hwr.
  apply wp_bind, wp_get. unfold UseRWCache. simpl. rewrite Hd, Hrw. simpl.
  apply wp_bind, wp_onc. simpl.
  eapply wp_mono; [|apply (RWCache_Write_rwinv BS BS_ok (shut:=false) e1); try done; by apply mount_req_ok].
  intros [n err] s' (Hi' & Hch' & Hrl' & Hwrote & Hoth). apply wp_bind, wp_modify, wp_ret. simpl.
  split_and!; try done; [intros Hch; unfold pending; by rewrite (proj1 Hch' Hch)|]. intros Hn. assert (err = None) as -> by by destruct err.
  simpl in Hwrote. destruct Hwrote as [-> Hv]. split; [done|]. by destruct buffer.
Qed.

(** The sync routines write what is pending, in any order; then no lock of the
    write cache is left. *)
Lemma sync_idle s f bids :
  rwinv BS false s → (∀ j, lockof (rc s) f j = None) → bids ≡ₚ pending s →
  ∃ s', sync_all bids s = Ret (tt, s') ∧ rwinv BS false s' ∧ idle s' f ∧
    ∀ g, wview BS s' g ≡ wview BS s g.
Proof.
  intros [Hwi Hri] Hrl Hp.
  pose proof (sync_all_ok BS BS_ok bids s Hwi ltac:(rewrite Hp; apply Hwi) ltac:(intros; by rewrite Hp)) as Hw.
  apply wp_run in Hw as ([] & s' & E & Hwi' & Hf & Hv & Hp'). exists s'. split_and!; try done.
  - split; [done|]. by eapply rinv_frame.
  - split; [intros g j; by eapply no_pending_unlocked|]. intros j. destruct Hf as (-> & _). apply Hrl.
Qed.

(** C25: closing a handle of a cached file.  It always returns.  Without an error
    the handle, and only it, is gone, and the proxy holds the logical file with
    everything written so far; when it was the last handle of the file, its
    tables have left both caches.  With an error, which is always EBADF, the
    handle is still open, so that nothing written is forgotten silently.  No
    other file changes, and the caches stay well-formed. *)
Theorem mount_close m fd e :
  ft_wf (fileCache m) → 0 ≤ fd < 2 ^ 32 → entry_at (fileCache m) fd = Some e →
  DirectIO e = false → rwCache m = true → rwinv BS false (caches m) → idle (caches m) (fe_Id e) →
  ∃ err m', Close fd m = Ret (err, m') ∧ ft_wf (fileCache m') ∧ rwinv BS false (caches m') ∧
    (∀ g, g ≠ fe_Id e → wview BS (caches m') g ≡ wview BS (caches m) g) ∧
    handles_but fd m m' ∧
    match err with
    | None => entry_at (fileCache m') fd = None ∧
        of_bytes (content (world (caches m')) (fe_Id e)) ≡ wview BS (caches m) (fe_Id e) ∧
        (∀ j, slot_buf (wc (caches m')) (fe_Id e) j = None) ∧
        (count_refs (fe_Id e) (fileEntryVec (fileCache m)) = 1 →
           Cache (wc (caches m')) !! fe_Id e = None ∧ Cache (rc (caches m')) !! fe_Id e = None)
    | Some _ => err = EBADF ∧ is_Some (entry_at (fileCache m') fd)
    end.
Proof. apply Close_ok. Qed.

Lemma wp_doStat_file path resp w' Q m :
  api_call UrlStat (StatRequest path) (world (caches m)) = ((resp, None), w') → Code resp = 0 →
  item_type (Info_Mode (resp_Ino resp)) = DentryTypeFile →
  (∀ d, Dentry_Type d = DentryTypeFile → Dentry_Inode d = Info_Inode (resp_Ino resp) →
     Q (inl d) (set_caches (set_world w' (caches m)) m)) →
  wp (doStat path) Q m.
Proof.
  intros E Hc Ht HQ. unfold doStat. apply wp_bind. unfold wp at 1, call. rewrite E. simpl.
  rewrite Hc. simpl. apply HQ; [exact Ht|done].
Qed.

(** C26: truncating a file by its path, with the caches on.  It always returns.
    Either the flush failed, and its error is returned before anything is asked
    of the proxy; or the proxy is asked to truncate exactly once, at a moment at
    which it holds the whole logical file and neither cache holds a block of it
    (nothing buffered can resurrect truncated bytes later), the result is the
    proxy's answer, and on success the path's cached dentry is gone. *)
Theorem mount_truncate m path length resp w' :
  let f := Info_Inode (resp_Ino resp) in
  checkMount m path MountModeWrite = None → dentry_wf (dentries_ m) → rwCache m = true →
  rwinv BS false (caches m) → idle (caches m) f →
  api_call UrlStat (StatRequest path) (world (caches m)) = ((resp, None), w') → Code resp = 0 →
  (∀ g, content w' g = content (world (caches m)) g) →
  item_type (Info_Mode (resp_Ino resp)) = DentryTypeFile →
  ∃ err m', Truncate path length m = Ret (err, m') ∧ rwinv BS false (caches m') ∧
    ((is_errno err ∧ dentries_ m' = dentries_ m ∧
      ∃ fe, fe_Id fe = f ∧
        RWCache_Flush fe (set_world w' (caches m)) = Ret (err, caches m')) ∨
     (∃ w1 resp2 err2 w2,
        api_call UrlTruncate (TruncateRequest path length) w1 = ((resp2, err2), w2) ∧
        world (caches m') = w2 ∧
        of_bytes (content w1 f) ≡ wview BS (caches m) f ∧
        (∀ j, slot_buf (wc (caches m')) f j = None) ∧ (∀ j, slot (rc (caches m')) f j = None) ∧
        (∀ g, g ≠ f → wview BS (set_world w1 (caches m')) g ≡ wview BS (caches m) g) ∧
        err = (if resp_failed err2 resp2 then toErr err2 (Code resp2) else None) ∧
        (resp_failed err2 resp2 = false → ∀ t, lookup_at t path (dentries_ m') = None))).
Proof.
  intros f Hc Hdw Hrw [Hwi Hri] [Hwl Hrl] Es Hcode Hcont Ht.
  set (c1 := set_world w' (caches m)).
  assert (winv BS false c1) as Hwi1 by (by apply (winv_ext BS (caches m))).
  assert (rinv BS false c1) as Hri1 by (by apply (rinv_same BS (caches m))).
  assert (∀ g, wview BS c1 g = wview BS (caches m) g) as Hv1
    by (intros; unfold wview, c1; simpl; by rewrite Hcont).
  apply wp_run. unfold Truncate. apply wp_guarded; [done|].
  apply wp_bind. unfold pre_truncate. apply wp_bind, wp_get. rewrite Hrw.
  apply wp_bind, (wp_doStat_file _ _ _ _ _ Es Hcode Ht). intros d Hd Hdi. unfold GetSimpleFileEntry.
  rewrite Hd. simpl. rewrite Hdi. fold f. set (fe := MkFileEntry _ _ _ _ _ _ _ _ _ _ _).
  apply wp_bind, wp_onc. simpl. fold c1.
  destruct (proj1 (wp_run _ _ _) (WCache_Flush_spec BS BS_ok fe c1 Hwi1 (Hwl _)))
    as (err & s1 & Ef & (Hwi2 & Hf2 & Ho2 & Hl2 & _ & Hok & Her) & _).
  unfold wp at 1, RWCache_Flush. rewrite Ef.
  assert (rinv BS false s1) as Hri2 by (by eapply rinv_frame).
  destruct err as [x|].
  { do 2 apply wp_ret. split; [done|]. left. split; [by apply Her|]. split; [done|]. by exists fe. }
  destruct (Hok eq_refl) as (_ & Hslots & Hdur). pose proof Hf2 as (Hrc2 & _).
  apply wp_bind, wp_onc. simpl.
  eapply wp_mono; [|apply (RCache_Release_spec BS BS_ok fe s1); [apply Hri2|rewrite Hrc2; apply Hrl]].
  intros ? s2 [-> Hrel]. pose proof (released_winv BS _ _ _ Hwi2 Hrel) as Hwi3.
  assert (rinv BS false s2) as Hri3 by (eapply released_rinv; [done| |done]; rewrite Hrc2; apply Hrl).
  destruct Hrel as (p' & -> & _ & _ & _ & Hg). apply wp_ret. simpl.
  unfold call_then. apply wp_bind, wp_call. simpl. intros resp2 err2 w2 Ec.
  assert (rwinv BS false (set_world w2 (set_rc p' s1))) as Hrw2 by (split; [by apply (winv_ext BS s1)|
    by apply (rinv_same BS (set_rc p' s1))]).
  assert (∀ g, g ≠ f → wview BS (set_world (world s1) (set_rc p' s1)) g ≡ wview BS (caches m) g) as Hog
    by (intros g Hne; rewrite <- Hv1; by apply Ho2).
  rewrite Hv1 in Hdur.
  destruct (resp_failed err2 resp2) eqn:Erf.
  - apply wp_ret. simpl. split; [done|]. right. exists (world s1), resp2, err2, w2.
    rewrite Erf. split_and!; try done.
  - apply wp_bind, wp_modify, wp_ret. simpl. split; [done|]. right. exists (world s1), resp2, err2, w2.
    rewrite Erf. split_and!; try done. intros _ t. rewrite Remove_lookup by done. by rewrite String.eqb_refl.
Qed.

(** What is left of the caches when the mount is gone. *)
Definition shut_down (m m' : Mnt W) : Prop :=
  MountStu m' = MountStuDel ∧ stopped m' = true ∧ rwCache m' = rwCache m ∧
  rwinv BS true (caches m') ∧ pending (caches m') = [] ∧ pqueue (caches m') = [] ∧
  ∀ f, Cache (wc (caches m')) !! f = None →
    of_bytes (content (world (caches m')) f) ≡ wview BS (caches m) f.

Lemma DelMount_spec m :
  rwinv BS false (caches m) → rwCache m = true → stopped m = false →
  wp DelMount (λ _ m', shut_down m m') m.
Proof.
  intros Hi Hrw Hst. apply wp_run.
  destruct (proj1 (wp_run _ _ _) (RWCache_CloseAll_spec BS BS_ok (caches m) Hi))
    as ([] & s1 & E1 & Hi1 & Hp & Hq & Hd).
  eexists tt, _. split.
  - unfold DelMount, bind at 1, get. rewrite Hrw. unfold bind, onc, zoom. rewrite E1. simpl.
    rewrite Hst. reflexivity.
  - unfold shut_down. simpl. by split_and!.
Qed.

(** A second [DelMount] closes a closed channel. *)
Lemma DelMount_twice m :
  rwinv BS true (caches m) → rwCache m = true → stopped m = true → DelMount m = Panic.
Proof.
  intros Hi Hrw Hst. pose proof (RWCache_CloseAll_twice BS BS_ok _ Hi) as Ht.
  assert (RWCache_CloseAll (caches m) = Panic ∨ ∃ s', RWCache_CloseAll (caches m) = Ret (tt, s')) as Hc
    by (destruct (chPrefetch _); [by left|]; destruct (chSync _); [by left|by right]).
  unfold DelMount, bind at 1, get. rewrite Hrw. unfold bind, onc, zoom.
  destruct Hc as [->|[s' ->]]; [done|]. simpl. by rewrite Hst.
Qed.

End Closing.

(** * Witnesses *)

Module CloseExample.
Import MountExample.

Lemma rwinv1 script : rwinv DefaultBlockSize false (caches (mnt1 script)).
Proof.
  split; [apply winv1|]. constructor; simpl.
  - apply wf_NewPool.
  - intros f i b. unfold slot_buf. by rewrite slot_NewPool.
  - by intros ? ?%not_elem_of_nil.
  - apply NoDup_nil_2.
  - intros f i l. unfold lockof. simpl. by rewrite lookup_empty.
  - done.
Qed.

Lemma idle1 script f : idle (caches (mnt1 script)) f.
Proof. done. Qed.

Definition entryA : FileEntry := match entry_at table1 0 with Some e => e | None => fileA end.

Lemma mount_close_witness :
  ∃ m', Close 0 (mnt1 []) = Ret (None, m') ∧ entry_at (fileCache m') 0 = None ∧
    of_bytes (content (world (caches m')) 5) ≡ wview DefaultBlockSize (caches (mnt1 [])) 5.
Proof.
  destruct (mount_close (mnt1 []) 0 entryA) as (err & m' & E & _ & _ & _ & _ & Hok);
    [exact table1_wf|lia|vm_compute; reflexivity..|apply (rwinv1 [])|apply (idle1 [])|].
  assert (match Close 0 (mnt1 []) with Ret (None, _) => true | _ => false end = true) as Hx
    by (vm_compute; reflexivity).
  rewrite E in Hx. destruct err; [discriminate Hx|]. exists m'. split; [exact E|].
  split; [apply Hok|apply Hok].
Defined.

Lemma mount_truncate_witness :
  ∃ err m', Truncate "/m/a" 1 (mnt1 []) = Ret (err, m') ∧ rwinv DefaultBlockSize false (caches m').
Proof.
  destruct (mount_truncate (mnt1 []) "/m/a" 1
    (MkResponse 0 EmptyString (InoData (MkInoInfo 5 420 1 3 0 0 0 0 0 EmptyString EmptyString EmptyString)))
    (srv1 [])) as (err & m' & E & Hi & _);
    [vm_compute; reflexivity|apply dentries1_wf|reflexivity|apply rwinv1|apply idle1
    |vm_compute; reflexivity|reflexivity|reflexivity|vm_compute; reflexivity|].
  exists err, m'. split; [exact E|exact Hi].
Defined.

End CloseExample.
