(* ===== verification/Dir.v ===== *)
(** Directory listing (lib/libfs/dir.go): [Opendir] starts a goroutine that
    fetches the entries page by page into a queue, [Readdir] takes them out,
    waiting on a channel while there are too few, and [CloseDir] aborts.

    Every section of the code that holds the mutex is one atomic step; the
    fetcher's position between two such sections is [fpc], the reader's [rpc].
    [dstep] interleaves the two. *)

From stdpp Require Import base gmap strings list relations.
From Stdlib Require Import ZArith Lia.
From S2P Require Import Prelude GoString Proto Lru.

(** * State *)

Inductive LsStatus : Type := LsFetching | LsDone | LsError | LsUserAbort.

#[export] Instance LsStatus_eq : EqDecision LsStatus.
Proof. solve_decision. Defined.

(** [ch] tells whether the channel of capacity 1 holds a value. *)
Record Dir : Type := MkDir {
  dirList : list Dentry;
  startKey : string;
  lsSize : Z;
  lsStatus : LsStatus;
  cacheSize : Z;
  dir_Error : option error;
  ch : bool;
}.

(** [newDir] of [Opendir]. *)
Definition newDir (LsSize : Z) : Dir :=
  MkDir [] EmptyString LsSize LsFetching LsSize None false.

(** [select { case newDir.ch <- true: default: }] *)
Definition notify (d : Dir) : Dir :=
  MkDir (dirList d) (startKey d) (lsSize d) (lsStatus d) (cacheSize d) (dir_Error d) true.

(** * The fetching goroutine *)

Inductive fpc : Type :=
| FHead                                   (* at the head of the loop *)
| FCall                                   (* about to call ReadDirEx *)
| FStore (dentrys : list Dentry)          (* about to store a page *)
| FNotify (dentrys : list Dentry)         (* about to notify the reader *)
| FCache (dentrys : list Dentry)          (* about to fill the dentry cache *)
| FError (lastErr : option error)         (* left the loop with an error *)
| FErrNotify                              (* about to notify after an error *)
| FEnd.

Section Fetch.
(** [ReadDirEx path startKey count], and the dentry cache's key of an entry. *)
Variable path : string.
Variable ReadDirEx : string → Z → Response * option error.

(** Store a page under the lock: append, then either finish or move the start
    key to the last name ([resp.Dentrys[len-1]] of an empty page panics). *)
Definition store_page (d : Dir) (dentrys : list Dentry) : outcome Dir :=
  let dirList' := dirList d ++ dentrys in
  if Zlen dentrys <? lsSize d
  then Ret (MkDir dirList' (startKey d) (lsSize d) LsDone (cacheSize d) (dir_Error d) (ch d))
  else match last dentrys with
       | Some e => Ret (MkDir dirList' (Dentry_Name e) (lsSize d) (lsStatus d) (cacheSize d)
                          (dir_Error d) (ch d))
       | None => Panic
       end.

(** One step of the goroutine; a full queue makes it wait at the loop head. *)
Definition fetch_step (f : fpc) (d : Dir) (t : Z) (dc : DentryCache Dentry)
    : outcome (fpc * Dir * DentryCache Dentry) :=
  match f with
  | FHead =>
      if bool_decide (lsStatus d = LsUserAbort) then Ret (FEnd, d, dc)
      else if cacheSize d <? Zlen (dirList d) then Ret (FHead, d, dc)
      else Ret (FCall, d, dc)
  | FCall =>
      let '(resp, err) := ReadDirEx (startKey d) (lsSize d) in
      if resp_failed err resp then Ret (FError (toErr err (Code resp)), d, dc)
      else Ret (FStore (resp_Dentrys resp), d, dc)
  | FStore p =>
      match store_page d p with
      | Ret d' => Ret (FNotify p, d', dc)
      | Panic => Panic
      | Block => Block
      end
  | FNotify p => Ret (FCache p, notify d, dc)
  | FCache p =>
      let dc' := foldl (λ dc e, (Dentry_Set t (String.append path (String.append "/" (Dentry_Name e))) e dc).2)
                   dc p in
      Ret (if Zlen p <? lsSize d then FEnd else FHead, d, dc')
  | FError e =>
      match e with
      | None => Ret (FEnd, d, dc)
      | Some _ =>
          Ret (FErrNotify,
               MkDir (dirList d) (startKey d) (lsSize d) LsError (cacheSize d) e (ch d), dc)
      end
  | FErrNotify => Ret (FEnd, notify d, dc)
  | FEnd => Ret (FEnd, d, dc)
  end.
End Fetch.

(** * [Readdir] and [CloseDir] *)

(** One turn of [Readdir]'s loop, under the lock: the result, or [None] when
    it goes to wait for the channel.  [count] is a [uint]. *)
Definition readdir_turn (count : Z) (d : Dir)
    : option (list Dentry * option error) * Dir :=
  let d1 := MkDir (dirList d) (startKey d) (lsSize d) (lsStatus d)
              (if cacheSize d <? u64 (count * 2) then u64 (count * 2) else cacheSize d)
              (dir_Error d) (ch d) in
  if bool_decide (lsStatus d = LsError ∨ lsStatus d = LsUserAbort)
  then (Some ([], dir_Error d), d1)
  else if bool_decide (lsStatus d = LsDone) && (Zlen (dirList d) =? 0)
  then (Some ([], None), d1)
  else if bool_decide (lsStatus d = LsFetching) && (Zlen (dirList d) <? count)
  then (None, d1)
  else (Some (take (Z.to_nat count) (dirList d), None),
        MkDir (drop (Z.to_nat count) (dirList d)) (startKey d) (lsSize d) (lsStatus d)
          (cacheSize d1) (dir_Error d) (ch d)).

Definition CloseDir (d : Dir) : Dir :=
  MkDir (dirList d) (startKey d) (lsSize d) LsUserAbort (cacheSize d) (dir_Error d) (ch d).

(** * Interleaving *)

(** The reader: not in [Readdir], about to take the lock, or waiting. *)
Inductive rpc : Type :=
| RIdle
| RTurn (count : Z)
| RWait (count : Z).

(** [out] is what [Readdir] has returned so far, [ended] whether a call has
    returned an empty page without error (the end of the listing), [closed]
    whether [CloseDir] was called. *)
Record DS : Type := MkDS {
  ds_dir : Dir;
  ds_f : fpc;
  ds_r : rpc;
  ds_dc : DentryCache Dentry;
  out : list Dentry;
  ended : bool;
  closed : bool;
}.

Section Steps.
Variable path : string.
Variable ReadDirEx : string → Z → Response * option error.

(** A [count] of 2^63 or more would wrap the doubled cache size. *)
Inductive dstep : DS → DS → Prop :=
| st_fetch d f r dc o en cl t f' d' dc' :
    f ≠ FEnd → fetch_step path ReadDirEx f d t dc = Ret (f', d', dc') →
    dstep (MkDS d f r dc o en cl) (MkDS d' f' r dc' o en cl)
| st_call d f dc o en cl count :
    0 < count < 2 ^ 63 →
    dstep (MkDS d f RIdle dc o en cl) (MkDS d f (RTurn count) dc o en cl)
| st_wait d f dc o en cl count d' :
    readdir_turn count d = (None, d') →
    dstep (MkDS d f (RTurn count) dc o en cl) (MkDS d' f (RWait count) dc o en cl)
| st_return d f dc o en cl count l err d' :
    readdir_turn count d = (Some (l, err), d') →
    dstep (MkDS d f (RTurn count) dc o en cl)
          (MkDS d' f RIdle dc (o ++ l) (en || bool_decide (err = None ∧ l = [])) cl)
| st_recv d f dc o en cl count :
    ch d = true →
    dstep (MkDS d f (RWait count) dc o en cl)
          (MkDS (MkDir (dirList d) (startKey d) (lsSize d) (lsStatus d) (cacheSize d)
                   (dir_Error d) false) f (RTurn count) dc o en cl)
| st_close d f dc o en cl :
    dstep (MkDS d f RIdle dc o en cl) (MkDS (CloseDir d) f RIdle dc o en true).

Definition dinit (LsSize : Z) (dc : DentryCache Dentry) : DS :=
  MkDS (newDir LsSize) FHead RIdle dc [] false false.

(** * The proxy's listing *)

(** The directory's entries in the proxy's order; [key_at i] is the start key
    after the first [i] of them. *)
Variable E : list Dentry.

Definition key_at (i : nat) : string :=
  match i with
  | O => EmptyString
  | S j => match E !! j with Some e => Dentry_Name e | None => EmptyString end
  end.

(** A page is what follows the start key, unless the call fails. *)
Definition lists : Prop := ∀ i n, (i ≤ length E)%nat → 0 < n →
  let '(resp, err) := ReadDirEx (key_at i) n in
  resp_failed err resp = false → resp_Dentrys resp = take (Z.to_nat n) (drop i E).

Hypothesis Hlists : lists.
Variable LsSize : Z.
Hypothesis Hls : 0 < LsSize.

(** Fetching has got as far as entry [i]; [b]: the listing is complete. *)
Definition got (s : DS) (i : nat) (b : bool) : Prop :=
  out s ++ dirList (ds_dir s) = take i E ∧ (i ≤ length E)%nat ∧
  if b then i = length E ∧ (lsStatus (ds_dir s) = LsDone ∨ (lsStatus (ds_dir s) = LsUserAbort ∧ closed s))
  else startKey (ds_dir s) = key_at i ∧
       (lsStatus (ds_dir s) = LsFetching ∨ (lsStatus (ds_dir s) = LsUserAbort ∧ closed s)).

Definition finv (s : DS) : Prop :=
  match ds_f s with
  | FHead | FCall => ∃ i, got s i false
  | FStore p => ∃ i, got s i false ∧ p = take (Z.to_nat LsSize) (drop i E)
  | FNotify p | FCache p => ∃ i, got s i (Zlen p <? LsSize)
  | FError e => is_errno e ∧ ∃ i, got s i false
  | FErrNotify => (∃ i, out s ++ dirList (ds_dir s) = take i E) ∧
      (lsStatus (ds_dir s) = LsError ∨ (lsStatus (ds_dir s) = LsUserAbort ∧ closed s))
  | FEnd => ((∃ i, got s i true) ∨
      ((∃ i, out s ++ dirList (ds_dir s) = take i E) ∧
       (lsStatus (ds_dir s) = LsError ∨ (lsStatus (ds_dir s) = LsUserAbort ∧ closed s))))
  end.

(** A waiting reader has been notified, is about to be, or there is something
    left to fetch and room for it. *)
Definition rinv_ (s : DS) : Prop :=
  match ds_r s with
  | RWait c =>
      c * 2 ≤ cacheSize (ds_dir s) ∧ 0 < c < 2 ^ 63 ∧
      (ch (ds_dir s) = true ∨
       match ds_f s with
       | FNotify _ | FErrNotify => True
       | FHead | FCall | FStore _ | FError _ =>
           Zlen (dirList (ds_dir s)) < c ∧ (lsStatus (ds_dir s) = LsFetching)
       | FCache p => Zlen (dirList (ds_dir s)) < c ∧ (lsStatus (ds_dir s) = LsFetching) ∧
                     (Zlen p <? LsSize) = false
       | FEnd => False
       end)
  | RTurn c => 0 < c < 2 ^ 63
  | RIdle => True
  end.

Definition dinv (s : DS) : Prop :=
  lsSize (ds_dir s) = LsSize ∧ finv s ∧ rinv_ s ∧
  (ended s = true → closed s = true ∨ out s = E) ∧
  (lsStatus (ds_dir s) = LsError → dir_Error (ds_dir s) ≠ None) ∧
  (lsStatus (ds_dir s) = LsUserAbort → closed s = true) ∧
  (closed s = true → lsStatus (ds_dir s) ≠ LsFetching).

Lemma dinv_init dc : dinv (dinit LsSize dc).
Proof.
  split_and!; try done. exists O. unfold got. split_and!; [done|apply Nat.le_0_l|done|by left].
Qed.

(** Storing a page. *)
Lemma take_page i n :
  take i E ++ take n (drop i E) = take (i + length (take n (drop i E))) E.
Proof.
  rewrite take_take_drop, length_take, length_drop.
  destruct (decide (i + n ≤ length E)%nat); [f_equal; lia|]. by rewrite !take_ge by lia.
Qed.

Lemma last_key i p :
  (i ≤ length E)%nat → p = take (Z.to_nat LsSize) (drop i E) → (Zlen p <? LsSize) = false →
  ∃ e, last p = Some e ∧ Dentry_Name e = key_at (i + length p).
Proof.
  intros Hi -> Hl. set (p := take _ _) in *.
  assert (length p = Z.to_nat LsSize) as Hlen.
  { apply Z.ltb_ge in Hl. unfold Zlen, p in *. rewrite length_take in *. lia. }
  assert (last p = E !! (i + length p - 1)%nat) as Hlast.
  { rewrite last_lookup. replace (Nat.pred (length p)) with (length p - 1)%nat by lia.
    transitivity (take (Z.to_nat LsSize) (drop i E) !! (length p - 1)%nat); [done|].
    rewrite lookup_take_lt by lia. rewrite lookup_drop. f_equal. lia. }
  assert (is_Some (E !! (i + length p - 1)%nat)) as [e He].
  { apply lookup_lt_is_Some. assert (length p ≤ length E - i)%nat; [|lia].
    unfold p. rewrite length_take, length_drop. lia. }
  exists e. split; [congruence|]. unfold key_at.
  destruct (i + length p)%nat as [|j] eqn:Ej; [lia|].
  replace (S j - 1)%nat with j in He by lia. by rewrite He.
Qed.

Lemma store_page_got s i p :
  got s i false → p = take (Z.to_nat LsSize) (drop i E) → lsSize (ds_dir s) = LsSize →
  ∃ d', store_page (ds_dir s) p = Ret d' ∧ lsSize d' = LsSize ∧ cacheSize d' = cacheSize (ds_dir s) ∧
    got (MkDS d' (FNotify p) (ds_r s) (ds_dc s) (out s) (ended s) (closed s))
        (i + length p) (Zlen p <? LsSize).
Proof.
  intros (Ho & Hi & Hk & Hst) Hp Hsz. unfold store_page. rewrite Hsz.
  assert (out s ++ dirList (ds_dir s) ++ p = take (i + length p) E) as Happ.
  { rewrite app_assoc, Ho, Hp. apply take_page. }
  assert (i + length p ≤ length E)%nat as Hle.
  { rewrite Hp, length_take, length_drop. lia. }
  destruct (Zlen p <? LsSize) eqn:El.
  - eexists. split_and!; try done. split_and!; try done; simpl; [|by left].
    apply Z.ltb_lt in El. unfold Zlen in El. rewrite Hp, length_take, length_drop in El.
    rewrite Hp, length_take, length_drop. lia.
  - destruct (last_key i p Hi Hp El) as (e & -> & He). eexists. by split_and!.
Qed.

Lemma got_frame s s' i b :
  dirList (ds_dir s') = dirList (ds_dir s) → startKey (ds_dir s') = startKey (ds_dir s) →
  lsStatus (ds_dir s') = lsStatus (ds_dir s) → out s' = out s → closed s' = closed s →
  got s i b → got s' i b.
Proof. unfold got. intros -> -> -> -> ->. done. Qed.

Lemma fetch_status d f t dc f' d' dc' :
  f ≠ FEnd → fetch_step path ReadDirEx f d t dc = Ret (f', d', dc') →
  (lsStatus d' = LsError → (lsStatus d = LsError → dir_Error d ≠ None) → dir_Error d' ≠ None) ∧
  (lsStatus d' = LsUserAbort → lsStatus d = LsUserAbort) ∧
  (lsStatus d' = LsFetching → lsStatus d = LsFetching).
Proof.
  intros Hne Hst. destruct f as [| |p|p|p|e| |]; simpl in Hst; try done.
  - destruct (bool_decide _); [|destruct (_ <? _)]; simplify_eq; auto.
  - destruct (ReadDirEx _ _) as [resp err]. destruct (resp_failed err resp); simplify_eq; auto.
  - unfold store_page in Hst. destruct (_ <? _); [|destruct (last p)]; simplify_eq/=; naive_solver.
  - simplify_eq/=; naive_solver.
  - simplify_eq/=; naive_solver.
  - destruct e; simplify_eq/=; naive_solver.
  - simplify_eq/=; naive_solver.
Qed.

Lemma fetch_dinv d f r dc o en cl t f' d' dc' :
  dinv (MkDS d f r dc o en cl) → f ≠ FEnd →
  fetch_step path ReadDirEx f d t dc = Ret (f', d', dc') →
  dinv (MkDS d' f' r dc' o en cl).
Proof.
  intros (Hsz & Hf & Hr & Hen & Her & Hab & Hcl) Hne Hst.
  enough (lsSize d' = LsSize ∧ finv (MkDS d' f' r dc' o en cl) ∧ rinv_ (MkDS d' f' r dc' o en cl)) as Hx.
  { destruct Hx as (? & ? & ?). split_and!; try done; simpl.
    - intros Hs. eapply fetch_status in Hst; [|exact Hne]. simpl in Her. tauto.
    - intros Hs. eapply fetch_status in Hst; [|exact Hne]. tauto.
    - intros Hc Hs. eapply fetch_status in Hst; [|exact Hne]. simpl in Hcl. tauto. }
  unfold finv, rinv_ in *. simpl in *.
  destruct f as [| |p|p|p|e| |]; simpl in *.
  - destruct (bool_decide_reflect (lsStatus d = LsUserAbort)) as [Ha|Ha].
    + simplify_eq. split_and!; try done.
      * right. destruct Hf as (i & Ho & _ & _ & [Hs|Hs]); [simpl in Hs; congruence|]. eauto.
      * destruct r as [| |c]; try done. destruct Hr as (? & ? & [?|[_ ?]]); [tauto|congruence].
    + destruct (Z.ltb_spec (cacheSize d) (Zlen (dirList d))); simplify_eq; by split_and!.
  - destruct Hf as (i & Hg). pose proof (Hlists i LsSize) as Hl.
    destruct Hg as (Ho & Hi & Hk & Hs). simpl in *.
    specialize (Hl Hi Hls). rewrite <- Hk, <- Hsz in Hl.
    destruct (ReadDirEx (startKey d) (lsSize d)) as [resp err].
    destruct (resp_failed err resp) eqn:Ef; simplify_eq; split_and!; try done.
    + by apply toErr_errno.
    + exists i. by split_and!.
    + exists i. split; [by split_and!|]. by apply Hl.
  - destruct Hf as (i & Hg & Hp).
    destruct (store_page_got _ i p Hg Hp Hsz) as (d1 & E1 & Hsz1 & Hcs & Hg1). simpl in E1.
    rewrite E1 in Hst. simplify_eq. split_and!; try done.
    + eexists. eapply got_frame; [..|exact Hg1]; done.
    + destruct r as [| |c]; try done. destruct Hr as (? & ? & _). rewrite Hcs. auto.
  - destruct Hf as (i & Hg). simplify_eq. split_and!; try done.
    + exists i. by eapply got_frame; [..|exact Hg].
    + destruct r as [| |c]; try done. destruct Hr as (? & ? & _). auto.
  - destruct Hf as (i & Hg). simplify_eq. destruct (Zlen p <? lsSize d') eqn:El; split_and!; try done.
    + left. exists i. by eapply got_frame; [..|exact Hg].
    + destruct r as [| |c]; try done. destruct Hr as (? & ? & [?|(_ & _ & ?)]); [|done]. auto.
    + exists i. by eapply got_frame; [..|exact Hg].
    + destruct r as [| |c]; try done. destruct Hr as (? & ? & [?|(? & ? & _)]); auto.
  - destruct Hf as ([c ->] & i & Ho & _ & _ & _). simplify_eq. simpl in *. split_and!; try done; eauto.
    destruct r as [| |n]; try done. destruct Hr as (? & ? & _). auto.
  - destruct Hf as [Ho Hs]. simplify_eq. simpl in *. split_and!; try done; eauto.
    destruct r as [| |n]; try done. destruct Hr as (? & ? & _). auto.
  - done.
Qed.

(** What [Readdir] takes from the queue it returns. *)
Lemma got_taken d d' f r r' dc o l en en' cl i b :
  dirList d = l ++ dirList d' → startKey d' = startKey d → lsStatus d' = lsStatus d →
  got (MkDS d f r dc o en cl) i b → got (MkDS d' f r' dc (o ++ l) en' cl) i b.
Proof.
  unfold got. simpl. intros -> -> ->. rewrite <- app_assoc. done.
Qed.

Lemma finv_taken d d' f r r' dc o l en en' cl :
  dirList d = l ++ dirList d' → startKey d' = startKey d → lsStatus d' = lsStatus d →
  finv (MkDS d f r dc o en cl) → finv (MkDS d' f r' dc (o ++ l) en' cl).
Proof.
  intros H1 H2 H3. pose proof (λ i b, got_taken d d' f r r' dc o l en en' cl i b H1 H2 H3) as Hg.
  assert (∀ i, o ++ dirList d = take i E → (o ++ l) ++ dirList d' = take i E) as Ho
    by (intros i; rewrite H1, <- app_assoc; done).
  unfold finv. simpl. rewrite H3. destruct f; naive_solver.
Qed.

(** The end of the listing. *)
Lemma done_all d f r dc o en cl :
  finv (MkDS d f r dc o en cl) → lsStatus d = LsDone → dirList d = [] → o = E.
Proof.
  intros Hf Hs Hl.
  assert (∀ i b, got (MkDS d f r dc o en cl) i b → o = E) as Hg.
  { intros i b (Ho & _ & Hb). simpl in *. rewrite Hl, app_nil_r in Ho. destruct b.
    - destruct Hb as [-> _]. by rewrite Ho, take_ge.
    - destruct Hb as (_ & [?|[? _]]); congruence. }
  unfold finv in Hf. simpl in Hf. destruct f; try naive_solver.
  - destruct Hf as (_ & [?|[? _]]); congruence.
  - destruct Hf as [[i Hi]|(_ & [?|[? _]])]; [eauto|congruence..].
Qed.

Lemma turn_wait_dinv d f dc o en cl c d' :
  dinv (MkDS d f (RTurn c) dc o en cl) → readdir_turn c d = (None, d') →
  dinv (MkDS d' f (RWait c) dc o en cl).
Proof.
  intros (Hsz & Hf & Hc & Hen & Her & Hab & Hcl) Ht. unfold readdir_turn in Ht. simpl in *.
  destruct (bool_decide _); [done|]. destruct (bool_decide _ && _); [done|].
  destruct (bool_decide_reflect (lsStatus d = LsFetching)) as [Hs|]; [|done].
  destruct (Z.ltb_spec (Zlen (dirList d)) c); [|done]. simpl in Ht. injection Ht as <-.
  split; [done|]. split; [|split; [|split; [done|split; [done|split; done]]]].
  - rewrite <- (app_nil_r o). by eapply finv_taken; [..|exact Hf].
  - unfold rinv_ in *. simpl in *.
    assert (u64 (c * 2) = c * 2) as -> by (apply u64_small; lia).
    split; [destruct (Z.ltb_spec (cacheSize d) (c * 2)); lia|]. split; [lia|].
    right. unfold finv in Hf. simpl in Hf. destruct f as [| |p|p|p|e| |]; try done.
    + destruct Hf as (i & _ & _ & Hb). simpl in Hb.
      destruct (Zlen p <? LsSize); [|done]. destruct Hb as (_ & [?|[? _]]); congruence.
    + destruct Hf as [(i & _ & _ & _ & [?|[? _]])|(_ & [?|[? _]])]; simpl in *; congruence.
Qed.

(** Once everything was returned the queue is empty. *)
Lemma out_all d f r dc en cl :
  finv (MkDS d f r dc E en cl) → dirList d = [].
Proof.
  intros Hf. apply length_zero_iff_nil.
  assert (∀ i b, got (MkDS d f r dc E en cl) i b → length (dirList d) = 0%nat) as Hg.
  { intros i b (Ho & Hi & _). simpl in Ho. apply (f_equal length) in Ho.
    rewrite length_app, length_take in Ho. lia. }
  assert (∀ i, E ++ dirList d = take i E → length (dirList d) = 0%nat) as Hg'.
  { intros i Ho. apply (f_equal length) in Ho. rewrite length_app, length_take in Ho. lia. }
  unfold finv in Hf. simpl in Hf. destruct f; naive_solver.
Qed.

Lemma turn_return_dinv d f dc o en cl c l err d' :
  dinv (MkDS d f (RTurn c) dc o en cl) → readdir_turn c d = (Some (l, err), d') →
  dinv (MkDS d' f RIdle dc (o ++ l) (en || bool_decide (err = None ∧ l = [])) cl).
Proof.
  intros (Hsz & Hf & Hc & Hen & Her & Hab & Hcl) Ht. simpl in *.
  assert (dirList d = l ++ dirList d' ∧ startKey d' = startKey d ∧ lsStatus d' = lsStatus d ∧
    lsSize d' = lsSize d ∧ dir_Error d' = dir_Error d ∧
    (err = None ∧ l = [] → lsStatus d = LsUserAbort ∨ (lsStatus d = LsDone ∧ dirList d = []) ∨
       lsStatus d = LsError ∧ dir_Error d = None)) as (H1 & H2 & H3 & H4 & H5 & H6).
  { unfold readdir_turn in Ht.
    destruct (bool_decide_reflect (lsStatus d = LsError ∨ lsStatus d = LsUserAbort)) as [Hs|Hs].
    { injection Ht as <- <- <-. split_and!; try done. intros [? _]. tauto. }
    destruct (bool_decide_reflect (lsStatus d = LsDone)) as [Hd|Hd]; simpl in Ht.
    - destruct (Z.eqb_spec (Zlen (dirList d)) 0) as [H0|H0].
      { injection Ht as <- <- <-. split_and!; try done. intros _. right. left. split; [done|].
        apply length_zero_iff_nil. unfold Zlen in H0. lia. }
      destruct (bool_decide _ && _); [done|]. injection Ht as <- <- <-. simpl.
      split_and!; try done; [by rewrite take_drop|]. intros [_ Hl].
      destruct (dirList d); [done|]. unfold rinv_ in Hc. simpl in Hc.
      destruct (Z.to_nat c) eqn:Ec; [lia|done].
    - destruct (bool_decide_reflect (lsStatus d = LsFetching)) as [Hfe|Hfe]; simpl in Ht.
      + destruct (Z.ltb_spec (Zlen (dirList d)) c); [done|]. injection Ht as <- <- <-. simpl.
        split_and!; try done; [by rewrite take_drop|]. intros [_ Hl]. unfold rinv_ in Hc. simpl in Hc.
        apply (f_equal length) in Hl. rewrite length_take in Hl. unfold Zlen in *. simpl in Hl. lia.
      + exfalso. destruct (lsStatus d); tauto. }
  split_and!; simpl; rewrite ?H3, ?H4, ?H5; try done.
  - by eapply finv_taken; [..|exact Hf].
  - intros [He|Hb%bool_decide_eq_true]%orb_prop.
    + destruct (Hen He) as [?| ->]; [by left|right]. apply out_all in Hf. rewrite Hf in H1.
      destruct l; [by rewrite app_nil_r|done].
    + destruct (H6 Hb) as [Ha|[[Hd Hl]|[Hx Hy]]]; [left; auto|right|by apply Her in Hx].
      destruct Hb as [_ ->]. rewrite app_nil_r. by eapply done_all.
Qed.

Lemma close_dinv d f dc o en cl :
  dinv (MkDS d f RIdle dc o en cl) → dinv (MkDS (CloseDir d) f RIdle dc o en true).
Proof.
  intros (Hsz & Hf & Hr & Hen & Her & Hab & Hcl). split_and!; simpl; try done; [|by left].
  assert (∀ i b, got (MkDS d f RIdle dc o en cl) i b →
    got (MkDS (CloseDir d) f RIdle dc o en true) i b) as Hg.
  { intros i b (Ho & Hi & Hb). split_and!; simpl in *; try done. destruct b; naive_solver. }
  unfold finv in *. simpl in *. destruct f; naive_solver.
Qed.

Lemma dstep_dinv s s' : dinv s → dstep s s' → dinv s'.
Proof.
  intros Hi Hst. destruct Hst.
  - by eapply fetch_dinv.
  - destruct Hi as (?&?&?&?&?&?&?). by split_and!.
  - by eapply turn_wait_dinv.
  - by eapply turn_return_dinv.
  - destruct Hi as (?&?&Hr&?&?&?&?). split_and!; try done. unfold rinv_ in *. simpl in *. tauto.
  - by apply close_dinv in Hi.
Qed.

Lemma dreach s dc : rtc dstep (dinit LsSize dc) s → dinv s.
Proof.
  intros Hr. pose proof (dinv_init dc) as Hi. revert Hi.
  induction Hr as [|x y z Hxy Hyz IH]; [done|]. intros Hi. by eapply IH, dstep_dinv.
Qed.

(** [n] steps of the fetcher alone. *)
Fixpoint fetch_run (n : nat) (t : Z) (f : fpc) (d : Dir) (dc : DentryCache Dentry)
    : outcome (fpc * Dir * DentryCache Dentry) :=
  match n with
  | O => Ret (f, d, dc)
  | S n' => match fetch_step path ReadDirEx f d t dc with
            | Ret (f', d', dc') => fetch_run n' t f' d' dc'
            | o => o
            end
  end.

(** Steps from one position to the next: the fetcher never panics. *)
Lemma fetch_total s t :
  dinv s → ∃ f' d' dc', fetch_step path ReadDirEx (ds_f s) (ds_dir s) t (ds_dc s) = Ret (f', d', dc').
Proof.
  intros (Hsz & Hf & _). unfold finv in Hf. destruct (ds_f s) as [| |p|p|p|e| |]; simpl; eauto.
  - destruct (bool_decide _); [|destruct (_ <? _)]; eauto.
  - destruct (ReadDirEx _ _) as [resp err]. destruct (resp_failed err resp); eauto.
  - destruct Hf as (i & Hg & Hp).
    destruct (store_page_got s i p Hg Hp Hsz) as (d1 & -> & _). eauto.
  - destruct e; eauto.
Qed.

(** What was returned is a prefix of the directory. *)
Lemma finv_prefix s : finv s → ∃ rest, E = out s ++ rest.
Proof.
  intros Hf. assert (∃ i, out s ++ dirList (ds_dir s) = take i E) as [i Hi].
  { unfold finv, got in Hf. destruct (ds_f s); naive_solver. }
  exists (dirList (ds_dir s) ++ drop i E). rewrite app_assoc, Hi. by rewrite take_drop.
Qed.

(** C12: the listing is complete and in order.  However the fetcher, the
    caller's [Readdir]s and [CloseDir] interleave, what [Readdir] has returned
    so far is a prefix of the directory's entries, nothing lost, repeated or
    reordered; when a [Readdir] has returned an empty page without error (and
    the directory was not closed) it is the whole directory. *)
Theorem dir_order dc s :
  rtc dstep (dinit LsSize dc) s →
  (∃ rest, E = out s ++ rest) ∧ (ended s = true → closed s = false → out s = E).
Proof.
  intros (Hsz & Hf & _ & Hen & _)%dreach. split; [by apply finv_prefix|].
  intros He Hc. destruct (Hen He); congruence.
Qed.


Definition stops (n : nat) (t : Z) (s : DS) : Prop :=
  ∃ k d' dc', (k ≤ n)%nat ∧ fetch_run k t (ds_f s) (ds_dir s) (ds_dc s) = Ret (FEnd, d', dc').

Lemma stops_step n t s :
  dinv s → ds_f s ≠ FEnd →
  (∀ f' d' dc', fetch_step path ReadDirEx (ds_f s) (ds_dir s) t (ds_dc s) = Ret (f', d', dc') →
     dinv (MkDS d' f' (ds_r s) dc' (out s) (ended s) (closed s)) →
     stops n t (MkDS d' f' (ds_r s) dc' (out s) (ended s) (closed s))) →
  stops (S n) t s.
Proof.
  intros Hi Hne Hk. destruct (fetch_total s t Hi) as (f' & d' & dc' & E1).
  destruct (Hk f' d' dc' E1) as (k & d2 & dc2 & Hle & Hrun).
  { destruct s. by eapply fetch_dinv. }
  exists (S k), d2, dc2. split; [lia|]. cbn [fetch_run]. by rewrite E1.
Qed.

Lemma stops_end n t s : ds_f s = FEnd → stops n t s.
Proof. intros Hs. exists O, (ds_dir s), (ds_dc s). split; [lia|]. simpl. by rewrite Hs. Qed.

Lemma stops_mono n n' t s : (n ≤ n')%nat → stops n t s → stops n' t s.
Proof. intros Hn (k & d' & dc' & ? & ?). exists k, d', dc'. split; [lia|done]. Qed.

(** How many steps are left from each position, once closed. *)
Definition steps_left (f : fpc) : nat :=
  match f with
  | FCall => 5 | FStore _ => 4 | FNotify _ => 3 | FCache _ => 2 | FHead => 1
  | FError _ => 2 | FErrNotify => 1 | FEnd => 0
  end.

Lemma closed_stops t : ∀ n s, (steps_left (ds_f s) ≤ n)%nat → dinv s → closed s = true → stops n t s.
Proof.
  induction n as [|n IH]; intros s Hn Hi Hc.
  { apply stops_end. by destruct (ds_f s); simpl in Hn; try lia. }
  destruct (decide (steps_left (ds_f s) = 0%nat)) as [H0|H0].
  { apply stops_end. by destruct (ds_f s). }
  apply stops_step; [done|by intros E1; rewrite E1 in H0|].
  intros f' d' dc' E1 Hi'. apply IH; [|done..]. simpl.
  destruct Hi as (_ & Hf & _ & _ & _ & _ & Hcl). unfold finv, got in Hf.
  destruct (ds_f s) as [| |p|p|p|e| |]; simpl in *; try lia.
  - destruct Hf as (i & _ & _ & _ & [Hs|[Hs _]]); [by apply Hcl in Hs|].
    rewrite bool_decide_true in E1 by done. simplify_eq. simpl. lia.
  - destruct (ReadDirEx _ _) as [resp err]. destruct (resp_failed err resp); simplify_eq; simpl; lia.
  - destruct (store_page _ _); simplify_eq; simpl; lia.
  - simplify_eq; simpl; lia.
  - injection E1 as <- _ _. destruct (Zlen p <? lsSize (ds_dir s)); simpl; lia.
  - destruct e; simplify_eq; simpl; lia.
  - simplify_eq; simpl; lia.
Qed.

(** [CloseDir] stops the fetcher.  Once the directory was closed, the
    fetcher reaches its end after at most five more steps, so at most one more
    page is fetched. *)
Theorem dir_close_stops dc s t :
  rtc dstep (dinit LsSize dc) s → closed s = true →
  ∃ n d' dc', (n ≤ 5)%nat ∧ fetch_run n t (ds_f s) (ds_dir s) (ds_dc s) = Ret (FEnd, d', dc').
Proof.
  intros Hi%dreach Hc. apply (closed_stops t); [|done..]. destruct (ds_f s); simpl; lia.
Qed.
End Steps.

(** * Witnesses: a directory with one entry, listed in pages of two *)

Module DirExample.

Definition entryA : Dentry := MkDentry "a" 7 DentryTypeFile None.
Definition ents : list Dentry := [entryA].

Definition page (k : string) (n : Z) : Response * option error :=
  (MkResponse 0 EmptyString
     (DentrysData (take (Z.to_nat n) (if String.eqb k EmptyString then ents else []))), None).

Lemma page_lists : lists page ents.
Proof.
  intros i n Hi Hn. simpl. intros _. destruct i as [|[|i]]; simpl in *; [done| |lia].
  by rewrite take_nil.
Qed.

Definition nocache : DentryCache Dentry := NewDentryCache 0 0.

(** A reader that comes first and waits. *)
Definition waiting : DS :=
  MkDS (MkDir [] EmptyString 2 LsFetching 8 None false) FHead (RWait 4) nocache [] false false.

Lemma reach_waiting : rtc (dstep "/m" page) (dinit 2 nocache) waiting.
Proof.
  eapply rtc_l; [apply (st_call _ _ _ _ _ _ _ _ 4); lia|].
  eapply rtc_l; [eapply st_wait; vm_compute; reflexivity|]. apply rtc_refl.
Qed.

(** The whole listing: three steps of the fetcher, then two calls. *)
Definition listed : DS :=
  MkDS (MkDir [] EmptyString 2 LsDone 8 None false) (FNotify ents) RIdle nocache ents true false.

Lemma reach_listed : rtc (dstep "/m" page) (dinit 2 nocache) listed.
Proof.
  do 3 (eapply rtc_l; [apply (st_fetch _ _ _ _ _ _ _ _ _ 0); [discriminate|vm_compute; reflexivity]|]).
  eapply rtc_l; [apply (st_call _ _ _ _ _ _ _ _ 4); lia|].
  eapply rtc_l; [eapply st_return; vm_compute; reflexivity|].
  eapply rtc_l; [apply (st_call _ _ _ _ _ _ _ _ 4); lia|].
  eapply rtc_l; [eapply st_return; vm_compute; reflexivity|]. apply rtc_refl.
Qed.

Definition aborted : DS :=
  MkDS (CloseDir (newDir 2)) FHead RIdle nocache [] false true.

Lemma reach_aborted : rtc (dstep "/m" page) (dinit 2 nocache) aborted.
Proof. eapply rtc_l; [apply st_close|]. apply rtc_refl. Qed.

Lemma dir_order_witness :
  (∃ rest, ents = out listed ++ rest) ∧ out listed = ents.
Proof.
  destruct (dir_order "/m" page ents page_lists 2 ltac:(lia) nocache listed reach_listed) as [H1 H2].
  split; [exact H1|]. apply H2; reflexivity.
Defined.


Lemma dir_close_stops_witness :
  ∃ n d' dc', (n ≤ 5)%nat ∧
    fetch_run "/m" page n 0 FHead (ds_dir aborted) nocache = Ret (FEnd, d', dc').
Proof.
  apply (dir_close_stops "/m" page ents page_lists 2 ltac:(lia) nocache aborted 0 reach_aborted eq_refl).
Defined.

(** With a page size of 0 (an [ls_size] that is a multiple of 65536) an empty
    page makes the fetcher index its last element: it panics. *)
Lemma zero_page_size_panics : store_page (newDir 0) [] = Panic.
Proof. reflexivity. Qed.

(** Listing the root caches "a" under "//a", a path no lookup asks for. *)
Lemma root_listing_key :
  let '(_, _, dc) := match fetch_step "/" page (FCache ents) (newDir 2) 0 (NewDentryCache 10 500) with
                     | Ret x => x | _ => (FEnd, newDir 2, nocache) end in
  lookup_at 0 "/a" dc = None ∧ lookup_at 0 "//a" dc = Some entryA.
Proof. vm_compute. split; reflexivity. Qed.
End DirExample.
