(* ===== verification/Fuse.v ===== *)
(** The FUSE client (client): status codes (lib/code.go), path translation and
    the file-system operations (cfafuse/fuse_op.go), the operations on open
    files (cfafuse/file.go), the signal handler of main.go and the log levels
    of lib/log/logger.go. *)

From stdpp Require Import base gmap strings list.
From Stdlib Require Import ZArith Lia Ascii.
From S2P Require Import Prelude GoString Proto Config Store Buffer Pool View CacheState WCache.
From S2P Require Import RCache RWCache Lru FileTable Mount.

(** * lib/code.go

    [syscall]'s numbers on linux; [fuse.OK] is 0 and [fuse.EIO] 5. *)
Definition fuse_OK : Z := 0.
Definition fuse_EIO : Z := 5.
Definition fuse_ENOSYS : Z := 38.

Definition ToFuseStatus (err : Z) : Z :=
  if negb (Errno_IsPosixErrno err) then fuse_EIO
  else if err =? E_POSIX_EACCES then 13
  else if err =? E_POSIX_EBADF then 9
  else if err =? E_POSIX_EBUSY then 16
  else if err =? E_POSIX_EEXIST then 17
  else if err =? E_POSIX_EFAULT then 14
  else if err =? E_POSIX_EFBIG then 27
  else if err =? E_POSIX_EINVAL then 22
  else if err =? E_POSIX_EIO then 5
  else if err =? E_POSIX_EISDIR then 21
  else if err =? E_POSIX_ELOOP then 40
  else if err =? E_POSIX_EMLINK then 31
  else if err =? E_POSIX_ENAMETOOLONG then 36
  else if err =? E_POSIX_ENODATA then 61
  else if err =? E_POSIX_ENOENT then 2
  else if err =? E_POSIX_ENOTCONN then 107
  else if err =? E_POSIX_ENOTDIR then 20
  else if err =? E_POSIX_ENOTEMPTY then 39
  else if err =? E_POSIX_ENOTSUP then 95
  else if err =? E_POSIX_EPERM then 1
  else if err =? E_POSIX_ERANEG then 34
  else if err =? E_POSIX_EAGAIN then 11
  else 5.

(** * fuse_op.go *)

Definition parseErr (err : option error) : Z :=
  match err with
  | None => fuse_OK
  | Some (ErrErrno sErr) => ToFuseStatus sErr
  | Some _ => fuse_EIO
  end.

Definition genPath (root name : string) : string :=
  if String.eqb name EmptyString then root
  else
    let root := if HasSuffix root "/" then str_take (String.length root - 1) root else root in
    String.append root (String slash name).

Definition removeRoot (root path : string) : string :=
  if String.eqb path root then EmptyString
  else
    let root := if HasSuffix root "/" then root else String.append root "/" in
    TrimPrefix path root.

(** * file.go: attributes *)

Record Attr : Type := MkAttr {
  a_Ino : Z;
  a_Size : Z;
  a_Blocks : Z;
  a_Atime : Z;
  a_Mtime : Z;
  a_Ctime : Z;
  a_Atimensec : Z;
  a_Mtimensec : Z;
  a_Ctimensec : Z;
  a_Mode : Z;
  a_Nlink : Z;
  a_Uid : Z;
  a_Gid : Z;
  a_Rdev : Z;
  a_Blksize : Z;
}.

Definition osModeToSyscall (m : Z) : Z :=
  let ty := Z.land m ModeType in
  let typ := if ty =? ModeDir then S_IFDIR
             else if ty =? ModeSymlink then S_IFLNK
             else S_IFREG in
  u32 (Z.lor typ (Z.land m SysPerm)).

(** [node.Info] of a nil pointer panics. *)
Definition setFuseAttr (node : Dentry) : outcome Attr :=
  match Dentry_Info node with
  | None => Panic
  | Some i => Ret (MkAttr (Info_Inode i) (Info_Size i) 0 (Info_ATime i) (Info_MTime i)
                     (Info_CTime i) 0 0 0 (osModeToSyscall (Info_Mode i)) (u32 (Info_Nlink i))
                     (Info_Uid i) (Info_Gid i) 0 0)
  end.

(** [f.fd] and [f.path] of an open file, and the dentry it was opened with. *)
Record file : Type := MkFile {
  f_fd : Z;
  f_path : string;
  f_node : Dentry;
}.

Definition cfafuse_NewFile (fd : Z) (path : string) (node : Dentry) : file := MkFile fd path node.

(** [nodefs] asks a file for what it wraps, and tells it its inode. *)
Definition file_SetInode {Inode} (f : file) (inode : Inode) : file := f.
Definition file_InnerFile (f : file) : option file := None.
Definition file_String (f : file) : string := "file".

(** [proto.Acl] and its use flags. *)
Definition AclUseUidGid : Z := 1.
Definition AclUseOwnerGroup : Z := 2.

Record Acl : Type := MkAcl {
  UseFlag : Z;
  acl_Uid : Z;
  acl_Gid : Z;
  acl_Owner : string;
  acl_Group : string;
  acl_Groups : list string;
}.

Definition formAclFromNode (node : Dentry) : outcome Acl :=
  match Dentry_Info node with
  | None => Panic
  | Some i => Ret (MkAcl AclUseUidGid (Info_Uid i) (Info_Gid i) EmptyString EmptyString [])
  end.

(** [fuse.FileLock]; the types are those of fcntl ([F_WRLCK] is 1). *)
Record FileLock : Type := MkFileLock {
  lk_Start : Z;
  lk_End : Z;
  lk_Typ : Z;
  lk_Pid : Z;
}.

(** * fuse_op.go: the file system object *)

(** The mount it works on is the state of the operations below. *)
Record cfaFS : Type := MkCfaFS { fs_options : FuseConf }.

Definition NewCfaFS (options : FuseConf) : cfaFS + error := inl (MkCfaFS options).
Definition cfaFS_String (fs : cfaFS) : string := "cfaFS".

(** Text without the white space around it. *)
Definition is_space (c : ascii) : bool :=
  existsb (Ascii.eqb c) [" "; "009"; "010"; "011"; "012"; "013"]%char.

Fixpoint trim_left (s : list ascii) : list ascii :=
  match s with c :: s' => if is_space c then trim_left s' else s | [] => [] end.

Definition TrimSpace (s : string) : string :=
  String.string_of_list_ascii (rev (trim_left (rev (trim_left (String.list_ascii_of_string s))))).

(** [getGroups]: the supplementary groups of a process, from the lines of its
    status file ([None] when that cannot be opened). *)
Definition getGroups (status : option (list string)) : list string * Z :=
  match status with
  | None => ([], 2)
  | Some lines =>
      match List.find (λ line, HasPrefix line "Groups:" && (8 <? String.length line)%nat) lines with
      | Some line => (Split (TrimSpace (str_drop 8 line)) " ", fuse_OK)
      | None => ([], 22)
      end
  end.

Section FS.
Context {W : Type} `{ProxyApi W}.
Abbreviation MM := (M (Mnt W)) (only parsing).

(** [fs.options.GetPath()] and [fs.options.ReadDirCount]. *)
Variable root : string.
Variable ReadDirCount : Z.

(** A mount operation on the path of a name, its error as a status. *)
Definition status (op : MM (option error)) : MM Z :=
  let! err := op in ret (parseErr err).

Definition fs_GetAttr (name : string) : MM (option Attr * Z) :=
  let! r := Stat (genPath root name) in
  match r with
  | inr err => ret (None, parseErr err)
  | inl d => let! a := lift (setFuseAttr d) in ret (Some a, fuse_OK)
  end.

Definition fs_GetXAttr (name attr : string) : MM (bytes * Z) :=
  let! r := Getxattr (genPath root name) attr in
  match r.2 with
  | Some _ => ret ([], parseErr r.2)
  | None => ret (r.1, fuse_OK)
  end.

Definition fs_SetXAttr (name attr : string) (data : bytes) (flags : Z) : MM Z :=
  status (Setxattr (genPath root name) attr data (u32 flags)).

Definition fs_ListXAttr (name : string) : MM (list string * Z) :=
  let! r := Listxattr (genPath root name) in
  match r.2 with
  | Some _ => ret ([], parseErr r.2)
  | None => ret (r.1, fuse_OK)
  end.

Definition fs_RemoveXAttr (name attr : string) : MM Z :=
  status (Removexattr (genPath root name) attr).

Definition fs_Readlink (name : string) : MM (string * Z) :=
  let! r := Readlink (genPath root name) in
  match r.2 with
  | Some _ => ret (EmptyString, parseErr r.2)
  | None => ret (removeRoot root r.1, fuse_OK)
  end.

Definition fs_Mknod (name : string) (mode dev : Z) : MM Z :=
  status (Mknod (genPath root name) mode dev).
Definition fs_Mkdir (name : string) (mode : Z) : MM Z :=
  status (Mkdir (genPath root name) mode).
Definition fs_Unlink (name : string) : MM Z := status (UnLink (genPath root name)).
Definition fs_Rmdir (name : string) : MM Z := status (Rmdir (genPath root name)).
Definition fs_Symlink (value linkName : string) : MM Z :=
  status (Symlink (genPath root value) (genPath root linkName)).
Definition fs_Rename (oldName newName : string) : MM Z :=
  status (Rename (genPath root oldName) (genPath root newName)).
Definition fs_Link (oldName newName : string) : MM Z :=
  status (Link (genPath root oldName) (genPath root newName)).
Definition fs_Chmod (name : string) (mode : Z) : MM Z :=
  status (Chmod (genPath root name) mode).
Definition fs_Chown (name : string) (uid gid : Z) : MM Z :=
  status (Chown (genPath root name) uid gid).
Definition fs_Truncate (name : string) (offset : Z) : MM Z :=
  status (Truncate (genPath root name) offset).
Definition fs_Utimens (name : string) (Atime Mtime : Z) : MM Z :=
  status (Utime (genPath root name) (u64 Mtime) (u64 Atime)).
Definition fs_OnMount : MM unit := ret tt.
Definition fs_OnUnmount : MM unit := ret tt.
Definition fs_Access (name : string) (mode : Z) : MM Z := ret fuse_OK.

(** [Open] and [Create]: when the [Stat] fails the handle stays open. *)
Definition open_stat (path : string) (flags mode : Z) : MM (option file * Z) :=
  let! r := Open path flags mode in
  match r.2 with
  | Some _ => ret (None, parseErr r.2)
  | None =>
      let! n := Stat path in
      match n with
      | inr err => ret (None, parseErr err)
      | inl node => ret (Some (cfafuse_NewFile r.1 path node), fuse_OK)
      end
  end.

Definition fs_Open (name : string) (flags : Z) : MM (option file * Z) :=
  open_stat (genPath root name) flags SysPerm.
Definition fs_Create (name : string) (flags mode : Z) : MM (option file * Z) :=
  open_stat (genPath root name) flags mode.

Record DirEntry : Type := MkDirEntry { de_Mode : Z; de_Name : string; de_Ino : Z }.

(** [e.Info.Mode] of a nil pointer panics. *)
Fixpoint dir_entries (l : list Dentry) : outcome (list DirEntry) :=
  match l with
  | [] => Ret []
  | e :: l' =>
      match Dentry_Info e, dir_entries l' with
      | Some i, Ret r => Ret (MkDirEntry (Info_Mode i) (Dentry_Name e) (Dentry_Inode e) :: r)
      | _, _ => Panic
      end
  end.

(** The loop of [OpenDir] over the results of successive [Readdir] calls; with
    none left it waits for the next. *)
Definition readdir_count : Z := if 0 <? ReadDirCount then ReadDirCount else 10000.

Fixpoint OpenDir_loop (results : list (list Dentry * option error)) (stream : list DirEntry)
    : outcome (list DirEntry * Z) :=
  match results with
  | [] => Block
  | (entryArr, Some err) :: _ => Ret ([], parseErr (Some err))
  | (entryArr, None) :: rest =>
      match dir_entries entryArr with
      | Ret es =>
          if Zlen entryArr <? readdir_count then Ret (stream ++ es, fuse_OK)
          else OpenDir_loop rest (stream ++ es)
      | _ => Panic
      end
  end.

Record StatfsOut : Type := MkStatfsOut {
  so_Blocks : Z;
  so_Bfree : Z;
  so_Bavail : Z;
  so_Files : Z;
  so_Ffree : Z;
  so_Bsize : Z;
  so_NameLen : Z;
  so_Frsize : Z;
}.

Definition MaxInt64 : Z := 2 ^ 63 - 1.

Definition statfs_out (stats : StatfsT) : StatfsOut :=
  let total := 1024 * 1024 * 1024 * 1024 in
  let blkSize := sf_BlockSize stats in
  let free := u64 (u64 (total - sf_Fbytes stats) - sf_Rbytes stats) `div` blkSize in
  MkStatfsOut (total `div` blkSize) free free
    (u64 (sf_Rfiles stats + sf_Files stats))
    (u64 (u64 (MaxInt64 - sf_Rfiles stats) - sf_Files stats))
    (u32 blkSize) 256 4096.

Definition fs_StatFs (name : string) : MM (option StatfsOut) :=
  let! r := Statfs (genPath root name) (MkStatfs 0 0 0 0 0 0 0 0 0 0) in
  match r.2 with
  | Some _ => ret None
  | None => ret (Some (statfs_out r.1))
  end.

(** * file.go: open files *)

Definition file_Read (f : file) (buf : bytes) (off : Z) : MM (option bytes * Z) :=
  let! r := Read (f_fd f) buf (u64 off) in
  match rd_err r with
  | Some _ => ret (None, parseErr (rd_err r))
  | None => let! b := lift (go_slice (rd_buf r) 0 (rd_size r)) in ret (Some b, fuse_OK)
  end.

Definition file_Write (f : file) (data : bytes) (off : Z) : MM (Z * Z) :=
  let! r := Write (f_fd f) data (u64 off) in
  match r.2 with
  | Some _ => ret (0, parseErr r.2)
  | None => ret (u32 r.1, fuse_OK)
  end.

Definition file_GetLk (f : file) (owner : Z) (lk : FileLock) (flags : Z) (out : FileLock)
    : MM (FileLock * Z) := ret (out, fuse_OK).
Definition file_SetLk (f : file) (owner : Z) (lk : FileLock) (flags : Z) : MM Z := ret fuse_OK.
Definition file_SetLkw (f : file) (owner : Z) (lk : FileLock) (flags : Z) : MM Z := ret fuse_OK.

Definition file_Flush (f : file) : MM Z := status (Flush (f_fd f)).

(** The error of [Close] is dropped. *)
Definition file_Release (f : file) : MM unit := let! _ := Close (f_fd f) in ret tt.

Definition file_GetAttr (f : file) : MM (option Attr * Z) :=
  let! r := Fstat (f_fd f) in
  match r with
  | inr err => ret (None, parseErr err)
  | inl d => let! a := lift (setFuseAttr d) in ret (Some a, fuse_OK)
  end.

Definition file_Fsync (f : file) (flags : Z) : MM Z := status (Fsync (f_fd f) flags).
Definition file_Utimens (f : file) (atime mtime : Z) : MM Z :=
  status (Utime (f_path f) (u64 mtime) (u64 atime)).
Definition file_Truncate (f : file) (size : Z) : MM Z := status (Truncate (f_path f) size).
Definition file_Chown (f : file) (uid gid : Z) : MM Z := status (Chown (f_path f) uid gid).
Definition file_Chmod (f : file) (perms : Z) : MM Z := status (Chmod (f_path f) perms).

(** [unix.FALLOC_FL_KEEP_SIZE] is 1. *)
Definition file_Allocate (f : file) (off size mode : Z) : MM Z :=
  if mode =? 0 then file_Truncate f (u64 (off + size))
  else if mode =? 1 then ret fuse_OK
  else ret fuse_ENOSYS.
End FS.

(** * Log levels and signals *)

Inductive signal : Type := SIGTERM | SIGKILL | SIGABRT | SIGSEGV | SIGUSR1 | SIGUSR2.

(** One turn of [exitSign]'s loop: whether it is over, and the level of the
    FUSE log. *)
Definition exitSign_turn {W} `{ProxyApi W} (sig : signal) (fuseLevel : Z)
    : M (Mnt W) (bool * Z) :=
  match sig with
  | SIGTERM | SIGKILL | SIGABRT | SIGSEGV => DelMount ;;; ret (true, fuseLevel)
  | SIGUSR1 =>
      SetLogLevel (-1) ;;;
      ret (false, if -1 <? fuseLevel then fuseLevel - 1 else fuseLevel)
  | SIGUSR2 =>
      SetLogLevel 1 ;;;
      ret (false, if fuseLevel <? 4 then fuseLevel + 1 else fuseLevel)
  end.

(** The groups of a process with two of them. *)
Lemma getGroups_example :
  getGroups (Some ["Name: sh"; String.append "Groups:" (String "009" "4 1000 ")]%string) =
    (["4"; "1000"]%string, fuse_OK).
Proof. reflexivity. Qed.

(** Two owners get a write lock on the same bytes of a file, although the mount
    takes the handling of locks from the kernel ([EnableLocks]): locks exclude
    nobody. *)
Lemma locks_do_not_exclude {W} `{ProxyApi W} (f : file) (a b : Z) (lk : FileLock) (m : Mnt W) :
  (file_SetLk f a lk 0 ;;; file_SetLk f b lk 0) m = Ret (fuse_OK, m).
Proof. reflexivity. Qed.

(** * Properties *)

Lemma last_char_app r c s :
  last_char (String.append r (String c s)) = last_char (String c s).
Proof.
  induction r as [|d r IH]; [done|]. cbn [String.append last_char].
  destruct (String.append r (String c s)) eqn:E; [|done]. by destruct r.
Qed.

Lemma last_char_split s c :
  last_char s = Some c → ∃ r, s = String.append r (String c EmptyString).
Proof.
  induction s as [|d s IH]; [done|]. cbn [last_char]. destruct s as [|e s].
  - intros Hc. simplify_eq. by exists EmptyString.
  - intros [r Hr]%IH. rewrite Hr. by exists (String d r).
Qed.

Lemma HasSuffix_slash s : HasSuffix s "/" = char_is (last_char s) slash.
Proof.
  apply eq_true_iff_eq. rewrite HasSuffix_true. split.
  - intros [r ->]. by rewrite last_char_app.
  - destruct (last_char s) as [c|] eqn:E; [|done]. simpl.
    intros ->%Ascii.eqb_eq. by apply last_char_split in E.
Qed.

Lemma bad_path_slash path :
  bad_path path = false → HasSuffix path "/" = true → path = "/"%string.
Proof.
  rewrite HasSuffix_slash. unfold bad_path. destruct path as [|c r]; [done|].
  simpl. destruct (Ascii.eqb_spec c slash) as [->|]; [|done]. simpl.
  destruct r as [|d r]; [done|]. rewrite andb_true_r. congruence.
Qed.

Lemma str_append_nil_inv s t : String.append s t = s → t = EmptyString.
Proof. induction s as [|c s IH]; simpl; [done|]. intros [= H]. auto. Qed.

Lemma genPath_root name : name ≠ EmptyString → genPath "/" name = String slash name.
Proof. intros Hn. unfold genPath. by rewrite (proj2 (String.eqb_neq _ _) Hn). Qed.

Lemma genPath_sub root name :
  name ≠ EmptyString → HasSuffix root "/" = false →
  genPath root name = String.append root (String slash name).
Proof. intros Hn Hs. unfold genPath. by rewrite (proj2 (String.eqb_neq _ _) Hn), Hs. Qed.

(** C39: path translation.  For a legal mount path, the path of a name that has
    no trailing slash is again legal, lies under the mount path, so that the
    mount's check accepts it whenever the permissions do, and translating it
    back gives the name; the empty name is the mount path itself. *)
Theorem fuse_paths {W} (m : Mnt W) name perm :
  bad_path (Path m) = false → MountStu m = MountStuMounted →
  perm ≠ 0 → Z.land perm (MountMode m) = perm →
  name ≠ EmptyString → char_is (last_char name) slash = false →
  checkMount m (genPath (Path m) name) perm = None ∧
  checkMount m (genPath (Path m) EmptyString) perm = None ∧
  removeRoot (Path m) (genPath (Path m) name) = name ∧
  removeRoot (Path m) (genPath (Path m) EmptyString) = EmptyString.
Proof.
  intros Hr Hs Hp0 Hp Hn Hl. unfold checkMount, removeRoot.
  rewrite Hs, Hp, !Z.eqb_refl, (proj2 (Z.eqb_neq perm 0)) by done. simpl.
  assert (genPath (Path m) EmptyString = Path m) as -> by done.
  rewrite Hr, String.eqb_refl.
  assert (HasPrefix (Path m) (Path m) = true) as ->.
  { rewrite <- (str_app_nil_r (Path m)) at 1. apply HasPrefix_app. }
  destruct (HasSuffix (Path m) "/") eqn:Esuf.
  - apply bad_path_slash in Esuf; [|done]. rewrite Esuf, genPath_root by done.
    destruct name as [|c name]; [done|].
    assert (bad_path (String slash (String c name)) = false) as ->.
    { unfold bad_path. simpl in *. by rewrite Hl. }
    assert (HasPrefix (String slash (String c name)) "/" = true) as -> by (destruct name; done).
    by split_and!.
  - rewrite genPath_sub by done. destruct name as [|c name]; [done|].
    destruct (Path m) as [|d r] eqn:Er; [done|].
    assert (bad_path (String.append (String d r) (String slash (String c name))) = false) as ->.
    { unfold bad_path in *. rewrite last_char_app.
      change (last_char (String slash (String c name))) with (last_char (String c name)).
      rewrite Hl. simpl in *. destruct (Ascii.eqb d slash); [|done]. done. }
    rewrite HasPrefix_app. simpl negb. cbv iota.
    destruct (String.eqb_spec (String.append (String d r) (String slash (String c name))) (String d r))
      as [E|_]; [by apply str_append_nil_inv in E|].
    split_and!; try done.
    change (String slash (String c name)) with (String.append "/" (String c name)).
    rewrite str_app_assoc. apply TrimPrefix_app.
Qed.

Lemma parseErr_OK err : parseErr err = fuse_OK ↔ err = None.
Proof.
  assert (∀ e, ToFuseStatus e ≠ 0) as Hne.
  { intros x. unfold ToFuseStatus. repeat case_match; done. }
  destruct err as [[]|]; simpl; naive_solver.
Qed.

(** Error codes.  A status is OK exactly for a nil error; every POSIX code
    the library names (the one the table of lib/proto calls ERANEG included)
    keeps its number on the way to the kernel, and everything else becomes
    EIO. *)
Theorem fuse_status (err : option error) (e : Z) :
  (parseErr err = fuse_OK ↔ err = None) ∧
  (e ∈ posix_codes → parseErr (Some (ErrErrno e)) = e) ∧
  (¬ (e ∈ posix_codes) → parseErr (Some (ErrErrno e)) = fuse_EIO).
Proof.
  split_and!; [apply parseErr_OK|..].
  - intros He. simpl. unfold posix_codes in He.
    repeat (apply elem_of_cons in He as [->|He]; [reflexivity|]). by apply not_elem_of_nil in He.
  - intros He. simpl. unfold ToFuseStatus. destruct (Errno_IsPosixErrno e); [|done]. simpl.
    unfold posix_codes in He. rewrite !not_elem_of_cons in He.
    repeat match goal with |- context [e =? ?c] => rewrite (proj2 (Z.eqb_neq e c)) by tauto end.
    done.
Qed.

Lemma fuse_paths_witness :
  let m := MkMnt "/m" MountStuMounted 7 0 0 false (NewFileCache 0) (NewDentryCache 0 0)
             (MkCS (NewPool 0 0) (NewPool 0 0) None None 0 tt 0) false in
  checkMount m (genPath "/m" "d/f") MountModeWrite = None ∧
  removeRoot "/m" (genPath "/m" "d/f") = "d/f"%string.
Proof.
  intros m. destruct (fuse_paths m "d/f" MountModeWrite) as (H1 & _ & H2 & _);
    [reflexivity|reflexivity|discriminate|reflexivity|discriminate|reflexivity|].
  split; [exact H1|exact H2].
Defined.

(** [OpenDir]: the entries of two lists, and the loop over full pages. *)
Lemma dir_entries_app l1 l2 r1 r2 :
  dir_entries l1 = Ret r1 → dir_entries l2 = Ret r2 → dir_entries (l1 ++ l2) = Ret (r1 ++ r2).
Proof.
  revert r1. induction l1 as [|x l1 IH]; simpl; intros r1 H1 H2; simplify_eq; [done|].
  destruct (Dentry_Info x); [|done]. destruct (dir_entries l1) as [r| |]; simplify_eq.
  by rewrite (IH r).
Qed.

Lemma dir_entries_total l :
  Forall (λ e, is_Some (Dentry_Info e)) l → ∃ es, dir_entries l = Ret es ∧ Zlen es = Zlen l.
Proof.
  induction 1 as [|x l [i Hi] Hl (es & IH & Hlen)]; simpl; [by exists []|].
  rewrite Hi, IH. eexists. split; [done|]. unfold Zlen in *. simpl. lia.
Qed.

Lemma OpenDir_loop_full cnt pages rest :
  Forall (λ p, Zlen p = readdir_count cnt) pages → ∀ stream es,
  dir_entries (concat pages) = Ret es → Forall (λ e, is_Some (Dentry_Info e)) (concat pages) →
  OpenDir_loop cnt (map (λ p, (p, None)) pages ++ rest) stream = OpenDir_loop cnt rest (stream ++ es).
Proof.
  induction 1 as [|p ps Hp Hps IH]; intros stream es Hes Hall; simpl in *.
  - injection Hes as <-. by rewrite app_nil_r.
  - apply Forall_app in Hall as [Hp1 Hps1].
    destruct (dir_entries_total p Hp1) as (e1 & E1 & _). destruct (dir_entries_total _ Hps1) as (e2 & E2 & _).
    rewrite (dir_entries_app _ _ _ _ E1 E2) in Hes. injection Hes as <-.
    rewrite E1, (proj2 (Z.ltb_ge _ _)), (IH _ e2) by (done || lia). by rewrite app_assoc.
Qed.

(** With more than a terabyte in use the number of free blocks wraps around. *)
Lemma statfs_underflow :
  so_Bfree (statfs_out (MkStatfs 4096 0 0 0 (2 ^ 40) 0 0 0 4096 0)) = 2 ^ 52 - 1.
Proof. vm_compute. reflexivity. Qed.
