(* ===== verification/FuseDir.v ===== *)
(** Listing a directory through FUSE (client/cfafuse/fuse_op.go, OpenDir): the
    loop of [Readdir] calls on top of the fetching goroutine of
    lib/libfs/dir.go.  [odstep] interleaves the loop with the goroutine. *)

From stdpp Require Import base gmap strings list relations.
From Stdlib Require Import ZArith Lia.
From S2P Require Import Prelude GoString Proto Pool CacheState Lru FileTable Mount Dir Fuse.

(** A result of [Readdir]. *)
Abbreviation page_result := (list Dentry * option error)%type.

Section Ops.
Context {W : Type} `{ProxyApi W}.

(** [Opendir]: the access check, then the new [Dir] (whose goroutine starts). *)
Definition Opendir (path : string) : M (Mnt W) (Dir + option error) :=
  guarded path MountModeRead (inr EACCES)
    (let! m := get in ret (inl (newDir (LsSize m)))).

(** [OpenDir], with the results the successive [Readdir] calls return. *)
Definition OpenDir (root : string) (ReadDirCount : Z) (name : string) (results : list page_result)
    : M (Mnt W) (list DirEntry * Z) :=
  let! r := Opendir (genPath root name) in
  match r with
  | inr err => ret ([], parseErr err)
  | inl _ => lift (OpenDir_loop ReadDirCount results [])
  end.
End Ops.

Section Listing.
Variable path : string.
Variable ReadDirEx : string → Z → Response * option error.
Variable E : list Dentry.
Hypothesis Hlists : lists ReadDirEx E.
Variable LsSize : Z.
Hypothesis Hls : 0 < LsSize.
Variable ReadDirCount : Z.
Hypothesis Hcnt : ReadDirCount < 2 ^ 63.
Abbreviation count := (readdir_count ReadDirCount).

(** The loop calls [Readdir] again only while it has not returned; it closes
    the directory afterwards. *)
Inductive odstep : DS * list page_result → DS * list page_result → Prop :=
| od_fetch d f r dc o en t f' d' dc' rs :
    f ≠ FEnd → fetch_step path ReadDirEx f d t dc = Ret (f', d', dc') →
    odstep (MkDS d f r dc o en false, rs) (MkDS d' f' r dc' o en false, rs)
| od_call d f dc o en rs :
    OpenDir_loop ReadDirCount rs [] = Block →
    odstep (MkDS d f RIdle dc o en false, rs) (MkDS d f (RTurn count) dc o en false, rs)
| od_wait d f dc o en d' rs :
    readdir_turn count d = (None, d') →
    odstep (MkDS d f (RTurn count) dc o en false, rs) (MkDS d' f (RWait count) dc o en false, rs)
| od_recv d f dc o en rs :
    ch d = true →
    odstep (MkDS d f (RWait count) dc o en false, rs)
           (MkDS (MkDir (dirList d) (startKey d) (lsSize d) (lsStatus d) (cacheSize d)
                    (dir_Error d) false) f (RTurn count) dc o en false, rs)
| od_return d f dc o en l err d' rs :
    readdir_turn count d = (Some (l, err), d') →
    odstep (MkDS d f (RTurn count) dc o en false, rs)
           (MkDS d' f RIdle dc (o ++ l) (en || bool_decide (err = None ∧ l = [])) false,
            rs ++ [(l, err)]).

Lemma count_pos : 0 < count < 2 ^ 63.
Proof. unfold readdir_count. destruct (Z.ltb_spec 0 ReadDirCount); lia. Qed.

(** Each of its steps is one of the listing protocol. *)
Lemma odstep_dstep x y : odstep x y → dstep path ReadDirEx x.1 y.1.
Proof.
  pose proof count_pos. destruct 1; simpl; [by eapply st_fetch|by apply st_call|by apply st_wait|
    by apply st_recv|by apply st_return].
Qed.

(** A page is full, or ends the listing, or is an error. *)
Lemma turn_page d f dc o en l err d' :
  dinv E LsSize (MkDS d f (RTurn count) dc o en false) → readdir_turn count d = (Some (l, err), d') →
  match err with
  | Some _ => True
  | None => (Zlen l = count) ∨ (Zlen l < count ∧ o ++ l = E)
  end.
Proof.
  intros (_ & Hf & _ & _ & Her & Hab & _) Ht. unfold readdir_turn in Ht. simpl in *.
  pose proof count_pos as Hc.
  case_bool_decide as Hs.
  { injection Ht as <- <- _. destruct Hs as [Hs|Hs]; [|by apply Hab in Hs].
    destruct (dir_Error d) eqn:Ed; [done|]. by apply Her in Hs. }
  destruct (bool_decide_reflect (lsStatus d = LsDone)) as [Hd|Hd]; simpl in Ht.
  - assert (∀ k, take k (dirList d) = dirList d → o ++ take k (dirList d) = E) as Hall.
    { intros k ->. eapply (done_all E LsSize (MkDir [] (startKey d) (lsSize d) (lsStatus d)
        (cacheSize d) (dir_Error d) (ch d)) f RIdle dc (o ++ dirList d) en false); [|done..].
      eapply (finv_taken E LsSize d); [..|exact Hf]; simpl; [by rewrite app_nil_r|done..]. }
    destruct (Z.eqb_spec (Zlen (dirList d)) 0) as [E0|_].
    { injection Ht as <- <- _. right. split; [unfold Zlen; simpl; lia|].
      rewrite <- (take_0 (dirList d)). apply Hall.
      unfold Zlen in E0. rewrite take_ge by lia. done. }
    rewrite Hd in Ht. simpl in Ht. injection Ht as <- <- _.
    destruct (Z.ltb_spec (Zlen (dirList d)) count).
    + right. unfold Zlen in *. rewrite length_take. split; [lia|]. apply Hall. apply take_ge. lia.
    + left. unfold Zlen in *. rewrite length_take. lia.
  - assert (lsStatus d = LsFetching) as Hfe by (destruct (lsStatus d); tauto).
    rewrite Hfe in Ht. simpl in Ht. destruct (Z.ltb_spec (Zlen (dirList d)) count); [done|].
    injection Ht as <- <- _. left. unfold Zlen in *. rewrite length_take. lia.
Qed.

Hypothesis Hinfo : Forall (λ e, is_Some (Dentry_Info e)) E.
Abbreviation ok_page := (λ p : list Dentry, (p, None : option error)).

(** The results so far: full pages, and perhaps a last page or an error. *)
Definition results_ok (s : DS) (rs : list page_result) : Prop := ∃ pages rest,
  Forall (λ p, Zlen p = count) pages ∧ E = concat pages ++ rest ∧
  ((rs = map ok_page pages ∧ out s = concat pages) ∨
   (ds_r s = RIdle ∧
    ((rs = map ok_page pages ++ [(rest, None)] ∧ Zlen rest < count) ∨
     ∃ l err, rs = map ok_page pages ++ [(l, Some err)]))).

Definition outcome_ok (rs : list page_result) : Prop :=
  OpenDir_loop ReadDirCount rs [] = Block ∨
  (∃ es, dir_entries E = Ret es ∧ OpenDir_loop ReadDirCount rs [] = Ret (es, fuse_OK)) ∨
  (∃ c, c ≠ fuse_OK ∧ OpenDir_loop ReadDirCount rs [] = Ret ([], c)).

Lemma results_outcome s rs : results_ok s rs →
  outcome_ok rs ∧ (OpenDir_loop ReadDirCount rs [] = Block →
    ∃ pages rest, Forall (λ p, Zlen p = count) pages ∧ E = concat pages ++ rest ∧
      rs = map ok_page pages ∧ out s = concat pages).
Proof.
  intros (pages & rest & Hp & HE & Hr). pose proof Hinfo as Hin.
  rewrite HE in Hin. apply Forall_app in Hin as [Hi1 Hi2].
  destruct (dir_entries_total _ Hi1) as (e1 & E1 & _). destruct (dir_entries_total _ Hi2) as (e2 & E2 & _).
  assert (∀ tl, OpenDir_loop ReadDirCount (map ok_page pages ++ tl) [] = OpenDir_loop ReadDirCount tl e1) as Hl
    by (intros tl; by rewrite (OpenDir_loop_full _ _ _ Hp _ e1)).
  destruct Hr as [(-> & Ho)|(_ & [(-> & Hlt)|(l & err & ->)])]; unfold outcome_ok.
  - specialize (Hl []). rewrite app_nil_r in Hl. rewrite Hl. split; [by left|]. intros _.
    by exists pages, rest.
  - rewrite Hl. simpl. rewrite E2, (proj2 (Z.ltb_lt _ _)) by done. split; [|done].
    right. left. exists (e1 ++ e2). split; [|done]. rewrite HE. by apply dir_entries_app.
  - rewrite Hl. simpl. split; [|done]. right. right. exists (parseErr (Some err)).
    split; [|done]. by rewrite parseErr_OK.
Qed.

Lemma odstep_results x y :
  odstep x y → dinv E LsSize x.1 → results_ok x.1 x.2 → results_ok y.1 y.2.
Proof.
  intros Hst Hi Hr. destruct Hst as [d f r dc o en t f' d' dc' rs|d f dc o en rs Hb|d f dc o en d' rs
    |d f dc o en rs|d f dc o en l err d' rs Ht]; simpl in *; try exact Hr.
  - apply results_outcome in Hr as [_ Hr]. destruct (Hr Hb) as (pages & rest & ? & ? & ? & ?).
    exists pages, rest. split_and!; try done. by left.
  - destruct Hr as (pages & rest & ? & ? & [?|[? _]]); [|done]. exists pages, rest. split_and!; auto.
  - destruct Hr as (pages & rest & ? & ? & [?|[? _]]); [|done]. exists pages, rest. split_and!; auto.
  - destruct Hr as (pages & rest & Hp & HE & [[-> Ho]|[? _]]); [|done]. simpl in Ho. subst o.
    pose proof (turn_page _ _ _ _ _ _ _ _ Hi Ht) as Hpg. destruct err as [err|].
    { exists pages, rest. split_and!; try done. right. split; [done|]. right. by exists l, err. }
    destruct Hpg as [Hl|[Hl HE']].
    + assert (∃ rest', E = (concat pages ++ l) ++ rest') as [rest' HE'].
      { pose proof (dstep_dinv path ReadDirEx E Hlists LsSize Hls _ _ Hi
          (st_return path ReadDirEx d f dc _ en false count l None d' Ht)) as Hi'.
        destruct Hi' as (_ & Hf & _). by apply (finv_prefix E LsSize) in Hf. }
      exists (pages ++ [l]), rest'. rewrite concat_app, map_app. simpl. rewrite app_nil_r.
      split_and!; try done; [apply Forall_app; by repeat constructor|by left].
    + exists pages, l. split_and!; try done. right. split; [done|]. left. done.
Qed.

(** C13: listing a directory through FUSE is complete.  However the loop of
    [OpenDir] and the fetching goroutine interleave, [OpenDir] has not returned
    yet, or it returned the entries of the whole directory, in order, with
    status OK, or an empty stream with the status of an error: never a part of
    the directory as if it were all. *)
Theorem opendir_complete {W} `{ProxyApi W} (m : Mnt W) root name dc s rs :
  checkMount m (genPath root name) MountModeRead = None →
  rtc odstep (dinit LsSize dc, []) (s, rs) →
  OpenDir root ReadDirCount name rs m = Block ∨
  (∃ es, dir_entries E = Ret es ∧ OpenDir root ReadDirCount name rs m = Ret ((es, fuse_OK), m)) ∨
  (∃ c, c ≠ fuse_OK ∧ OpenDir root ReadDirCount name rs m = Ret (([], c), m)).
Proof.
  intros Hc Hr.
  assert (∀ x y, rtc odstep x y → dinv E LsSize x.1 → results_ok x.1 x.2 → results_ok y.1 y.2) as Hind.
  { induction 1 as [|x y z Hxy _ IH]; [done|]. intros Hi Hx. apply IH; [|by eapply odstep_results].
    eapply (dstep_dinv path ReadDirEx E Hlists LsSize Hls); [exact Hi|by apply odstep_dstep]. }
  apply Hind in Hr; simpl in *; [|by apply dinv_init|].
  2:{ exists [], E. split_and!; try done. by left. }
  apply results_outcome in Hr as [Hr _].
  assert (∀ results, OpenDir root ReadDirCount name results m =
    lift (OpenDir_loop ReadDirCount results []) m) as ->.
  { intros results. unfold OpenDir, Opendir, bind at 1, guarded, bind at 1, get at 1. by rewrite Hc. }
  unfold lift.
  destruct Hr as [->|[(es & Hes & ->)|(c & Hne & ->)]]; eauto 10.
Qed.
End Listing.

(** * Witness: a directory of three entries, listed in pages of two *)

Module FuseDirExample.

Definition info (n : Z) : InoInfo := MkInoInfo n 420 1 0 0 0 0 0 0 EmptyString EmptyString EmptyString.
Definition entry (s : string) (n : Z) : Dentry := MkDentry s n DentryTypeFile (Some (info n)).
Definition ents : list Dentry := [entry "a" 7; entry "b" 8; entry "c" 9].

(** What follows the start key. *)
Definition after_key (k : string) : list Dentry :=
  if String.eqb k "a" then drop 1 ents else if String.eqb k "b" then drop 2 ents
  else if String.eqb k "c" then [] else ents.
Definition page (k : string) (n : Z) : Response * option error :=
  (MkResponse 0 EmptyString (DentrysData (take (Z.to_nat n) (after_key k))), None).

Lemma ents_lists : lists page ents.
Proof.
  intros i n Hi Hn. simpl. intros _. do 4 (destruct i as [|i]; [reflexivity|]). simpl in Hi. lia.
Qed.

Definition mnt : Mnt unit :=
  MkMnt "/m" MountStuMounted 7 2 0 false (NewFileCache 0) (NewDentryCache 0 0)
    (MkCS (NewPool 0 0) (NewPool 0 0) None None 0 tt 0) false.
#[local] Instance no_api : ProxyApi unit := { api_call _ _ w := ((MkResponse 0 EmptyString NoData, None), w) }.

(** The goroutine fetches both pages, then [OpenDir] reads two and one entry. *)
Definition done_dir : Dir := MkDir [] "b" 2 LsDone 4 None true.
Definition done_state : DS :=
  MkDS done_dir FEnd RIdle (NewDentryCache 0 0) ents false false.
Definition results : list page_result := [([entry "a" 7; entry "b" 8], None); ([entry "c" 9], None)].

Lemma reach_done :
  rtc (odstep "/m" page 2) (dinit 2 (NewDentryCache 0 0), []) (done_state, results).
Proof.
  do 10 (eapply rtc_l; [apply (od_fetch _ _ _ _ _ _ _ _ _ 0); [discriminate|vm_compute; reflexivity]|]).
  eapply rtc_l; [apply od_call; vm_compute; reflexivity|].
  eapply rtc_l; [eapply od_return; vm_compute; reflexivity|].
  eapply rtc_l; [apply od_call; vm_compute; reflexivity|].
  eapply rtc_l; [eapply od_return; vm_compute; reflexivity|]. apply rtc_refl.
Qed.

Lemma opendir_complete_witness :
  ∃ es, dir_entries ents = Ret es ∧ OpenDir "/m" 2 EmptyString results mnt = Ret ((es, fuse_OK), mnt).
Proof.
  destruct (opendir_complete "/m" page ents ents_lists 2 ltac:(lia) 2 ltac:(lia)
    ltac:(repeat constructor; eexists; reflexivity) mnt "/m" EmptyString (NewDentryCache 0 0)
    done_state results) as [Hx|[Hx|(c & Hc & Hx)]].
  - reflexivity.
  - exact reach_done.
  - vm_compute in Hx. discriminate Hx.
  - exact Hx.
  - vm_compute in Hx. discriminate Hx.
Defined.
End FuseDirExample.
