(* ===== verification/Setup.v ===== *)
(** Building a mount from a configuration ([NewMount], [setProxyCli] of
    lib/libfs/mount.go, [NewRWCache] of rwcache.go): the state it starts in
    satisfies the invariants the other files' theorems assume. *)

From stdpp Require Import base gmap strings list relations.
From Stdlib Require Import ZArith Lia.
From S2P Require Import Prelude GoString Proto Config Store Buffer Pool View CacheState WCache.
From S2P Require Import WCacheProof WCacheSteps RCache RWCache RWCacheProof RCacheProof CloseProof.
From S2P Require Import RWCacheSteps RWCacheTheorems Lru FileTable Mount MountProof Fuse.
From S2P Require Import Http ProxyClient Logging.

(** The write cache's pool and channel, which exists when there is a routine
    that serves it. The routines themselves are the steps of the caches. *)
Definition NewWCache (BufferMax expire SyncRoutine : Z) : Pool * option (chan Z) :=
  (NewPool BufferMax expire, if 0 <? SyncRoutine then Some (open_chan []) else None).

Definition NewRCache (BufferMax expire PrefetchRoutine : Z) : Pool * option (chan RWBlockOp) :=
  (NewPool BufferMax expire, if 0 <? PrefetchRoutine then Some (open_chan []) else None).

Definition NewRWCache {W} (BufferMax expire SyncRoutine PrefetchRoutine PrefetchTimes : Z)
    (w : W) (t : Z) : CS W :=
  let '(rCache, chPrefetch) := NewRCache BufferMax expire PrefetchRoutine in
  let '(wCache, chSync) := NewWCache BufferMax expire SyncRoutine in
  MkCS rCache wCache chSync chPrefetch PrefetchTimes w t.

Section Setup.
(** The network as the HTTP client sees it, the proxy as the mount sees it,
    the account server's answers, a fresh uuid and the host's address. *)
Context {N : Type} `{HttpEnv N} {W : Type}.
Variable exchange : string → Header → bytes → bytes + error.
Variables (uuid ip : string).

Definition getExportPath (cfg : Config) : string :=
  if negb (String.eqb (cfg_at cfg ExportPath) EmptyString) then cfg_at cfg ExportPath
  else cfg_at cfg CfgPath.

Definition genClientId (mntPath : string) : string := String.append ip (String.append "_" mntPath).

Definition setProxyCli (cfg : Config) (user : UserInfo) (clientId : string) : outcome ProxyClient :=
  match BuildHttpCfg cfg with
  | Ret httpCfg =>
      match NewHttpClient (W := N) httpCfg user clientId cfg with
      | Ret ioCli => Ret (NewProxyClient ioCli (BuildRetryCfg cfg))
      | Panic => Panic
      | Block => Block
      end
  | Panic => Panic
  | Block => Block
  end.

(** [ioCli := proxyClient.GetIoClient(); ioCli.UpdateHosts(...)]: the client
    object is changed in place. *)
Definition update_hosts (cfg : Config) (c : ProxyClient) : outcome ProxyClient :=
  match UpdateHosts (W := N) (GetIoClient c) (cfg_at cfg CfgProxyHosts) with
  | Ret ioCli => Ret (NewProxyClient ioCli c.2)
  | Panic => Panic
  | Block => Block
  end.

(** The end of [NewMount]: [setProxyCli] and the update of the hosts. *)
Definition proxy_client (cfg : Config) (user : UserInfo) (clientId : string) : outcome ProxyClient :=
  match setProxyCli cfg user clientId with
  | Ret c => update_hosts cfg c
  | o => o
  end.

(** [make([]*FileEntry, openFileMax)] panics for a negative size. *)
Definition NewMount (cfg : Config) (w : W) (t : Z)
    : outcome ((Mnt W * ProxyClient) + error) :=
  let path := cfg_at cfg CfgPath in
  if bad_path path then Ret (inr (ErrErrno E_POSIX_EPERM))
  else
    match getUserInfo exchange uuid cfg with
    | inr _ => Ret (inr (ErrErrno E_POSIX_EINVAL))
    | inl user =>
        let openFileMax := GetIntValue cfg CfgOpenFileMax 100000 in
        let rwCacheSize := GetIntValue cfg CfgRwCacheCacheSize 0 in
        if openFileMax <? 0 then Panic
        else
          match proxy_client cfg user (genClientId (getExportPath cfg)) with
          | Ret cli =>
              Ret (inl (MkMnt path MountStuNew 0
                (u16 (GetIntValue cfg CfgLsSize 2000))
                (strToLevel (LogLevel (BuildLogCfg cfg)))
                (0 <? rwCacheSize)
                (NewFileCache openFileMax)
                (NewDentryCache (GetIntValue cfg CfgDentryCacheSize 0)
                   (GetIntValue cfg CfgDentryCacheExpireMs 500))
                (if 0 <? rwCacheSize
                 then NewRWCache rwCacheSize (GetIntValue cfg CfgRwCacheExpireMs 500)
                        (GetIntValue cfg CfgRwCacheSyncRoutine 64)
                        (GetIntValue cfg CfgRwCachePrefetchRoutine 64)
                        (GetIntValue cfg CfgRwCachePrefetchTimes 8) w t
                 else NewRWCache 0 0 0 0 0 w t)
                false, cli))
          | Panic => Panic
          | Block => Block
          end
    end.
End Setup.

(** * What it establishes *)

Lemma dentry_wf_fresh {V} cap ms : dentry_wf (NewDentryCache (V := V) cap ms).
Proof.
  unfold NewDentryCache, dentry_wf, NewLRUCache. simpl. destruct (Z.leb_spec cap 0); [done|].
  constructor; simpl; try done.
  - constructor.
  - unfold Zlen. simpl. lia.
  - intros k e. rewrite lookup_empty. split; [done|]. by intros [?%not_elem_of_nil _].
  - by intros e ?%not_elem_of_nil.
  - intros e. rewrite lookup_empty. by intros [].
Qed.

Lemma winv_fresh {W} (B n ex a b c : Z) (w : W) t : winv B false (NewRWCache n ex a b c w t).
Proof.
  constructor; simpl.
  - apply wf_NewPool.
  - unfold pending. simpl. destruct (0 <? a); apply NoDup_nil_2.
  - unfold pending. simpl. intros ? Hx. destruct (0 <? a); by apply not_elem_of_nil in Hx.
  - intros f i l. unfold lockof. simpl. by rewrite lookup_empty.
  - intros ch. by destruct (0 <? a); [intros [= <-]|].
Qed.

(** It is an initial state of the caches' transition system. *)
Lemma rwreachable_fresh {W} `{ProxyStore W} (B n ex a b c : Z) (w : W) t :
  rwreachable B (NewRWCache n ex a b c w t).
Proof.
  exists n, ex, (if 0 <? a then Some (open_chan []) else None), (if 0 <? b then Some (open_chan []) else None), c, w, t.
  split; [destruct (0 <? a); auto|]. split; [destruct (0 <? b); auto|]. apply rtc_refl.
Qed.

(** The channels, and with them the asynchronous routines, exist exactly when
    the configuration asks for them. *)
Lemma quiet_fresh {W} `{ProxyStore W} (B n ex a b c : Z) (w : W) t f :
  b ≤ 0 → quiet B (NewRWCache n ex a b c w t) f.
Proof.
  intros Hb. constructor; try done; simpl.
  - apply winv_fresh.
  - apply wf_NewPool.
  - by rewrite (proj2 (Z.ltb_ge _ _)) by lia.
Qed.

Lemma proxy_client_ok {N} `{HttpEnv N} cfg user cid cli rc :
  proxy_client (N := N) cfg user cid = Ret (cli, rc) →
  client_of (cfg_at cfg CfgProxyHosts) cli ∧ selector_ok (hc_sel cli) ∧ rc = BuildRetryCfg cfg ∧
  cfg_at cfg CfgProxyHosts ≠ EmptyString.
Proof.
  unfold proxy_client, setProxyCli, update_hosts. destruct (BuildHttpCfg cfg) as [hc| |] eqn:Eh; [|done..].
  destruct (NewHttpClient hc user cid cfg) as [c| |] eqn:Ec; [|done..]. simpl.
  destruct (UpdateHosts c _) as [c'| |] eqn:Eu; [|done..]. intros Hr. injection Hr as <- <-.
  unfold BuildHttpCfg in Eh. destruct (String.eqb_spec (cfg_at cfg CfgProxyHosts) EmptyString) as [|Hne];
    [done|]. simpl in Eh. destruct (_ =? 0)%nat; [done|]. injection Eh as <-.
  apply NewHttpClient_ok in Ec as (_ & _ & _ & _ & Hd). specialize (Hd eq_refl).
  unfold UpdateHosts in Eu. destruct (newSelector _ _ _) as [sel| |] eqn:Es; [|done..].
  injection Eu as <-. apply newSelector_ok in Es as (Ho & _).
  split; [split; [exact Hd|by exists []]|]. by split_and!.
Qed.

(** C40: a mount that [NewMount] builds starts in a state that satisfies every
    invariant the other theorems assume: an empty well-formed file table and
    dentry cache, caches in an initial state of their transition system over the
    given proxy (so that what holds of its reachable states holds of them),
    a legal mount path, a page size in 16 bits, an HTTP client with the default
    retry predicate that talks to the configured host; it is not mounted yet,
    so that every operation on a path is still refused. *)
Theorem new_mount_ok {N} `{HttpEnv N} {W} `{ProxyApi W} `{!ProxyStore W}
    exchange uuid ip cfg (w : W) t m cli rc (op : pathop) f :
  NewMount (N := N) exchange uuid ip cfg w t = Ret (inl (m, (cli, rc))) →
  MountStu m = MountStuNew ∧ Path m = cfg_at cfg CfgPath ∧ bad_path (Path m) = false ∧
  ft_wf (fileCache m) ∧ (∀ h, entry_at (fileCache m) h = None) ∧ dentry_wf (dentries_ m) ∧
  rwreachable DefaultBlockSize (caches m) ∧ rwinv DefaultBlockSize false (caches m) ∧ world (caches m) = w ∧
  (chPrefetch (caches m) = None → quiet DefaultBlockSize (caches m) f) ∧
  0 ≤ LsSize m < 2 ^ 16 ∧
  client_of (cfg_at cfg CfgProxyHosts) cli ∧ selector_ok (hc_sel cli) ∧
  run_op op m = Ret (Some (ErrErrno E_POSIX_EACCES), m).
Proof.
  unfold NewMount. destruct (bad_path (cfg_at cfg CfgPath)) eqn:Hp; [done|].
  destruct (getUserInfo exchange uuid cfg) as [user|]; [|done].
  pose proof (GetIntValue_range cfg CfgOpenFileMax 100000 ltac:(lia)) as Hmax.
  destruct (Z.ltb_spec (GetIntValue cfg CfgOpenFileMax 100000) 0) as [|Hge]; [done|].
  destruct (proxy_client _ _ _) as [[cli' rc']| |] eqn:Ec; [|done..].
  intros Hr. injection Hr as <- <- <-. apply proxy_client_ok in Ec as (Hcl & Hsel & _ & _).
  split; [done|]. split; [done|]. split; [done|]. simpl.
  split; [apply ft_wf_new; lia|]. split.
  { intros h. unfold entry_at, NewFileCache. simpl. destruct (h <? 0); [done|].
    destruct (replicate _ None !! Z.to_nat h) as [e|] eqn:E; [|done].
    by apply lookup_replicate in E as [-> _]. }
  split; [apply dentry_wf_fresh|].
  split; [case_match; apply rwreachable_fresh|].
  split; [case_match; apply (rwreach_inv _ BS_ok), rwreachable_fresh|]. split; [by case_match|]. split.
  { destruct (0 <? GetIntValue cfg CfgRwCacheCacheSize 0).
    - unfold NewRWCache at 1. simpl.
      destruct (Z.ltb_spec 0 (GetIntValue cfg CfgRwCachePrefetchRoutine 64)); [done|].
      intros _. apply quiet_fresh. lia.
    - intros _. by apply quiet_fresh. }
  split; [apply u16_bound|]. split; [done|]. split; [done|].
  destruct op; apply guarded_denied; done.
Qed.

Module SetupExample.
Import HttpExample MountExample.

Definition cfg0 : gmap string string :=
  {[ CfgPath := "/m"; CfgProxyHosts := "http://a"; CfgRwCacheCacheSize := "4";
     CfgOpenFileMax := "3" ]}%string.

Lemma new_mount_ok_witness :
  ∃ m cli rc,
    NewMount (N := list answer) (λ _ h _, inl (pullaccount h)) "id" "10.0.0.1" cfg0 (srv1 []) 0
      = Ret (inl (m, (cli, rc))) ∧
    ft_wf (fileCache m) ∧ run_op (OpUnLink "/m/a") m = Ret (Some (ErrErrno E_POSIX_EACCES), m).
Proof.
  destruct (NewMount (N := list answer) (λ _ h _, inl (pullaccount h)) "id" "10.0.0.1" cfg0 (srv1 []) 0)
    as [[[m [cli rc]]|e]| |] eqn:E; [|vm_compute in E; discriminate E..].
  exists m, cli, rc. split; [reflexivity|].
  destruct (new_mount_ok (λ _ h _, inl (pullaccount h)) "id" "10.0.0.1" cfg0 (srv1 []) 0 m cli rc
    (OpUnLink "/m/a") 0 E) as (_ & _ & _ & Hf & _ & _ & _ & _ & _ & _ & _ & _ & _ & Hop).
  split; [exact Hf|exact Hop].
Defined.

(** The same mount with the caches off and an open file of three bytes. *)
Definition plain1 : Mnt Srv :=
  MkMnt "/m" MountStuMounted 7 2000 0 false table1 (NewDentryCache 10 500)
    (MkCS (NewPool 0 0) (NewPool 0 0) None None 0 (srv1 []) 0) false.

(** [Allocate] with mode 0 asks the proxy to truncate the file to the end of
    the allocated range, below the file's size. *)
Lemma allocate_truncates (W : Type) `{ProxyApi W} (f : file) (m : Mnt W) :
  file_Allocate f 0 1 0 m = status (Truncate (f_path f) 1) m.
Proof. reflexivity. Qed.

(** Opening a file whose [Stat] fails leaves the handle open: the path is not
    known to the proxy's [Stat], the caller gets no file, and the lowest
    handle is taken. *)
Lemma open_leaks_handle :
  ∃ m', fs_Open "/m" "new" 2 plain1 = Ret ((None, 2), m') ∧ is_Some (entry_at (fileCache m') 1).
Proof.
  destruct (fs_Open "/m" "new" 2 plain1) as [[[o st] m']| |] eqn:E; [|vm_compute in E; discriminate E..].
  vm_compute in E. injection E as <- <- <-. eexists. split; [reflexivity|].
  vm_compute. eexists. reflexivity.
Qed.

Definition after {A} (o : outcome (A * Mnt Srv)) (m : Mnt Srv) : Mnt Srv :=
  match o with Ret (_, m') => m' | _ => m end.

Definition file4 : file := cfafuse_NewFile 0 "/m/a" (MkDentry "a" 5 DentryTypeFile None).
Definition wrote4 : Mnt Srv := after (file_Write file4 [7; 8] 1 mnt4) mnt4.

(** [Release] drops the error of [Close], after which the handle is still open:
    it is never closed, since the kernel releases a file once, and the buffered
    bytes did not reach the proxy. *)
Lemma release_leaks_handle :
  ∃ m', file_Release file4 wrote4 = Ret (tt, m') ∧ is_Some (entry_at (fileCache m') 0) ∧
    mem_content (srv_mem (world (caches m'))) 5 = [1; 2; 3].
Proof.
  eexists. split; [vm_compute; reflexivity|]. split; [vm_compute; eauto|vm_compute; reflexivity].
Qed.

(** The signal handler shuts the mount down whether or not [Unmount] succeeded,
    and requests on open handles do not look at the mount's status: with
    asynchronous write-back, a request that fills a block then sends on the
    channel that [DelMount] has closed. *)
Definition async4 : Mnt Srv :=
  set_caches (set_chSync (Some (open_chan [])) (caches mnt4)) mnt4.
Definition shut4 : Mnt Srv := after (DelMount async4) async4.

Lemma write_after_shutdown_panics :
  MountStu shut4 = MountStuDel ∧ is_Some (entry_at (fileCache shut4) 0) ∧
  file_Write file4 [7; 8; 9; 10] 0 shut4 = Panic ∧
  ∃ m', file_Write file4 [7; 8] 0 shut4 = Ret ((2, fuse_OK), m').
Proof.
  split; [vm_compute; reflexivity|]. split; [vm_compute; eauto|]. split; [vm_compute; reflexivity|].
  eexists. vm_compute. reflexivity.
Qed.
End SetupExample.
