(* ===== verification/Main.v ===== *)
(** The process: [main], [mount] and the signal loop of client/main.go over the
    mount object, and the statistics routine [StatTo] of lib/libfs/mount.go with
    the (empty) methods of lib/libfs/stat it calls.

    go-fuse's server runs beside the signal loop; what its requests do to the
    mount between two signals is an argument. *)

From stdpp Require Import base gmap strings list.
From Stdlib Require Import ZArith Lia.
From S2P Require Import Prelude GoString Proto Config Store Buffer Pool View CacheState WCache.
From S2P Require Import WCacheProof WCacheSteps RCache RWCache RWCacheProof RCacheProof CloseProof.
From S2P Require Import RWCacheSteps Lru FileTable Mount MountProof MountClose Fuse.
From S2P Require Import Http ProxyClient Logging Setup.

(** * lib/libfs/stat/statistic.go *)

Definition WriteStat : option error := None.
Definition ClearStat : option error := None.
Definition EndStat (typeName : string) (err : option error) (bgTime statCount : Z) : option error := None.

Definition BeginStat (t : Z) : Z := t.

(** * client/lib/fuselib.go *)

(** go-fuse as the client uses it: a raw file system is its operation for a
    blocking lock and all its others; [PathNodeFs_Root] makes the root node of
    [pathfs] from the file system object and the path options. *)
Record GoFuse : Type := MkGoFuse {
  LkIn : Type;
  RawOps : Type;
  Node : Type;
  Connector : Type;
  Server : Type;
  PathNodeFs_Root : cfaFS → FuseConf → Node;
  NewFileSystemConnector : Node → FuseConf → Connector;
  RawFS : Connector → (LkIn → Z) * RawOps;
  NewServer : (LkIn → Z) * RawOps → string → FuseConf → Server + error;
}.

(** [FuseLib] embeds go-fuse's raw file system and redefines [SetLkw]. *)
Definition SetLkw {A} (input : A) : Z := fuse_OK.

Definition FuseLib (gf : GoFuse) (raw : (LkIn gf → Z) * RawOps gf) : (LkIn gf → Z) * RawOps gf :=
  (SetLkw, raw.2).

(** [lib.Mount]: the options of the mount and of the nodes are fields of the
    configuration. *)
Definition lib_Mount (gf : GoFuse) (mountpoint : string) (root : Node gf) (opts : FuseConf)
    : (Server gf * Connector gf) + error :=
  let conn := NewFileSystemConnector gf root opts in
  match NewServer gf (FuseLib gf (RawFS gf conn)) mountpoint opts with
  | inr err => inr err
  | inl s => inl (s, conn)
  end.

(** A waiting lock is granted at once, whatever go-fuse would do; every other
    operation is go-fuse's. *)
Lemma FuseLib_overrides gf raw input :
  (FuseLib gf raw).1 input = fuse_OK ∧ (FuseLib gf raw).2 = raw.2.
Proof. done. Qed.

Section Main.
Context {W : Type} `{ProxyApi W} `{!ProxyStore W}.

(** ** [StatTo] *)

(** A turn is what the other routines do, and how far the clock goes, before
    the loop's condition is looked at again; [true] when the routine ended. *)
Fixpoint StatTo_loop (statGap lastStatTime : Z) (turns : list (M (Mnt W) unit)) : M (Mnt W) bool :=
  let! m := get in
  if negb (MountStu m =? MountStuMounted) then ret true
  else
    match turns with
    | [] => ret false
    | others :: turns' =>
        if CacheState.now (caches m) - lastStatTime <? i64 (statGap * Second) then
          others ;;; StatTo_loop statGap lastStatTime turns'
        else
          let err := WriteStat in
          let _ := ClearStat in
          others ;;; StatTo_loop statGap (CacheState.now (caches m)) turns'
    end.

Definition StatTo (cfg : gmap string string) (turns : list (M (Mnt W) unit)) : M (Mnt W) bool :=
  let! m := get in
  let statGap := GetIntValue cfg CfgStatGap 60 in
  if statGap =? 0 then ret true
  else StatTo_loop statGap (CacheState.now (caches m)) turns.

(** ** client/main.go *)

(** Each signal with what the server's requests did before it arrived. The
    result tells whether the loop has ended, and the level of the FUSE log. *)
Fixpoint exitSign (sigs : list (M (Mnt W) unit * signal)) (fuseLevel : Z) : M (Mnt W) (bool * Z) :=
  match sigs with
  | [] => ret (false, fuseLevel)
  | (requests, sig) :: rest =>
      requests ;;;
      let! r := exitSign_turn sig fuseLevel in
      let '(over, level) := r in
      if over then ret (true, level) else exitSign rest level
  end.

Section Start.
Context {N : Type} `{HttpEnv N}.
Variable exchange : string → Header → bytes → bytes + error.
Variables (uuid ip : string).
Variable gf : GoFuse.

(** [log.Fatalf] ends the process. *)
Definition mount (fuseCfg : FuseConf) (w : W) (t : Z) : outcome ((Server gf * Mnt W) + error) :=
  match NewMount (N := N) exchange uuid ip (default ∅ (fc_Cfg fuseCfg)) w t with
  | Ret (inl (mountInfo, _)) =>
      match Mount mountInfo with
      | Ret (Some err, _) => Ret (inr err)
      | Ret (None, mountInfo') =>
          match NewCfaFS fuseCfg with
          | inr _ => Panic
          | inl fs =>
              match lib_Mount gf (MountPoint fuseCfg) (PathNodeFs_Root gf fs fuseCfg) fuseCfg with
              | inr err => Ret (inr err)
              | inl (server, _) => Ret (inl (server, mountInfo'))
              end
          end
      | Panic => Panic
      | Block => Block
      end
  | Ret (inr _) => Panic
  | Panic => Panic
  | Block => Block
  end.

(** The FUSE log starts at level debug ([DefaultLogger]). *)
Definition main (ReadFile : string → string + error) (Unmarshal : string → FuseConf → FuseConf + error)
    (configFile : string) (w : W) (t : Z) (sigs : list (M (Mnt W) unit * signal))
    : outcome ((bool * Z) * Mnt W) :=
  match LoadFuseCfg ReadFile Unmarshal configFile with
  | Ret fuseCfg =>
      match mount fuseCfg w t with
      | Ret (inl (_, mountInfo)) => exitSign sigs (-1) mountInfo
      | Ret (inr _) => Panic
      | Panic => Panic
      | Block => Block
      end
  | Panic => Panic
  | Block => Block
  end.
End Start.

(** ** What they do *)

(** What the signal loop relies on: the caches are in order, the mount is not
    gone, and the levels are levels. *)
Definition serving (m : Mnt W) : Prop :=
  rwinv DefaultBlockSize false (caches m) ∧ rwCache m = true ∧ stopped m = false ∧ -1 ≤ logLevel m ≤ 5.

Definition requests_ok (requests : M (Mnt W) unit) : Prop :=
  ∀ m, serving m → wp requests (λ _ m', serving m') m.

(** SIGUSR1 and SIGUSR2 change only the levels. *)
Definition switches (sig : signal) : bool :=
  match sig with SIGUSR1 | SIGUSR2 => true | _ => false end.

Lemma SetLogLevel_spec flag m :
  serving m → wp (SetLogLevel flag) (λ _ m', serving m' ∧ m' = set_level (logLevel m') m) m.
Proof.
  intros (Hi & Hr & Hs & Hl). unfold SetLogLevel. apply wp_bind, wp_get.
  assert (m = set_level (logLevel m) m) as Hid by (by destruct m).
  destruct (flag <? 0); [destruct (Z.ltb_spec (-1) (logLevel m))|destruct (Z.ltb_spec (logLevel m) 4)];
    (apply wp_modify || apply wp_ret); simpl; (split; [|done]); unfold serving; simpl; split_and!; (done || lia).
Qed.

Lemma switch_turn sig level m :
  serving m → -1 ≤ level ≤ 4 → switches sig = true →
  wp (exitSign_turn sig level) (λ r m', r.1 = false ∧ -1 ≤ r.2 ≤ 4 ∧ serving m') m.
Proof.
  intros Hm Hl. destruct sig; try done; intros _; simpl; apply wp_bind;
    (eapply wp_mono; [|by apply SetLogLevel_spec]); intros [] m' [Hm' _]; apply wp_ret; simpl;
    case_match; zbool; split_and!; (done || lia).
Qed.

Lemma exitSign_pass pre rest : ∀ level m (Q : bool * Z → Mnt W → Prop),
  serving m → -1 ≤ level ≤ 4 → Forall (λ x, requests_ok x.1 ∧ switches x.2 = true) pre →
  (∀ level' m', serving m' → -1 ≤ level' ≤ 4 → wp (exitSign rest level') Q m') →
  wp (exitSign (pre ++ rest) level) Q m.
Proof.
  induction pre as [|[requests sig] pre IH]; intros level m Q Hm Hl Hp HQ; [by apply HQ|].
  apply Forall_cons in Hp as [[Hr Hs] Hp]. simpl in *. apply wp_bind.
  eapply wp_mono; [|by apply Hr]. intros [] m1 Hm1. apply wp_bind.
  eapply wp_mono; [|by apply switch_turn]. intros [over level'] m2 (Ho & Hl2 & Hm2). simpl in *.
  subst over. by apply IH.
Qed.

(** A terminating signal ends the loop with the mount shut down; no later
    signal is looked at. *)
Lemma exitSign_ends pre requests sig post level m :
  serving m → -1 ≤ level ≤ 4 → Forall (λ x, requests_ok x.1 ∧ switches x.2 = true) pre →
  requests_ok requests → switches sig = false →
  ∃ level' m1 m2, exitSign (pre ++ (requests, sig) :: post) level m = Ret ((true, level'), m2) ∧
    -1 ≤ level' ≤ 4 ∧ serving m1 ∧ shut_down m1 m2.
Proof.
  intros Hm Hl Hp Hr Hs.
  assert (wp (exitSign (pre ++ (requests, sig) :: post) level) (λ r m2,
    r.1 = true ∧ -1 ≤ r.2 ≤ 4 ∧ ∃ m1, serving m1 ∧ shut_down m1 m2) m) as Hw.
  { apply exitSign_pass; [done..|]. intros level' m' Hm' Hl'. simpl. apply wp_bind.
    eapply wp_mono; [|by apply Hr]. intros [] m1 Hm1. pose proof Hm1 as (Hi1 & Hr1 & Hs1 & _).
    destruct sig; try done; simpl; apply wp_bind, wp_bind;
      (eapply wp_mono; [|by apply DelMount_spec]); intros [] m2 Hd; apply wp_ret, wp_ret; simpl; eauto. }
  apply wp_run in Hw as ([b level'] & m2 & E & Hb & Hl' & m1 & Hm1 & Hd). simpl in *. subst b.
  exists level', m1, m2. split; [exact E|]. split; [exact Hl'|]. by split.
Qed.

(** [StatTo] ends at the first turn that finds the mount not mounted, so the
    [wg.Wait] of [DelMount] is not kept waiting by it. *)
Lemma StatTo_ends cfg turns m :
  MountStu m ≠ MountStuMounted → StatTo cfg turns m = Ret (true, m).
Proof.
  intros Hm. unfold StatTo, bind, get. destruct (_ =? 0); [done|].
  apply Z.eqb_neq in Hm. destruct turns; simpl; unfold bind, get; by rewrite Hm.
Qed.

(** It has no effect of its own on the mount: what it leaves is what the other
    routines left. *)
Lemma StatTo_loop_frame gap (I : Mnt W → Prop) turns : ∀ last m,
  I m → Forall (λ others, ∀ m, I m → wp others (λ _ m', I m') m) turns →
  wp (StatTo_loop gap last turns) (λ ended m', I m' ∧ (ended = true → MountStu m' ≠ MountStuMounted)) m.
Proof.
  induction turns as [|others turns IH]; intros last m Hm Ht; simpl; apply wp_bind, wp_get.
  - destruct (Z.eqb_spec (MountStu m) MountStuMounted); apply wp_ret; by split.
  - apply Forall_cons in Ht as [Ho Ht]. destruct (Z.eqb_spec (MountStu m) MountStuMounted); simpl.
    + case_match; apply wp_bind; (eapply wp_mono; [|by apply Ho]); intros [] m1 Hm1; by apply IH.
    + by apply wp_ret.
Qed.

(** ** From the configuration to the last signal *)

(** A mount that serves, with no block of the write cache on its way to a sync
    routine. *)
Definition calm (m : Mnt W) : Prop := serving m ∧ ∀ g j, lockof (wc (caches m)) g j = None.

Lemma call_calm uri req m : calm m → wp (call uri req) (λ _ m', calm m') m.
Proof.
  intros [([Hwi Hri] & Hr & Hs & Hl) Hk]. unfold wp, call.
  destruct (api_call uri req (world (caches m))) as [r w'].
  split; [|done]. split; [|done]. split; [by apply (winv_ext _ (caches m))|by apply (rinv_same _ (caches m))].
Qed.

Lemma doStat_calm path m : calm m → wp (doStat path) (λ _ m', calm m') m.
Proof.
  intros Hm. unfold doStat. apply wp_bind. eapply wp_mono; [|by apply call_calm].
  intros [resp err] m' Hm'. by case_match; apply wp_ret.
Qed.

Lemma add_cache_size_serving path d m : calm m → wp (add_cache_size path d) (λ _ m', serving m') m.
Proof.
  intros [Hm Hk]. unfold add_cache_size. apply wp_bind, wp_get.
  destruct (rwCache m); [|by apply wp_ret]. destruct (GetSimpleFileEntry d) as [fe|]; [|by apply wp_ret].
  pose proof Hm as ([Hwi Hri] & Hr & Hs & Hl).
  apply wp_bind, wp_zoom. eapply wp_mono; [|apply (StatSize_spec _ BS_ok (shut:=false) fe); [exact Hwi|by intros; apply Hk]].
  intros [n e] c (Hwi' & (Hrc & Hpf & _) & _ & He & _). simpl in He. subst e. apply wp_ret.
  split; [|done]. split; [done|by eapply rinv_same].
Qed.

(** Mounting asks the proxy for the root and leaves the caches in order. *)
Lemma Mount_serving m : calm m → wp Mount (λ _ m', serving m') m.
Proof.
  intros Hm. unfold Mount. apply wp_bind, wp_get. case_match; [by apply wp_ret; apply Hm|].
  apply wp_bind, wp_modify. set (m0 := set_stu _ _ m). assert (calm m0) as Hm0 by exact Hm.
  clearbody m0. apply wp_bind.
  eapply (wp_mono _ (λ _ m', serving m')); [intros [d|err] m' Hm'; by apply wp_ret|].
  unfold Stat, guarded. apply wp_bind, wp_get. case_match; [by apply wp_ret; apply Hm0|].
  apply wp_bind. unfold wp at 1, recall. destruct (Dentry_Get _ _ _) as [[d|] dc]; [by apply wp_ret; apply Hm0|].
  apply wp_bind. eapply wp_mono; [|by apply doStat_calm]. intros [d|err] m1 Hm1; [|by apply wp_ret; apply Hm1].
  apply wp_bind. eapply wp_mono; [|by apply add_cache_size_serving].
  intros [d'|err] m2 Hm2; [|by apply wp_ret]. apply wp_bind, wp_modify. by apply wp_ret.
Qed.

Section Run.
Context {N : Type} `{HttpEnv N}.
Variable exchange : string → Header → bytes → bytes + error.
Variables (uuid ip : string) (gf : GoFuse).

Lemma strToLevel_range s : -1 ≤ strToLevel s ≤ 5.
Proof. unfold strToLevel. repeat case_match; lia. Qed.

(** [NewMount] with caches. *)
Lemma NewMount_calm cfg w t m cli :
  NewMount (N := N) exchange uuid ip cfg w t = Ret (inl (m, cli)) →
  0 < GetIntValue cfg CfgRwCacheCacheSize 0 → calm m.
Proof.
  unfold NewMount. case_match; [done|]. case_match; [|done]. case_match; [done|].
  case_match; [|done..]. intros [= <- _] Hsz. rewrite (proj2 (Z.ltb_lt _ _) Hsz).
  split; [|done].
  split_and!; try done; try apply strToLevel_range.
  apply (rwreach_inv _ BS_ok), rwreachable_fresh.
Qed.

(** The mount [main] serves is the one [NewMount] built, mounted. *)
Lemma mount_started c w t server m :
  mount (N := N) exchange uuid ip gf c w t = Ret (inl (server, m)) →
  0 < GetIntValue (default ∅ (fc_Cfg c)) CfgRwCacheCacheSize 0 → serving m.
Proof.
  unfold mount. destruct (NewMount _ _ _ _ _ _) as [[[m0 cli]|e]| |] eqn:En; [|done..].
  destruct (Mount m0) as [[[e|] m1]| |] eqn:E; [done| |done..]. simpl.
  destruct (lib_Mount gf _ _ _) as [[sv conn]|]; [|done]. intros [= <- <-] Hsz.
  pose proof (Mount_serving m0 (NewMount_calm _ _ _ _ _ En Hsz)) as Hw. unfold wp in Hw. by rewrite E in Hw.
Qed.

End Run.
End Main.

(** * Witnesses: the mount of [SetupExample] *)

Module MainExample.
Import HttpExample MountExample CloseExample.

(** The log level goes down and up before the process is told to end. *)
Definition sigs1 : list (M (Mnt Srv) unit * signal) := [(ret tt, SIGUSR1); (ret tt, SIGUSR2)].

Lemma idle_requests : requests_ok (W := Srv) (ret tt).
Proof. intros m Hm. by apply wp_ret. Qed.

(** A configuration file with the settings of [SetupExample]. *)
Definition conf1 : FuseConf :=
  MkFuseConf (Some SetupExample.cfg0) 1 0 0 true EmptyString EmptyString false false false true "/mnt" 0.
Definition rf1 : string → string + error := λ _, inl EmptyString.
Definition um1 : string → FuseConf → FuseConf + error := λ _ _, inl conf1.
Definition account1 : string → Header → bytes → bytes + error := λ _ h _, inl (pullaccount h).

(** A server that is told where to mount. *)
Definition gf1 : GoFuse :=
  MkGoFuse unit unit cfaFS cfaFS string (λ fs _, fs) (λ node _, node) (λ _, (λ _, fuse_ENOSYS, tt))
    (λ _ mountpoint _, inl mountpoint).

Definition srv2 : Srv := MkSrv (MkMem {[5 := [1; 2; 3]]} []) {[ "/m"%string := 4; "/m/a"%string := 5 ]}.

End MainExample.
