(* ===== verification/Stack.v ===== *)
(** The whole stack: a mount whose proxy is the retrying HTTP client over an
    unreliable network.  The client discharges the storage contract the caches
    are proved against, so that what FUSE requests wrote through a handle is on
    the server's side of the network when closing the handle succeeds. *)

From stdpp Require Import base gmap strings list.
From Stdlib Require Import ZArith Lia.
From S2P Require Import Prelude GoString Proto Config Store Buffer Pool View CacheState WCache.
From S2P Require Import WCacheProof WCacheSteps RCache RWCache RWCacheProof RCacheProof CloseProof.
From S2P Require Import RWCacheSteps RWCacheTheorems Lru FileTable Mount MountProof MountClose.
From S2P Require Import Http ProxyClient Fuse Setup.

(** A call of the mount is a call of the proxy client. *)
Definition stack_api {N} `{HttpEnv N} (rc : RetryCfg) (reqId : string) (c : HttpClient)
  : ProxyApi (NetState (W := N)) :=
  {| api_call uri req := run_req rc reqId c uri req |}.

Section Stack.
Context {N : Type} `{HttpEnv N} (base : string) `{!WireStore N base}.
Variables (rc : RetryCfg) (reqId : string) (c : HttpClient).
Hypothesis Hrc : 0 ≤ RetryTimes rc.
Hypothesis Hc : client_of base c.
#[local] Instance api : ProxyApi (NetState (W := N)) := stack_api rc reqId c.
#[local] Instance store : ProxyStore (NetState (W := N)) :=
  http_store base rc reqId Hrc c Hc.
Abbreviation BS := DefaultBlockSize.

(** The logical file of a state without buffered data is the server's. *)
Definition on_server (m : Mnt (NetState (W := N))) (f : Z) : afile :=
  of_bytes (wire_content (base := base) (ns_world (world (caches m))) f).

(** The mount's side: a write, the sync routines, and closing the handle. *)
Lemma write_close_durable (m : Mnt (NetState (W := N))) fd e buffer offset :
  ft_wf (fileCache m) → 0 ≤ fd < 2 ^ 32 → entry_at (fileCache m) fd = Some e →
  writable e = true → DirectIO e = false → BlockSize e = BS → rwCache m = true →
  rwinv BS false (caches m) → idle (caches m) (fe_Id e) →
  buffer ≠ [] → Zlen buffer ≤ max_io → 0 ≤ offset → offset + 2 ^ 30 < 2 ^ 64 →
  ∃ n err m1, Write fd buffer offset m = Ret ((n, err), m1) ∧
    (chSync (caches m) = None → pending (caches m1) = []) ∧
    (∀ g, g ≠ fe_Id e → wview BS (caches m1) g ≡ wview BS (caches m) g) ∧
    (err = None → n = Zlen buffer ∧ ∀ bids, bids ≡ₚ pending (caches m1) →
       ∃ c err2 m2, sync_all bids (caches m1) = Ret (tt, c) ∧
         Close fd (set_caches c m1) = Ret (err2, m2) ∧
         (∀ g, g ≠ fe_Id e → wview BS (caches m2) g ≡ wview BS (caches m) g) ∧
         match err2 with
         | None => entry_at (fileCache m2) fd = None ∧
             on_server m2 (fe_Id e) ≡ spec_write (wview BS (caches m) (fe_Id e)) offset buffer
         | Some _ => err2 = EBADF ∧ is_Some (entry_at (fileCache m2) fd)
         end).
Proof.
  intros Hw Hfd He Hwr Hd Hbs Hrw Hi Hidle Hne Hl Ho Hm.
  destruct (Write_ok m fd e buffer offset Hw Hfd He Hwr Hd Hbs Hrw Hi Hidle Hne Hl Ho Hm)
    as (n & err & m1 & Ew & Hw1 & He1 & Hrw1 & Hi1 & Hsy & Hrl1 & Hv1 & Hok).
  exists n, err, m1. split; [done|]. split; [done|]. split; [done|]. intros Hn. destruct (Hok Hn) as [-> Hv].
  split; [done|]. intros bids Hb. destruct (sync_idle (caches m1) (fe_Id e) bids Hi1 Hrl1 Hb)
    as (c1 & Es & Hi2 & Hidle2 & Hvs).
  destruct (Close_ok (set_caches c1 m1) fd _ Hw1 Hfd He1 Hd Hrw1 Hi2 Hidle2)
    as (err2 & m2 & Ec & _ & _ & Hv2 & _ & Hfin). simpl in Hv2, Hfin.
  exists c1, err2, m2. split; [done|]. split; [done|]. split; [intros g Hg; by rewrite Hv2, Hvs, Hv1|].
  destruct err2; [done|]. destruct Hfin as (Hgone & Hdur & _). split; [done|]. unfold on_server.
  etransitivity; [exact Hdur|]. by rewrite Hvs, Hv.
Qed.
(** C2: data that was written and released is on the server.  From a FUSE request
    on an open file down to the wire, with the caches on (synchronous or
    asynchronous write-back), over a network that may lose, repeat, cut or
    redirect any exchange: WRITE returns; if its status is OK it took the whole
    buffer, the sync routines (in whatever order they take the buffers that the
    write queued) finish, and RELEASE then returns.  If the handle is gone after
    it, the server's file is exactly the logical file before the write with the
    buffer laid over it; otherwise closing failed with EBADF, which RELEASE
    drops, and the handle stays in the table.  No other file's logical content changes. *)
Theorem stack_durable (m : Mnt (NetState (W := N))) (fl : file) e buffer offset :
  ft_wf (fileCache m) → 0 ≤ f_fd fl < 2 ^ 32 → entry_at (fileCache m) (f_fd fl) = Some e →
  writable e = true → DirectIO e = false → BlockSize e = BS → rwCache m = true →
  rwinv BS false (caches m) → idle (caches m) (fe_Id e) →
  buffer ≠ [] → Zlen buffer ≤ max_io → 0 ≤ offset → offset + 2 ^ 30 < 2 ^ 64 →
  ∃ n st m1, file_Write fl buffer offset m = Ret ((n, st), m1) ∧
    (chSync (caches m) = None → pending (caches m1) = []) ∧
    (∀ g, g ≠ fe_Id e → wview BS (caches m1) g ≡ wview BS (caches m) g) ∧
    (st = fuse_OK → n = Zlen buffer ∧ ∀ bids, bids ≡ₚ pending (caches m1) →
       ∃ c m2, sync_all bids (caches m1) = Ret (tt, c) ∧
         file_Release fl (set_caches c m1) = Ret (tt, m2) ∧
         (∀ g, g ≠ fe_Id e → wview BS (caches m2) g ≡ wview BS (caches m) g) ∧
         match entry_at (fileCache m2) (f_fd fl) with
         | None => on_server m2 (fe_Id e) ≡ spec_write (wview BS (caches m) (fe_Id e)) offset buffer
         | Some _ => Close (f_fd fl) (set_caches c m1) = Ret (EBADF, m2)
         end).
Proof.
  intros Hw Hfd He Hwr Hd Hbs Hrw Hi Hidle Hne Hl Ho Hm.
  destruct (write_close_durable m _ e buffer offset Hw Hfd He Hwr Hd Hbs Hrw Hi Hidle Hne Hl Ho Hm)
    as (n & err & m1 & Ew & Hsy & Hv1 & Hok).
  unfold file_Write, bind at 1. rewrite (u64_small offset), Ew by lia. simpl. destruct err as [x|].
  { exists 0, (parseErr (Some x)), m1. split; [done|]. split; [done|]. split; [done|].
    intros Hst. by apply parseErr_OK in Hst. }
  destruct (Hok eq_refl) as [-> Hfin]. exists (u32 (Zlen buffer)), fuse_OK, m1.
  split; [done|]. split; [done|]. split; [done|]. intros _. pose proof (Zlen_nonneg buffer).
  split; [apply u32_small; unfold max_io in Hl; lia|]. intros bids Hb.
  destruct (Hfin bids Hb) as (c1 & err2 & m2 & Es & Ec & Hv2 & Hdur).
  exists c1, m2. split; [done|]. unfold file_Release, bind. rewrite Ec. split; [done|]. split; [done|].
  destruct err2; destruct Hdur as [Hx Hy]; [destruct Hy as [y ->]; by rewrite Hx|by rewrite Hx].
Qed.
End Stack.

(** * Witness: a write of two bytes over a network that fails three times *)

Module StackExample.
Import ProxyExample MountExample.

Definition net5 : Net := MkNetwork {[ 5 := [1; 2; 3] ]} [FDrop; FLost; FEof].
Definition mnt5 : Mnt (NetState (W := Net)) :=
  MkMnt "/m" MountStuMounted 7 2000 0 true table1 (NewDentryCache 10 500)
    (NewRWCache 4 10 64 64 8 (MkNet (hc_sel client2) net5 []) 0) false.
Definition entry5 : FileEntry := match entry_at table1 0 with Some e => e | None => fileA end.

Definition file5 : file := cfafuse_NewFile 0 "/m/a" (MkDentry "a" 5 DentryTypeFile None).

(** With the sync and prefetch routines of the default configuration. *)
Lemma stack_durable_witness :
  ∃ n st m1, @file_Write _ (stack_api rc3 "rid" client2) file5 [8; 9] 1 mnt5 = Ret ((n, st), m1) ∧
    (st = fuse_OK → n = 2 ∧ ∃ c m2,
       @sync_all _ (@api_io _ (stack_api rc3 "rid" client2)) (pending (caches m1)) (caches m1) = Ret (tt, c) ∧
       @file_Release _ (stack_api rc3 "rid" client2) file5 (set_caches c m1) = Ret (tt, m2)).
Proof.
  assert (0 ≤ RetryTimes rc3) as Hrc by (vm_compute; discriminate).
  destruct (stack_durable "http://a" rc3 "rid" client2 Hrc client2_of
    mnt5 file5 entry5 [8; 9] 1) as (n & st & m1 & E & _ & _ & Hok).
  - exact table1_wf.
  - simpl. lia.
  - vm_compute; reflexivity.
  - vm_compute; reflexivity.
  - vm_compute; reflexivity.
  - vm_compute; reflexivity.
  - reflexivity.
  - apply (rwinv_init _ 4 10 (Some (open_chan [])) (Some (open_chan [])) 8 (MkNet (hc_sel client2) net5 []) 0); by right.
  - split; intros; reflexivity.
  - discriminate.
  - vm_compute; discriminate.
  - lia.
  - lia.
  - exists n, st, m1. split; [exact E|]. intros He. destruct (Hok He) as [-> Hc].
    split; [reflexivity|]. destruct (Hc (pending (caches m1))) as (c & m2 & E1 & E2 & _); [reflexivity|].
    exists c, m2. split; [exact E1|exact E2].
Defined.
End StackExample.
